(** * bayesfast.core.density: a shallow embedding and its verification

    The development follows [src/bayesfast/core/density.py]:
    the variable-transform layer of [_PipelineBase], the surrogate recipe
    and the stepwise evaluators of [Pipeline], and the decay state of
    [Density].

    Conventions of the embedding.
    - A Python call either returns or raises: [res A] is [Ok a] or
      [Raise e], with the exception classes the source can raise.
    - A float64 array is an [np.ndarray]: its shape and its entries in
      row-major order.  Entries are idealised as real numbers, so
      [np.log], [np.abs] and the arithmetic are the real functions.
    - Integers of Python are unbounded; the integers of a numpy array
      are [int64], numpy's default on the platforms the unit is run on,
      and their sums wrap around.  numpy is one that still has the
      aliases [np.int] and [np.float], which the unit uses.
    - Python dictionaries keyed by variable names are [gmap string _].
    - Code of other units (the compiled transform kernels, the bodies of
      a stage, [Module._var_check], numpy's sorting and statistics) enters
      as a field of a record of collaborators.  *)

From Stdlib Require Import Reals Lra Lia ZArith List Permutation Sorted.
From stdpp Require Import gmap strings list fin_maps pretty sorting.

Set Default Proof Using "Type".
Set Warnings "-register-all".

(* ===================================================================== *)
(** * Part I: the embedding *)
(* ===================================================================== *)

(** ** Python results and exceptions *)

Inductive exn : Type :=
| ValueError (msg : string)
| RuntimeError (msg : string)
| KeyError (key : string)
| IndexError
| TypeError
| AttributeError (attr : string)
| UnboundLocalError (var : string)
| AxisError
| LinAlgError
| ZeroDivisionError
| OverflowError.

Inductive res (A : Type) : Type :=
| Ok (a : A)
| Raise (e : exn).
Arguments Ok {A} a.
Arguments Raise {A} e.

#[global] Instance res_ret : MRet res := fun A a => Ok a.
#[global] Instance res_bind : MBind res := fun A B k r =>
  match r with
  | Ok a => k a
  | Raise e => Raise e
  end.

Definition is_raise {A : Type} (r : res A) : Prop :=
  match r with Raise _ => True | Ok _ => False end.

Definition is_ok {A : Type} (r : res A) : Prop :=
  match r with Ok _ => True | Raise _ => False end.

(** [[f(x) for x in xs]]: the first exception ends the comprehension. *)
Fixpoint comprehension {A B : Type} (f : A -> res B) (xs : list A)
  : res (list B) :=
  match xs with
  | [] => Ok []
  | x :: xs' => y ← f x; ys ← comprehension f xs'; Ok (y :: ys)
  end.

(** ** numpy arrays *)

Module np.

Record ndarray : Type := mk { shape : list nat; data : list R }.

Definition prod (s : list nat) : nat := foldr Nat.mul 1 s.

(** [a.size], [a.ndim] *)
Definition size (a : ndarray) : nat := prod (shape a).
Definition ndim (a : ndarray) : nat := length (shape a).

(** The entries fill the shape. *)
Definition wf (a : ndarray) : Prop := length (data a) = size a.

Definition map_entries (f : R -> R) (a : ndarray) : ndarray :=
  mk (shape a) (map f (data a)).

(** [x.copy()], [np.ones_like(x)], [np.zeros_like(x)] *)
Definition copy (x : ndarray) : ndarray := x.
Definition ones_like (x : ndarray) : ndarray := mk (shape x) (repeat 1%R (size x)).
Definition zeros_like (x : ndarray) : ndarray := mk (shape x) (repeat 0%R (size x)).

(** [np.ones((n, 2), np.uint8)] scaled by a Python bool *)
Definition bool_ones (b : bool) (n : nat) : ndarray :=
  mk [n; 2] (repeat (if b then 1%R else 0%R) (n * 2)).

(** [np.abs], [np.log], unary minus *)
Definition abs : ndarray -> ndarray := map_entries Rabs.
Definition log : ndarray -> ndarray := map_entries ln.
Definition neg : ndarray -> ndarray := map_entries Ropp.

(** [np.ascontiguousarray(x)]: the result has at least one dimension. *)
Definition ascontiguousarray (x : ndarray) : ndarray :=
  match shape x with
  | [] => mk [1] (data x)
  | _ => x
  end.

Definition Rsum (l : list R) : R := foldr Rplus 0%R l.

(** The [i]-th block of [sz] consecutive entries. *)
Definition chunk {A : Type} (sz i : nat) (d : list A) : list A :=
  take sz (drop (i * sz) d).

(** [np.sum(a, axis=-1)]; of an array without axes it is the entry. *)
Definition sum_last (a : ndarray) : res ndarray :=
  match reverse (shape a) with
  | [] => Ok (mk [] [Rsum (data a)])
  | n :: rs =>
      let s := reverse rs in
      Ok (mk s (map (fun i => Rsum (chunk n i (data a))) (seq 0 (prod s))))
  end.

(** Broadcasting of two shapes of equal length (the shorter one was
    padded on the left with ones). *)
Fixpoint broadcast_shapes (s1 s2 : list nat) : option (list nat) :=
  match s1, s2 with
  | [], [] => Some []
  | n1 :: s1', n2 :: s2' =>
      match broadcast_shapes s1' s2' with
      | None => None
      | Some s =>
          if n1 =? n2 then Some (n1 :: s)
          else if n1 =? 1 then Some (n2 :: s)
          else if n2 =? 1 then Some (n1 :: s)
          else None
      end
  | _, _ => None
  end.

Definition pad_shape (r : nat) (s : list nat) : list nat :=
  repeat 1 (r - length s) ++ s.

(** The entries of a broadcast binary operation, axis by axis: an axis of
    length one is read again for every index of the other operand.  The
    entries of the operands are floats, or the cells of an array of
    objects; [a0] and [b0] stand where an operand has no entry. *)
Fixpoint broadcast_data {A B C : Type} (f : A -> B -> C) (a0 : A) (b0 : B)
    (s1 s2 : list nat) (d1 : list A) (d2 : list B) : list C :=
  match s1, s2 with
  | n1 :: s1', n2 :: s2' =>
      let n := if n1 =? 1 then n2 else n1 in
      flat_map
        (fun i =>
           broadcast_data f a0 b0 s1' s2'
             (chunk (prod s1') (if n1 =? 1 then 0 else i) d1)
             (chunk (prod s2') (if n2 =? 1 then 0 else i) d2))
        (seq 0 n)
  | _, _ => [f (hd a0 d1) (hd b0 d2)]
  end.

Definition binop (f : R -> R -> R) (a b : ndarray) : res ndarray :=
  let r := Nat.max (ndim a) (ndim b) in
  let s1 := pad_shape r (shape a) in
  let s2 := pad_shape r (shape b) in
  match broadcast_shapes s1 s2 with
  | None => Raise (ValueError "operands could not be broadcast together")
  | Some s => Ok (mk s (broadcast_data f 0%R 0%R s1 s2 (data a) (data b)))
  end.

Definition add : ndarray -> ndarray -> res ndarray := binop Rplus.
Definition sub : ndarray -> ndarray -> res ndarray := binop Rminus.

(** Column [j] of a matrix of [d] columns and [n] rows. *)
Definition column (d n j : nat) (data : list R) : list R :=
  map (fun i => nth (i * d + j) data 0%R) (seq 0 n).

(** [np.eye(n)] and [np.diag(v)] for a vector [v] *)
Definition eye (n : nat) : ndarray :=
  mk [n; n]
     (flat_map (fun i => map (fun j => if i =? j then 1%R else 0%R) (seq 0 n))
               (seq 0 n)).

Definition diag (v : ndarray) : res ndarray :=
  match shape v with
  | [n] =>
      Ok (mk [n; n]
            (flat_map (fun i => map (fun j => if i =? j then nth i (data v) 0%R
                                              else 0%R) (seq 0 n))
                      (seq 0 n)))
  | _ => Raise (ValueError "Input must be 1- or 2-d.")
  end.

(** [a[lo:hi]] along the first axis for Python integers: an index
    below zero counts from the end, and an index beyond an end is moved
    to that end. *)
Definition slice_index (n : nat) (i : Z) : nat :=
  if (i <? 0)%Z then Z.to_nat (Z.max 0 (i + Z.of_nat n))
  else Nat.min (Z.to_nat i) n.

Definition slice (a : ndarray) (lo hi : Z) : res ndarray :=
  match shape a with
  | [] => Raise IndexError
  | n :: s =>
      let lo' := slice_index n lo in
      let hi' := slice_index n hi in
      let count := hi' - lo' in
      Ok (mk (count :: s) (take (count * prod s) (drop (lo' * prod s) (data a))))
  end.

(** [np.concatenate(arrays, axis=0)] *)
Definition concatenate (arrays : list ndarray) : res ndarray :=
  match arrays with
  | [] => Raise (ValueError "need at least one array to concatenate")
  | a :: rest =>
      match shape a with
      | [] => Raise (ValueError "zero-dimensional arrays cannot be concatenated")
      | n :: s =>
          if forallb (fun b => match shape b with
                               | [] => false
                               | _ :: s' => bool_decide (s' = s)
                               end) rest
          then Ok (mk (list_sum (map (fun b => hd 0 (shape b)) arrays) :: s)
                      (flat_map data arrays))
          else Raise (ValueError
                 "all the input array dimensions except for the concatenation axis must match exactly")
      end
  end.

(** The inner product of two rows. *)
Definition inner (u v : list R) : R := Rsum (zip_with Rmult u v).

(** [np.dot(a, b)].  A scalar operand multiplies the other one; a vector
    [b] is summed against the last axis of [a]; otherwise the last axis
    of [a] is summed against the last but one axis of [b]. *)
Definition dot (a b : ndarray) : res ndarray :=
  match reverse (shape a), reverse (shape b) with
  | [], _ => binop Rmult a b
  | _, [] => binop Rmult a b
  | k :: rsa, [k'] =>
      if negb (k =? k') then Raise (ValueError "shapes not aligned")
      else
        let sa := reverse rsa in
        Ok (mk sa (map (fun i => inner (chunk k i (data a)) (data b))
                       (seq 0 (prod sa))))
  | k :: rsa, m :: k' :: rsb =>
      if negb (k =? k') then Raise (ValueError "shapes not aligned")
      else
        let sa := reverse rsa in
        let sb := reverse rsb in
        Ok (mk (sa ++ sb ++ [m])
              (flat_map
                 (fun i =>
                    flat_map
                      (fun p =>
                         map (fun j =>
                                inner (chunk k i (data a))
                                      (column m k j (chunk (k * m) p (data b))))
                             (seq 0 m))
                      (seq 0 (prod sb)))
                 (seq 0 (prod sa))))
  end.

(** [target[...] = v] for a float target of shape [target]: [v] is
    broadcast to that shape; leading axes of length one that [v] has in
    excess are dropped first. *)
Fixpoint strip_ones (excess : nat) (s : list nat) : list nat :=
  match excess, s with
  | S excess', 1 :: s' => strip_ones excess' s'
  | _, _ => s
  end.

Definition assign_into (target : list nat) (v : ndarray) : res (list R) :=
  let sv := strip_ones (length (shape v) - length target) (shape v) in
  if length target <? length sv
  then Raise (ValueError "could not broadcast input array")
  else
    let sv' := pad_shape (length target) sv in
    match broadcast_shapes target sv' with
    | Some s =>
        if bool_decide (s = target)
        then Ok (broadcast_data (fun _ y => y) 0%R 0%R target sv'
                   (repeat 0%R (prod target)) (data v))
        else Raise (ValueError "could not broadcast input array")
    | None => Raise (ValueError "could not broadcast input array")
    end.

(** [a[..., 0]]: the first entry along the last axis. *)
Definition first_of_last (a : ndarray) : res ndarray :=
  match reverse (shape a) with
  | [] => Raise IndexError
  | m :: rs =>
      if m =? 0 then Raise IndexError
      else
        let s := reverse rs in
        Ok (mk s (map (fun i => nth (i * m) (data a) 0%R) (seq 0 (prod s))))
  end.

(** [a[..., 0, :]]: the first row along the last but one axis. *)
Definition first_row (a : ndarray) : res ndarray :=
  match reverse (shape a) with
  | n :: m :: rs =>
      if m =? 0 then Raise IndexError
      else
        let s := reverse rs in
        Ok (mk (s ++ [n])
              (flat_map (fun i => take n (drop (i * (m * n)) (data a)))
                        (seq 0 (prod s))))
  | _ => Raise IndexError
  end.

(** [a[..., np.newaxis]] *)
Definition newaxis (a : ndarray) : ndarray := mk (shape a ++ [1]) (data a).

(** Two axes under one subscript of an [einsum]: equal lengths, or one
    of them of length one, which is then read again for every index. *)
Definition common_length (a b : nat) : option nat :=
  if a =? b then Some a
  else if a =? 1 then Some b
  else if b =? 1 then Some a
  else None.

Definition at_axis (len i : nat) : nat := if len =? 1 then 0 else i.

(** [np.einsum('...i,ij,...j', v, H, v)], the quadratic form of each
    row of [v] *)
Definition quadratic_form (v H : ndarray) : res ndarray :=
  match reverse (shape v), shape H with
  | d :: rs, [d1; d2] =>
      match common_length d d1, common_length d2 d with
      | Some ni, Some nj =>
          let s := reverse rs in
          Ok (mk s
                (map (fun r =>
                        let row := chunk d r (data v) in
                        Rsum (map (fun i =>
                               Rsum (map (fun j =>
                                      (nth (at_axis d i) row 0%R
                                       * nth (at_axis d1 i * d2 + at_axis d2 j)
                                             (data H) 0%R
                                       * nth (at_axis d j) row 0%R)%R)
                                    (seq 0 nj)))
                             (seq 0 ni)))
                     (seq 0 (prod s))))
      | _, _ => Raise (ValueError "operands could not be broadcast together")
      end
  | _, _ => Raise (ValueError "einstein sum subscripts do not match the operands")
  end.

(** [a op= b]: the result has to keep the shape of [a]. *)
Definition in_place (f : R -> R -> R) (a b : ndarray) : res ndarray :=
  match binop f a b with
  | Raise e => Raise e
  | Ok r =>
      if bool_decide (shape r = shape a) then Ok r
      else Raise (ValueError "non-broadcastable output operand")
  end.

(** [np.clip(a, 0, np.inf)], [c * a], [a > c] and [a ** 0.5] *)
Definition clip_at_zero : ndarray -> ndarray := map_entries (Rmax 0).
Definition scale (c : R) : ndarray -> ndarray := map_entries (Rmult c).
Definition greater (c : R) : ndarray -> ndarray :=
  map_entries (fun v => if Rlt_dec c v then 1%R else 0%R).
Definition sqrt : ndarray -> ndarray := map_entries R_sqrt.sqrt.

(** [np.atleast_1d] on a shape *)
Definition atleast_1d (s : list nat) : list nat :=
  match s with [] => [1] | _ => s end.

End np.

Abbreviation ndarray := np.ndarray.

(** ** [_PipelineBase]: the variable-transform layer *)

(** The compiled kernels of [transforms._constraint].  A kernel reads [x],
    the scales and the bounds and fills [out]; the embedding returns the
    entries it leaves in [out].  [kernel1] is called as
    [f(x, var_scales, out, _hb, n)] and [kernel2] as
    [f2(x, var_scales, out, _hb, n, m)]. *)
Definition kernel1 : Type := list R -> ndarray -> ndarray -> nat -> list R.
Definition kernel2 : Type := list R -> ndarray -> ndarray -> nat -> nat -> list R.

Record constraint_kernels : Type := {
  _from_original_f : kernel1;  _from_original_f2 : kernel2;
  _from_original_j : kernel1;  _from_original_j2 : kernel2;
  _from_original_jj : kernel1; _from_original_jj2 : kernel2;
  _to_original_f : kernel1;    _to_original_f2 : kernel2;
  _to_original_j : kernel1;    _to_original_j2 : kernel2;
  _to_original_jj : kernel1;   _to_original_jj2 : kernel2
}.

(** [self._var_scales] is [None] or an array; [self._hard_bounds] is a
    [bool] or an array. *)
Record PipelineBase : Type := {
  _var_scales : option ndarray;
  _hard_bounds : bool + ndarray
}.

(** The argument [out]: [False], [True], an array, or anything else. *)
Inductive out_arg : Type :=
| out_False
| out_True
| out_array (o : ndarray)
| out_other.

(** What a call of [_constraint] returns ([None] or an array) and what the
    kernel left in the buffer it wrote to, if a kernel ran. *)
Record constraint_result : Type := {
  returned : option ndarray;
  written : option ndarray
}.

Definition _constraint (self : PipelineBase) (x : ndarray) (out : out_arg)
    (f : kernel1) (f2 : kernel2) (k : Z) : res constraint_result :=
  match _var_scales self with
  | None =>
      _out ← (if (k =? 0)%Z then Ok (np.copy x)
              else if (k =? 1)%Z then Ok (np.ones_like x)
              else if (k =? 2)%Z then Ok (np.zeros_like x)
              else Raise (RuntimeError "unexpected value for k."));
      match out with
      | out_False => Ok {| returned := None; written := None |}
      | out_True => Ok {| returned := Some _out; written := None |}
      | out_array o =>
          if decide (np.shape x = np.shape o)
          then Ok {| returned := None; written := None |}
          else Raise (ValueError "invalid value for out.")
      | out_other => Raise (ValueError "invalid value for out.")
      end
  | Some scales =>
      let x := np.ascontiguousarray x in
      _return ← match out with
                | out_False => Ok false
                | out_True => Ok true
                | out_array o =>
                    if decide (np.shape x = np.shape o) then Ok false
                    else Raise (ValueError "invalid value for out.")
                | out_other => Raise (ValueError "invalid value for out.")
                end;
      _hb ← match _hard_bounds self with
            | inl b =>
                match last (np.shape x) with
                | Some n => Ok (np.bool_ones b n)
                | None => Raise IndexError
                end
            | inr hb => Ok hb
            end;
      filled ← match np.shape x with
               | [n] => Ok (f (np.data x) scales _hb n)
               | [m; n] => Ok (f2 (np.data x) scales _hb n m)
               | _shape =>
                   match last _shape with
                   | None => Raise IndexError
                   | Some n =>
                       if n =? 0
                       then Raise (ValueError "cannot reshape array of size 0")
                       else Ok (f2 (np.data x) scales _hb n (np.size x / n))
                   end
               end;
      let out := np.mk (np.shape x) filled in
      Ok {| returned := if _return : bool then Some out else None;
            written := Some out |}
  end.

Section transform_layer.
Context (K : constraint_kernels).

Definition from_original (self : PipelineBase) (x : ndarray) (out : out_arg) :=
  _constraint self x out (_from_original_f K) (_from_original_f2 K) 0.

Definition from_original_grad (self : PipelineBase) (x : ndarray) (out : out_arg) :=
  _constraint self x out (_from_original_j K) (_from_original_j2 K) 1.

Definition from_original_grad2 (self : PipelineBase) (x : ndarray) (out : out_arg) :=
  _constraint self x out (_from_original_jj K) (_from_original_jj2 K) 2.

Definition to_original (self : PipelineBase) (x : ndarray) (out : out_arg) :=
  _constraint self x out (_to_original_f K) (_to_original_f2 K) 0.

Definition to_original_grad (self : PipelineBase) (x : ndarray) (out : out_arg) :=
  _constraint self x out (_to_original_j K) (_to_original_j2 K) 1.

Definition to_original_grad2 (self : PipelineBase) (x : ndarray) (out : out_arg) :=
  _constraint self x out (_to_original_jj K) (_to_original_jj2 K) 2.

(** A numpy function applied to what a call returned: [None] is not an
    array. *)
Definition as_array (r : constraint_result) : res ndarray :=
  match returned r with
  | Some a => Ok a
  | None => Raise TypeError
  end.

(** [_get_diff(x=None, x_trans=None)] *)
Definition _get_diff (self : PipelineBase) (x x_trans : option ndarray)
  : res ndarray :=
  match x with
  | Some x =>
      g ← from_original_grad self x out_True;
      g ← as_array g;
      s ← np.sum_last (np.log (np.abs g));
      Ok (np.neg s)
  | None =>
      match x_trans with
      | Some x_trans =>
          g ← to_original_grad self x_trans out_True;
          g ← as_array g;
          np.sum_last (np.log (np.abs g))
      | None => Raise (ValueError "x and x_trans cannot both be None.")
      end
  end.

(** [to_original_density(density, x_trans=None, x=None)] *)
Definition to_original_density (self : PipelineBase) (density : ndarray)
    (x_trans x : option ndarray) : res ndarray :=
  diff ← _get_diff self x x_trans;
  if negb (np.size density =? np.size diff)
  then Raise (ValueError
         "the shape of density is inconsistent with the shape of x_trans or x.")
  else np.sub density diff.

(** [from_original_density(density, x=None, x_trans=None)] *)
Definition from_original_density (self : PipelineBase) (density : ndarray)
    (x x_trans : option ndarray) : res ndarray :=
  diff ← _get_diff self x x_trans;
  if negb (np.size density =? np.size diff)
  then Raise (ValueError
         "the shape of density is inconsistent with the shape of x or x_trans.")
  else np.add density diff.

End transform_layer.

(** ** Stages, surrogates and the variable store *)

(** What the pipeline reads of a [Module] of [core/module.py]: the names
    it declares and its two entry points, which may raise. *)
Module Mod.
Record t : Type := {
  _input_vars : list string;
  _output_vars : list string;
  _copy_vars : list string;
  _paste_vars : list string;
  _delete_vars : list string;
  fun_ : list ndarray -> res (list ndarray);
  fun_and_jac : list ndarray -> res (list ndarray * list ndarray)
}.
End Mod.

(** What [np.array] makes of a list of arrays: an array of floats, or an
    array of objects with the arrays as its cells. *)
Inductive stacked : Type :=
| of_floats (a : ndarray)
| of_objects (shape : list nat) (cells : list ndarray).

(** A [Surrogate] is a stage with a scope [(start, extent)]; the fit
    of [Density] reads its scales, as the pair of [_var_scales[:, 0]]
    and [_var_scales_diff], and calls its [fit(x, y, logp=..)], of which
    only the end is kept. *)
Record Surrogate : Type := {
  stage : Mod.t;
  _scope : Z * Z;
  scales : option (ndarray * ndarray);
  fit_ : stacked -> stacked -> stacked -> res unit
}.

(** [VariableDict]: the values and the Jacobians by name. *)
Record VariableDict : Type := {
  _fun : gmap string ndarray;
  _jac : gmap string ndarray
}.

(** A row [(index, start, extent)] of [_surrogate_recipe]. *)
Record recipe_row : Type := {
  r_index : Z;
  r_start : Z;
  r_extent : Z
}.

#[global] Instance recipe_row_eq_dec : EqDecision recipe_row.
Proof. solve_decision. Defined.

Record Pipeline : Type := {
  base : PipelineBase;
  _module_list : list Mod.t;
  _surrogate_list : list Surrogate;
  _surrogate_recipe : list recipe_row;
  _input_vars : list string;
  _input_cum : option (list Z)
}.

Definition n_module (self : Pipeline) : nat := length (_module_list self).
Definition n_surrogate (self : Pipeline) : nat := length (_surrogate_list self).
Definition has_surrogate (self : Pipeline) : bool := 0 <? n_surrogate self.

(** ** numpy and [Module] routines the unit calls *)

(** [argsort] returns the indices that sort its argument; [mean0] is
    [np.mean(_, axis=0)], [cov] is [np.cov(_, rowvar=False)],
    [inv] is [np.linalg.inv], [percentile] and [amax] are
    [np.percentile] and [np.max]; [_var_check] is
    [Module._var_check(names, 'extract', False, 'remove')]. *)
Record library : Type := {
  argsort : list Z -> list nat;
  mean0 : ndarray -> res ndarray;
  cov : ndarray -> res ndarray;
  inv : ndarray -> res ndarray;
  percentile : ndarray -> R -> res R;
  amax : ndarray -> res R;
  _var_check : list string -> res (list string)
}.

(** What numpy promises of [argsort]: a permutation of the positions that
    lists the keys in ascending order.  The order among equal keys is
    left open. *)
Definition argsort_sorts (f : list Z -> list nat) : Prop :=
  forall keys : list Z,
    f keys ≡ₚ seq 0 (length keys) /\
    Sorted Z.le (map (fun i => nth i keys 0%Z) (f keys)).

(** ** 64-bit integers

    The recipe and the cumulated dimensions are numpy arrays of
    [int64]: sums of their entries are computed in 64 bits and wrap
    around. *)
Definition wrap64 (z : Z) : Z := ((z + 2 ^ 63) mod 2 ^ 64 - 2 ^ 63)%Z.

Definition is_int64 (z : Z) : Prop := (- 2 ^ 63 <= z < 2 ^ 63)%Z.

(** ** The surrogate recipe *)

(** The remainder of numpy integers: a zero divisor gives zero (and a
    warning), a positive divisor a result in [[0, n)]. *)
Definition np_mod (a : Z) (n : nat) : Z :=
  if n =? 0 then 0%Z else (a mod Z.of_nat n)%Z.

(** [[[i, *s._scope] for i, s in enumerate(sl)]], as the array of
    [int64] that [np.array] makes of scopes that fit 64 bits. *)
Definition tag_scopes (sl : list Surrogate) : list recipe_row :=
  imap (fun i s => {| r_index := Z.of_nat i;
                      r_start := fst (_scope s);
                      r_extent := snd (_scope s) |}) sl.

(** [a[order]]: indexing by an array of positions. *)
Definition take_rows {A : Type} (a : list A) (order : list nat) : res (list A) :=
  comprehension
    (fun i => match a !! i with Some r => Ok r | None => Raise IndexError end)
    order.

(** The scan of adjacent rows, from row number [i]; [np.sum] of the
    start and the extent of a row is a sum of [int64]. *)
Fixpoint check_overlap (i : nat) (rows : list recipe_row) : res unit :=
  match rows with
  | r1 :: ((r2 :: _) as rest) =>
      if (wrap64 (r_start r1 + r_extent r1) >? r_start r2)%Z
      then Raise (ValueError
             ("the #" +:+ pretty i +:+
              " surrogate model overlaps with the next one."))
      else check_overlap (S i) rest
  | _ => Ok tt
  end.

Definition set_recipe (self : Pipeline) (recipe : list recipe_row) : Pipeline :=
  {| base := base self;
     _module_list := _module_list self;
     _surrogate_list := _surrogate_list self;
     _surrogate_recipe := recipe;
     _input_vars := _input_vars self;
     _input_cum := _input_cum self |}.

(** [_build_surrogate_recipe]: the pipeline after the call and whether
    the call returned or raised.  The recipe is assigned before the scan,
    so it stays assigned when the scan raises. *)
Definition _build_surrogate_recipe (L : library) (self : Pipeline)
    (sl : list Surrogate) : Pipeline * res unit :=
  let ns := length sl in
  if 0 <? ns then
    let recipe := tag_scopes sl in
    let _recipe_sort :=
      argsort L (map (fun r => np_mod (r_start r) (n_module self)) recipe) in
    match take_rows recipe _recipe_sort with
    | Raise e => (set_recipe self recipe, Raise e)
    | Ok sorted => (set_recipe self sorted, check_overlap 0 sorted)
    end
  else (set_recipe self [], Ok tt).

(** An element of the list given to the setter. *)
Inductive element : Type :=
| a_Surrogate (s : Surrogate)
| not_a_Surrogate.

(** The scan of [_sl_check] for an element that is not a [Surrogate]. *)
Fixpoint all_surrogates (i : nat) (sl : list element) : res (list Surrogate) :=
  match sl with
  | [] => Ok []
  | a_Surrogate s :: sl' => ss ← all_surrogates (S i) sl'; Ok (s :: ss)
  | not_a_Surrogate :: _ =>
      Raise (ValueError
        ("element #" +:+ pretty i +:+ " of surrogate_list is not a Surrogate"))
  end.

Definition _sl_check (L : library) (self : Pipeline) (sl : list element)
  : Pipeline * res (list Surrogate) :=
  match all_surrogates 0 sl with
  | Raise e => (self, Raise e)
  | Ok ss =>
      let '(self', r) := _build_surrogate_recipe L self ss in
      (self', _ ← r; Ok ss)
  end.

Definition assign_surrogate_list (self : Pipeline) (ss : list Surrogate)
  : Pipeline :=
  {| base := base self;
     _module_list := _module_list self;
     _surrogate_list := ss;
     _surrogate_recipe := _surrogate_recipe self;
     _input_vars := _input_vars self;
     _input_cum := _input_cum self |}.

(** The argument of the setter: one [Surrogate] or a list. *)
Inductive surrogate_arg : Type :=
| one_Surrogate (s : Surrogate)
| a_list (sl : list element).

(** The setter [surrogate_list].  [PropertyList(sl, check)] of
    [utils/collections.py] runs [check] on [sl] when it is built, so the
    attribute is assigned only if the check returns. *)
Definition set_surrogate_list (L : library) (self : Pipeline)
    (sl : surrogate_arg) : Pipeline * res unit :=
  let sl := match sl with
            | one_Surrogate s => [a_Surrogate s]
            | a_list l => l
            end in
  match _sl_check L self sl with
  | (self', Raise e) => (self', Raise e)
  | (self', Ok ss) => (assign_surrogate_list self' ss, Ok tt)
  end.

(** Two scopes share no step. *)
Definition scope_disjoint (a b : Z * Z) : Prop :=
  (fst a + snd a <= fst b)%Z \/ (fst b + snd b <= fst a)%Z.

(** No two scopes of the list share a step. *)
Definition pairwise_disjoint (sl : list Surrogate) : Prop :=
  ForallOrdPairs scope_disjoint (map _scope sl).

(** A scope whose start and extent fit 64 bits. *)
Definition int64_scope (s : Surrogate) : Prop :=
  is_int64 (fst (_scope s)) /\ is_int64 (snd (_scope s)).

(** A scope that starts at a step of a pipeline of [n] modules,
    replaces at least one step and ends within 64 bits. *)
Definition scope_in_range (n : nat) (s : Surrogate) : Prop :=
  (0 <= fst (_scope s) < Z.of_nat n)%Z /\ (0 < snd (_scope s))%Z /\
  (fst (_scope s) + snd (_scope s) < 2 ^ 63)%Z.

(** The condition the scan tests on two adjacent rows, and the
    condition that the first row ends before the second begins. *)
Definition no_overlap (r1 r2 : recipe_row) : Prop :=
  (wrap64 (r_start r1 + r_extent r1) <= r_start r2)%Z.

Definition ends_before (r1 r2 : recipe_row) : Prop :=
  (r_start r1 + r_extent r1 <= r_start r2)%Z.

(** The order of the rows after sorting. *)
Definition key_le (n : nat) (r1 r2 : recipe_row) : Prop :=
  (np_mod (r_start r1) n <= np_mod (r_start r2) n)%Z.

(** An [argsort] that keeps equal keys in their given order. *)
Definition by_key (a b : nat * Z) : Prop := (snd a <= snd b)%Z.

#[global] Instance by_key_dec : RelDecision by_key.
Proof. intros a b. unfold by_key. apply _. Defined.

Definition stable_argsort (keys : list Z) : list nat :=
  map fst (merge_sort by_key (imap (fun i k => (i, k)) keys)).

(** ** The stepwise evaluators

    A run works on one [VariableDict], which it changes in place, and it
    ends by returning, by raising, or not at all within the steps it was
    given: [Run A] maps the store before to the store after and the
    result, or to [None]. *)

Definition Run (A : Type) : Type := VariableDict -> option (VariableDict * res A).

#[global] Instance Run_ret : MRet Run := fun A a vd => Some (vd, Ok a).
#[global] Instance Run_bind : MBind Run := fun A B k m vd =>
  match m vd with
  | None => None
  | Some (vd', Ok a) => k a vd'
  | Some (vd', Raise e) => Some (vd', Raise e)
  end.

Definition raise {A : Type} (e : exn) : Run A := fun vd => Some (vd, Raise e).
Definition lift {A : Type} (r : res A) : Run A := fun vd => Some (vd, r).
Definition unfinished {A : Type} : Run A := fun _ => None.

(** [var_dict._fun[n]], [var_dict._jac[n]] *)
Definition get_fun (n : string) : Run ndarray := fun vd =>
  Some (vd, match _fun vd !! n with Some v => Ok v | None => Raise (KeyError n) end).
Definition get_jac (n : string) : Run ndarray := fun vd =>
  Some (vd, match _jac vd !! n with Some v => Ok v | None => Raise (KeyError n) end).

(** [var_dict._fun[n] = v], [var_dict._jac[n] = v] *)
Definition set_fun (n : string) (v : ndarray) : Run unit := fun vd =>
  Some ({| _fun := <[n := v]> (_fun vd); _jac := _jac vd |}, Ok tt).
Definition set_jac (n : string) (v : ndarray) : Run unit := fun vd =>
  Some ({| _fun := _fun vd; _jac := <[n := v]> (_jac vd) |}, Ok tt).

(** [del var_dict._fun[n]], [del var_dict._jac[n]] *)
Definition del_fun (n : string) : Run unit := fun vd =>
  match _fun vd !! n with
  | Some _ => Some ({| _fun := delete n (_fun vd); _jac := _jac vd |}, Ok tt)
  | None => Some (vd, Raise (KeyError n))
  end.
Definition del_jac (n : string) : Run unit := fun vd =>
  match _jac vd !! n with
  | Some _ => Some ({| _fun := _fun vd; _jac := delete n (_jac vd) |}, Ok tt)
  | None => Some (vd, Raise (KeyError n))
  end.

(** [[body(n) for n in names]] *)
Fixpoint collect {A : Type} (body : string -> Run A) (names : list string)
  : Run (list A) :=
  match names with
  | [] => mret []
  | n :: names' => v ← body n; vs ← collect body names'; mret (v :: vs)
  end.

(** [for j, n in enumerate(names): body(j, n)], counting from [j] *)
Fixpoint for_enumerate (body : nat -> string -> Run unit) (j : nat)
    (names : list string) : Run unit :=
  match names with
  | [] => mret tt
  | n :: names' => _ ← body j n; for_enumerate body (S j) names'
  end.

(** [seq[i]] for a Python list and a Python integer. *)
Definition py_index {A : Type} (l : list A) (i : Z) : res A :=
  let n := Z.of_nat (length l) in
  let i' := if (i <? 0)%Z then (i + n)%Z else i in
  if ((0 <=? i') && (i' <? n))%Z
  then match l !! Z.to_nat i' with Some a => Ok a | None => Raise IndexError end
  else Raise IndexError.

(** The stride [di] of a step: the Python [int] 1 after a module, the
    [int64] that the recipe holds after a surrogate.  [i += di] with an
    [int64] is computed in 64 bits and wraps around; with 1 it stays
    within 64 bits, as [i] is then an index of the module list. *)
Inductive stride : Type :=
| py_int (d : Z)
| np_int64 (d : Z).

Definition add_stride (i : Z) (di : stride) : Z :=
  match di with
  | py_int d => (i + d)%Z
  | np_int64 d => wrap64 (i + d)
  end.

(** The choice of the stage of step [i]: the stage, the stride [di], and
    the new values of [use_surrogate] and [si]. *)
Definition select_stage (self : Pipeline) (use_surrogate : bool) (si : nat)
    (i : Z) : res (Mod.t * stride * bool * nat) :=
  if use_surrogate && has_surrogate self then
    row ← match _surrogate_recipe self !! si with
          | Some row => Ok row
          | None => Raise IndexError
          end;
    if (i <? r_start row)%Z then
      _module ← py_index (_module_list self) i;
      Ok (_module, py_int 1, use_surrogate, si)
    else if (i =? r_start row)%Z then
      s ← py_index (_surrogate_list self) (r_index row);
      let di := np_int64 (r_extent row) in
      if (Z.of_nat si =? Z.of_nat (n_surrogate self) - 1)%Z
      then Ok (stage s, di, false, si)
      else Ok (stage s, di, use_surrogate, S si)
    else Raise (RuntimeError "unexpected value for i and si.")
  else
    _module ← py_index (_module_list self) i;
    Ok (_module, py_int 1, use_surrogate, si).

(** The name [n-Copy<k>]. *)
Definition copy_name (n : string) (k : nat) : string :=
  n +:+ "-Copy" +:+ pretty k.

(** The search [k = 1; while True: ...] for a name that is not bound,
    from [k] on and for at most [steps] names. *)
Fixpoint first_free (bound : string -> bool) (n : string) (steps k : nat)
  : option string :=
  match steps with
  | 0 => None
  | S steps' =>
      let nn := copy_name n k in
      if bound nn then first_free bound n steps' (S k) else Some nn
  end.

Definition bound_in (m : gmap string ndarray) (nn : string) : bool :=
  bool_decide (is_Some (m !! nn)).

(** The name given to the copy number [j]: [_paste_vars[j]] if there is
    one, else the first free name. *)
Definition paste_name_fun (_module : Mod.t) (j : nat) (n : string) : Run string :=
  fun vd =>
    match Mod._paste_vars _module !! j with
    | Some nn => Some (vd, Ok nn)
    | None =>
        match first_free (bound_in (_fun vd)) n (S (size (_fun vd))) 1 with
        | Some nn => Some (vd, Ok nn)
        | None => None
        end
    end.

Definition paste_name_jac (_module : Mod.t) (j : nat) (n : string) : Run string :=
  fun vd =>
    match Mod._paste_vars _module !! j with
    | Some nn => Some (vd, Ok nn)
    | None =>
        match first_free (fun nn => bound_in (_fun vd) nn || bound_in (_jac vd) nn)
                n (S (size (_fun vd) + size (_jac vd))) 1 with
        | Some nn => Some (vd, Ok nn)
        | None => None
        end
    end.

(** *** Value mode: the body of a step of [Pipeline.fun] *)

Definition bind_outputs_fun (_module : Mod.t) (_output : list ndarray) : Run unit :=
  for_enumerate
    (fun j n =>
       v ← lift (match _output !! j with Some v => Ok v | None => Raise IndexError end);
       set_fun n v)
    0 (Mod._output_vars _module).

Definition copy_vars_fun (_module : Mod.t) : Run unit :=
  for_enumerate
    (fun j n =>
       nn ← paste_name_fun _module j n;
       v ← get_fun n;
       set_fun nn (np.copy v))
    0 (Mod._copy_vars _module).

Definition delete_vars_fun (_module : Mod.t) : Run unit :=
  for_enumerate (fun _ n => del_fun n) 0 (Mod._delete_vars _module).

Definition step_fun (self : Pipeline) (use_surrogate : bool) (si : nat) (i : Z)
  : Run (stride * bool * nat) :=
  sel ← lift (select_stage self use_surrogate si i);
  let '(_module, di, use_surrogate', si') := sel in
  _input ← collect get_fun (Mod._input_vars _module);
  _output ← lift (Mod.fun_ _module _input);
  _ ← bind_outputs_fun _module _output;
  _ ← copy_vars_fun _module;
  _ ← delete_vars_fun _module;
  mret (di, use_surrogate', si').

(** *** Jacobian mode: the body of a step of [Pipeline.fun_and_jac] *)

Definition bind_outputs_jac (_module : Mod.t) (_output _output_jac : list ndarray)
    (_input_jac : ndarray) : Run unit :=
  for_enumerate
    (fun j n =>
       v ← lift (match _output !! j with Some v => Ok v | None => Raise IndexError end);
       _ ← set_fun n v;
       lj ← lift (match _output_jac !! j with
                  | Some lj => Ok lj
                  | None => Raise IndexError
                  end);
       aj ← lift (np.dot lj _input_jac);
       set_jac n aj)
    0 (Mod._output_vars _module).

Definition copy_vars_jac (_module : Mod.t) : Run unit :=
  for_enumerate
    (fun j n =>
       nn ← paste_name_jac _module j n;
       v ← get_fun n;
       vj ← get_jac n;
       _ ← set_fun nn (np.copy v);
       set_jac nn (np.copy vj))
    0 (Mod._copy_vars _module).

Definition delete_vars_jac (_module : Mod.t) : Run unit :=
  for_enumerate (fun _ n => _ ← del_fun n; del_jac n) 0 (Mod._delete_vars _module).

Definition step_jac (self : Pipeline) (use_surrogate : bool) (si : nat) (i : Z)
  : Run (stride * bool * nat) :=
  sel ← lift (select_stage self use_surrogate si i);
  let '(_module, di, use_surrogate', si') := sel in
  _input ← collect get_fun (Mod._input_vars _module);
  jacs ← collect get_jac (Mod._input_vars _module);
  _input_jac ← lift (np.concatenate jacs);
  out ← lift (Mod.fun_and_jac _module _input);
  let '(_output, _output_jac) := out in
  _ ← bind_outputs_jac _module _output _output_jac _input_jac;
  _ ← copy_vars_jac _module;
  _ ← delete_vars_jac _module;
  mret (di, use_surrogate', si').

(** *** The loop [while i <= stop] *)

(** [try: body except: raise RuntimeError(message)] *)
Definition try_except {A : Type} (body : Run A) (message : string) : Run A :=
  fun vd =>
    match body vd with
    | Some (vd', Raise _) => Some (vd', Raise (RuntimeError message))
    | r => r
    end.

Definition fun_failed (i : Z) : string :=
  "pipeline fun evaluation failed at step #" +:+ pretty i +:+ ".".

Definition fun_and_jac_failed (i : Z) : string :=
  "pipeline fun_and_jac evaluation failed at step #" +:+ pretty i +:+ ".".

Fixpoint while_steps (step : bool -> nat -> Z -> Run (stride * bool * nat))
    (failed : Z -> string) (steps : nat) (stop : Z)
    (use_surrogate : bool) (si : nat) (i : Z) : Run unit :=
  if (i <=? stop)%Z then
    match steps with
    | 0 => unfinished
    | S steps' =>
        r ← try_except (step use_surrogate si i) (failed i);
        let '(di, use_surrogate', si') := r in
        while_steps step failed steps' stop use_surrogate' si' (add_stride i di)
    end
  else mret tt.

(** No run takes more steps than this: a stage is a module of the list,
    read at an index from [-n_module] on, or one of the surrogates, each
    of which is used once. *)
Definition enough_steps (self : Pipeline) : nat :=
  (n_surrogate self + 1) * (2 * n_module self + 2).

(** *** Options, inputs and results *)

(** [start] and [stop]: [None], an [int], or something [int()] refuses
    (given by its text). *)
Inductive step_arg : Type :=
| step_None
| step_int (z : Z)
| step_other (text : string).

(** [extract_vars]: [None], a [str], or a list of names. *)
Inductive extract_arg : Type :=
| extract_None
| extract_str (name : string)
| extract_names (names : list string).

Record options : Type := {
  use_surrogate : bool;
  original_space : bool;
  start : step_arg;
  stop : step_arg;
  extract_vars : extract_arg;
  copy_x : bool
}.

(** The argument [x]: a [VariableDict]; or what [np.atleast_1d] makes a
    float array; or an object array, given by its shape and its elements
    in row-major order; or an array of another kind. *)
Inductive input : Type :=
| in_store (vd : VariableDict)
| in_floats (a : ndarray)
| in_objects (shape : list nat) (elems : list input)
| in_other (shape : list nat).

(** What an evaluation returns: the store, a value, a pair of a value
    and a Jacobian, or an object array of such results. *)
Inductive result : Type :=
| r_store (vd : VariableDict)
| r_value (a : ndarray)
| r_pair (f j : ndarray)
| r_objects (shape : list nat) (rs : list result).

(** The end of a call: [None] if it did not end. *)
Definition outcome : Type := option (res result).

Definition _step_check (self : Pipeline) (step : step_arg) (tag : string)
  : res Z :=
  match step with
  | step_None =>
      if String.eqb tag "start" then Ok 0%Z
      else if String.eqb tag "stop" then Ok (Z.of_nat (n_module self) - 1)%Z
      else Raise (RuntimeError "unexpected value for tag.")
  | step_int z =>
      if n_module self =? 0
      then Raise (ValueError
             (tag +:+ " should be an int or None, instead of " +:+ pretty z +:+ "."))
      else Ok (z mod Z.of_nat (n_module self))%Z
  | step_other text =>
      Raise (ValueError
        (tag +:+ " should be an int or None, instead of " +:+ text +:+ "."))
  end.

Definition _options_check (L : library) (self : Pipeline)
    (start stop : step_arg) (extract_vars : extract_arg)
  : res (Z * Z * extract_arg) :=
  start ← _step_check self start "start";
  stop ← _step_check self stop "stop";
  if (start >? stop)%Z
  then Raise (ValueError "start should be no larger than stop.")
  else
    extract_vars ← match extract_vars with
                   | extract_names names =>
                       names' ← _var_check L names; Ok (extract_names names')
                   | e => Ok e
                   end;
    Ok (start, stop, extract_vars).

(** The tuple [conf] handed to the recursive calls; [copy_x] is left to
    its default there. *)
Definition conf (o : options) (start stop : Z) (extract_vars : extract_arg)
  : options :=
  {| use_surrogate := use_surrogate o;
     original_space := original_space o;
     start := step_int start;
     stop := step_int stop;
     extract_vars := extract_vars;
     copy_x := false |}.

(** [np.searchsorted(a, v)]: numpy's search by bisection, which on an
    array in ascending order finds the number of entries below [v].
    The interval [[lo, hi)] is halved at most [length a] times. *)
Fixpoint bisect_left (a : list Z) (v : Z) (halvings lo hi : nat) : nat :=
  match halvings with
  | 0 => lo
  | S halvings' =>
      if lo <? hi then
        let mid := lo + (hi - lo) / 2 in
        match a !! mid with
        | Some u =>
            if (u <? v)%Z then bisect_left a v halvings' (S mid) hi
            else bisect_left a v halvings' lo mid
        | None => lo
        end
      else lo
  end.

Definition searchsorted (a : list Z) (v : Z) : nat :=
  bisect_left a v (S (length a)) 0 (length a).

(** The start of the surrogate bookkeeping: [use_surrogate] and [si]. *)
Definition first_surrogate (self : Pipeline) (use_surrogate : bool) (start : Z)
  : bool * nat :=
  if use_surrogate && has_surrogate self then
    let si := searchsorted (map r_start (_surrogate_recipe self)) start in
    if si =? n_surrogate self then (false, si) else (use_surrogate, si)
  else (use_surrogate, 0).

(** The store of a fresh call of [fun]: the input vector under the first
    input name, or cut at [_input_cum] into the input names. *)
Fixpoint seed_values (names : list string) (cum : list Z) (i : nat)
    (x : ndarray) (m : gmap string ndarray) : res (gmap string ndarray) :=
  match names with
  | [] => Ok m
  | n :: names' =>
      match cum !! i, cum !! (S i) with
      | Some lo, Some hi =>
          v ← np.slice x lo hi;
          seed_values names' cum (S i) x (<[n := v]> m)
      | _, _ => Raise IndexError
      end
  end.

Definition seed (self : Pipeline) (x : ndarray) (m : gmap string ndarray)
  : res (gmap string ndarray) :=
  match _input_cum self with
  | None =>
      match _input_vars self with
      | n :: _ => Ok (<[n := x]> m)
      | [] => Raise IndexError
      end
  | Some cum => seed_values (_input_vars self) cum 0 x m
  end.

(** Modelled from the spec: [VariableDict.__getitem__] and
    [__setitem__] of [utils/collections.py].  A collection of names
    selects a keyed subset; one name selects the pair of the value and
    the Jacobian; assigning a pair binds both. *)
Definition subset (names : list string) (vd : VariableDict) : VariableDict :=
  {| _fun := filter (fun kv => fst kv ∈ names) (_fun vd);
     _jac := filter (fun kv => fst kv ∈ names) (_jac vd) |}.

Definition extract_fun (extract_vars : extract_arg) : Run result := fun vd =>
  Some (vd,
    match extract_vars with
    | extract_None => Ok (r_store vd)
    | extract_str n =>
        match _fun vd !! n with
        | Some v => Ok (r_value v)
        | None => Raise (KeyError n)
        end
    | extract_names names => Ok (r_store (subset names vd))
    end).

Definition extract_jac (extract_vars : extract_arg) : Run result := fun vd =>
  Some (vd,
    match extract_vars with
    | extract_None => Ok (r_store vd)
    | extract_str n =>
        match _fun vd !! n, _jac vd !! n with
        | Some v, Some j => Ok (r_pair v j)
        | _, _ => Raise (KeyError n)
        end
    | extract_names names => Ok (r_store (subset names vd))
    end).

(** The evaluation of the steps [start..stop] on a store, and the
    extraction that follows. *)
Definition evaluate_fun (self : Pipeline) (use_surrogate : bool)
    (start stop : Z) : Run unit :=
  let '(use_surrogate, si) := first_surrogate self use_surrogate start in
  while_steps (step_fun self) fun_failed (enough_steps self) stop
    use_surrogate si start.

Definition evaluate_jac (self : Pipeline) (use_surrogate : bool)
    (start stop : Z) : Run unit :=
  let '(use_surrogate, si) := first_surrogate self use_surrogate start in
  while_steps (step_jac self) fun_and_jac_failed (enough_steps self) stop
    use_surrogate si start.

Definition run_fun (self : Pipeline) (use_surrogate : bool) (start stop : Z)
    (extract_vars : extract_arg) : Run result :=
  _ ← evaluate_fun self use_surrogate start stop; extract_fun extract_vars.

Definition run_jac (self : Pipeline) (use_surrogate : bool) (start stop : Z)
    (extract_vars : extract_arg) : Run result :=
  _ ← evaluate_jac self use_surrogate start stop; extract_jac extract_vars.

Definition finish (r : option (VariableDict * res result)) : outcome :=
  match r with
  | Some (_, r) => Some r
  | None => None
  end.

(** The results of a comprehension over calls: the first call that
    raises or does not end decides. *)
Fixpoint gather (os : list outcome) : option (res (list result)) :=
  match os with
  | [] => Some (Ok [])
  | None :: _ => None
  | Some (Raise e) :: _ => Some (Raise e)
  | Some (Ok r) :: os' =>
      match gather os' with
      | None => None
      | Some (Raise e) => Some (Raise e)
      | Some (Ok rs) => Some (Ok (r :: rs))
      end
  end.

Definition value_of_shape (s : list nat) (r : result) : bool :=
  match r with
  | r_value a => bool_decide (np.shape a = s)
  | _ => false
  end.

Definition objects_of_shape (s : list nat) (r : result) : bool :=
  match r with
  | r_objects s' _ => bool_decide (s' = s)
  | _ => false
  end.

Definition value_data (r : result) : list R :=
  match r with r_value a => np.data a | _ => [] end.

Definition object_elems (r : result) : list result :=
  match r with r_objects _ rs => rs | _ => [] end.

(** [np.asarray(results)]: arrays of one shape are stacked along a new
    first axis, anything else becomes a one-dimensional object array. *)
Definition asarray (rs : list result) : result :=
  match rs with
  | [] => r_value (np.mk [0] [])
  | r_value a :: _ =>
      if forallb (value_of_shape (np.shape a)) rs
      then r_value (np.mk (length rs :: np.shape a) (flat_map value_data rs))
      else r_objects [length rs] rs
  | r_objects s _ :: _ =>
      if forallb (objects_of_shape s) rs
      then r_objects (length rs :: s) (flat_map object_elems rs)
      else r_objects [length rs] rs
  | _ => r_objects [length rs] rs
  end.

Definition stack (os : list outcome) : outcome :=
  match gather os with
  | None => None
  | Some (Raise e) => Some (Raise e)
  | Some (Ok rs) => Some (Ok (asarray rs))
  end.

(** *** [Pipeline.fun] and [Pipeline.fun_and_jac]

    [copy_x] asks for a deep copy of [x] before the call works on it;
    the calls below return their result and not the store of the
    caller, so the copy does not show in them. *)

Section pipeline_calls.
Context (L : library) (K : constraint_kernels) (self : Pipeline).

Definition checked (o : options) : res (Z * Z * extract_arg) :=
  _options_check L self (start o) (stop o) (extract_vars o).

(** A one-dimensional float array: a fresh store is seeded and run. *)
Definition fun_vector (use_surrogate original_space : bool) (start stop : Z)
    (extract_vars : extract_arg) (x : ndarray) : outcome :=
  match (x ← (if original_space then Ok x
              else r ← to_original K (base self) x out_True; as_array r);
         m ← seed self x ∅;
         Ok {| _fun := m; _jac := ∅ |}) with
  | Raise e => Some (Raise e)
  | Ok var_dict =>
      finish (run_fun self use_surrogate start stop extract_vars var_dict)
  end.

(** A float array, by its shape: more than one axis means one call for
    each entry of the first axis, with [conf]. *)
Fixpoint fun_floats (o : options) (s : list nat) (d : list R) {struct s}
  : outcome :=
  match checked o with
  | Raise e => Some (Raise e)
  | Ok (start, stop, extract_vars) =>
      match s with
      | [] =>
          fun_vector (use_surrogate o) (original_space o) start stop
            extract_vars (np.mk [1] d)
      | n :: s' =>
          match s' with
          | [] =>
              fun_vector (use_surrogate o) (original_space o) start stop
                extract_vars (np.mk [n] d)
          | _ :: _ =>
              stack (map (fun i =>
                            fun_floats (conf o start stop extract_vars) s'
                              (np.chunk (np.prod s') i d))
                         (seq 0 n))
          end
      end
  end.

(** An array of another kind. *)
Fixpoint fun_other (o : options) (s : list nat) {struct s} : outcome :=
  match checked o with
  | Raise e => Some (Raise e)
  | Ok (start, stop, extract_vars) =>
      match s with
      | [] => Some (Raise (ValueError "invalid input for fun."))
      | n :: s' =>
          match s' with
          | [] => Some (Raise (ValueError "invalid input for fun."))
          | _ :: _ =>
              stack (map (fun _ => fun_other (conf o start stop extract_vars) s')
                         (seq 0 n))
          end
      end
  end.

(** An object array, by its shape and the calls on its elements. *)
Fixpoint fun_objects (o : options) (s : list nat)
    (calls : list (options -> outcome)) {struct s} : outcome :=
  match checked o with
  | Raise e => Some (Raise e)
  | Ok (start, stop, extract_vars) =>
      let o' := conf o start stop extract_vars in
      match s with
      | [] => stack (map (fun call => call o') calls)
      | n :: s' =>
          match s' with
          | [] => stack (map (fun call => call o') calls)
          | _ :: _ =>
              stack (map (fun i =>
                            fun_objects o' s' (np.chunk (np.prod s') i calls))
                         (seq 0 n))
          end
      end
  end.

Fixpoint Pipeline_fun (x : input) : options -> outcome :=
  match x with
  | in_store var_dict => fun o =>
      match checked o with
      | Raise e => Some (Raise e)
      | Ok (start, stop, extract_vars) =>
          finish (run_fun self (use_surrogate o) start stop extract_vars var_dict)
      end
  | in_floats a => fun o => fun_floats o (np.shape a) (np.data a)
  | in_objects s elems => fun o => fun_objects o s (map Pipeline_fun elems)
  | in_other s => fun o => fun_other o s
  end.

(** Jacobian mode.  A one-dimensional float array seeds the values and
    the rows of the input Jacobian. *)
Definition jac_vector (use_surrogate original_space : bool) (start stop : Z)
    (extract_vars : extract_arg) (x : ndarray) : outcome :=
  match (xj ← (if original_space
               then Ok (x, np.eye (default 0 (last (np.shape x))))
               else g ← to_original_grad K (base self) x out_True;
                    g ← as_array g;
                    j ← np.diag g;
                    r ← to_original K (base self) x out_True;
                    x' ← as_array r;
                    Ok (x', j));
         m ← seed self (fst xj) ∅;
         mj ← seed self (snd xj) ∅;
         Ok {| _fun := m; _jac := mj |}) with
  | Raise e => Some (Raise e)
  | Ok var_dict =>
      finish (run_jac self use_surrogate start stop extract_vars var_dict)
  end.

Definition as_pair (r : result) : res (ndarray * ndarray) :=
  match r with
  | r_pair f j => Ok (f, j)
  | _ => Raise TypeError
  end.

(** The loop [for i in range(1, size)] that fills [result_f] and
    [result_j], over the calls that remain. *)
Fixpoint fill_pairs (_fshape _jshape : list nat) (calls : list outcome)
  : option (res (list R * list R)) :=
  match calls with
  | [] => Some (Ok ([], []))
  | call :: calls' =>
      match call with
      | None => None
      | Some (Raise e) => Some (Raise e)
      | Some (Ok _faj) =>
          match (fj ← as_pair _faj;
                 vf ← np.assign_into _fshape (fst fj);
                 vj ← np.assign_into _jshape (snd fj);
                 Ok (vf, vj)) with
          | Raise e => Some (Raise e)
          | Ok (vf, vj) =>
              match fill_pairs _fshape _jshape calls' with
              | None => None
              | Some (Raise e) => Some (Raise e)
              | Some (Ok (fs, js)) => Some (Ok (vf ++ fs, vj ++ js))
              end
          end
      end
  end.

(** The part of [fun_and_jac] for an array that is not one float
    vector: [shape] is the shape of the batch and [calls] are the calls
    on [x_f[0]], [x_f[1]], ... *)
Definition jac_batch (o' : options) (extract_vars : extract_arg)
    (shape : list nat) (calls : list (options -> outcome)) : outcome :=
  let size := np.prod shape in
  let call i := match calls !! i with
                | Some c => c o'
                | None => Some (Raise IndexError)
                end in
  match extract_vars with
  | extract_str _ =>
      match call 0 with
      | None => None
      | Some (Raise e) => Some (Raise e)
      | Some (Ok _faj0) =>
          match as_pair _faj0 with
          | Raise e => Some (Raise e)
          | Ok (f0, j0) =>
              let _fshape := np.shape f0 in
              let _jshape := np.shape j0 in
              match fill_pairs _fshape _jshape
                      (Some (Ok _faj0) :: map call (seq 1 (size - 1))) with
              | None => None
              | Some (Raise e) => Some (Raise e)
              | Some (Ok (fs, js)) =>
                  Some (Ok (r_pair (np.mk (shape ++ _fshape) fs)
                                   (np.mk (shape ++ _jshape) js)))
              end
          end
      end
  | _ =>
      match gather (map call (seq 0 size)) with
      | None => None
      | Some (Raise e) => Some (Raise e)
      | Some (Ok rs) => Some (Ok (r_objects shape rs))
      end
  end.

Definition jac_vector_call (x : ndarray) (o : options) : outcome :=
  match checked o with
  | Raise e => Some (Raise e)
  | Ok (start, stop, extract_vars) =>
      jac_vector (use_surrogate o) (original_space o) start stop extract_vars x
  end.

(** [Pipeline.fun_and_jac].  An array that is not one float vector is
    cut into its vectors by [x.reshape((size, -1))], which numpy refuses
    for [size = 0]; an array that is neither float nor object leaves
    [x_f] and [size] unbound, as its [ValueError] is built and not
    raised. *)
Fixpoint Pipeline_fun_and_jac (x : input) : options -> outcome :=
  match x with
  | in_store var_dict => fun o =>
      match checked o with
      | Raise e => Some (Raise e)
      | Ok (start, stop, extract_vars) =>
          finish (run_jac self (use_surrogate o) start stop extract_vars var_dict)
      end
  | in_floats a => fun o =>
      match checked o with
      | Raise e => Some (Raise e)
      | Ok (start, stop, extract_vars) =>
          match np.atleast_1d (np.shape a) with
          | [n] =>
              jac_vector (use_surrogate o) (original_space o) start stop
                extract_vars (np.mk [n] (np.data a))
          | s =>
              let shape := removelast s in
              let n := default 0 (last s) in
              if np.prod shape =? 0
              then Some (Raise (ValueError "cannot reshape array of size 0"))
              else
                jac_batch (conf o start stop extract_vars) extract_vars shape
                  (map (fun i => jac_vector_call (np.mk [n] (np.chunk n i (np.data a))))
                       (seq 0 (np.prod shape)))
          end
      end
  | in_objects s elems => fun o =>
      match checked o with
      | Raise e => Some (Raise e)
      | Ok (start, stop, extract_vars) =>
          jac_batch (conf o start stop extract_vars) extract_vars
            (np.atleast_1d s) (map Pipeline_fun_and_jac elems)
      end
  | in_other s => fun o =>
      match checked o with
      | Raise e => Some (Raise e)
      | Ok (start, stop, extract_vars) =>
          match extract_vars with
          | extract_str _ => Some (Raise (UnboundLocalError "x_f"))
          | _ => Some (Raise (UnboundLocalError "size"))
          end
      end
  end.

End pipeline_calls.

(** ** [Density]

    The attributes [_mu], [_hess], [_alpha], [_alpha2] and [_gamma] do
    not exist before they are assigned: [None] stands for an attribute
    that is absent. *)

Record Density : Type := {
  pipeline : Pipeline;
  _density_name : string;
  _use_decay : bool;
  _mu : option ndarray;
  _hess : option ndarray;
  _alpha : option R;
  _alpha2 : option R;
  _gamma : option R
}.

Definition attribute {A : Type} (name : string) (a : option A) : res A :=
  match a with
  | Some v => Ok v
  | None => Raise (AttributeError name)
  end.

Definition as_value (r : result) : res ndarray :=
  match r with
  | r_value a => Ok a
  | _ => Raise TypeError
  end.

Definition density_options (self : Density) (use_surrogate original_space : bool)
    (start stop : step_arg) (copy_x : bool) : options :=
  {| use_surrogate := use_surrogate;
     original_space := original_space;
     start := start;
     stop := stop;
     extract_vars := extract_str (_density_name self);
     copy_x := copy_x |}.

Section density_calls.
Context (L : library) (K : constraint_kernels).

(** [x_o = x if original_space else self.to_original(x)] *)
Definition original_point (self : Density) (x : ndarray) (original_space : bool)
  : res ndarray :=
  if original_space then Ok x
  else r ← to_original K (base (pipeline self)) x out_True; as_array r.

(** [beta2 = np.einsum('...i,ij,...j', x_o - self._mu, self._hess,
    x_o - self._mu)], with the offset and the matrix it is made of *)
Definition distance_terms (self : Density) (x_o : ndarray)
  : res (ndarray * ndarray * ndarray) :=
  mu ← attribute "_mu" (_mu self);
  v ← np.sub x_o mu;
  hess ← attribute "_hess" (_hess self);
  beta2 ← np.quadratic_form v hess;
  Ok (v, hess, beta2).

(** [x_o] and [beta2] of the decay branch *)
Definition decay_terms (self : Density) (x : ndarray) (original_space : bool)
  : res (ndarray * ndarray * ndarray) :=
  x_o ← original_point self x original_space;
  distance_terms self x_o.

(** [_grad -= (2 * self._gamma * np.dot(x_o - self._mu, self._hess) *
    (beta2 > self._alpha2)[..., np.newaxis])] *)
Definition subtract_slope (self : Density) (x_o beta2 _grad : ndarray)
  : res ndarray :=
  gamma ← attribute "_gamma" (_gamma self);
  mu ← attribute "_mu" (_mu self);
  v ← np.sub x_o mu;
  hess ← attribute "_hess" (_hess self);
  vh ← np.dot v hess;
  alpha2 ← attribute "_alpha2" (_alpha2 self);
  term ← np.binop Rmult (np.scale (2 * gamma) vh)
            (np.newaxis (np.greater alpha2 beta2));
  np.in_place Rminus _grad term.

(** The block [if self._use_decay and use_surrogate: ..], which the
    three methods share, on [_logp] and on [_grad] *)
Definition decay_logp (self : Density) (x : ndarray)
    (use_surrogate original_space : bool) (_logp : ndarray) : res ndarray :=
  if _use_decay self && use_surrogate then
    t ← decay_terms self x original_space;
    let '(_, _, beta2) := t in
    gamma ← attribute "_gamma" (_gamma self);
    alpha2 ← attribute "_alpha2" (_alpha2 self);
    np.in_place Rminus _logp
      (np.scale gamma
         (np.clip_at_zero (np.map_entries (fun b => (b - alpha2)%R) beta2)))
  else Ok _logp.

Definition decay_grad (self : Density) (x : ndarray)
    (use_surrogate original_space : bool) (_grad : ndarray) : res ndarray :=
  if _use_decay self && use_surrogate then
    x_o ← original_point self x original_space;
    t ← distance_terms self x_o;
    let '(_, _, beta2) := t in
    subtract_slope self x_o beta2 _grad
  else Ok _grad.

(** The block [if not original_space: ..] on [_logp] and on [_grad] *)
Definition transformed_logp (self : Density) (x : ndarray)
    (original_space : bool) (_logp : ndarray) : res ndarray :=
  if negb original_space then
    diff ← _get_diff K (base (pipeline self)) None (Some x);
    np.in_place Rplus _logp diff
  else Ok _logp.

Definition transformed_grad (self : Density) (x : ndarray)
    (original_space : bool) (_grad : ndarray) : res ndarray :=
  if negb original_space then
    g2 ← to_original_grad2 K (base (pipeline self)) x out_True;
    g2 ← as_array g2;
    g1 ← to_original_grad K (base (pipeline self)) x out_True;
    g1 ← as_array g1;
    ratio ← np.binop Rdiv g2 g1;
    np.in_place Rplus _grad ratio
  else Ok _grad.

(** The part of [logp] after the pipeline has returned [_logp]. *)
Definition logp_terms (self : Density) (x : ndarray)
    (use_surrogate original_space : bool) (_logp : ndarray) : res ndarray :=
  _logp ← decay_logp self x use_surrogate original_space _logp;
  transformed_logp self x original_space _logp.

(** The part of [grad] after the pipeline has returned [_grad]. *)
Definition grad_terms (self : Density) (x : ndarray)
    (use_surrogate original_space : bool) (_grad : ndarray) : res ndarray :=
  _grad ← decay_grad self x use_surrogate original_space _grad;
  transformed_grad self x original_space _grad.

Definition after {A : Type} (o : outcome) (k : result -> res A) : option (res A) :=
  match o with
  | None => None
  | Some (Raise e) => Some (Raise e)
  | Some (Ok r) => Some (k r)
  end.

(** [Density.logp] *)
Definition Density_logp (self : Density) (x : ndarray)
    (use_surrogate original_space : bool) (start stop : step_arg) (copy_x : bool)
  : option (res ndarray) :=
  after (Pipeline_fun L K (pipeline self) (in_floats x)
           (density_options self use_surrogate original_space start stop copy_x))
    (fun r =>
       a ← as_value r;
       _logp ← np.first_of_last a;
       logp_terms self x use_surrogate original_space _logp).

(** [Density.grad], through [Pipeline.jac] *)
Definition Density_grad (self : Density) (x : ndarray)
    (use_surrogate original_space : bool) (start stop : step_arg) (copy_x : bool)
  : option (res ndarray) :=
  after (Pipeline_fun_and_jac L K (pipeline self) (in_floats x)
           (density_options self use_surrogate original_space start stop copy_x))
    (fun r =>
       fj ← as_pair r;
       _grad ← np.first_row (snd fj);
       grad_terms self x use_surrogate original_space _grad).

(** *** [Density.logp_and_grad] and the array it is given

    A stage that hands its input through leaves the density variable a
    view of the array [x], and [_logp], the entry [[..., 0]] of it, a
    view of one entry of [x].  [view] is the position of that entry in
    [x], and [None] when [_logp] has memory of its own.  With [copy_x]
    the pipeline works on a copy of [x], and outside the original space
    on the array that [to_original] returns, so that only a call in the
    original space without [copy_x] shares an entry with [x]. *)
Definition shared_entry (original_space copy_x : bool) (view : option nat)
  : option nat :=
  if original_space && negb copy_x then view else None.

(** The array [x] after [_logp -= ..]: the update is written to the
    entry that [_logp] is a view of. *)
Definition written_through (view : option nat) (x _logp : ndarray) : ndarray :=
  match view, np.data _logp with
  | Some k, [l] => np.mk (np.shape x) (<[k := l]> (np.data x))
  | _, _ => x
  end.

(** The block [if self._use_decay and use_surrogate: ..] of
    [logp_and_grad]: [beta2] is computed first, [_logp] is updated in
    place, and [np.dot(x_o - self._mu, self._hess)] then reads [x_o],
    which in the original space is the array [x] itself. *)
Definition decay_logp_and_grad (self : Density) (x : ndarray)
    (use_surrogate original_space : bool) (view : option nat)
    (_logp _grad : ndarray) : res (ndarray * ndarray) :=
  if _use_decay self && use_surrogate then
    x_o ← original_point self x original_space;
    t ← distance_terms self x_o;
    let '(_, _, beta2) := t in
    gamma ← attribute "_gamma" (_gamma self);
    alpha2 ← attribute "_alpha2" (_alpha2 self);
    _logp ← np.in_place Rminus _logp
              (np.scale gamma
                 (np.clip_at_zero (np.map_entries (fun b => (b - alpha2)%R) beta2)));
    let x_o := written_through view x_o _logp in
    _grad ← subtract_slope self x_o beta2 _grad;
    Ok (_logp, _grad)
  else Ok (_logp, _grad).

(** [Density.logp_and_grad] *)
Definition Density_logp_and_grad (self : Density) (x : ndarray)
    (use_surrogate original_space : bool) (start stop : step_arg) (copy_x : bool)
    (view : option nat) : option (res (ndarray * ndarray)) :=
  after (Pipeline_fun_and_jac L K (pipeline self) (in_floats x)
           (density_options self use_surrogate original_space start stop copy_x))
    (fun r =>
       fj ← as_pair r;
       _logp ← np.first_of_last (fst fj);
       _grad ← np.first_row (snd fj);
       lg ← decay_logp_and_grad self x use_surrogate original_space
              (shared_entry original_space copy_x view) _logp _grad;
       _logp ← transformed_logp self x original_space (fst lg);
       _grad ← transformed_grad self x original_space (snd lg);
       Ok (_logp, _grad)).

End density_calls.

(** *** The decay state *)

(** A change of a [Density] in place, with its end. *)
Definition Update (A : Type) : Type := Density -> Density * res A.

#[global] Instance Update_ret : MRet Update := fun A a self => (self, Ok a).
#[global] Instance Update_bind : MBind Update := fun A B k m self =>
  match m self with
  | (self', Ok a) => k a self'
  | (self', Raise e) => (self', Raise e)
  end.

Definition check {A : Type} (r : res A) : Update A := fun self => (self, r).
Definition read {A : Type} (f : Density -> A) : Update A :=
  fun self => (self, Ok (f self)).

Definition assign_mu (mu : ndarray) : Update unit := fun self =>
  ({| pipeline := pipeline self; _density_name := _density_name self;
      _use_decay := _use_decay self; _mu := Some mu; _hess := _hess self;
      _alpha := _alpha self; _alpha2 := _alpha2 self; _gamma := _gamma self |},
   Ok tt).

Definition assign_hess (hess : ndarray) : Update unit := fun self =>
  ({| pipeline := pipeline self; _density_name := _density_name self;
      _use_decay := _use_decay self; _mu := _mu self; _hess := Some hess;
      _alpha := _alpha self; _alpha2 := _alpha2 self; _gamma := _gamma self |},
   Ok tt).

Definition assign_alpha (a : R) : Update unit := fun self =>
  ({| pipeline := pipeline self; _density_name := _density_name self;
      _use_decay := _use_decay self; _mu := _mu self; _hess := _hess self;
      _alpha := Some a; _alpha2 := _alpha2 self; _gamma := _gamma self |},
   Ok tt).

Definition assign_alpha2 (a2 : R) : Update unit := fun self =>
  ({| pipeline := pipeline self; _density_name := _density_name self;
      _use_decay := _use_decay self; _mu := _mu self; _hess := _hess self;
      _alpha := _alpha self; _alpha2 := Some a2; _gamma := _gamma self |},
   Ok tt).

Definition assign_gamma (g : R) : Update unit := fun self =>
  ({| pipeline := pipeline self; _density_name := _density_name self;
      _use_decay := _use_decay self; _mu := _mu self; _hess := _hess self;
      _alpha := _alpha self; _alpha2 := _alpha2 self; _gamma := Some g |},
   Ok tt).

Definition assign_use_decay (decay : bool) : Update unit := fun self =>
  ({| pipeline := pipeline self; _density_name := _density_name self;
      _use_decay := decay; _mu := _mu self; _hess := _hess self;
      _alpha := _alpha self; _alpha2 := _alpha2 self; _gamma := _gamma self |},
   Ok tt).

(** What [float()] is given: a number, or something it refuses. *)
Inductive number : Type :=
| a_float (r : R)
| not_a_float.

(** [try: v = float(v); assert v > 0  except: raise ValueError(message)] *)
Definition positive_float (v : number) (message : string) : res R :=
  match v with
  | a_float r => if Rlt_dec 0 r then Ok r else Raise (ValueError message)
  | not_a_float => Raise (ValueError message)
  end.

(** The floats end below [2^1024]: a product that reaches
    [2^1024 - 2^970] has no float to be rounded to. *)
Definition float_overflow : R := IZR (2 ^ 1024 - 2 ^ 970).

(** [a**2] of a Python float: [OverflowError] where the square is
    beyond the floats. *)
Definition float_square (a : R) : res R :=
  if Rle_dec float_overflow (a * a) then Raise OverflowError
  else Ok (a * a)%R.

(** The setters of [alpha] and [gamma].  [alpha] assigns [_alpha] and
    then [_alpha2], the square, which can raise with [_alpha] already
    replaced. *)
Definition set_alpha (a : number) : Update unit :=
  a ← check (positive_float a "alpha should be a positive float.");
  _ ← assign_alpha a;
  a2 ← check (float_square a);
  assign_alpha2 a2.

Definition set_gamma (g : number) : Update unit :=
  g ← check (positive_float g "gamma should be a positive float.");
  assign_gamma g.

(** [x.reshape((-1, x.shape[-1]))] *)
Definition reshape_rows (x : ndarray) : res ndarray :=
  match last (np.shape x) with
  | None => Raise IndexError
  | Some n =>
      if n =? 0
      then Raise (ValueError "cannot reshape array of size 0")
      else Ok (np.mk [np.size x / n; n] (np.data x))
  end.

Section decay.
Context (L : library) (K : constraint_kernels).

(** The lines under [if (self.alpha is None) or (alpha_p is not None):]
    of [set_decay] *)
Definition percentile_alpha (x_o mu hess : ndarray) (alpha_p : option number)
  : Update unit :=
  alpha_p ← check (match alpha_p with
                   | Some p =>
                       positive_float p "alpha_p should be a positive float."
                   | None =>
                       Raise (ValueError "alpha_p should be a positive float.")
                   end);
  v ← check (np.sub x_o mu);
  q ← check (np.quadratic_form v hess);
  let _beta := np.sqrt q in
  if Rlt_dec alpha_p 100
  then a ← check (percentile L _beta alpha_p); set_alpha (a_float a)
  else m ← check (amax L _beta);
       set_alpha (a_float (m * alpha_p / 100)%R).

(** The branch [if alpha is None: .. else: self.alpha = alpha] of
    [set_decay] *)
Definition choose_alpha (x_o mu hess : ndarray) (alpha alpha_p : option number)
  : Update unit :=
  match alpha with
  | None =>
      old ← read _alpha;
      match old, alpha_p with
      | Some _, None => mret tt
      | _, _ => percentile_alpha x_o mu hess alpha_p
      end
  | Some a => set_alpha a
  end.

(** The branch [if gamma is None: .. else: self.gamma = gamma] *)
Definition choose_gamma (gamma : option number) : Update unit :=
  match gamma with
  | None =>
      old ← read _gamma;
      match old with
      | None => assign_gamma (1 / 10)%R
      | Some _ => mret tt
      end
  | Some g => set_gamma g
  end.

(** [set_decay(x, original_space=True, alpha=None, alpha_p=150,
    gamma=None)] *)
Definition set_decay (x : ndarray) (original_space : bool)
    (alpha alpha_p gamma : option number) : Update unit :=
  let x := np.ascontiguousarray x in
  x ← check (reshape_rows x);
  base ← read (fun self => base (pipeline self));
  x_o ← check (if original_space then Ok x
               else r ← to_original K base x out_True; as_array r);
  mu ← check (mean0 L x_o);
  _ ← assign_mu mu;
  hess ← check (c ← cov L x_o; inv L c);
  _ ← assign_hess hess;
  _ ← choose_alpha x_o mu hess alpha alpha_p;
  _ ← choose_gamma gamma;
  assign_use_decay true.

(** The arguments of [fit]: what stands in [var_dicts]; the keywords of
    [decay_options], or something that is not a [dict]; and whether
    [fit_options] is a [dict] or consists of [dict]s. *)
Inductive store_arg : Type :=
| a_VariableDict (vd : VariableDict)
| not_a_VariableDict.

Record decay_keywords : Type := {
  kw_original_space : bool;
  kw_alpha : option number;
  kw_alpha_p : option number;
  kw_gamma : option number
}.

(** The defaults of [set_decay] *)
Definition no_keywords : decay_keywords :=
  {| kw_original_space := true; kw_alpha := None;
     kw_alpha_p := Some (a_float 150); kw_gamma := None |}.

Fixpoint all_stores (var_dicts : list store_arg) : option (list VariableDict) :=
  match var_dicts with
  | [] => Some []
  | a_VariableDict vd :: rest => cons vd <$> all_stores rest
  | not_a_VariableDict :: _ => None
  end.

(** [np.array(rows)] of arrays, in the numpy that has [np.int] and
    [np.float], which the setters of the unit need: rows of one shape
    are stacked; rows whose first axes differ in length become the
    cells of an array of objects; rows of different shapes whose first
    axes agree are refused, with a message that names the two shapes. *)
Definition array_of_rows (rows : list ndarray) : res stacked :=
  match rows with
  | [] => Ok (of_floats (np.mk [0] []))
  | r :: _ =>
      if forallb (fun r' => bool_decide (np.shape r' = np.shape r)) rows
      then Ok (of_floats (np.mk (length rows :: np.shape r)
                            (flat_map np.data rows)))
      else if forallb (fun r' => bool_decide (hd_error (np.shape r')
                                              = hd_error (np.shape r))) rows
      then Raise (ValueError "could not broadcast input array")
      else Ok (of_objects [length rows] rows)
  end.

(** [x - b] and [x / b] for what [np.array] has made: on an array of
    objects the operation is done cell by cell, every cell with the
    entry of [b] that broadcasting pairs it with. *)
Definition stacked_binop (f : R -> R -> R) (x : stacked) (b : ndarray)
  : res stacked :=
  match x with
  | of_floats a => r ← np.binop f a b; Ok (of_floats r)
  | of_objects shape cells =>
      let r := Nat.max (length shape) (np.ndim b) in
      let s1 := np.pad_shape r shape in
      let s2 := np.pad_shape r (np.shape b) in
      match np.broadcast_shapes s1 s2 with
      | None => Raise (ValueError "operands could not be broadcast together")
      | Some s =>
          Ok (of_objects s
                (np.broadcast_data
                   (fun cell v => np.map_entries (fun u => f u v) cell)
                   (np.mk [] []) 0%R s1 s2 cells (np.data b)))
      end
  end.

(** [a.reshape(-1)] *)
Definition flattened (a : stacked) : stacked :=
  match a with
  | of_floats a => of_floats (np.mk [np.size a] (np.data a))
  | of_objects shape cells => of_objects [np.prod shape] cells
  end.

(** [_fit_var(var_dicts, var_names)] *)
Definition _fit_var (var_dicts : list VariableDict) (var_names : list string)
  : res stacked :=
  rows ← comprehension
           (fun vd =>
              vs ← comprehension
                     (fun vn => match _fun vd !! vn with
                                | Some v => Ok v
                                | None => Raise (KeyError vn)
                                end)
                     var_names;
              np.concatenate vs)
           var_dicts;
  array_of_rows rows.

(** The loop of [fit] over the surrogates *)
Definition fit_surrogate (self : Density) (var_dicts : list VariableDict)
    (su : Surrogate) : res unit :=
  x ← _fit_var var_dicts (Mod._input_vars (stage su));
  x ← match scales su with
      | None => Ok x
      | Some (lo, diff) => d ← stacked_binop Rminus x lo; stacked_binop Rdiv d diff
      end;
  y ← _fit_var var_dicts (Mod._output_vars (stage su));
  _logp ← _fit_var var_dicts [_density_name self];
  fit_ su x y (flattened _logp).

(** The block [if use_decay: .. else: self._use_decay = False] of
    [fit].  The statistics of an array of objects, which [set_decay]
    would be given for samples of different lengths, are not followed:
    [None] stands for that. *)
Definition fit_decay (var_dicts : list VariableDict) (use_decay : bool)
    (kw : decay_keywords) (self : Density) : option (Density * res unit) :=
  if use_decay then
    match _fit_var var_dicts (_input_vars (pipeline self)) with
    | Raise e => Some (self, Raise e)
    | Ok (of_floats x) =>
        Some (set_decay x (kw_original_space kw) (kw_alpha kw)
                (kw_alpha_p kw) (kw_gamma kw) self)
    | Ok (of_objects _ _) => None
    end
  else Some (assign_use_decay false self).

(** [fit(var_dicts, use_decay=False, .., decay_options={},
    fit_options={})] *)
Definition fit (var_dicts : list store_arg) (use_decay : bool)
    (decay_options : option decay_keywords) (fit_options_are_dicts : bool)
    (self : Density) : option (Density * res unit) :=
  match all_stores var_dicts with
  | None =>
      Some (self, Raise (ValueError "var_dicts should consist of VariableDict(s)."))
  | Some var_dicts =>
      match decay_options with
      | None => Some (self, Raise (ValueError "decay_options should be a dict."))
      | Some kw =>
          if negb fit_options_are_dicts
          then Some (self, Raise (ValueError
                 "fit_options should be a dict or consist of dict(s)."))
          else
            match fit_decay var_dicts use_decay kw self with
            | None => None
            | Some (self, Raise e) => Some (self, Raise e)
            | Some (self, Ok _) =>
                Some (self,
                      _ ← comprehension (fit_surrogate self var_dicts)
                            (_surrogate_list (pipeline self));
                      Ok tt)
            end
      end
  end.

End decay.

(** ** Auxiliary notions of the properties *)

(** The scope of a row of the recipe. *)
Definition row_scope (r : recipe_row) : Z * Z := (r_start r, r_extent r).

(** The entry of row [i] of the identity in column [j]. *)
Definition indicator (j i : nat) : R := if i =? j then 1%R else 0%R.

(** What the choice of [alpha] leaves: the other attributes as they
    were, and an [alpha] that is there. *)
Definition same_but_alpha (s s' : Density) : Prop :=
  pipeline s' = pipeline s /\ _density_name s' = _density_name s /\
  _use_decay s' = _use_decay s /\ _mu s' = _mu s /\ _hess s' = _hess s /\
  _gamma s' = _gamma s.

Definition same_but_gamma (s s' : Density) : Prop :=
  pipeline s' = pipeline s /\ _density_name s' = _density_name s /\
  _use_decay s' = _use_decay s /\ _mu s' = _mu s /\ _hess s' = _hess s /\
  _alpha s' = _alpha s /\ _alpha2 s' = _alpha2 s.

(** ** Batches

    [conf] holds the options after the check, and a call on an element
    checks them again.  [Module._var_check] is not part of this file;
    it is taken to return its own result unchanged. *)
Definition var_check_idempotent (L : library) : Prop :=
  forall names names',
    _var_check L names = Ok names' -> _var_check L names' = Ok names'.

(** Two option records that a call cannot tell apart. *)
Definition same_call (L : library) (self : Pipeline) (o1 o2 : options) : Prop :=
  use_surrogate o1 = use_surrogate o2 /\
  original_space o1 = original_space o2 /\
  checked L self o1 = checked L self o2.

(** The pairs of N evaluations, each value of shape [fshape] and each
    Jacobian of shape [jshape], stacked along the axes of the batch. *)
Definition stack_pairs (shape fshape jshape : list nat)
    (rs : list (ndarray * ndarray)) : result :=
  r_pair (np.mk (shape ++ fshape) (flat_map (fun fj => np.data (fst fj)) rs))
         (np.mk (shape ++ jshape) (flat_map (fun fj => np.data (snd fj)) rs)).

(** The results of N evaluations as an object array of the shape of the
    batch. *)
Definition object_batch (shape : list nat) (os : list outcome) : outcome :=
  match gather os with
  | None => None
  | Some (Raise e) => Some (Raise e)
  | Some (Ok rs) => Some (Ok (r_objects shape rs))
  end.

(** The vectors of a float batch, [x_f[0]], [x_f[1]], ..., and the
    batch that [fun_and_jac] sees in an input: its shape and its
    elements.  One float vector and a store are no batch. *)
Definition rows (a : ndarray) : list input :=
  let s := np.atleast_1d (np.shape a) in
  let n := default 0 (last s) in
  map (fun i => in_floats (np.mk [n] (np.chunk n i (np.data a))))
      (seq 0 (np.prod (removelast s))).

Definition batch (x : input) : option (list nat * list input) :=
  match x with
  | in_floats a =>
      match np.atleast_1d (np.shape a) with
      | [_] => None
      | s => Some (removelast s, rows a)
      end
  | in_objects s elems => Some (np.atleast_1d s, elems)
  | _ => None
  end.

Definition is_str (e : extract_arg) : bool :=
  match e with extract_str _ => true | _ => false end.

Definition pair_result (fj : ndarray * ndarray) : outcome :=
  Some (Ok (r_pair (fst fj) (snd fj))).

Definition pair_of_shape (fshape jshape : list nat) (fj : ndarray * ndarray)
  : Prop :=
  np.shape (fst fj) = fshape /\ np.wf (fst fj) /\
  np.shape (snd fj) = jshape /\ np.wf (snd fj).

(** ** The setters of [_PipelineBase] and of the input of a [Pipeline] *)

(** What is given where an array is expected: something that numpy
    converts to an array of numbers, or something it does not. *)
Inductive array_arg : Type :=
| an_array (a : ndarray)
| not_an_array.

(** [np.array((left, right)).T] for two vectors: the rows
    [(left_i, right_i)]. *)
Definition two_columns (left right : list R) : list R :=
  flat_map (fun lr => [fst lr; snd lr]) (zip left right).

(** [_scale_check(scales)], with a numpy that has the alias
    [np.float]: whatever goes wrong inside the [try] is raised again as
    one [ValueError]. *)
Definition _scale_check (scales : array_arg) : res ndarray :=
  match scales with
  | not_an_array => Raise (ValueError "Invalid value for var_scales.")
  | an_array a =>
      let scales := np.ascontiguousarray a in
      let scales :=
        match np.shape scales with
        | [n] =>
            np.mk [n; 2]
              (two_columns (np.data (np.zeros_like scales)) (np.data scales))
        | _ => scales
        end in
      match np.shape scales with
      | [_; 2] => Ok scales
      | _ => Raise (ValueError "Invalid value for var_scales.")
      end
  end.

(** The setter [var_scales] *)
Definition set_var_scales (self : PipelineBase) (scales : option array_arg)
  : PipelineBase * res unit :=
  match scales with
  | None => ({| _var_scales := None; _hard_bounds := _hard_bounds self |}, Ok tt)
  | Some scales =>
      match _scale_check scales with
      | Ok s => ({| _var_scales := Some s; _hard_bounds := _hard_bounds self |},
                 Ok tt)
      | Raise e => (self, Raise e)
      end
  end.

(** [.astype(bool).astype(np.uint8)] on an entry *)
Definition as_flag (v : R) : R := if Req_dec_T v 0 then 0%R else 1%R.

(** [_bound_check(bounds)] *)
Definition _bound_check (bounds : array_arg) : res ndarray :=
  match bounds with
  | not_an_array => Raise (ValueError "Invalid value for hard_bounds")
  | an_array a =>
      let bounds :=
        np.mk (np.atleast_1d (np.shape a)) (map as_flag (np.data a)) in
      let bounds :=
        match np.shape bounds with
        | [n] => np.mk [n; 2] (two_columns (np.data bounds) (np.data bounds))
        | _ => bounds
        end in
      match np.shape bounds with
      | [_; 2] => Ok bounds
      | _ => Raise (ValueError "Invalid value for hard_bounds")
      end
  end.

(** The setter [hard_bounds]: a [bool] is kept as it is. *)
Definition set_hard_bounds (self : PipelineBase) (bounds : bool + array_arg)
  : PipelineBase * res unit :=
  match bounds with
  | inl b => ({| _var_scales := _var_scales self; _hard_bounds := inl b |}, Ok tt)
  | inr bounds =>
      match _bound_check bounds with
      | Ok hb => ({| _var_scales := _var_scales self; _hard_bounds := inr hb |},
                  Ok tt)
      | Raise e => (self, Raise e)
      end
  end.

(** What is given as [var_dims]: an array_like of Python integers,
    given by its shape and its entries, or something that does not
    convert to an array of integers. *)
Inductive dims_arg : Type :=
| dims_ints (shape : list nat) (entries : list Z)
| dims_invalid.

(** [np.cumsum] of an array of [int64]: every partial sum wraps
    around. *)
Fixpoint cumsum64_from (acc : Z) (l : list Z) : list Z :=
  match l with
  | [] => []
  | d :: l' => wrap64 (acc + d) :: cumsum64_from (wrap64 (acc + d)) l'
  end.

Definition cumsum64 (l : list Z) : list Z := cumsum64_from 0 l.

(** [_dim_check(dims)], with a numpy that has the alias [np.int] and
    whose default integer has 64 bits: the dimensions it returns and
    the [_input_cum] it assigns.  An entry from [2 ^ 63] on does not
    come through [astype] as a positive [int64], so the [try] fails.
    The text of [dims] in the message is left out. *)
Definition _dim_check (dims : dims_arg) : res (list Z * list Z) :=
  let refuse :=
    Raise (ValueError
      "var_dims should be a 1-d array_like of positive int(s), or None.") in
  match dims with
  | dims_invalid => refuse
  | dims_ints s entries =>
      let s := np.atleast_1d s in
      if forallb (fun d => (0 <? d)%Z && (d <? 2 ^ 63)%Z) entries
         && (0 <? np.prod s) && (length s =? 1)
      then Ok (entries, cumsum64 (0%Z :: entries))
      else refuse
  end.

(** The setter [var_dims]: the pipeline after the call, the
    [_var_dims] it holds, and the end of the call. *)
Definition with_input_cum (self : Pipeline) (cum : option (list Z)) : Pipeline :=
  {| base := base self;
     _module_list := _module_list self;
     _surrogate_list := _surrogate_list self;
     _surrogate_recipe := _surrogate_recipe self;
     _input_vars := _input_vars self;
     _input_cum := cum |}.

Definition set_var_dims (self : Pipeline) (_var_dims : option (list Z))
    (dims : option dims_arg) : Pipeline * option (list Z) * res unit :=
  match dims with
  | None => (with_input_cum self None, None, Ok tt)
  | Some dims =>
      match _dim_check dims with
      | Ok (dims, cum) => (with_input_cum self (Some cum), Some dims, Ok tt)
      | Raise e => (self, _var_dims, Raise e)
      end
  end.

(** [input_size]: [np.sum] of the array of [int64] *)
Definition input_size (_var_dims : option (list Z)) : option Z :=
  match _var_dims with
  | Some dims => Some (wrap64 (foldr Z.add 0%Z dims))
  | None => None
  end.

(** What [x[lo:hi]] leaves of a vector: an end beyond the vector is
    moved to its end.  [pieces_from off l x] are the consecutive
    pieces of the lengths [l] that begin at [off]. *)
Definition cut (x : ndarray) (lo hi : nat) : ndarray :=
  let n := hd 0 (np.shape x) in
  np.mk [Nat.min hi n - Nat.min lo n]
        (take (Nat.min hi n - Nat.min lo n) (drop (Nat.min lo n) (np.data x))).

Fixpoint pieces_from (off : nat) (l : list nat) (x : ndarray) : list ndarray :=
  match l with
  | [] => []
  | d :: l' => cut x off (off + d) :: pieces_from (off + d) l' x
  end.

(** The body of a step once its stage is chosen: what [step_fun] and
    [step_jac] run after [select_stage]. *)
Definition stage_fun (_module : Mod.t) : Run unit :=
  _input ← collect get_fun (Mod._input_vars _module);
  _output ← lift (Mod.fun_ _module _input);
  _ ← bind_outputs_fun _module _output;
  _ ← copy_vars_fun _module;
  delete_vars_fun _module.

Definition stage_jac (_module : Mod.t) : Run unit :=
  _input ← collect get_fun (Mod._input_vars _module);
  jacs ← collect get_jac (Mod._input_vars _module);
  _input_jac ← lift (np.concatenate jacs);
  out ← lift (Mod.fun_and_jac _module _input);
  let '(_output, _output_jac) := out in
  _ ← bind_outputs_jac _module _output _output_jac _input_jac;
  _ ← copy_vars_jac _module;
  delete_vars_jac _module.

(** A step as the choice of a stage followed by a body. *)
Definition chosen_step (self : Pipeline) (body : Mod.t -> Run unit)
    (use_surrogate : bool) (si : nat) (i : Z) : Run (stride * bool * nat) :=
  sel ← lift (select_stage self use_surrogate si i);
  let '(_module, di, use_surrogate', si') := sel in
  _ ← body _module;
  mret (di, use_surrogate', si').

(** ** Properties of runs *)

(** A run keeps [I] if the store it leaves, however it ends, satisfies
    [I] whenever the store it began with does; it ends if it returns or
    raises on every store. *)
Definition keeps {A : Type} (I : VariableDict -> Prop) (m : Run A) : Prop :=
  forall vd vd' r, I vd -> m vd = Some (vd', r) -> I vd'.

Definition ends {A : Type} (m : Run A) : Prop :=
  forall vd, is_Some (m vd).

(** A bound on the steps that a run has left: every surrogate that is
    still to come is used at most once, and between two of them the
    index [i], at which a module is read from [-n_module] on, only
    grows. *)
Definition surrogates_left (self : Pipeline) (use_surrogate : bool) (si : nat)
  : nat :=
  if use_surrogate && has_surrogate self
  then length (_surrogate_recipe self) - si else 0.

Definition modules_left (self : Pipeline) (i : Z) : nat :=
  Z.to_nat (Z.min (2 * Z.of_nat (n_module self))
                  (Z.max 0 (Z.of_nat (n_module self) - i))).

Definition steps_left (self : Pipeline) (use_surrogate : bool) (si : nat) (i : Z)
  : nat :=
  surrogates_left self use_surrogate si * (2 * n_module self + 1)
  + modules_left self i + 1.

(** Induction on an input: the elements of an object array are inputs
    themselves. *)
Fixpoint input_induction (P : input -> Prop)
    (Hstore : forall vd, P (in_store vd))
    (Hfloats : forall a, P (in_floats a))
    (Hobjects : forall s elems, Forall P elems -> P (in_objects s elems))
    (Hother : forall s, P (in_other s))
    (x : input) {struct x} : P x :=
  match x with
  | in_store vd => Hstore vd
  | in_floats a => Hfloats a
  | in_objects s elems =>
      Hobjects s elems
        ((fix all (l : list input) : Forall P l :=
            match l with
            | [] => @List.Forall_nil _ P
            | a :: l' =>
                @List.Forall_cons _ P a l'
                  (input_induction P Hstore Hfloats Hobjects Hother a) (all l')
            end) elems)
  | in_other s => Hother s
  end.

(** The options of a call with [start] and [stop] given as integers. *)
Definition between (us os : bool) (i j : Z) (e : extract_arg) (c : bool)
  : options :=
  {| use_surrogate := us; original_space := os;
     start := step_int i; stop := step_int j;
     extract_vars := e; copy_x := c |}.

(** ** Value mode against Jacobian mode *)

(** A stage whose two entry points agree on the values: what
    [fun_and_jac] returns as values, [fun] returns. *)
Definition coherent (m : Mod.t) : Prop :=
  forall xs ys js, Mod.fun_and_jac m xs = Ok (ys, js) -> Mod.fun_ m xs = Ok ys.

Definition coherent_pipeline (self : Pipeline) : Prop :=
  Forall coherent (_module_list self) /\
  Forall (fun s => coherent (stage s)) (_surrogate_list self).

(** The store [vf] of a run in value mode agrees with the store [vj] of
    a run in Jacobian mode: they hold the same values, and [vj] holds a
    Jacobian for bound names only. *)
Definition agree (vf vj : VariableDict) : Prop :=
  _fun vf = _fun vj /\ dom (_jac vj) ⊆ dom (_fun vj).

(** [mf] follows [mj]: where [mj] returns, [mf] returns the same from a
    store that agrees, and the stores agree after. *)
Definition follows {A : Type} (mf mj : Run A) : Prop :=
  forall vf vj vj' a,
    agree vf vj -> mj vj = Some (vj', Ok a) ->
    exists vf', mf vf = Some (vf', Ok a) /\ agree vf' vj'.

(** [np.zeros(s)] *)
Definition zeros_of (s : list nat) : ndarray :=
  np.mk s (repeat 0%R (np.prod s)).

(** ** The decay state of a [Density] *)

(** What the setters establish: an [alpha] that is there is positive and
    [alpha2] is its square; a [gamma] that is there is positive. *)
Definition decay_invariant (self : Density) : Prop :=
  (forall a, _alpha self = Some a ->
     (0 < a)%R /\ _alpha2 self = Some (a * a)%R) /\
  (forall g, _gamma self = Some g -> (0 < g)%R).

(** What they keep even where the square of [alpha] overflows: an
    [alpha] and a [gamma] that are there are positive, and an [alpha2]
    that is there is the square of a positive number. *)
Definition decay_positive (self : Density) : Prop :=
  (forall a, _alpha self = Some a -> (0 < a)%R) /\
  (forall a2, _alpha2 self = Some a2 -> exists a, (0 < a)%R /\ a2 = (a * a)%R) /\
  (forall g, _gamma self = Some g -> (0 < g)%R).

(** A change of a [Density] keeps [P] if the density it leaves, however
    it ends, satisfies [P] whenever the density before does. *)
Definition Update_keeps {A : Type} (P : Density -> Prop) (m : Update A) : Prop :=
  forall self, P self -> P (fst (m self)).

(** It keeps [P] but for an overflow if that holds of every end other
    than [OverflowError]. *)
Definition Update_keeps_but_overflow {A : Type} (P : Density -> Prop)
    (m : Update A) : Prop :=
  forall self, P self -> snd (m self) = Raise OverflowError \/ P (fst (m self)).

(** ** An instance of the library

    Exact real arithmetic stands for numpy's floating point, and a
    routine raises where numpy would give [nan].  [mean0] and [cov]
    are for matrices, which is what [set_decay] gives them; [inv]
    inverts the matrices of at most two rows; [percentile] is not
    provided. *)

Definition example_mean0 (x : ndarray) : res ndarray :=
  match np.shape x with
  | [n; d] =>
      if n =? 0 then Raise (ValueError "mean of empty slice")
      else Ok (np.mk [d]
                 (map (fun j => (np.Rsum (np.column d n j (np.data x)) / INR n)%R)
                      (seq 0 d)))
  | _ => Raise (ValueError "expected a matrix")
  end.

(** The covariances of [d] columns of [n] entries each, over [n - 1]. *)
Definition covariances (d n : nat) (data : list R) : list R :=
  let mean j := (np.Rsum (np.column d n j data) / INR n)%R in
  let centred j := map (fun v => (v - mean j)%R) (np.column d n j data) in
  flat_map
    (fun j =>
       map (fun k =>
              (np.Rsum (zip_with Rmult (centred j) (centred k)) / INR (n - 1))%R)
           (seq 0 d))
    (seq 0 d).

(** [np.cov(x, rowvar=False)]: the columns are the variables, except
    that a matrix of one row is taken as it stands, as one variable;
    the result is squeezed, so that one variable gives an array without
    axes. *)
Definition example_cov (x : ndarray) : res ndarray :=
  match np.shape x with
  | [n; d] =>
      if n =? 1 then
        if d <=? 1 then Raise (ValueError "degrees of freedom <= 0")
        else Ok (np.mk [] (covariances 1 d (np.data x)))
      else if n =? 0 then
        if d =? 0 then Ok (np.mk [0; 0] [])
        else Raise (ValueError "degrees of freedom <= 0")
      else Ok (np.mk (if d =? 1 then [] else [d; d])
                 (covariances d n (np.data x)))
  | _ => Raise (ValueError "expected a matrix")
  end.

(** [np.linalg.inv]: an array of fewer than two axes, a matrix that is
    not square and a singular matrix raise [LinAlgError]. *)
Definition example_inv (a : ndarray) : res ndarray :=
  match np.shape a, np.data a with
  | [0; 0], [] => Ok (np.mk [0; 0] [])
  | [1; 1], [v] =>
      if Req_dec_T v 0 then Raise LinAlgError else Ok (np.mk [1; 1] [(/ v)%R])
  | [2; 2], [p; q; r; t] =>
      let det := (p * t - q * r)%R in
      if Req_dec_T det 0 then Raise LinAlgError
      else Ok (np.mk [2; 2] [(t / det)%R; (- q / det)%R;
                             (- r / det)%R; (p / det)%R])
  | _, _ => Raise LinAlgError
  end.

Definition example_amax (a : ndarray) : res R :=
  match np.data a with
  | [] => Raise (ValueError "zero-size array to reduction operation maximum")
  | v :: vs => Ok (foldr Rmax v vs)
  end.

(** Names without repetition; an empty list of names is refused. *)
Definition example_var_check (names : list string) : res (list string) :=
  match names with
  | [] => Raise (ValueError "extract_vars should not be empty.")
  | _ => Ok (remove_dups names)
  end.

Definition example_library : library :=
  {| argsort := stable_argsort;
     mean0 := example_mean0;
     cov := example_cov;
     inv := example_inv;
     percentile := fun _ _ => Raise (ValueError "percentile is not provided");
     amax := example_amax;
     _var_check := example_var_check |}.

(** ** Pipelines for the examples *)

(** Kernels that copy their input, for pipelines whose kernels take no
    part in the result. *)
Definition copy_kernels : constraint_kernels :=
  let f : kernel1 := fun x _ _ _ => x in
  let f2 : kernel2 := fun x _ _ _ _ => x in
  {| _from_original_f := f;  _from_original_f2 := f2;
     _from_original_j := f;  _from_original_j2 := f2;
     _from_original_jj := f; _from_original_jj2 := f2;
     _to_original_f := f;    _to_original_f2 := f2;
     _to_original_j := f;    _to_original_j2 := f2;
     _to_original_jj := f;   _to_original_jj2 := f2 |}.

(** A pipeline base with [var_scales=None], [hard_bounds=False]. *)
Definition unscaled : PipelineBase :=
  {| _var_scales := None; _hard_bounds := inl false |}.


(** A stage that hands its input on under another name. *)
Definition rename_stage (a b : string) : Mod.t :=
  {| Mod._input_vars := [a];
     Mod._output_vars := [b];
     Mod._copy_vars := [];
     Mod._paste_vars := [];
     Mod._delete_vars := [];
     Mod.fun_ := fun xs => Ok xs;
     Mod.fun_and_jac := fun xs =>
       Ok (xs, map (fun x => np.mk [np.size x; np.size x]
                               (flat_map (fun i =>
                                  map (fun j => if i =? j then 1%R else 0%R)
                                      (seq 0 (np.size x)))
                                  (seq 0 (np.size x)))) xs) |}.

(** A surrogate of that kind with the scope [(start, extent)]. *)
Definition surrogate_at (start extent : Z) : Surrogate :=
  {| stage := rename_stage "__var__" "__var__";
     _scope := (start, extent);
     scales := None;
     fit_ := fun _ _ _ => Ok tt |}.

(** Five modules, no surrogate, no scales. *)
Definition five_modules : Pipeline :=
  {| base := unscaled;
     _module_list := repeat (rename_stage "__var__" "__var__") 5;
     _surrogate_list := [];
     _surrogate_recipe := [];
     _input_vars := ["__var__"];
     _input_cum := None |}.

(** The five modules with one surrogate for the modules 1 and 2. *)
Definition five_with_surrogate : Pipeline :=
  {| base := unscaled;
     _module_list := repeat (rename_stage "__var__" "__var__") 5;
     _surrogate_list := [surrogate_at 1 2];
     _surrogate_recipe := [{| r_index := 0; r_start := 1; r_extent := 2 |}];
     _input_vars := ["__var__"];
     _input_cum := None |}.

(** A stage that copies its input twice without paste names and then
    deletes it. *)
Definition copying_stage (v : string) : Mod.t :=
  {| Mod._input_vars := [v];
     Mod._output_vars := [v];
     Mod._copy_vars := [v; v];
     Mod._paste_vars := [];
     Mod._delete_vars := [v];
     Mod.fun_ := fun xs => Ok xs;
     Mod.fun_and_jac := fun xs => Ok (xs, map (fun x => np.eye (np.size x)) xs) |}.

(** A store that binds [v] to a value and to a Jacobian. *)
Definition store_of (v : string) (val jacv : ndarray) : VariableDict :=
  {| _fun := {[ v := val ]}; _jac := {[ v := jacv ]} |}.

(** A stage that binds [b] to its input [a] and then deletes a variable
    [c]; and the pipeline of that one stage. *)
Definition deleting_stage (a b c : string) : Mod.t :=
  {| Mod._input_vars := [a];
     Mod._output_vars := [b];
     Mod._copy_vars := [];
     Mod._paste_vars := [];
     Mod._delete_vars := [c];
     Mod.fun_ := fun xs => Ok xs;
     Mod.fun_and_jac := fun xs => Ok (xs, map (fun x => np.eye (np.size x)) xs) |}.

Definition one_module (m : Mod.t) (input_var : string) : Pipeline :=
  {| base := unscaled;
     _module_list := [m];
     _surrogate_list := [];
     _surrogate_recipe := [];
     _input_vars := [input_var];
     _input_cum := None |}.

(** The pipeline [y = f(x)], [z = g(y)] on one input variable. *)
Definition two_modules (b : PipelineBase) (f g : Mod.t) (x : string) : Pipeline :=
  {| base := b;
     _module_list := [f; g];
     _surrogate_list := [];
     _surrogate_recipe := [];
     _input_vars := [x];
     _input_cum := None |}.

(** A stage of one input and one output with a linear map as its body:
    its local Jacobian is the matrix [J]. *)
Definition linear_stage (a b : string) (J : ndarray) : Mod.t :=
  {| Mod._input_vars := [a];
     Mod._output_vars := [b];
     Mod._copy_vars := [];
     Mod._paste_vars := [];
     Mod._delete_vars := [];
     Mod.fun_ := fun xs =>
       match xs with
       | [x] => y ← np.dot J x; Ok [y]
       | _ => Raise TypeError
       end;
     Mod.fun_and_jac := fun xs =>
       match xs with
       | [x] => y ← np.dot J x; Ok ([y], [J])
       | _ => Raise TypeError
       end |}.

(** A stage of two inputs and one output: the linear map [J] of the
    two inputs, one after the other. *)
Definition joining_stage (a1 a2 b : string) (J : ndarray) : Mod.t :=
  {| Mod._input_vars := [a1; a2];
     Mod._output_vars := [b];
     Mod._copy_vars := [];
     Mod._paste_vars := [];
     Mod._delete_vars := [];
     Mod.fun_ := fun xs =>
       match xs with
       | [x1; x2] => x ← np.concatenate [x1; x2]; y ← np.dot J x; Ok [y]
       | _ => Raise TypeError
       end;
     Mod.fun_and_jac := fun xs =>
       match xs with
       | [x1; x2] => x ← np.concatenate [x1; x2]; y ← np.dot J x; Ok ([y], [J])
       | _ => Raise TypeError
       end |}.

(** A density over the pipeline of one stage that hands [__var__] on,
    with no decay state yet. *)
Definition plain_density : Density :=
  {| pipeline := one_module (rename_stage "__var__" "__var__") "__var__";
     _density_name := "__var__";
     _use_decay := false;
     _mu := None; _hess := None;
     _alpha := None; _alpha2 := None; _gamma := None |}.

(** Five samples of two coordinates, around [(0, 0)]. *)
Definition five_samples : ndarray :=
  np.mk [5; 2] [2%R; 0%R; (-2)%R; 0%R; 0%R; 2%R; 0%R; (-2)%R; 0%R; 0%R].

(** Two samples of one coordinate. *)
Definition two_samples : ndarray := np.mk [2; 1] [1%R; 3%R].

(** ** The penalty as the specification words it

    [gamma * max(0, beta2 - alpha2)], to compare with what [logp]
    subtracts. *)
Definition spec_penalty (gamma alpha2 beta2 : R) : R :=
  (gamma * Rmax 0 (beta2 - alpha2))%R.

(** The squared Mahalanobis distance of a point whose offset from the
    centre is [v], under the matrix [H] of [d] rows and columns. *)
Definition squared_distance (d : nat) (v H : list R) : R :=
  np.Rsum (map (fun i =>
             np.Rsum (map (fun j =>
                        (nth i v 0 * nth (i * d + j) H 0 * nth j v 0)%R)
                      (seq 0 d)))
           (seq 0 d)).

(** A matrix that equals its transpose. *)
Definition symmetric (d : nat) (H : list R) : Prop :=
  forall i j, i < d -> j < d -> nth (i * d + j) H 0%R = nth (j * d + i) H 0%R.

(** The density above with a decay state around the centre [0]: unit
    precision, [alpha = 2] and [gamma = 1/10]. *)
Definition decayed_density : Density :=
  {| pipeline := one_module (rename_stage "__var__" "__var__") "__var__";
     _density_name := "__var__";
     _use_decay := true;
     _mu := Some (np.mk [1] [0%R]);
     _hess := Some (np.mk [1; 1] [1%R]);
     _alpha := Some 2%R; _alpha2 := Some (2 * 2)%R;
     _gamma := Some (1 / 10)%R |}.

(* ===================================================================== *)
(** * Part II: properties *)
(* ===================================================================== *)

(** ** Facts about arrays *)

Lemma flat_map_ext_elem {A B : Type} (f g : A -> list B) (l : list A) :
  (forall x, In x l -> f x = g x) -> flat_map f l = flat_map g l.
Proof.
  induction l as [|x l IH]; intros H; [reflexivity|].
  cbn. rewrite (H x) by (left; reflexivity).
  rewrite IH by (intros y Hy; apply H; right; exact Hy). reflexivity.
Qed.

Lemma chunk_succ (p i : nat) (d : list R) :
  np.chunk p (S i) d = np.chunk p i (drop p d).
Proof.
  unfold np.chunk. rewrite drop_drop. do 2 f_equal; lia.
Qed.

Lemma flat_map_zip_chunks (f : R -> R -> R) (p n : nat) :
  forall d1 d2 : list R,
    length d1 = n * p -> length d2 = n * p ->
    flat_map (fun i => zip_with f (np.chunk p i d1) (np.chunk p i d2)) (seq 0 n)
    = zip_with f d1 d2.
Proof.
  induction n as [|n IH]; intros d1 d2 H1 H2.
  - destruct d1; [reflexivity | discriminate].
  - cbn [seq flat_map]. rewrite <- seq_shift, flat_map_concat_map, map_map.
    rewrite <- flat_map_concat_map.
    rewrite (flat_map_ext _
      (fun i => zip_with f (np.chunk p i (drop p d1)) (np.chunk p i (drop p d2))))
      by (intros i; rewrite !chunk_succ; reflexivity).
    rewrite IH by (rewrite length_drop; lia).
    unfold np.chunk; cbn [Nat.mul drop].
    rewrite <- zip_with_take, <- (zip_with_drop f p). apply take_drop.
Qed.

Lemma broadcast_index_same (n i : nat) :
  i < n -> (if n =? 1 then 0 else i) = i.
Proof. intros Hi. destruct (Nat.eqb_spec n 1); lia. Qed.

Lemma broadcast_data_same (f : R -> R -> R) (s : list nat) :
  forall d1 d2 : list R,
    length d1 = np.prod s -> length d2 = np.prod s ->
    np.broadcast_data f 0%R 0%R s s d1 d2 = zip_with f d1 d2.
Proof.
  induction s as [|n s IH]; intros d1 d2 H1 H2.
  - cbn in *. destruct d1 as [|a [|? ?]]; try discriminate.
    destruct d2 as [|b [|? ?]]; try discriminate. reflexivity.
  - cbn [np.broadcast_data]. cbn [np.prod foldr] in H1, H2.
    fold (np.prod s) in H1, H2.
    replace (if n =? 1 then n else n) with n by (destruct (n =? 1); reflexivity).
    rewrite <- (flat_map_zip_chunks f (np.prod s) n d1 d2) by lia.
    apply flat_map_ext_elem. intros i Hi%in_seq.
    rewrite broadcast_index_same by lia.
    apply IH; unfold np.chunk; rewrite length_take, length_drop; nia.
Qed.

Lemma broadcast_shapes_same (s : list nat) : np.broadcast_shapes s s = Some s.
Proof.
  induction s as [|n s IH]; [reflexivity|].
  cbn. rewrite IH, Nat.eqb_refl. reflexivity.
Qed.

Lemma pad_shape_same (s : list nat) : np.pad_shape (length s) s = s.
Proof. unfold np.pad_shape. rewrite Nat.sub_diag. reflexivity. Qed.

(** On operands of one shape a binary operation works entry by entry. *)
Lemma binop_same_shape (f : R -> R -> R) (a b : ndarray) :
  np.wf a -> np.wf b -> np.shape a = np.shape b ->
  np.binop f a b = Ok (np.mk (np.shape a) (zip_with f (np.data a) (np.data b))).
Proof.
  unfold np.wf, np.size, np.binop, np.ndim. intros Ha Hb Hs.
  rewrite <- Hs in *. rewrite Nat.max_id, pad_shape_same, broadcast_shapes_same.
  rewrite broadcast_data_same by assumption. reflexivity.
Qed.

Lemma zip_with_sub_add (d e : list R) :
  length d = length e ->
  zip_with Rplus (zip_with Rminus d e) e = d.
Proof.
  revert e. induction d as [|x d IH]; intros [|y e] H; try discriminate.
  - reflexivity.
  - cbn. f_equal; [lra | apply IH; injection H; auto].
Qed.

Lemma sum_last_wf (a s : ndarray) : np.sum_last a = Ok s -> np.wf s.
Proof.
  unfold np.sum_last. destruct (reverse (np.shape a)); intros [= <-];
    [reflexivity|].
  unfold np.wf, np.size. cbn.
  rewrite length_map, length_seq. reflexivity.
Qed.

Lemma map_entries_wf (f : R -> R) (a : ndarray) : np.wf a -> np.wf (np.map_entries f a).
Proof. unfold np.wf, np.size. cbn. rewrite length_map. auto. Qed.

(** ** The transform layer without scales *)

Lemma ones_like_spec (x : ndarray) :
  np.shape (np.ones_like x) = np.shape x /\
  np.wf (np.ones_like x) /\
  Forall (fun v => v = 1%R) (np.data (np.ones_like x)).
Proof.
  unfold np.ones_like, np.wf, np.size; cbn. rewrite repeat_length.
  repeat split. apply Forall_forall. intros v Hv%list_elem_of_In.
  eapply repeat_spec, Hv.
Qed.

Lemma zeros_like_spec (x : ndarray) :
  np.shape (np.zeros_like x) = np.shape x /\
  np.wf (np.zeros_like x) /\
  Forall (fun v => v = 0%R) (np.data (np.zeros_like x)).
Proof.
  unfold np.zeros_like, np.wf, np.size; cbn. rewrite repeat_length.
  repeat split. apply Forall_forall. intros v Hv%list_elem_of_In.
  eapply repeat_spec, Hv.
Qed.

Section unscaled_layer.
Context (K : constraint_kernels) (self : PipelineBase).
Hypothesis no_scales : _var_scales self = None.

Lemma constraint_unscaled (x : ndarray) (f : kernel1) (f2 : kernel2) (k : Z) :
  _constraint self x out_True f f2 k =
  match k with
  | 0%Z => Ok {| returned := Some x; written := None |}
  | 1%Z => Ok {| returned := Some (np.ones_like x); written := None |}
  | 2%Z => Ok {| returned := Some (np.zeros_like x); written := None |}
  | _ => Raise (RuntimeError "unexpected value for k.")
  end.
Proof using no_scales.
  unfold _constraint. rewrite no_scales.
  destruct k as [|[p|p|]|p]; try reflexivity; destruct p; reflexivity.
Qed.

(** C6: without scales the value maps return their argument, the first
    derivatives an array of ones and the second derivatives an array of
    zeros, each of the shape of the argument. *)
Theorem C6_identity_without_scales (x : ndarray) :
  from_original K self x out_True = Ok {| returned := Some x; written := None |} /\
  to_original K self x out_True = Ok {| returned := Some x; written := None |} /\
  (exists ones,
     from_original_grad K self x out_True
       = Ok {| returned := Some ones; written := None |} /\
     to_original_grad K self x out_True
       = Ok {| returned := Some ones; written := None |} /\
     np.shape ones = np.shape x /\ np.wf ones /\
     Forall (fun v => v = 1%R) (np.data ones)) /\
  (exists zeros,
     from_original_grad2 K self x out_True
       = Ok {| returned := Some zeros; written := None |} /\
     to_original_grad2 K self x out_True
       = Ok {| returned := Some zeros; written := None |} /\
     np.shape zeros = np.shape x /\ np.wf zeros /\
     Forall (fun v => v = 0%R) (np.data zeros)).
Proof using no_scales.
  unfold from_original, to_original, from_original_grad, to_original_grad,
    from_original_grad2, to_original_grad2.
  rewrite !constraint_unscaled. repeat split.
  - exists (np.ones_like x). repeat split; apply ones_like_spec.
  - exists (np.zeros_like x). repeat split; apply zeros_like_spec.
Qed.

End unscaled_layer.

Lemma C6_identity_without_scales_witness :
  from_original copy_kernels unscaled (np.mk [2] [3%R; 4%R]) out_True
  = Ok {| returned := Some (np.mk [2] [3%R; 4%R]); written := None |}.
Proof.
  apply (C6_identity_without_scales copy_kernels unscaled eq_refl).
Defined.

(** ** The log-Jacobian difference and the density conversions *)

Section density_conversion.
Context (K : constraint_kernels) (self : PipelineBase).

Lemma get_diff_wf (x x_trans : option ndarray) (diff : ndarray) :
  _get_diff K self x x_trans = Ok diff -> np.wf diff.
Proof.
  unfold _get_diff. destruct x as [x|]; [|destruct x_trans as [xt|]]; try discriminate.
  - destruct (from_original_grad K self x out_True) as [g|]; [|discriminate]. cbn.
    destruct (as_array g) as [a|]; [|discriminate]. cbn.
    destruct (np.sum_last _) as [s|] eqn:Hs; [|discriminate]. cbn.
    intros [= <-]. apply map_entries_wf. eapply sum_last_wf, Hs.
  - destruct (to_original_grad K self xt out_True) as [g|]; [|discriminate]. cbn.
    destruct (as_array g) as [a|]; [|discriminate]. cbn.
    apply sum_last_wf.
Qed.

(** C8, as the code has it: the call fails for want of a coordinate only
    when both are [None]; a given [x] is used and [x_trans] is then not
    looked at: the result is minus the sum, along the last axis, of the
    logarithms of the absolute values of [from_original_grad(x)];
    without [x] the coordinate [x_trans] is used: the result is the sum,
    along the last axis, of the logarithms of the absolute values of
    [to_original_grad(x_trans)], and what that call raises is raised. *)
Theorem C8_get_diff_arguments :
  _get_diff K self None None
    = Raise (ValueError "x and x_trans cannot both be None.") /\
  (forall (x : ndarray) (x_trans : option ndarray),
     _get_diff K self (Some x) x_trans = _get_diff K self (Some x) None) /\
  (forall (x : ndarray) (x_trans : option ndarray) (r : constraint_result)
          (g : ndarray),
     from_original_grad K self x out_True = Ok r -> returned r = Some g ->
     exists s,
       np.sum_last (np.log (np.abs g)) = Ok s /\
       _get_diff K self (Some x) x_trans = Ok (np.neg s)) /\
  (forall (x_trans : ndarray) (r : constraint_result) (g : ndarray),
     to_original_grad K self x_trans out_True = Ok r -> returned r = Some g ->
     exists s,
       np.sum_last (np.log (np.abs g)) = Ok s /\
       _get_diff K self None (Some x_trans) = Ok s) /\
  (forall (x_trans : ndarray) (e : exn),
     to_original_grad K self x_trans out_True = Raise e ->
     _get_diff K self None (Some x_trans) = Raise e).
Proof.
  assert (forall a, exists s, np.sum_last a = Ok s) as Hsum.
  { intros a. unfold np.sum_last. destruct (reverse (np.shape a)); eauto. }
  split; [reflexivity|]. split; [reflexivity|]. split; [|split].
  - intros x x_trans r g Hr Hg. unfold _get_diff. rewrite Hr.
    cbn [mbind res_bind]. unfold as_array. rewrite Hg. cbn [mbind res_bind].
    destruct (Hsum (np.log (np.abs g))) as [s Hs]. exists s.
    rewrite Hs. split; reflexivity.
  - intros x_trans r g Hr Hg. unfold _get_diff. rewrite Hr.
    cbn [mbind res_bind]. unfold as_array. rewrite Hg. cbn [mbind res_bind].
    destruct (Hsum (np.log (np.abs g))) as [s Hs]. exists s.
    rewrite Hs. split; reflexivity.
  - intros x_trans e Hr. unfold _get_diff. rewrite Hr. reflexivity.
Qed.

(** C9, as the code has it: for a density of the shape of the
    log-Jacobian difference the two conversions undo each other, and
    each of them refuses a density whose element count differs. *)
Theorem C9_density_round_trip (d x_o diff : ndarray) :
  _get_diff K self (Some x_o) None = Ok diff ->
  (np.wf d -> np.shape d = np.shape diff ->
   exists d',
     to_original_density K self d None (Some x_o) = Ok d' /\
     from_original_density K self d' (Some x_o) None = Ok d) /\
  (np.size d <> np.size diff ->
   to_original_density K self d None (Some x_o)
     = Raise (ValueError
         "the shape of density is inconsistent with the shape of x_trans or x.") /\
   from_original_density K self d (Some x_o) None
     = Raise (ValueError
         "the shape of density is inconsistent with the shape of x or x_trans.")).
Proof.
  intros Hdiff. pose proof (get_diff_wf _ _ _ Hdiff) as Hwf.
  unfold to_original_density, from_original_density. rewrite Hdiff. cbn.
  split.
  - intros Hd Hs.
    assert (Hlen : length (np.data d) = length (np.data diff)).
    { unfold np.wf, np.size in *. congruence. }
    exists (np.mk (np.shape d) (zip_with Rminus (np.data d) (np.data diff))).
    unfold np.size at 1 2. rewrite Hs, Nat.eqb_refl. cbn [negb]. split.
    + unfold np.sub. rewrite binop_same_shape by assumption. congruence.
    + unfold np.size at 1 2. cbn [np.shape]. rewrite Nat.eqb_refl. cbn [negb].
      unfold np.add. rewrite binop_same_shape; cbn [np.shape np.data];
        try assumption; try reflexivity.
      * rewrite zip_with_sub_add by assumption. destruct d; cbn in *; congruence.
      * unfold np.wf, np.size in *. cbn [np.shape np.data].
        rewrite length_zip_with. lia.
  - intros Hne. apply Nat.eqb_neq in Hne. rewrite Hne. split; reflexivity.
Qed.

End density_conversion.

Lemma C8_both_coordinates_counterexample :
  _get_diff copy_kernels unscaled
    (Some (np.mk [1] [5%R])) (Some (np.mk [1] [7%R]))
  = Ok (np.mk [] [0%R]).
Proof.
  cbn. unfold np.neg, np.map_entries, np.Rsum, np.chunk. cbn.
  do 3 f_equal. rewrite Rabs_R1, ln_1. lra.
Qed.

Lemma C8_get_diff_arguments_witness :
  exists s,
    np.sum_last (np.log (np.abs (np.ones_like (np.mk [2; 1] [5%R; 6%R])))) = Ok s /\
    _get_diff copy_kernels unscaled None (Some (np.mk [2; 1] [5%R; 6%R])) = Ok s.
Proof.
  destruct (C8_get_diff_arguments copy_kernels unscaled)
    as (_ & _ & _ & Hused & _).
  apply (Hused (np.mk [2; 1] [5%R; 6%R])
           {| returned := Some (np.ones_like (np.mk [2; 1] [5%R; 6%R]));
              written := None |}
           (np.ones_like (np.mk [2; 1] [5%R; 6%R])) eq_refl eq_refl).
Defined.

Lemma C9_density_round_trip_witness :
  exists d',
    to_original_density copy_kernels unscaled
      (np.mk [2] [1%R; 2%R]) None (Some (np.mk [2; 1] [5%R; 6%R])) = Ok d' /\
    from_original_density copy_kernels unscaled
      d' (Some (np.mk [2; 1] [5%R; 6%R])) None = Ok (np.mk [2] [1%R; 2%R]).
Proof.
  eapply (proj1 (C9_density_round_trip copy_kernels unscaled
                   (np.mk [2] [1%R; 2%R]) (np.mk [2; 1] [5%R; 6%R]) _ eq_refl));
    reflexivity.
Defined.

(** A column of three log-densities against three coordinates: the
    element counts agree, the first conversion broadcasts the column
    against the row of differences, and the second conversion refuses
    the nine entries that result. *)
Lemma C9_column_density_counterexample :
  let d := np.mk [3; 1] [1%R; 2%R; 3%R] in
  let x_o := np.mk [3; 2] [0%R; 0%R; 0%R; 0%R; 0%R; 0%R] in
  np.wf d /\ np.wf x_o /\
  (exists diff, _get_diff copy_kernels unscaled (Some x_o) None = Ok diff /\
                np.size d = np.size diff) /\
  exists d',
    to_original_density copy_kernels unscaled d None (Some x_o) = Ok d' /\
    np.shape d' = [3; 3] /\
    from_original_density copy_kernels unscaled d' (Some x_o) None
    = Raise (ValueError
        "the shape of density is inconsistent with the shape of x or x_trans.").
Proof.
  cbv zeta. split; [reflexivity|]. split; [reflexivity|]. split.
  - eexists. split; reflexivity.
  - eexists. split; [reflexivity|]. split; reflexivity.
Qed.

(** ** The surrogate recipe *)

Lemma FOP_Permutation {A : Type} (R : A -> A -> Prop) (l l' : list A) :
  (forall x y, R x y -> R y x) ->
  l ≡ₚ l' -> ForallOrdPairs R l -> ForallOrdPairs R l'.
Proof.
  intros Hsym Hp. induction Hp as [|x l l' Hp IH|x y l|l l' l'' Hp1 IH1 Hp2 IH2];
    intros H.
  - constructor.
  - inversion H as [|? ? Hx Hl]; subst. constructor; [|auto].
    eapply Forall_forall. intros z Hz. eapply Forall_forall in Hx; [exact Hx|].
    rewrite Hp. exact Hz.
  - inversion H as [|? ? Hy Hl]; subst. inversion Hl as [|? ? Hx Hl']; subst.
    inversion Hy as [|? ? Hyx Hy']; subst.
    constructor; [constructor; [apply Hsym, Hyx | exact Hx]|].
    constructor; assumption.
  - auto.
Qed.

Lemma FOP_map {A B : Type} (f : A -> B) (R : B -> B -> Prop) (l : list A) :
  ForallOrdPairs R (map f l) <-> ForallOrdPairs (fun x y => R (f x) (f y)) l.
Proof.
  induction l as [|x l IH]; cbn.
  - split; constructor.
  - split; intros H; inversion H as [|? ? Hx Hl]; subst; constructor.
    + apply (proj1 (List.Forall_map f (R (f x)) l)), Hx.
    + apply IH, Hl.
    + apply (proj2 (List.Forall_map f (R (f x)) l)), Hx.
    + apply IH, Hl.
Qed.

Lemma tag_scopes_from (k : nat) (sl : list Surrogate) :
  map row_scope
    (imap (fun i s => {| r_index := Z.of_nat (k + i);
                         r_start := fst (_scope s);
                         r_extent := snd (_scope s) |}) sl)
  = map _scope sl.
Proof.
  revert k. induction sl as [|s sl IH]; intros k; [reflexivity|].
  cbn [imap map]. f_equal.
  - unfold row_scope; cbn. destruct (_scope s); reflexivity.
  - rewrite <- (IH (S k)). f_equal. apply imap_ext. intros i x _. cbn.
    do 2 f_equal. lia.
Qed.

Lemma tag_scopes_scopes (sl : list Surrogate) :
  map row_scope (tag_scopes sl) = map _scope sl.
Proof. apply (tag_scopes_from 0). Qed.

Lemma map_nth_seq {A : Type} (d : A) (l : list A) :
  map (fun i => nth i l d) (seq 0 (length l)) = l.
Proof.
  induction l as [|x l IH]; [reflexivity|].
  cbn [length seq map nth]. f_equal.
  rewrite <- seq_shift, map_map. exact IH.
Qed.

Lemma take_rows_in_range {A : Type} (d : A) (a : list A) (order : list nat) :
  Forall (fun i => i < length a) order ->
  take_rows a order = Ok (map (fun i => nth i a d) order).
Proof.
  unfold take_rows. induction 1 as [|i order Hi _ IH]; [reflexivity|].
  cbn [comprehension map]. destruct (a !! i) as [r|] eqn:Hr.
  - cbn. rewrite IH. cbn. rewrite (nth_lookup_Some _ _ _ _ Hr). reflexivity.
  - apply lookup_ge_None in Hr. lia.
Qed.

Lemma take_rows_Permutation {A : Type} (d : A) (a : list A) (order : list nat) :
  order ≡ₚ seq 0 (length a) ->
  take_rows a order = Ok (map (fun i => nth i a d) order) /\
  map (fun i => nth i a d) order ≡ₚ a.
Proof.
  intros Hp. split.
  - apply take_rows_in_range. apply Forall_forall. intros i Hi.
    rewrite Hp in Hi. apply elem_of_seq in Hi. lia.
  - etransitivity; [apply Permutation_map, Hp|].
    rewrite map_nth_seq. reflexivity.
Qed.

Lemma Sorted_map_iff {A B : Type} (f : A -> B) (R : B -> B -> Prop) (l : list A) :
  Sorted R (map f l) <-> Sorted (fun x y => R (f x) (f y)) l.
Proof.
  induction l as [|x l IH]; cbn.
  - split; constructor.
  - split; intros H; inversion H as [|? ? Hl Hx]; subst; constructor;
      try (apply IH; exact Hl).
    + destruct l; cbn in *; constructor. inversion Hx; subst; assumption.
    + destruct l; cbn in *; constructor. inversion Hx; subst; assumption.
Qed.

Lemma wrap64_id (z : Z) : is_int64 z -> wrap64 z = z.
Proof.
  unfold is_int64, wrap64. intros Hz. rewrite Z.mod_small by lia. lia.
Qed.

Lemma check_overlap_cons (k : nat) (r1 r2 : recipe_row) (rows : list recipe_row) :
  check_overlap k (r1 :: r2 :: rows)
  = if (wrap64 (r_start r1 + r_extent r1) >? r_start r2)%Z
    then Raise (ValueError
           ("the #" +:+ pretty k +:+
            " surrogate model overlaps with the next one."))
    else check_overlap (S k) (r2 :: rows).
Proof. reflexivity. Qed.

(** The scan returns exactly on the lists whose adjacent rows pass the
    test, and otherwise raises for the first pair that fails it. *)
Lemma check_overlap_spec (rows : list recipe_row) : forall k : nat,
  (Sorted no_overlap rows /\ check_overlap k rows = Ok tt) \/
  (exists i r1 r2,
     rows !! i = Some r1 /\ rows !! (S i) = Some r2 /\
     (wrap64 (r_start r1 + r_extent r1) > r_start r2)%Z /\
     Sorted no_overlap (take (S i) rows) /\
     check_overlap k rows
     = Raise (ValueError
         ("the #" +:+ pretty (k + i) +:+
          " surrogate model overlaps with the next one."))).
Proof.
  induction rows as [|r1 rows IH]; intros k.
  - left. split; [constructor | reflexivity].
  - destruct rows as [|r2 rows].
    + left. split; [repeat constructor | reflexivity].
    + rewrite check_overlap_cons.
      destruct (Z.gtb_spec (wrap64 (r_start r1 + r_extent r1)) (r_start r2))
        as [Hgt|Hle].
      * right. exists 0, r1, r2. rewrite Nat.add_0_r.
        repeat split; try reflexivity; [lia | repeat constructor].
      * destruct (IH (S k)) as [[Hs Hc]|(i & a & b & Ha & Hb & Hgt & Hs & Hc)].
        -- left. split; [|exact Hc]. constructor; [exact Hs|].
           constructor. exact Hle.
        -- right. exists (S i), a, b. repeat split; try assumption.
           ++ cbn [take]. constructor; [exact Hs|].
              cbn [take]. constructor. exact Hle.
           ++ replace (k + S i) with (S k + i) by lia. exact Hc.
Qed.

Lemma check_overlap_Ok_iff (rows : list recipe_row) (k : nat) :
  check_overlap k rows = Ok tt <-> Sorted no_overlap rows.
Proof.
  destruct (check_overlap_spec rows k)
    as [[Hs Hc]|(i & r1 & r2 & H1 & H2 & Hgt & _ & Hc)].
  - tauto.
  - rewrite Hc. split; [discriminate|]. intros Hs. exfalso. clear Hc.
    revert i H1 H2. induction Hs as [|a l Hl IH Hhd]; intros i H1 H2.
    + discriminate.
    + destruct i as [|i].
      * cbn in H1, H2. injection H1 as ->. destruct l as [|b l]; [discriminate|].
        cbn in H2. injection H2 as ->. inversion Hhd; subst.
        unfold no_overlap in *. lia.
      * cbn in H1, H2. eapply IH; eassumption.
Qed.

Lemma Sorted_ends_before_strong (rows : list recipe_row) :
  Forall (fun r => (0 < r_extent r)%Z) rows ->
  Sorted ends_before rows -> StronglySorted ends_before rows.
Proof.
  intros Hpos Hs. induction Hs as [|a l Hl IH Hhd]; [constructor|].
  inversion Hpos as [|? ? Ha Hposl]; subst. specialize (IH Hposl).
  constructor; [exact IH|].
  destruct l as [|b l]; [constructor|].
  inversion Hhd as [|? ? Hab]; subst. constructor; [exact Hab|].
  inversion IH as [|? ? _ Hb]; subst.
  inversion Hposl as [|? ? Hbpos _]; subst.
  eapply Forall_impl; [exact Hb|]. unfold ends_before in *. cbn. intros c Hc. lia.
Qed.

Lemma StronglySorted_FOP {A : Type} (R S : A -> A -> Prop) (l : list A) :
  (forall x y, R x y -> S x y) -> StronglySorted R l -> ForallOrdPairs S l.
Proof.
  intros HRS. induction 1 as [|a l Hl IH Ha]; constructor; [|exact IH].
  eapply Forall_impl; [exact Ha|]. cbn. auto.
Qed.

Lemma Sorted_start_disjoint (rows : list recipe_row) :
  Forall (fun r => (0 < r_extent r)%Z) rows ->
  Sorted (fun a b => (r_start a <= r_start b)%Z) rows ->
  ForallOrdPairs (fun a b => scope_disjoint (row_scope a) (row_scope b)) rows ->
  Sorted ends_before rows.
Proof.
  intros Hpos Hs. induction Hs as [|a l Hl IH Hhd]; intros Hd; [constructor|].
  inversion Hpos as [|? ? Ha Hposl]; subst.
  inversion Hd as [|? ? Had Hdl]; subst.
  constructor; [auto|].
  destruct l as [|b l]; constructor.
  inversion Hhd as [|? ? Hab]; subst.
  inversion Had as [|? ? Hdab _]; subst.
  inversion Hposl as [|? ? Hbpos _]; subst.
  unfold ends_before, scope_disjoint, row_scope in *. cbn in *. lia.
Qed.

(** On rows that end within 64 bits the scan tests whether each row
    ends before the next begins. *)
Lemma Sorted_no_overlap_exact (rows : list recipe_row) :
  Forall (fun r => is_int64 (r_start r + r_extent r)) rows ->
  Sorted no_overlap rows <-> Sorted ends_before rows.
Proof.
  intros Hin. induction Hin as [|a l Ha Hl IH].
  - split; constructor.
  - split; intros Hs; inversion Hs as [|? ? Hs' Hhd]; subst;
      (constructor; [apply IH, Hs'|]);
      (destruct Hhd as [|b l' Hab]; constructor);
      unfold no_overlap, ends_before in *;
      rewrite (wrap64_id _ Ha) in *; exact Hab.
Qed.

Lemma np_mod_in_range (a : Z) (n : nat) :
  (0 <= a < Z.of_nat n)%Z -> np_mod a n = a.
Proof.
  intros H. unfold np_mod. destruct (Nat.eqb_spec n 0); [lia|].
  apply Z.mod_small, H.
Qed.

Lemma enumerate_positions (j : nat) (keys : list Z) :
  map fst (imap (fun i k => (j + i, k)) keys) = seq j (length keys).
Proof.
  revert j. induction keys as [|k keys IH]; intros j; [reflexivity|].
  cbn. rewrite Nat.add_0_r. f_equal. rewrite <- (IH (S j)). f_equal.
  apply imap_ext. intros i x _. cbn. f_equal. lia.
Qed.

Lemma stable_argsort_sorts : argsort_sorts stable_argsort.
Proof.
  intros keys. unfold stable_argsort.
  set (R := by_key).
  set (l := imap (fun i k => (i, k)) keys).
  assert (Hfst : map fst l = seq 0 (length keys)).
  { subst l. apply (enumerate_positions 0). }
  assert (Hnth : Forall (fun p => nth (fst p) keys 0%Z = snd p) l).
  { apply Forall_forall. intros [i k] Hin. subst l.
    apply elem_of_lookup_imap in Hin as (j & y & [= -> ->] & Hy).
    cbn. apply nth_lookup_Some, Hy. }
  assert (Htotal : Total R) by (intros a b; unfold R, by_key; lia).
  split.
  - rewrite <- Hfst. apply Permutation_map, merge_sort_Permutation.
  - rewrite map_map.
    pose proof (Sorted_merge_sort R l) as Hs.
    assert (Hnth' : Forall (fun p => nth (fst p) keys 0%Z = snd p) (merge_sort R l)).
    { rewrite merge_sort_Permutation. exact Hnth. }
    rewrite (map_ext_in _ snd).
    + apply Sorted_map_iff. exact Hs.
    + intros p Hp. eapply Forall_forall in Hnth'; [exact Hnth'|].
      apply list_elem_of_In, Hp.
Qed.

Section surrogate_recipe.
Context (L : library) (self : Pipeline).
Hypothesis argsort_ok : argsort_sorts (argsort L).

Lemma all_surrogates_map (ss : list Surrogate) (k : nat) :
  all_surrogates k (map a_Surrogate ss) = Ok ss.
Proof.
  revert k. induction ss as [|s ss IH]; intros k; [reflexivity|].
  cbn. rewrite IH. reflexivity.
Qed.

(** The recipe that is assigned is the tagged scopes sorted by the key,
    and the call returns what the scan of that recipe returns. *)
Lemma build_recipe_sorted (ss : list Surrogate) :
  exists sorted,
    sorted ≡ₚ tag_scopes ss /\
    Sorted (key_le (n_module self)) sorted /\
    _build_surrogate_recipe L self ss
    = (set_recipe self sorted, check_overlap 0 sorted).
Proof using argsort_ok.
  unfold _build_surrogate_recipe. destruct ss as [|s0 ss'] eqn:Hss.
  - exists []. repeat split; constructor.
  - rewrite <- Hss. replace (0 <? length ss) with true
      by (subst ss; reflexivity).
    set (rows := tag_scopes ss).
    set (key := fun r => np_mod (r_start r) (n_module self)).
    destruct (argsort_ok (map key rows)) as [Hperm Hsorted].
    rewrite length_map in Hperm.
    set (d := {| r_index := 0; r_start := 0; r_extent := 0 |}).
    destruct (take_rows_Permutation d rows _ Hperm) as [Htake Hp].
    rewrite Htake. eexists. split; [exact Hp|]. split; [|reflexivity].
    apply (Sorted_map_iff key Z.le). rewrite map_map.
    erewrite map_ext_in; [exact Hsorted|].
    intros i Hi. cbn. apply list_elem_of_In in Hi. rewrite Hperm in Hi.
    apply elem_of_seq in Hi. rewrite (nth_indep _ 0%Z (key d))
      by (rewrite length_map; lia).
    symmetry. apply map_nth.
Qed.

Lemma tag_scopes_positive (ss : list Surrogate) :
  Forall (fun s => (0 < snd (_scope s))%Z) ss ->
  Forall (fun r => (0 < r_extent r)%Z) (tag_scopes ss).
Proof.
  intros H. apply Forall_forall. intros r Hr.
  apply elem_of_lookup_imap in Hr as (i & s & -> & Hs). cbn.
  eapply Forall_forall in H; [exact H|]. eapply list_elem_of_lookup_2, Hs.
Qed.

Lemma tag_scopes_in_range (ss : list Surrogate) :
  Forall (scope_in_range (n_module self)) ss ->
  Forall (fun r => (0 <= r_start r < Z.of_nat (n_module self))%Z) (tag_scopes ss).
Proof.
  intros H. apply Forall_forall. intros r Hr.
  apply elem_of_lookup_imap in Hr as (i & s & -> & Hs). cbn.
  eapply Forall_forall in H; [apply H|]. eapply list_elem_of_lookup_2, Hs.
Qed.

Lemma tag_scopes_end (ss : list Surrogate) :
  Forall (scope_in_range (n_module self)) ss ->
  Forall (fun r => is_int64 (r_start r + r_extent r)) (tag_scopes ss).
Proof.
  intros H. apply Forall_forall. intros r Hr.
  apply elem_of_lookup_imap in Hr as (i & s & -> & Hs). cbn.
  eapply Forall_forall in H; [|eapply list_elem_of_lookup_2, Hs].
  destruct H as (Hstart & Hext & Hend). unfold is_int64. lia.
Qed.

(** A list of scopes in range that passes the scan has no two scopes
    that overlap. *)
Lemma accepted_disjoint (ss : list Surrogate) :
  Forall (scope_in_range (n_module self)) ss ->
  snd (_build_surrogate_recipe L self ss) = Ok tt ->
  pairwise_disjoint ss.
Proof using argsort_ok.
  intros Hr. destruct (build_recipe_sorted ss) as (sorted & Hp & _ & ->).
  cbn [snd]. intros Hok%check_overlap_Ok_iff.
  apply Sorted_no_overlap_exact in Hok;
    [|rewrite Hp; apply tag_scopes_end, Hr].
  unfold pairwise_disjoint. rewrite <- tag_scopes_scopes. apply FOP_map.
  eapply (FOP_Permutation _ sorted); [|exact Hp|].
  { unfold scope_disjoint. tauto. }
  eapply StronglySorted_FOP; [|apply Sorted_ends_before_strong; [|exact Hok]].
  - unfold ends_before, scope_disjoint, row_scope. cbn. tauto.
  - rewrite Hp. apply tag_scopes_positive.
    eapply Forall_impl; [exact Hr|]. intros s Hs. apply Hs.
Qed.

(** A list of scopes in range no two of which overlap passes the scan. *)
Lemma disjoint_accepted (ss : list Surrogate) :
  Forall (scope_in_range (n_module self)) ss ->
  pairwise_disjoint ss ->
  snd (_build_surrogate_recipe L self ss) = Ok tt.
Proof using argsort_ok.
  intros Hr Hd. destruct (build_recipe_sorted ss) as (sorted & Hp & Hs & ->).
  cbn [snd]. apply check_overlap_Ok_iff.
  apply Sorted_no_overlap_exact; [rewrite Hp; apply tag_scopes_end, Hr|].
  assert (Hrange : Forall (fun r => (0 <= r_start r < Z.of_nat (n_module self))%Z)
                     sorted).
  { rewrite Hp. apply tag_scopes_in_range, Hr. }
  apply Sorted_start_disjoint.
  - rewrite Hp. apply tag_scopes_positive.
    eapply Forall_impl; [exact Hr|]. intros s Hs'. apply Hs'.
  - clear Hp. induction Hs as [|a l Hl IH Hhd]; [constructor|].
    inversion Hrange as [|? ? Ha Hrl]; subst. constructor; [auto|].
    destruct l as [|b l]; constructor. inversion Hhd as [|? ? Hab]; subst.
    inversion Hrl as [|? ? Hb _]; subst. unfold key_le in Hab.
    rewrite !np_mod_in_range in Hab by assumption. exact Hab.
  - eapply (FOP_Permutation _ (tag_scopes ss)); [|symmetry; exact Hp|].
    { unfold scope_disjoint. tauto. }
    apply FOP_map. rewrite tag_scopes_scopes. exact Hd.
Qed.

End surrogate_recipe.

Lemma setter_builds (L : library) (self : Pipeline) (ss : list Surrogate) :
  set_surrogate_list L self (a_list (map a_Surrogate ss))
  = match _build_surrogate_recipe L self ss with
    | (self', Ok _) => (assign_surrogate_list self' ss, Ok tt)
    | (self', Raise e) => (self', Raise e)
    end.
Proof.
  unfold set_surrogate_list, _sl_check. rewrite all_surrogates_map.
  destruct (_build_surrogate_recipe L self ss) as [self' [[]|e]]; reflexivity.
Qed.

Lemma pairwise_disjoint_Permutation (ss ss' : list Surrogate) :
  ss ≡ₚ ss' -> pairwise_disjoint ss -> pairwise_disjoint ss'.
Proof.
  intros Hp. unfold pairwise_disjoint. apply FOP_Permutation.
  - unfold scope_disjoint. tauto.
  - apply Permutation_map, Hp.
Qed.

(** C2, as the code has it: assigning a list of surrogates, whose
    scopes fit 64 bits, sorts their tagged scopes by start modulo the
    module count, assigns that recipe and raises at once exactly when,
    for two adjacent rows of it, the start plus the extent of the first,
    added in 64 bits with wrap-around, exceeds the start of the second;
    an empty list gives the empty recipe; and scopes that start within
    the pipeline, have positive extents and end within 64 bits are
    accepted, in whatever order they are given, exactly when no two of
    them overlap. *)
Theorem C2_surrogate_recipe (L : library) (self : Pipeline) (ss : list Surrogate) :
  argsort_sorts (argsort L) ->
  Forall int64_scope ss ->
  (exists sorted,
     sorted ≡ₚ tag_scopes ss /\
     Sorted (key_le (n_module self)) sorted /\
     (ss = [] -> sorted = []) /\
     ((Sorted no_overlap sorted /\
       set_surrogate_list L self (a_list (map a_Surrogate ss))
       = (assign_surrogate_list (set_recipe self sorted) ss, Ok tt)) \/
      (exists i r1 r2,
         sorted !! i = Some r1 /\ sorted !! (S i) = Some r2 /\
         (wrap64 (r_start r1 + r_extent r1) > r_start r2)%Z /\
         set_surrogate_list L self (a_list (map a_Surrogate ss))
         = (set_recipe self sorted,
            Raise (ValueError
              ("the #" +:+ pretty i +:+
               " surrogate model overlaps with the next one.")))))) /\
  (Forall (scope_in_range (n_module self)) ss ->
   forall ss', ss' ≡ₚ ss ->
     (snd (set_surrogate_list L self (a_list (map a_Surrogate ss'))) = Ok tt
      <-> pairwise_disjoint ss)).
Proof.
  intros Hsort _. split.
  - destruct (build_recipe_sorted L self Hsort ss) as (sorted & Hp & Hs & Hb).
    exists sorted. split; [exact Hp|]. split; [exact Hs|]. split.
    { intros ->. apply Permutation_nil. symmetry. exact Hp. }
    rewrite setter_builds, Hb.
    destruct (check_overlap_spec sorted 0)
      as [[Hok ->]|(i & r1 & r2 & H1 & H2 & Hgt & _ & ->)].
    + left. split; [exact Hok | reflexivity].
    + right. exists i, r1, r2. repeat split; assumption.
  - intros Hr ss' Hp. rewrite setter_builds.
    assert (Hr' : Forall (scope_in_range (n_module self)) ss').
    { rewrite Hp. exact Hr. }
    split.
    + intros Hok. apply (pairwise_disjoint_Permutation ss'); [exact Hp|].
      apply (accepted_disjoint L self Hsort).
      * exact Hr'.
      * destruct (_build_surrogate_recipe L self ss') as [? [[]|?]];
          [reflexivity | discriminate].
    + intros Hd.
      pose proof (disjoint_accepted L self Hsort ss' Hr'
                    (pairwise_disjoint_Permutation _ _ (symmetry Hp) Hd)) as Hok.
      destruct (_build_surrogate_recipe L self ss') as [? [[]|?]];
        [reflexivity | discriminate].
Qed.

Lemma C2_surrogate_recipe_witness :
  snd (set_surrogate_list example_library five_modules
         (a_list (map a_Surrogate [surrogate_at 3 2; surrogate_at 0 3])))
  = Ok tt.
Proof.
  apply (proj2 (C2_surrogate_recipe example_library five_modules
                  [surrogate_at 0 3; surrogate_at 3 2] stable_argsort_sorts
                  ltac:(repeat constructor; cbn; lia))).
  - repeat constructor; cbn; lia.
  - apply perm_swap.
  - constructor; [|repeat constructor].
    constructor; [|constructor]. left. cbn. lia.
Defined.

(** Two scopes that share no step, given in the two possible orders to
    a pipeline of five modules: their starts are equal modulo five, the
    sort keeps them as given, and the scan compares the starts
    themselves. *)
Lemma C2_order_counterexample :
  pairwise_disjoint [surrogate_at 0 1; surrogate_at 5 1] /\
  snd (set_surrogate_list example_library five_modules
         (a_list (map a_Surrogate [surrogate_at 0 1; surrogate_at 5 1])))
  = Ok tt /\
  snd (set_surrogate_list example_library five_modules
         (a_list (map a_Surrogate [surrogate_at 5 1; surrogate_at 0 1])))
  = Raise (ValueError "the #0 surrogate model overlaps with the next one.").
Proof.
  split.
  { constructor; [|repeat constructor].
    constructor; [|constructor]. left. cbn. lia. }
  split; vm_compute; reflexivity.
Qed.

(** ** Copies and deletions *)

Lemma copy_name_inj (n : string) (k k' : nat) :
  copy_name n k = copy_name n k' -> k = k'.
Proof.
  unfold copy_name. intros H.
  apply String.app_inj in H. apply String.app_inj in H.
  apply pretty_nat_inj in H. exact H.
Qed.

Lemma string_length_app (s1 s2 : string) :
  String.length (s1 +:+ s2) = String.length s1 + String.length s2.
Proof.
  induction s1 as [|c s1 IH]; [reflexivity|].
  change (S (String.length (s1 +:+ s2)) = S (String.length s1 + String.length s2)).
  f_equal. exact IH.
Qed.

Lemma copy_name_longer (n : string) (k : nat) : copy_name n k <> n.
Proof.
  unfold copy_name. intros H.
  assert (Hlen : String.length (n +:+ "-Copy" +:+ pretty k) = String.length n)
    by (rewrite H; reflexivity).
  rewrite !string_length_app in Hlen. cbn in Hlen. lia.
Qed.

Lemma first_free_spec (bound : string -> bool) (n : string) (steps : nat) :
  forall (k : nat) (nn : string),
    first_free bound n steps k = Some nn ->
    exists k', k <= k' < k + steps /\ nn = copy_name n k' /\
               bound nn = false /\
               forall j, k <= j < k' -> bound (copy_name n j) = true.
Proof.
  induction steps as [|steps IH]; intros k nn H; [discriminate|].
  cbn in H. destruct (bound (copy_name n k)) eqn:Hk.
  - destruct (IH _ _ H) as (k' & Hk' & -> & Hfree & Hbelow).
    exists k'. split; [lia|]. split; [reflexivity|]. split; [exact Hfree|].
    intros j Hj. destruct (decide (j = k)) as [->|]; [exact Hk|].
    apply Hbelow. lia.
  - injection H as <-. exists k. split; [lia|]. repeat split; [exact Hk|].
    intros j Hj. lia.
Qed.

Lemma first_free_None (bound : string -> bool) (n : string) (steps : nat) :
  forall k : nat,
    first_free bound n steps k = None ->
    forall j, k <= j < k + steps -> bound (copy_name n j) = true.
Proof.
  induction steps as [|steps IH]; intros k H j Hj; [lia|].
  cbn in H. destruct (bound (copy_name n k)) eqn:Hk; [|discriminate].
  destruct (decide (j = k)) as [->|]; [exact Hk|].
  apply (IH (S k)); [exact H | lia].
Qed.

(** Only so many of the names [n-Copy<k>] fit in a finite set. *)
Lemma copy_names_in_set (X : gset string) (n : string) (k steps : nat) :
  (forall j, k <= j < k + steps -> copy_name n j ∈ X) -> steps <= size X.
Proof.
  intros H. set (names := copy_name n <$> seq k steps).
  assert (Hnd : NoDup names).
  { apply NoDup_fmap_2; [|apply NoDup_seq].
    intros a b. apply copy_name_inj. }
  assert (Hlen : length names = steps).
  { unfold names. rewrite length_fmap, length_seq. reflexivity. }
  transitivity (size (list_to_set names : gset string)).
  { rewrite size_list_to_set by exact Hnd. lia. }
  apply subseteq_size. intros x Hx. apply elem_of_list_to_set in Hx.
  apply list_elem_of_fmap in Hx as (j & -> & Hj). apply elem_of_seq in Hj.
  apply H. lia.
Qed.

Lemma bound_in_dom (m : gmap string ndarray) (nn : string) :
  bound_in m nn = true <-> nn ∈ dom m.
Proof.
  unfold bound_in. rewrite bool_decide_eq_true, elem_of_dom. reflexivity.
Qed.

Lemma bound_in_false (m : gmap string ndarray) (nn : string) :
  bound_in m nn = false <-> m !! nn = None.
Proof.
  unfold bound_in. rewrite bool_decide_eq_false, <- eq_None_not_Some.
  reflexivity.
Qed.

(** The search of value mode finds a name: the first that is free. *)
Lemma first_free_fun (m : gmap string ndarray) (n : string) :
  exists k, 1 <= k /\
    first_free (bound_in m) n (S (size m)) 1 = Some (copy_name n k) /\
    m !! copy_name n k = None /\
    forall j, 1 <= j < k -> is_Some (m !! copy_name n j).
Proof.
  destruct (first_free (bound_in m) n (S (size m)) 1) as [nn|] eqn:Hff.
  - apply first_free_spec in Hff as (k & Hk & -> & Hfree & Hbelow).
    exists k. split; [lia|]. split; [reflexivity|].
    split; [apply bound_in_false, Hfree|].
    intros j Hj. apply elem_of_dom, bound_in_dom, Hbelow, Hj.
  - exfalso. pose proof (first_free_None _ _ _ _ Hff) as Hall.
    assert (S (size m) <= size (dom m)).
    { apply (copy_names_in_set _ n 1). intros j Hj.
      apply bound_in_dom, Hall, Hj. }
    rewrite size_dom in *. lia.
Qed.

(** The search of Jacobian mode finds a name: the first that is free in
    both mappings. *)
Lemma first_free_jac (m mj : gmap string ndarray) (n : string) :
  exists k, 1 <= k /\
    first_free (fun nn => bound_in m nn || bound_in mj nn) n
      (S (size m + size mj)) 1 = Some (copy_name n k) /\
    m !! copy_name n k = None /\ mj !! copy_name n k = None /\
    forall j, 1 <= j < k ->
      is_Some (m !! copy_name n j) \/ is_Some (mj !! copy_name n j).
Proof.
  destruct (first_free _ n (S (size m + size mj)) 1) as [nn|] eqn:Hff.
  - apply first_free_spec in Hff as (k & Hk & -> & Hfree & Hbelow).
    apply orb_false_iff in Hfree as [H1 H2].
    exists k. split; [lia|]. split; [reflexivity|].
    split; [apply bound_in_false, H1|]. split; [apply bound_in_false, H2|].
    intros j Hj. specialize (Hbelow j Hj). apply orb_true_iff in Hbelow.
    rewrite !bound_in_dom, !elem_of_dom in Hbelow. exact Hbelow.
  - exfalso. pose proof (first_free_None _ _ _ _ Hff) as Hall.
    assert (S (size m + size mj) <= size (dom m ∪ dom mj)).
    { apply (copy_names_in_set _ n 1). intros j Hj.
      specialize (Hall j Hj). apply orb_true_iff in Hall.
      rewrite !bound_in_dom in Hall. set_solver. }
    pose proof (size_union_alt (dom m) (dom mj)) as Hu.
    assert (Hd : size (dom mj ∖ dom m) <= size (dom mj))
      by (apply subseteq_size, subseteq_difference_l; reflexivity).
    rewrite !size_dom in *. lia.
Qed.

Lemma paste_name_fun_auto (_module : Mod.t) (j : nat) (n : string)
    (vd : VariableDict) :
  Mod._paste_vars _module !! j = None ->
  exists k, 1 <= k /\
    paste_name_fun _module j n vd = Some (vd, Ok (copy_name n k)) /\
    _fun vd !! copy_name n k = None /\
    forall i, 1 <= i < k -> is_Some (_fun vd !! copy_name n i).
Proof.
  intros Hp. destruct (first_free_fun (_fun vd) n) as (k & Hk & Hff & Hfree & Hb).
  exists k. unfold paste_name_fun. rewrite Hp, Hff. auto.
Qed.

Lemma paste_name_jac_auto (_module : Mod.t) (j : nat) (n : string)
    (vd : VariableDict) :
  Mod._paste_vars _module !! j = None ->
  exists k, 1 <= k /\
    paste_name_jac _module j n vd = Some (vd, Ok (copy_name n k)) /\
    _fun vd !! copy_name n k = None /\ _jac vd !! copy_name n k = None /\
    forall i, 1 <= i < k ->
      is_Some (_fun vd !! copy_name n i) \/ is_Some (_jac vd !! copy_name n i).
Proof.
  intros Hp.
  destruct (first_free_jac (_fun vd) (_jac vd) n) as (k & Hk & Hff & H1 & H2 & Hb).
  exists k. unfold paste_name_jac. rewrite Hp, Hff. auto.
Qed.

(** One copy of Jacobian mode without a paste name. *)
Lemma copy_one_jac (_module : Mod.t) (j k : nat) (n : string) (vd : VariableDict)
    (val jacv : ndarray) :
  paste_name_jac _module j n vd = Some (vd, Ok (copy_name n k)) ->
  _fun vd !! n = Some val -> _jac vd !! n = Some jacv ->
  (nn ← paste_name_jac _module j n;
   v ← get_fun n; vj ← get_jac n;
   _ ← set_fun nn (np.copy v); set_jac nn (np.copy vj)) vd
  = Some ({| _fun := <[copy_name n k := val]> (_fun vd);
             _jac := <[copy_name n k := jacv]> (_jac vd) |}, Ok tt).
Proof.
  intros Hp Hv Hj. unfold mbind, Run_bind. rewrite Hp.
  unfold get_fun, get_jac. rewrite Hv, Hj. reflexivity.
Qed.

Lemma copy_one_fun (_module : Mod.t) (j k : nat) (n : string) (vd : VariableDict)
    (val : ndarray) :
  paste_name_fun _module j n vd = Some (vd, Ok (copy_name n k)) ->
  _fun vd !! n = Some val ->
  (nn ← paste_name_fun _module j n; v ← get_fun n; set_fun nn (np.copy v)) vd
  = Some ({| _fun := <[copy_name n k := val]> (_fun vd); _jac := _jac vd |}, Ok tt).
Proof.
  intros Hp Hv. unfold mbind, Run_bind. rewrite Hp.
  unfold get_fun. rewrite Hv. reflexivity.
Qed.

Lemma copy_names_1_2 (v : string) : copy_name v 1 <> copy_name v 2.
Proof. intros H%copy_name_inj. discriminate. Qed.

Lemma bind_Ok {A B : Type} (m : Run A) (k : A -> Run B) (vd vd' : VariableDict)
    (a : A) :
  m vd = Some (vd', Ok a) -> (m ≫= k) vd = k a vd'.
Proof. intros H. unfold mbind, Run_bind. rewrite H. reflexivity. Qed.

Lemma bind_Raise {A B : Type} (m : Run A) (k : A -> Run B) (vd vd' : VariableDict)
    (e : exn) :
  m vd = Some (vd', Raise e) -> (m ≫= k) vd = Some (vd', Raise e).
Proof. intros H. unfold mbind, Run_bind. rewrite H. reflexivity. Qed.

Lemma bind_None {A B : Type} (m : Run A) (k : A -> Run B) (vd : VariableDict) :
  m vd = None -> (m ≫= k) vd = None.
Proof. intros H. unfold mbind, Run_bind. rewrite H. reflexivity. Qed.

Section copy_twice_then_delete.
Context (_module : Mod.t) (v : string).
Hypothesis copies : Mod._copy_vars _module = [v; v].
Hypothesis no_paste : Mod._paste_vars _module = [].
Hypothesis deletes : Mod._delete_vars _module = [v].

Lemma no_paste_at (j : nat) : Mod._paste_vars _module !! j = None.
Proof using no_paste. rewrite no_paste. apply lookup_nil. Qed.

Lemma copy_twice_jac (vd : VariableDict) (val jacv : ndarray) :
  _fun vd !! v = Some val -> _jac vd !! v = Some jacv ->
  _fun vd !! copy_name v 1 = None -> _jac vd !! copy_name v 1 = None ->
  _fun vd !! copy_name v 2 = None -> _jac vd !! copy_name v 2 = None ->
  copy_vars_jac _module vd
  = Some ({| _fun := <[copy_name v 2 := val]> (<[copy_name v 1 := val]> (_fun vd));
             _jac := <[copy_name v 2 := jacv]> (<[copy_name v 1 := jacv]> (_jac vd)) |},
          Ok tt).
Proof using copies no_paste.
  intros Hv Hj F1 J1 F2 J2. unfold copy_vars_jac. rewrite copies.
  cbn [for_enumerate].
  destruct (paste_name_jac_auto _module 0 v vd (no_paste_at 0))
    as (k1 & Hk1 & Hp1 & _ & _ & Hb1).
  assert (k1 = 1) as ->.
  { destruct (decide (k1 = 1)) as [|Hne]; [assumption|]. exfalso.
    destruct (Hb1 1 ltac:(lia)) as [[? H]|[? H]]; congruence. }
  erewrite bind_Ok; [|eapply copy_one_jac; eassumption].
  set (vd1 := {| _fun := <[copy_name v 1 := val]> (_fun vd);
                 _jac := <[copy_name v 1 := jacv]> (_jac vd) |}).
  destruct (paste_name_jac_auto _module 1 v vd1 (no_paste_at 1))
    as (k2 & Hk2 & Hp2 & Hf2 & _ & Hb2).
  assert (k2 = 2) as ->.
  { destruct (decide (k2 = 1)) as [->|Hne1].
    { cbn in Hf2. rewrite lookup_insert_eq in Hf2. discriminate. }
    destruct (decide (k2 = 2)) as [|Hne2]; [assumption|]. exfalso.
    destruct (Hb2 2 ltac:(lia)) as [[? H]|[? H]]; cbn in H;
      rewrite lookup_insert_ne in H by apply copy_names_1_2; congruence. }
  assert (Hv1 : _fun vd1 !! v = Some val).
  { cbn. rewrite lookup_insert_ne by apply copy_name_longer. exact Hv. }
  assert (Hj1 : _jac vd1 !! v = Some jacv).
  { cbn. rewrite lookup_insert_ne by apply copy_name_longer. exact Hj. }
  rewrite (bind_Ok _ _ _ _ _ (copy_one_jac _module 1 2 v vd1 val jacv Hp2 Hv1 Hj1)).
  reflexivity.
Qed.

Lemma copy_twice_fun (vd : VariableDict) (val : ndarray) :
  _fun vd !! v = Some val ->
  _fun vd !! copy_name v 1 = None -> _fun vd !! copy_name v 2 = None ->
  copy_vars_fun _module vd
  = Some ({| _fun := <[copy_name v 2 := val]> (<[copy_name v 1 := val]> (_fun vd));
             _jac := _jac vd |}, Ok tt).
Proof using copies no_paste.
  intros Hv F1 F2. unfold copy_vars_fun. rewrite copies. cbn [for_enumerate].
  destruct (paste_name_fun_auto _module 0 v vd (no_paste_at 0))
    as (k1 & Hk1 & Hp1 & _ & Hb1).
  assert (k1 = 1) as ->.
  { destruct (decide (k1 = 1)) as [|Hne]; [assumption|]. exfalso.
    destruct (Hb1 1 ltac:(lia)) as [? H]; congruence. }
  erewrite bind_Ok; [|eapply copy_one_fun; eassumption].
  set (vd1 := {| _fun := <[copy_name v 1 := val]> (_fun vd); _jac := _jac vd |}).
  destruct (paste_name_fun_auto _module 1 v vd1 (no_paste_at 1))
    as (k2 & Hk2 & Hp2 & Hf2 & Hb2).
  assert (k2 = 2) as ->.
  { destruct (decide (k2 = 1)) as [->|Hne1].
    { cbn in Hf2. rewrite lookup_insert_eq in Hf2. discriminate. }
    destruct (decide (k2 = 2)) as [|Hne2]; [assumption|]. exfalso.
    destruct (Hb2 2 ltac:(lia)) as [? H]; cbn in H;
      rewrite lookup_insert_ne in H by apply copy_names_1_2; congruence. }
  assert (Hv1 : _fun vd1 !! v = Some val).
  { cbn. rewrite lookup_insert_ne by apply copy_name_longer. exact Hv. }
  rewrite (bind_Ok _ _ _ _ _ (copy_one_fun _module 1 2 v vd1 val Hp2 Hv1)).
  reflexivity.
Qed.

Lemma delete_jac (vd : VariableDict) :
  is_Some (_fun vd !! v) -> is_Some (_jac vd !! v) ->
  delete_vars_jac _module vd
  = Some ({| _fun := delete v (_fun vd); _jac := delete v (_jac vd) |}, Ok tt).
Proof using deletes.
  intros [a Ha] [b Hb]. unfold delete_vars_jac. rewrite deletes.
  cbn [for_enumerate]. unfold mbind, Run_bind, del_fun, del_jac.
  rewrite Ha. cbn. rewrite Hb. reflexivity.
Qed.

Lemma delete_fun (vd : VariableDict) :
  is_Some (_fun vd !! v) ->
  delete_vars_fun _module vd
  = Some ({| _fun := delete v (_fun vd); _jac := _jac vd |}, Ok tt).
Proof using deletes.
  intros [a Ha]. unfold delete_vars_fun. rewrite deletes.
  cbn [for_enumerate]. unfold mbind, Run_bind, del_fun. rewrite Ha. reflexivity.
Qed.

End copy_twice_then_delete.

(** C5: a copy without a paste name is bound to the first name
    [v-Copy<k>], [k = 1, 2, ...], that is free; two copies of [v] go to
    [v-Copy1] and [v-Copy2]; Jacobian mode copies the value and the
    Jacobian, and its deletion of [v] takes [v] out of both mappings and
    leaves the copies.  Value mode does the same on the values and
    leaves the Jacobians as they are. *)
Theorem C5_copy_and_delete (_module : Mod.t) (v : string) (vd : VariableDict)
    (val jacv : ndarray) :
  (copy_name v 1 = v +:+ "-Copy1" /\ copy_name v 2 = v +:+ "-Copy2") /\
  (forall j n, Mod._paste_vars _module !! j = None ->
     (exists k, 1 <= k /\
        paste_name_fun _module j n vd = Some (vd, Ok (copy_name n k)) /\
        _fun vd !! copy_name n k = None /\
        forall i, 1 <= i < k -> is_Some (_fun vd !! copy_name n i)) /\
     (exists k, 1 <= k /\
        paste_name_jac _module j n vd = Some (vd, Ok (copy_name n k)) /\
        _fun vd !! copy_name n k = None /\ _jac vd !! copy_name n k = None /\
        forall i, 1 <= i < k ->
          is_Some (_fun vd !! copy_name n i) \/
          is_Some (_jac vd !! copy_name n i))) /\
  (Mod._copy_vars _module = [v; v] ->
   Mod._paste_vars _module = [] ->
   Mod._delete_vars _module = [v] ->
   _fun vd !! v = Some val ->
   _fun vd !! copy_name v 1 = None ->
   _fun vd !! copy_name v 2 = None ->
   (exists vd',
      (_ ← copy_vars_fun _module; delete_vars_fun _module) vd = Some (vd', Ok tt) /\
      _fun vd' !! v = None /\
      _fun vd' !! copy_name v 1 = Some val /\
      _fun vd' !! copy_name v 2 = Some val /\
      _jac vd' = _jac vd) /\
   (_jac vd !! v = Some jacv ->
    _jac vd !! copy_name v 1 = None ->
    _jac vd !! copy_name v 2 = None ->
    exists vd',
      (_ ← copy_vars_jac _module; delete_vars_jac _module) vd = Some (vd', Ok tt) /\
      _fun vd' !! v = None /\ _jac vd' !! v = None /\
      _fun vd' !! copy_name v 1 = Some val /\
      _jac vd' !! copy_name v 1 = Some jacv /\
      _fun vd' !! copy_name v 2 = Some val /\
      _jac vd' !! copy_name v 2 = Some jacv)).
Proof.
  split; [split; reflexivity|]. split.
  { intros j n Hp. split.
    - apply paste_name_fun_auto, Hp.
    - apply paste_name_jac_auto, Hp. }
  intros Hc Hp Hd Hv F1 F2.
  assert (Hlook : forall (m : gmap string ndarray) (a : ndarray),
             m !! v = Some a ->
             let m' := delete v (<[copy_name v 2 := a]> (<[copy_name v 1 := a]> m)) in
             m' !! v = None /\ m' !! copy_name v 1 = Some a /\
             m' !! copy_name v 2 = Some a).
  { intros m a Hm m'. subst m'. split; [apply lookup_delete_eq|].
    rewrite !lookup_delete_ne by (apply not_eq_sym, copy_name_longer).
    rewrite lookup_insert_ne by (apply not_eq_sym, copy_names_1_2).
    rewrite !lookup_insert_eq. auto. }
  split.
  - eexists. split.
    + erewrite bind_Ok; [|apply (copy_twice_fun _module v Hc Hp vd val); assumption].
      apply (delete_fun _module v Hd). cbn.
      rewrite !lookup_insert_ne by apply copy_name_longer. eauto.
    + cbn. destruct (Hlook (_fun vd) val Hv) as (? & ? & ?). auto.
  - intros Hj J1 J2. eexists. split.
    + erewrite bind_Ok;
        [|apply (copy_twice_jac _module v Hc Hp vd val jacv); assumption].
      apply (delete_jac _module v Hd); cbn;
        rewrite !lookup_insert_ne by apply copy_name_longer; eauto.
    + cbn. destruct (Hlook (_fun vd) val Hv) as (? & ? & ?).
      destruct (Hlook (_jac vd) jacv Hj) as (? & ? & ?). auto 10.
Qed.

Lemma C5_copy_and_delete_witness :
  exists vd',
    (_ ← copy_vars_jac (copying_stage "v"); delete_vars_jac (copying_stage "v"))
      (store_of "v" (np.mk [1] [2%R]) (np.eye 1))
    = Some (vd', Ok tt) /\
    _fun vd' !! "v" = None /\ _jac vd' !! "v" = None /\
    _fun vd' !! "v-Copy1" = Some (np.mk [1] [2%R]) /\
    _jac vd' !! "v-Copy1" = Some (np.eye 1) /\
    _fun vd' !! "v-Copy2" = Some (np.mk [1] [2%R]) /\
    _jac vd' !! "v-Copy2" = Some (np.eye 1).
Proof.
  apply (proj2 (proj2 (proj2 (C5_copy_and_delete (copying_stage "v") "v"
           (store_of "v" (np.mk [1] [2%R]) (np.eye 1))
           (np.mk [1] [2%R]) (np.eye 1)))
         eq_refl eq_refl eq_refl eq_refl eq_refl eq_refl));
    reflexivity.
Defined.

(** ** Failures of a step *)

Lemma try_except_Raise {A : Type} (body : Run A) (message : string)
    (vd vd' : VariableDict) (e : exn) :
  body vd = Some (vd', Raise e) ->
  try_except body message vd = Some (vd', Raise (RuntimeError message)).
Proof. intros H. unfold try_except. rewrite H. reflexivity. Qed.

Lemma try_except_Ok {A : Type} (body : Run A) (message : string)
    (vd vd' : VariableDict) (a : A) :
  body vd = Some (vd', Ok a) -> try_except body message vd = Some (vd', Ok a).
Proof. intros H. unfold try_except. rewrite H. reflexivity. Qed.

Section loop_failures.
Context (step : bool -> nat -> Z -> Run (stride * bool * nat)) (failed : Z -> string).

Lemma while_steps_unfold (steps : nat) (stop : Z) (us : bool) (si : nat) (i : Z) :
  while_steps step failed (S steps) stop us si i
  = if (i <=? stop)%Z then
      r ← try_except (step us si i) (failed i);
      let '(di, us', si') := r in
      while_steps step failed steps stop us' si' (add_stride i di)
    else mret tt.
Proof. reflexivity. Qed.

(** A step that raises ends the loop: the error names the step, and the
    store is the one the step left. *)
Lemma failing_step_ends_loop (steps : nat) (stop : Z) (us : bool) (si : nat)
    (i : Z) (vd vd' : VariableDict) (e : exn) :
  (i <= stop)%Z ->
  step us si i vd = Some (vd', Raise e) ->
  while_steps step failed (S steps) stop us si i vd
  = Some (vd', Raise (RuntimeError (failed i))).
Proof.
  intros Hi Hstep. rewrite while_steps_unfold.
  apply Z.leb_le in Hi. rewrite Hi.
  apply bind_Raise. eapply try_except_Raise, Hstep.
Qed.

(** Every error of the loop is of that kind. *)
Lemma loop_error_is_step_error (steps : nat) (stop : Z) :
  forall (us : bool) (si : nat) (i : Z) (vd vd' : VariableDict) (e : exn),
    while_steps step failed steps stop us si i vd = Some (vd', Raise e) ->
    exists (j : Z) (us' : bool) (si' : nat) (vd0 : VariableDict) (e0 : exn),
      (j <= stop)%Z /\
      step us' si' j vd0 = Some (vd', Raise e0) /\
      e = RuntimeError (failed j).
Proof.
  induction steps as [|steps IH]; intros us si i vd vd' e H.
  - cbn in H. destruct (i <=? stop)%Z; discriminate.
  - rewrite while_steps_unfold in H.
    destruct (Z.leb_spec i stop) as [Hi|Hi]; [|discriminate].
    unfold mbind, Run_bind, try_except in H.
    destruct (step us si i vd) as [[vd1 [[[di us1] si1]|e1]]|] eqn:Hstep;
      [|injection H as <- <-|discriminate].
    + apply IH in H. exact H.
    + exists i, us, si, vd, e1. auto.
Qed.

End loop_failures.

Lemma collect_get_fun_missing (names : list string) (vd : VariableDict) (n : string) :
  n ∈ names -> _fun vd !! n = None ->
  exists n', n' ∈ names /\ _fun vd !! n' = None /\
             collect get_fun names vd = Some (vd, Raise (KeyError n')).
Proof.
  induction names as [|a names IH]; intros Hin Hn.
  - apply elem_of_nil in Hin. contradiction.
  - cbn [collect]. destruct (_fun vd !! a) as [v|] eqn:Ha.
    + assert (Hin' : n ∈ names).
      { apply elem_of_cons in Hin as [->|]; [congruence | assumption]. }
      destruct (IH Hin' Hn) as (n' & Hn' & Hnone & Hc).
      exists n'. split; [right; exact Hn'|]. split; [exact Hnone|].
      erewrite bind_Ok; [|unfold get_fun; rewrite Ha; reflexivity].
      apply bind_Raise, Hc.
    + exists a. split; [left|]. split; [exact Ha|].
      apply bind_Raise. unfold get_fun. rewrite Ha. reflexivity.
Qed.

Lemma collect_get_fun_Ok (names : list string) (vd : VariableDict) :
  Forall (fun n => is_Some (_fun vd !! n)) names ->
  exists vs, collect get_fun names vd = Some (vd, Ok vs) /\
             Forall2 (fun n v => _fun vd !! n = Some v) names vs.
Proof.
  induction 1 as [|a names [v Ha] _ (vs & Hc & Hvs)].
  - exists []. split; [reflexivity | constructor].
  - exists (v :: vs). split; [|constructor; assumption].
    cbn [collect]. erewrite bind_Ok; [|unfold get_fun; rewrite Ha; reflexivity].
    erewrite bind_Ok; [|exact Hc]. reflexivity.
Qed.

Lemma collect_get_jac_missing (names : list string) (vd : VariableDict) (n : string) :
  n ∈ names -> _jac vd !! n = None ->
  exists n', n' ∈ names /\ _jac vd !! n' = None /\
             collect get_jac names vd = Some (vd, Raise (KeyError n')).
Proof.
  induction names as [|a names IH]; intros Hin Hn.
  - apply elem_of_nil in Hin. contradiction.
  - cbn [collect]. destruct (_jac vd !! a) as [v|] eqn:Ha.
    + assert (Hin' : n ∈ names).
      { apply elem_of_cons in Hin as [->|]; [congruence | assumption]. }
      destruct (IH Hin' Hn) as (n' & Hn' & Hnone & Hc).
      exists n'. split; [right; exact Hn'|]. split; [exact Hnone|].
      erewrite bind_Ok; [|unfold get_jac; rewrite Ha; reflexivity].
      apply bind_Raise, Hc.
    + exists a. split; [left|]. split; [exact Ha|].
      apply bind_Raise. unfold get_jac. rewrite Ha. reflexivity.
Qed.

Lemma collect_get_jac_Ok (names : list string) (vd : VariableDict) :
  Forall (fun n => is_Some (_jac vd !! n)) names ->
  exists vs, collect get_jac names vd = Some (vd, Ok vs) /\
             Forall2 (fun n v => _jac vd !! n = Some v) names vs.
Proof.
  induction 1 as [|a names [v Ha] _ (vs & Hc & Hvs)].
  - exists []. split; [reflexivity | constructor].
  - exists (v :: vs). split; [|constructor; assumption].
    cbn [collect]. erewrite bind_Ok; [|unfold get_jac; rewrite Ha; reflexivity].
    erewrite bind_Ok; [|exact Hc]. reflexivity.
Qed.

Lemma step_fun_selected (self : Pipeline) (us : bool) (si : nat) (i : Z)
    (_module : Mod.t) (di : stride) (us' : bool) (si' : nat) (vd : VariableDict) :
  select_stage self us si i = Ok (_module, di, us', si') ->
  step_fun self us si i vd
  = (_input ← collect get_fun (Mod._input_vars _module);
     _output ← lift (Mod.fun_ _module _input);
     _ ← bind_outputs_fun _module _output;
     _ ← copy_vars_fun _module;
     _ ← delete_vars_fun _module;
     mret (di, us', si')) vd.
Proof. intros H. unfold step_fun. rewrite H. reflexivity. Qed.

Lemma step_jac_selected (self : Pipeline) (us : bool) (si : nat) (i : Z)
    (_module : Mod.t) (di : stride) (us' : bool) (si' : nat) (vd : VariableDict) :
  select_stage self us si i = Ok (_module, di, us', si') ->
  step_jac self us si i vd
  = (_input ← collect get_fun (Mod._input_vars _module);
     jacs ← collect get_jac (Mod._input_vars _module);
     _input_jac ← lift (np.concatenate jacs);
     out ← lift (Mod.fun_and_jac _module _input);
     let '(_output, _output_jac) := out in
     _ ← bind_outputs_jac _module _output _output_jac _input_jac;
     _ ← copy_vars_jac _module;
     _ ← delete_vars_jac _module;
     mret (di, us', si')) vd.
Proof. intros H. unfold step_jac. rewrite H. reflexivity. Qed.

Lemma append_dot_inj (s1 s2 : string) : s1 +:+ "." = s2 +:+ "." -> s1 = s2.
Proof.
  revert s2. induction s1 as [|c s1 IH]; intros [|c' s2] H.
  - reflexivity.
  - injection H as _ H. destruct s2; discriminate H.
  - injection H as _ H. destruct s1; discriminate H.
  - injection H as -> H. f_equal. apply IH, H.
Qed.

(** The message of a failure determines the step. *)
Lemma fun_failed_inj (i j : Z) : fun_failed i = fun_failed j -> i = j.
Proof.
  unfold fun_failed. intros H. apply String.app_inj in H.
  apply append_dot_inj in H. apply pretty_Z_inj in H. exact H.
Qed.

Lemma fun_and_jac_failed_inj (i j : Z) :
  fun_and_jac_failed i = fun_and_jac_failed j -> i = j.
Proof.
  unfold fun_and_jac_failed. intros H. apply String.app_inj in H.
  apply append_dot_inj in H. apply pretty_Z_inj in H. exact H.
Qed.

(** C3: a step that raises, whatever raised in it, ends the evaluation
    with one error that names the step, and the store stays as the step
    left it; an input variable that is not bound is such a failure.
    The message holds the index of the step in decimal, so that the
    messages of two steps differ: those of step 12 of [fun] and of step
    3 of [fun_and_jac] are as given. *)
Theorem C3_failing_step (L : library) (K : constraint_kernels) (self : Pipeline) :
  (forall steps stop us si i vd vd' e, (i <= stop)%Z ->
     (step_fun self us si i vd = Some (vd', Raise e) ->
      while_steps (step_fun self) fun_failed (S steps) stop us si i vd
      = Some (vd', Raise (RuntimeError (fun_failed i)))) /\
     (step_jac self us si i vd = Some (vd', Raise e) ->
      while_steps (step_jac self) fun_and_jac_failed (S steps) stop us si i vd
      = Some (vd', Raise (RuntimeError (fun_and_jac_failed i))))) /\
  (forall us start stop vd vd' e,
     (evaluate_fun self us start stop vd = Some (vd', Raise e) ->
      exists j us' si' vd0 e0,
        (j <= stop)%Z /\
        step_fun self us' si' j vd0 = Some (vd', Raise e0) /\
        e = RuntimeError (fun_failed j)) /\
     (evaluate_jac self us start stop vd = Some (vd', Raise e) ->
      exists j us' si' vd0 e0,
        (j <= stop)%Z /\
        step_jac self us' si' j vd0 = Some (vd', Raise e0) /\
        e = RuntimeError (fun_and_jac_failed j))) /\
  (forall o start stop extract_vars vd vd' e,
     checked L self o = Ok (start, stop, extract_vars) ->
     (evaluate_fun self (use_surrogate o) start stop vd = Some (vd', Raise e) ->
      Pipeline_fun L K self (in_store vd) o = Some (Raise e)) /\
     (evaluate_jac self (use_surrogate o) start stop vd = Some (vd', Raise e) ->
      Pipeline_fun_and_jac L K self (in_store vd) o = Some (Raise e))) /\
  (forall us si i vd _module di us' si' n,
     select_stage self us si i = Ok (_module, di, us', si') ->
     n ∈ Mod._input_vars _module ->
     (_fun vd !! n = None ->
      exists n',
        step_fun self us si i vd = Some (vd, Raise (KeyError n')) /\
        step_jac self us si i vd = Some (vd, Raise (KeyError n'))) /\
     (Forall (fun n => is_Some (_fun vd !! n)) (Mod._input_vars _module) ->
      _jac vd !! n = None ->
      exists n', step_jac self us si i vd = Some (vd, Raise (KeyError n')))) /\
  ((forall i j, fun_failed i = fun_failed j -> i = j) /\
   (forall i j, fun_and_jac_failed i = fun_and_jac_failed j -> i = j) /\
   fun_failed 12 = "pipeline fun evaluation failed at step #12." /\
   fun_and_jac_failed 3 = "pipeline fun_and_jac evaluation failed at step #3.").
Proof.
  split; [|split; [|split; [|split]]];
    [| | | |split; [exact fun_failed_inj|];
           split; [exact fun_and_jac_failed_inj|]; split; reflexivity].
  - intros steps stop us si i vd vd' e Hi. split; intros H.
    + eapply failing_step_ends_loop; eassumption.
    + eapply failing_step_ends_loop; eassumption.
  - intros us start stop vd vd' e. unfold evaluate_fun, evaluate_jac.
    destruct (first_surrogate self us start) as [us0 si0].
    split; apply loop_error_is_step_error.
  - intros o start stop ev vd vd' e Hc. split; intros H; cbn; rewrite Hc.
    + unfold run_fun. erewrite bind_Raise by exact H. reflexivity.
    + unfold run_jac. erewrite bind_Raise by exact H. reflexivity.
  - intros us si i vd m di us' si' n Hsel Hin. split.
    + intros Hn.
      destruct (collect_get_fun_missing _ vd n Hin Hn) as (n' & _ & _ & Hc).
      exists n'. rewrite (step_fun_selected _ _ _ _ _ _ _ _ _ Hsel).
      rewrite (step_jac_selected _ _ _ _ _ _ _ _ _ Hsel).
      split; apply bind_Raise, Hc.
    + intros Hall Hn.
      destruct (collect_get_fun_Ok _ vd Hall) as (vs & Hvs & _).
      destruct (collect_get_jac_missing _ vd n Hin Hn) as (n' & _ & _ & Hc).
      exists n'. rewrite (step_jac_selected _ _ _ _ _ _ _ _ _ Hsel).
      erewrite bind_Ok by exact Hvs. apply bind_Raise, Hc.
Qed.

(** A stage binds its output and then fails to delete a variable that
    is not there: in value mode, as step 0 of one module, the error
    names step 0 and the output stays bound; in Jacobian mode, as step 1
    of two modules, the error names step 1. *)
Lemma C3_failing_step_witness :
  while_steps (step_fun (one_module (deleting_stage "x" "y" "z") "x"))
    fun_failed 1 0 false 0 0
    {| _fun := {[ "x" := np.mk [1] [2%R] ]}; _jac := ∅ |}
  = Some ({| _fun := <[ "y" := np.mk [1] [2%R] ]> {[ "x" := np.mk [1] [2%R] ]};
             _jac := ∅ |},
          Raise (RuntimeError "pipeline fun evaluation failed at step #0.")) /\
  exists vd',
    while_steps
      (step_jac (two_modules unscaled (rename_stage "x" "y")
                   (deleting_stage "y" "z" "w") "x"))
      fun_and_jac_failed 1 1 false 0 1
      (store_of "y" (np.mk [1] [2%R]) (np.eye 1))
    = Some (vd',
            Raise (RuntimeError
                     "pipeline fun_and_jac evaluation failed at step #1.")).
Proof.
  split.
  - apply (proj1 (proj1 (C3_failing_step example_library copy_kernels
                    (one_module (deleting_stage "x" "y" "z") "x"))
                    0 0%Z false 0 0%Z _ _ (KeyError "z") (Z.le_refl 0))).
    reflexivity.
  - eexists.
    apply (proj2 (proj1 (C3_failing_step example_library copy_kernels
                    (two_modules unscaled (rename_stage "x" "y")
                       (deleting_stage "y" "z" "w") "x"))
                    0 1%Z false 0 1%Z _ _ (KeyError "w") (Z.le_refl 1))).
    reflexivity.
Defined.

(** ** The chain rule *)

Lemma flat_map_chunks {A : Type} (n p : nat) : forall d : list A,
  length d = p * n -> flat_map (fun i => np.chunk n i d) (seq 0 p) = d.
Proof.
  induction p as [|p IH]; intros d Hd.
  - destruct d; [reflexivity | discriminate].
  - cbn [seq flat_map]. rewrite <- seq_shift, flat_map_concat_map, map_map.
    rewrite <- flat_map_concat_map.
    rewrite (flat_map_ext _ (fun i => np.chunk n i (drop n d))).
    + rewrite IH by (rewrite length_drop; lia).
      unfold np.chunk. cbn [Nat.mul drop]. apply take_drop.
    + intros i. unfold np.chunk. rewrite drop_drop. do 2 f_equal; lia.
Qed.

Lemma chunk_length {A : Type} (n p i : nat) (d : list A) :
  length d = p * n -> i < p -> length (np.chunk n i d) = n.
Proof.
  intros Hd Hi. unfold np.chunk. rewrite length_take, length_drop. nia.
Qed.

Lemma nth_flat_map_rows {A B : Type} (f : A -> list B) (n : nat) (dx : A) (d : B)
    (l : list A) :
  (forall x, length (f x) = n) ->
  forall i j, i < length l -> j < n ->
    nth (i * n + j) (flat_map f l) d = nth j (f (nth i l dx)) d.
Proof.
  intros Hlen. induction l as [|x l IH]; intros i j Hi Hj; [cbn in Hi; lia|].
  cbn [flat_map]. destruct i as [|i].
  - cbn. rewrite app_nth1 by (rewrite Hlen; exact Hj). reflexivity.
  - rewrite app_nth2 by (rewrite Hlen; lia).
    rewrite Hlen. replace (S i * n + j - n) with (i * n + j) by lia.
    cbn [nth]. apply IH; [cbn in Hi; lia | exact Hj].
Qed.

Lemma inner_indicator (j : nat) (row : list R) : forall k : nat,
  np.inner row (map (indicator j) (seq k (length row)))
  = if (k <=? j) && (j <? k + length row) then nth (j - k) row 0%R else 0%R.
Proof.
  unfold np.inner. induction row as [|x row IH]; intros k.
  - cbn [length seq map zip_with np.Rsum foldr].
    destruct (_ && _); [destruct (j - k)|]; reflexivity.
  - cbn [length seq map zip_with np.Rsum foldr]. fold (np.Rsum (zip_with Rmult row
      (map (indicator j) (seq (S k) (length row))))).
    rewrite IH. unfold indicator.
    destruct (Nat.eqb_spec k j) as [->|Hne].
    + rewrite Nat.leb_refl. replace (j <? j + S (length row)) with true
        by (symmetry; apply Nat.ltb_lt; lia).
      replace (S j <=? j) with false by (symmetry; apply Nat.leb_gt; lia).
      rewrite Nat.sub_diag. cbn. lra.
    + destruct (Nat.leb_spec k j) as [Hkj|Hkj]; cbn [andb].
      * replace (S k <=? j) with true by (symmetry; apply Nat.leb_le; lia).
        cbn [andb]. replace (j <? k + S (length row)) with (j <? S k + length row)
          by (f_equal; lia).
        destruct (j <? S k + length row); [|lra].
        replace (j - k) with (S (j - S k)) by lia. cbn [nth]. lra.
      * replace (S k <=? j) with false by (symmetry; apply Nat.leb_gt; lia).
        cbn. lra.
Qed.

Lemma length_flat_map_rows {A B : Type} (f : A -> list B) (n : nat) (l : list A) :
  (forall x, length (f x) = n) -> length (flat_map f l) = length l * n.
Proof.
  intros Hlen. induction l as [|x l IH]; [reflexivity|].
  cbn. rewrite length_app, Hlen, IH. reflexivity.
Qed.

Lemma eye_data_length (n : nat) : length (np.data (np.eye n)) = n * n.
Proof.
  cbn. rewrite (length_flat_map_rows _ n), length_seq; [reflexivity|].
  intros i. rewrite length_map, length_seq. reflexivity.
Qed.

Lemma nth_map_seq {A : Type} (f : nat -> A) (d : A) (n j : nat) :
  j < n -> nth j (map f (seq 0 n)) d = f j.
Proof.
  intros Hj. rewrite (nth_indep _ d (f 0)) by (rewrite length_map, length_seq; lia).
  rewrite map_nth, seq_nth by lia. reflexivity.
Qed.

Lemma column_eye (n j : nat) :
  j < n ->
  np.column n n j (np.data (np.eye n)) = map (indicator j) (seq 0 n).
Proof.
  intros Hj. unfold np.column. apply map_ext_in. intros i Hi%in_seq.
  cbn [np.eye np.data].
  rewrite (nth_flat_map_rows _ n 0 0%R); try lia.
  - rewrite seq_nth by lia. cbn [Nat.add].
    rewrite nth_map_seq by lia. reflexivity.
  - intros x. rewrite length_map, length_seq. reflexivity.
  - rewrite length_seq. lia.
Qed.

(** A matrix times the identity of its width is the matrix. *)
Lemma dot_eye_r (a : ndarray) (p n : nat) :
  np.shape a = [p; n] -> np.wf a -> np.dot a (np.eye n) = Ok a.
Proof.
  destruct a as [s d]. unfold np.wf, np.size. cbn [np.shape np.data].
  intros -> Hd. cbn in Hd. rewrite Nat.mul_1_r in Hd.
  unfold np.dot. cbn [np.shape np.eye np.data reverse rev_append].
  change (reverse [p; n]) with [n; p]. change (reverse [n; n]) with [n; n].
  cbn match. rewrite Nat.eqb_refl. cbn [negb].
  change (reverse [p]) with [p]. change (reverse []) with (@nil nat).
  cbn [app np.prod foldr]. rewrite Nat.mul_1_r. f_equal. f_equal.
  etransitivity; [|apply (flat_map_chunks n p d Hd)].
  apply flat_map_ext_elem. intros i Hi%in_seq. cbn [seq flat_map].
  rewrite app_nil_r.
  assert (Hrow : length (np.chunk n i d) = n) by (apply (chunk_length n p); lia).
  etransitivity; [|apply (map_nth_seq 0%R (np.chunk n i d))]. rewrite Hrow.
  apply map_ext_in. intros j Hj%in_seq.
  assert (Heye : np.chunk (n * n) 0
             (flat_map (fun i0 => map (fun j0 => if i0 =? j0 then 1%R else 0%R)
                                      (seq 0 n)) (seq 0 n))
           = np.data (np.eye n)).
  { unfold np.chunk. cbn [Nat.mul drop]. apply take_ge.
    rewrite <- (eye_data_length n). reflexivity. }
  rewrite Heye, column_eye by lia.
  rewrite <- Hrow at 2. rewrite inner_indicator. cbn [Nat.leb andb].
  rewrite Hrow. replace (j <? 0 + n) with true by (symmetry; apply Nat.ltb_lt; lia).
  rewrite Nat.sub_0_r. reflexivity.
Qed.

Lemma concatenate_single (a : ndarray) (r : nat) (s : list nat) :
  np.shape a = r :: s -> np.concatenate [a] = Ok a.
Proof.
  destruct a as [sh d]. cbn [np.shape]. intros ->.
  unfold np.concatenate. cbn [np.shape forallb map hd list_sum foldr flat_map np.data].
  rewrite Nat.add_0_r, app_nil_r. reflexivity.
Qed.

Lemma bind_Ok_inv {A B : Type} (m : Run A) (k : A -> Run B) (vd vd' : VariableDict)
    (b : B) :
  (m ≫= k) vd = Some (vd', Ok b) ->
  exists a vd1, m vd = Some (vd1, Ok a) /\ k a vd1 = Some (vd', Ok b).
Proof.
  unfold mbind, Run_bind. destruct (m vd) as [[vd1 [a|e]]|]; try discriminate.
  intros H. exists a, vd1. auto.
Qed.

Lemma collect_get_fun_inv (names : list string) (vd vd' : VariableDict)
    (vs : list ndarray) :
  collect get_fun names vd = Some (vd', Ok vs) ->
  vd' = vd /\ Forall2 (fun n v => _fun vd !! n = Some v) names vs.
Proof.
  revert vs. induction names as [|a names IH]; intros vs H.
  - injection H as <- <-. split; [reflexivity | constructor].
  - cbn [collect] in H. apply bind_Ok_inv in H as (v & vd1 & Hg & H).
    apply bind_Ok_inv in H as (vs' & vd2 & Hc & H). injection H as <- <-.
    unfold get_fun in Hg. destruct (_fun vd !! a) eqn:Ha; [|discriminate].
    injection Hg as <- <-. apply IH in Hc as [-> Hvs].
    split; [reflexivity | constructor; assumption].
Qed.

Lemma collect_get_jac_inv (names : list string) (vd vd' : VariableDict)
    (vs : list ndarray) :
  collect get_jac names vd = Some (vd', Ok vs) ->
  vd' = vd /\ Forall2 (fun n v => _jac vd !! n = Some v) names vs.
Proof.
  revert vs. induction names as [|a names IH]; intros vs H.
  - injection H as <- <-. split; [reflexivity | constructor].
  - cbn [collect] in H. apply bind_Ok_inv in H as (v & vd1 & Hg & H).
    apply bind_Ok_inv in H as (vs' & vd2 & Hc & H). injection H as <- <-.
    unfold get_jac in Hg. destruct (_jac vd !! a) eqn:Ha; [|discriminate].
    injection Hg as <- <-. apply IH in Hc as [-> Hvs].
    split; [reflexivity | constructor; assumption].
Qed.

Lemma lift_Ok_inv {A : Type} (r : res A) (vd vd' : VariableDict) (a : A) :
  lift r vd = Some (vd', Ok a) -> vd' = vd /\ r = Ok a.
Proof. unfold lift. intros [= <- ->]. auto. Qed.

Section binding_loop.
Context (_output _output_jac : list ndarray) (_input_jac : ndarray).

Let body (j : nat) (n : string) : Run unit :=
  v ← lift (match _output !! j with Some v => Ok v | None => Raise IndexError end);
  _ ← set_fun n v;
  lj ← lift (match _output_jac !! j with
             | Some lj => Ok lj
             | None => Raise IndexError
             end);
  aj ← lift (np.dot lj _input_jac);
  set_jac n aj.

Lemma binding_body_inv (j : nat) (n : string) (vd vd' : VariableDict) :
  body j n vd = Some (vd', Ok tt) ->
  exists v lj aj,
    _output !! j = Some v /\ _output_jac !! j = Some lj /\
    np.dot lj _input_jac = Ok aj /\
    vd' = {| _fun := <[n := v]> (_fun vd); _jac := <[n := aj]> (_jac vd) |}.
Proof using Type.
  unfold body. intros H.
  apply bind_Ok_inv in H as (v & vd1 & Hv & H). apply lift_Ok_inv in Hv as [-> Hv].
  apply bind_Ok_inv in H as ([] & vd2 & Hs & H). injection Hs as <-.
  apply bind_Ok_inv in H as (lj & vd3 & Hl & H). apply lift_Ok_inv in Hl as [-> Hl].
  apply bind_Ok_inv in H as (aj & vd4 & Ha & H). apply lift_Ok_inv in Ha as [-> Ha].
  injection H as <-. exists v, lj, aj.
  destruct (_output !! j); [|discriminate]. injection Hv as ->.
  destruct (_output_jac !! j); [|discriminate]. injection Hl as ->. auto.
Qed.

(** After the loop over the output names, from position [k] on: the
    name at a position holds the product for that position unless the
    name comes again later, and the other names are as before. *)
Lemma binding_loop_spec (names : list string) :
  forall (k : nat) (vd vd' : VariableDict),
    for_enumerate body k names vd = Some (vd', Ok tt) ->
    (forall j n, names !! j = Some n -> n ∉ drop (S j) names ->
       exists v lj aj,
         _output !! (k + j) = Some v /\ _output_jac !! (k + j) = Some lj /\
         np.dot lj _input_jac = Ok aj /\
         _fun vd' !! n = Some v /\ _jac vd' !! n = Some aj) /\
    (forall n, n ∉ names ->
       _fun vd' !! n = _fun vd !! n /\ _jac vd' !! n = _jac vd !! n).
Proof using Type.
  induction names as [|a names IH]; intros k vd vd' H.
  - injection H as <-. split; [intros j n Hj; discriminate | auto].
  - cbn [for_enumerate] in H. apply bind_Ok_inv in H as ([] & vd1 & Hb & H).
    apply binding_body_inv in Hb as (v & lj & aj & Hv & Hl & Ha & ->).
    destruct (IH _ _ _ H) as [IH1 IH2]. split.
    + intros [|j] n Hj Hlast.
      * injection Hj as <-. cbn in Hlast. rewrite Nat.add_0_r.
        exists v, lj, aj. repeat split; try assumption.
        -- rewrite (proj1 (IH2 _ Hlast)). cbn. apply lookup_insert_eq.
        -- rewrite (proj2 (IH2 _ Hlast)). cbn. apply lookup_insert_eq.
      * cbn in Hj, Hlast. replace (k + S j) with (S k + j) by lia.
        apply IH1; assumption.
    + intros n Hn. apply not_elem_of_cons in Hn as [Hna Hn].
      destruct (IH2 _ Hn) as [-> ->]. cbn.
      rewrite !lookup_insert_ne by congruence. auto.
Qed.

End binding_loop.

(** A step of Jacobian mode that returns: its input Jacobian is the
    concatenation of the Jacobians stored for the input names, in their
    order, and the binding loop stores, for each output name (at its
    last position), the product of the local Jacobian of that position
    with the input Jacobian. *)
(** What [np.concatenate] returns: the entries of the arrays one after
    the other, and as many rows as the arrays have together. *)
Lemma concatenate_Ok_inv (arrays : list ndarray) (a : ndarray) :
  np.concatenate arrays = Ok a ->
  np.data a = flat_map np.data arrays /\
  hd 0 (np.shape a) = list_sum (map (fun J => hd 0 (np.shape J)) arrays).
Proof.
  unfold np.concatenate. destruct arrays as [|a0 rest]; [discriminate|].
  destruct (np.shape a0) as [|n s]; [discriminate|].
  destruct (forallb _ rest); [|discriminate].
  intros [= <-]. split; reflexivity.
Qed.

Lemma step_jac_chain_rule (self : Pipeline) (us : bool) (si : nat) (i : Z)
    (_module : Mod.t) (di : stride) (us' : bool) (si' : nat) (vd vd' : VariableDict)
    (r : stride * bool * nat) :
  select_stage self us si i = Ok (_module, di, us', si') ->
  step_jac self us si i vd = Some (vd', Ok r) ->
  exists _input jacs _input_jac _output _output_jac vd1,
    Forall2 (fun n v => _fun vd !! n = Some v) (Mod._input_vars _module) _input /\
    Forall2 (fun n J => _jac vd !! n = Some J) (Mod._input_vars _module) jacs /\
    np.concatenate jacs = Ok _input_jac /\
    np.data _input_jac = flat_map np.data jacs /\
    hd 0 (np.shape _input_jac)
    = list_sum (map (fun J => hd 0 (np.shape J)) jacs) /\
    Mod.fun_and_jac _module _input = Ok (_output, _output_jac) /\
    bind_outputs_jac _module _output _output_jac _input_jac vd = Some (vd1, Ok tt) /\
    (forall j n,
       Mod._output_vars _module !! j = Some n ->
       n ∉ drop (S j) (Mod._output_vars _module) ->
       exists lj aj,
         _output_jac !! j = Some lj /\ np.dot lj _input_jac = Ok aj /\
         _jac vd1 !! n = Some aj) /\
    (_ ← copy_vars_jac _module; delete_vars_jac _module) vd1 = Some (vd', Ok tt).
Proof.
  intros Hsel H. rewrite (step_jac_selected _ _ _ _ _ _ _ _ _ Hsel) in H.
  apply bind_Ok_inv in H as (_input & vd0 & Hin & H).
  apply collect_get_fun_inv in Hin as [-> Hin].
  apply bind_Ok_inv in H as (jacs & vd0 & Hj & H).
  apply collect_get_jac_inv in Hj as [-> Hj].
  apply bind_Ok_inv in H as (_input_jac & vd0 & Hc & H).
  apply lift_Ok_inv in Hc as [-> Hc].
  apply bind_Ok_inv in H as ([_output _output_jac] & vd0 & Hf & H).
  apply lift_Ok_inv in Hf as [-> Hf].
  apply bind_Ok_inv in H as ([] & vd1 & Hb & H).
  apply bind_Ok_inv in H as ([] & vd2 & Hcopy & H).
  apply bind_Ok_inv in H as ([] & vd3 & Hdel & H). injection H as <- <-.
  exists _input, jacs, _input_jac, _output, _output_jac, vd1.
  destruct (concatenate_Ok_inv _ _ Hc) as [Hdata Hrows].
  repeat split; try assumption.
  - intros j n Hn Hlast.
    destruct (proj1 (binding_loop_spec _ _ _ _ _ _ _ Hb) j n Hn Hlast)
      as (v & lj & aj & _ & Hl & Ha & _ & Hjac).
    exists lj, aj. auto.
  - erewrite bind_Ok by exact Hcopy. exact Hdel.
Qed.

(** A step of a stage of one input and one output, without copies and
    deletions. *)
Lemma simple_step_jac (self : Pipeline) (us : bool) (si : nat) (i : Z)
    (m : Mod.t) (a b : string) (vd : VariableDict) (va vb Ja Jm Jb : ndarray)
    (r : nat) (s : list nat) :
  select_stage self us si i = Ok (m, py_int 1, us, si) ->
  Mod._input_vars m = [a] -> Mod._output_vars m = [b] ->
  Mod._copy_vars m = [] -> Mod._delete_vars m = [] ->
  _fun vd !! a = Some va -> _jac vd !! a = Some Ja -> np.shape Ja = r :: s ->
  Mod.fun_and_jac m [va] = Ok ([vb], [Jm]) ->
  np.dot Jm Ja = Ok Jb ->
  step_jac self us si i vd
  = Some ({| _fun := <[b := vb]> (_fun vd); _jac := <[b := Jb]> (_jac vd) |},
          Ok (py_int 1, us, si)).
Proof.
  intros Hsel Hin Hout Hcopy Hdel Hva HJa Hshape Hm Hdot.
  rewrite (step_jac_selected _ _ _ _ _ _ _ _ _ Hsel).
  unfold bind_outputs_jac, copy_vars_jac, delete_vars_jac.
  rewrite Hin, Hout, Hcopy, Hdel. cbn [collect for_enumerate].
  unfold mbind, Run_bind, mret, Run_ret, get_fun, get_jac, lift, set_fun, set_jac.
  rewrite Hva, HJa, (concatenate_single _ _ _ Hshape), Hm. cbn.
  rewrite Hdot. reflexivity.
Qed.

(** A step of a stage of two inputs and one output, without copies
    and deletions: the accumulated Jacobian is the Jacobian of the first
    input above that of the second. *)
Lemma two_input_step_jac (self : Pipeline) (us : bool) (si : nat) (i : Z)
    (g : Mod.t) (di : stride) (us' : bool) (si' : nat) (u v z : string)
    (vd : VariableDict) (u0 v0 z0 Ju Jv Jg J : ndarray) (p q n : nat) :
  select_stage self us si i = Ok (g, di, us', si') ->
  Mod._input_vars g = [u; v] -> Mod._output_vars g = [z] ->
  Mod._copy_vars g = [] -> Mod._delete_vars g = [] ->
  _fun vd !! u = Some u0 -> _fun vd !! v = Some v0 ->
  _jac vd !! u = Some Ju -> _jac vd !! v = Some Jv ->
  np.shape Ju = [p; n] -> np.shape Jv = [q; n] ->
  Mod.fun_and_jac g [u0; v0] = Ok ([z0], [Jg]) ->
  np.dot Jg (np.mk [p + q; n] (np.data Ju ++ np.data Jv)) = Ok J ->
  step_jac self us si i vd
  = Some ({| _fun := <[z := z0]> (_fun vd); _jac := <[z := J]> (_jac vd) |},
          Ok (di, us', si')).
Proof.
  intros Hsel Hin Hout Hcopy Hdel Hu Hv HJu HJv Hsu Hsv Hg Hdot.
  rewrite (step_jac_selected _ _ _ _ _ _ _ _ _ Hsel).
  unfold bind_outputs_jac, copy_vars_jac, delete_vars_jac.
  rewrite Hin, Hout, Hcopy, Hdel. cbn [collect for_enumerate].
  unfold mbind, Run_bind, mret, Run_ret, get_fun, get_jac, lift, set_fun, set_jac.
  rewrite Hu, Hv, HJu, HJv.
  assert (np.concatenate [Ju; Jv]
          = Ok (np.mk [p + q; n] (np.data Ju ++ np.data Jv))) as ->.
  { unfold np.concatenate. rewrite Hsu. cbn [forallb]. rewrite Hsv.
    rewrite bool_decide_eq_true_2 by reflexivity. cbn [andb map hd flat_map].
    rewrite Hsu, Hsv. cbn [hd]. rewrite app_nil_r.
    change (list_sum [p; q]) with (p + (q + 0)). rewrite Nat.add_0_r.
    reflexivity. }
  rewrite Hg. cbn. rewrite Hdot. reflexivity.
Qed.

Section two_module_pipeline.
Context (L : library) (K : constraint_kernels) (b : PipelineBase).
Context (f g : Mod.t) (x y z : string).
Context (x0 y0 z0 Jf Jg J : ndarray) (n p : nat).
Hypothesis f_in : Mod._input_vars f = [x].
Hypothesis f_out : Mod._output_vars f = [y].
Hypothesis f_copy : Mod._copy_vars f = [].
Hypothesis f_del : Mod._delete_vars f = [].
Hypothesis g_in : Mod._input_vars g = [y].
Hypothesis g_out : Mod._output_vars g = [z].
Hypothesis g_copy : Mod._copy_vars g = [].
Hypothesis g_del : Mod._delete_vars g = [].
Hypothesis x0_shape : np.shape x0 = [n].
Hypothesis f_at_x0 : Mod.fun_and_jac f [x0] = Ok ([y0], [Jf]).
Hypothesis g_at_y0 : Mod.fun_and_jac g [y0] = Ok ([z0], [Jg]).
Hypothesis Jf_shape : np.shape Jf = [p; n].
Hypothesis Jf_wf : np.wf Jf.
Hypothesis product : np.dot Jg Jf = Ok J.

(** The Jacobian of [z] that the pipeline accumulates is the product of
    the local Jacobians of [g] and [f]. *)
Lemma two_module_jacobian (us cx : bool) :
  Pipeline_fun_and_jac L K (two_modules b f g x) (in_floats x0)
    {| use_surrogate := us; original_space := true;
       start := step_None; stop := step_None;
       extract_vars := extract_str z; copy_x := cx |}
  = Some (Ok (r_pair z0 J)).
Proof using All.
  destruct x0 as [sx dx]. cbn [np.shape] in x0_shape. subst sx.
  cbn [Pipeline_fun_and_jac]. unfold checked, _options_check.
  cbn [start stop extract_vars _step_check String.eqb Ascii.eqb Bool.eqb].
  cbn [use_surrogate original_space np.shape np.data np.atleast_1d].
  change (n_module (two_modules b f g x)) with 2.
  cbn [mbind res_bind Z.of_nat Pos.of_succ_nat Pos.succ Z.sub Z.add Z.opp
       Z.pos_sub Z.gtb Z.compare].
  unfold jac_vector. cbn [np.shape last default seed two_modules _input_cum
    _input_vars mbind res_bind fst snd].
  unfold run_jac, evaluate_jac, first_surrogate.
  change (has_surrogate _) with false. rewrite andb_false_r.
  change (enough_steps _) with 6.
  change (0 >? Z.of_nat 2 - 1)%Z with false. cbv iota.
  change (Z.of_nat 2 - 1)%Z with 1%Z. change (Datatypes.id n) with n.
  set (self := two_modules b f g x).
  assert (Hsel0 : select_stage self us 0 0 = Ok (f, py_int 1, us, 0)).
  { unfold select_stage. change (has_surrogate _) with false.
    rewrite andb_false_r. reflexivity. }
  assert (Hsel1 : select_stage self us 0 1 = Ok (g, py_int 1, us, 0)).
  { unfold select_stage. change (has_surrogate _) with false.
    rewrite andb_false_r. reflexivity. }
  set (vd0 := {| _fun := <[x := np.mk [n] dx]> ∅; _jac := <[x := np.eye n]> ∅ |}).
  assert (Hstep0 : step_jac self us 0 0 vd0
            = Some ({| _fun := <[y := y0]> (_fun vd0);
                       _jac := <[y := Jf]> (_jac vd0) |}, Ok (py_int 1, us, 0))).
  { apply (simple_step_jac self us 0 0 f x y vd0 (np.mk [n] dx) y0
             (np.eye n) Jf Jf n [n]); try assumption; try reflexivity.
    - cbn. apply lookup_insert_eq.
    - cbn. apply lookup_insert_eq.
    - apply (dot_eye_r Jf p n); assumption. }
  set (vd1 := {| _fun := <[y := y0]> (_fun vd0); _jac := <[y := Jf]> (_jac vd0) |})
    in *.
  assert (Hstep1 : step_jac self us 0 1 vd1
            = Some ({| _fun := <[z := z0]> (_fun vd1);
                       _jac := <[z := J]> (_jac vd1) |}, Ok (py_int 1, us, 0))).
  { apply (simple_step_jac self us 0 1 g y z vd1 y0 z0 Jf Jg J p [n]);
      try assumption; try reflexivity.
    - cbn. apply lookup_insert_eq.
    - cbn. apply lookup_insert_eq. }
  erewrite bind_Ok.
  2:{ rewrite while_steps_unfold. change (0 <=? 1)%Z with true. cbv iota.
      rewrite (bind_Ok _ _ _ _ _ (try_except_Ok _ _ _ _ _ Hstep0)).
      cbv beta iota. change (add_stride 0 (py_int 1)) with 1%Z.
      rewrite while_steps_unfold. change (1 <=? 1)%Z with true. cbv iota.
      rewrite (bind_Ok _ _ _ _ _ (try_except_Ok _ _ _ _ _ Hstep1)).
      cbv beta iota. change (add_stride 1 (py_int 1)) with 2%Z.
      rewrite while_steps_unfold. change (2 <=? 1)%Z with false. cbv iota.
      reflexivity. }
  unfold extract_jac, finish. cbn [_fun _jac]. rewrite !lookup_insert_eq.
  reflexivity.
Qed.

End two_module_pipeline.

(** C1: in Jacobian mode a step stores, for each output variable, the
    product of the local Jacobian of that output block with the
    concatenation, in input-name order, of the Jacobians already stored
    for the input variables: the accumulated Jacobian holds the entries
    of these Jacobians one after the other, so for a stage of two inputs
    it is the Jacobian of the first input above that of the second; and
    for the pipeline [y = f(x)], [z = g(y)] the Jacobian stored for [z]
    is the product of the local Jacobians of [g] and [f]. *)
Theorem C1_chain_rule (L : library) (K : constraint_kernels) :
  (forall (self : Pipeline) (us : bool) (si : nat) (i : Z) (_module : Mod.t)
          (di : stride) (us' : bool) (si' : nat) (vd vd' : VariableDict)
          (r : stride * bool * nat),
     select_stage self us si i = Ok (_module, di, us', si') ->
     step_jac self us si i vd = Some (vd', Ok r) ->
     exists _input jacs _input_jac _output _output_jac vd1,
       Forall2 (fun n v => _fun vd !! n = Some v) (Mod._input_vars _module) _input /\
       Forall2 (fun n J => _jac vd !! n = Some J) (Mod._input_vars _module) jacs /\
       np.concatenate jacs = Ok _input_jac /\
       np.data _input_jac = flat_map np.data jacs /\
       hd 0 (np.shape _input_jac)
       = list_sum (map (fun J => hd 0 (np.shape J)) jacs) /\
       Mod.fun_and_jac _module _input = Ok (_output, _output_jac) /\
       bind_outputs_jac _module _output _output_jac _input_jac vd
       = Some (vd1, Ok tt) /\
       (forall j n,
          Mod._output_vars _module !! j = Some n ->
          n ∉ drop (S j) (Mod._output_vars _module) ->
          exists lj aj,
            _output_jac !! j = Some lj /\ np.dot lj _input_jac = Ok aj /\
            _jac vd1 !! n = Some aj) /\
       (_ ← copy_vars_jac _module; delete_vars_jac _module) vd1
       = Some (vd', Ok tt)) /\
  (forall (b : PipelineBase) (f g : Mod.t) (x y z : string)
          (x0 y0 z0 Jf Jg J : ndarray) (n p : nat) (us cx : bool),
     Mod._input_vars f = [x] -> Mod._output_vars f = [y] ->
     Mod._copy_vars f = [] -> Mod._delete_vars f = [] ->
     Mod._input_vars g = [y] -> Mod._output_vars g = [z] ->
     Mod._copy_vars g = [] -> Mod._delete_vars g = [] ->
     np.shape x0 = [n] ->
     Mod.fun_and_jac f [x0] = Ok ([y0], [Jf]) ->
     Mod.fun_and_jac g [y0] = Ok ([z0], [Jg]) ->
     np.shape Jf = [p; n] -> np.wf Jf ->
     np.dot Jg Jf = Ok J ->
     Pipeline_fun_and_jac L K (two_modules b f g x) (in_floats x0)
       {| use_surrogate := us; original_space := true;
          start := step_None; stop := step_None;
          extract_vars := extract_str z; copy_x := cx |}
     = Some (Ok (r_pair z0 J))) /\
  (forall (self : Pipeline) (us : bool) (si : nat) (i : Z) (g : Mod.t)
          (di : stride) (us' : bool) (si' : nat) (u v z : string)
          (vd : VariableDict) (u0 v0 z0 Ju Jv Jg J : ndarray) (p q n : nat),
     select_stage self us si i = Ok (g, di, us', si') ->
     Mod._input_vars g = [u; v] -> Mod._output_vars g = [z] ->
     Mod._copy_vars g = [] -> Mod._delete_vars g = [] ->
     _fun vd !! u = Some u0 -> _fun vd !! v = Some v0 ->
     _jac vd !! u = Some Ju -> _jac vd !! v = Some Jv ->
     np.shape Ju = [p; n] -> np.shape Jv = [q; n] ->
     Mod.fun_and_jac g [u0; v0] = Ok ([z0], [Jg]) ->
     np.dot Jg (np.mk [p + q; n] (np.data Ju ++ np.data Jv)) = Ok J ->
     step_jac self us si i vd
     = Some ({| _fun := <[z := z0]> (_fun vd); _jac := <[z := J]> (_jac vd) |},
             Ok (di, us', si'))).
Proof.
  split; [|split].
  - intros. eapply step_jac_chain_rule; eassumption.
  - intros. eapply two_module_jacobian; eassumption.
  - intros. eapply two_input_step_jac; eassumption.
Qed.

Lemma dot_1x1 (a b : R) :
  np.dot (np.mk [1; 1] [a]) (np.mk [1; 1] [b]) = Ok (np.mk [1; 1] [(a * b)%R]).
Proof.
  unfold np.dot. cbn. unfold np.inner, np.column, np.chunk, np.Rsum. cbn.
  do 3 f_equal. lra.
Qed.

Lemma dot_1x1_vector (a b : R) :
  np.dot (np.mk [1; 1] [a]) (np.mk [1] [b]) = Ok (np.mk [1] [(a * b)%R]).
Proof.
  unfold np.dot. cbn. unfold np.inner, np.chunk, np.Rsum. cbn.
  do 3 f_equal. lra.
Qed.

Lemma C1_chain_rule_witness :
  Pipeline_fun_and_jac example_library copy_kernels
    (two_modules unscaled
       (linear_stage "x" "y" (np.mk [1; 1] [3%R]))
       (linear_stage "y" "z" (np.mk [1; 1] [2%R])) "x")
    (in_floats (np.mk [1] [5%R]))
    {| use_surrogate := false; original_space := true;
       start := step_None; stop := step_None;
       extract_vars := extract_str "z"; copy_x := false |}
  = Some (Ok (r_pair (np.mk [1] [(2 * (3 * 5))%R]) (np.mk [1; 1] [(2 * 3)%R]))) /\
  step_jac (one_module (joining_stage "u" "v" "z" (np.mk [1; 2] [1%R; 2%R])) "x")
    false 0 0
    {| _fun := <["u" := np.mk [1] [3%R]]> (<["v" := np.mk [1] [4%R]]> ∅);
       _jac := <["u" := np.mk [1; 2] [1%R; 0%R]]>
                 (<["v" := np.mk [1; 2] [0%R; 1%R]]> ∅) |}
  = Some ({| _fun := <["z" := np.mk [1] [11%R]]>
                       (<["u" := np.mk [1] [3%R]]>
                          (<["v" := np.mk [1] [4%R]]> ∅));
             _jac := <["z" := np.mk [1; 2] [1%R; 2%R]]>
                       (<["u" := np.mk [1; 2] [1%R; 0%R]]>
                          (<["v" := np.mk [1; 2] [0%R; 1%R]]> ∅)) |},
          Ok (py_int 1, false, 0)).
Proof.
  split.
  - apply (proj1 (proj2 (C1_chain_rule example_library copy_kernels)) unscaled
             (linear_stage "x" "y" (np.mk [1; 1] [3%R]))
             (linear_stage "y" "z" (np.mk [1; 1] [2%R])) "x" "y" "z"
             (np.mk [1] [5%R]) (np.mk [1] [(3 * 5)%R]) (np.mk [1] [(2 * (3 * 5))%R])
             (np.mk [1; 1] [3%R]) (np.mk [1; 1] [2%R]) (np.mk [1; 1] [(2 * 3)%R])
             1 1 false false); try reflexivity.
    + cbn [Mod.fun_and_jac linear_stage]. rewrite dot_1x1_vector. reflexivity.
    + cbn [Mod.fun_and_jac linear_stage]. rewrite dot_1x1_vector. reflexivity.
    + apply dot_1x1.
  - pose proof (proj2 (proj2 (C1_chain_rule example_library copy_kernels))
             (one_module (joining_stage "u" "v" "z" (np.mk [1; 2] [1%R; 2%R])) "x")
             false 0 0%Z
             (joining_stage "u" "v" "z" (np.mk [1; 2] [1%R; 2%R]))
             (py_int 1) false 0 "u" "v" "z"
             {| _fun := <["u" := np.mk [1] [3%R]]>
                          (<["v" := np.mk [1] [4%R]]> ∅);
                _jac := <["u" := np.mk [1; 2] [1%R; 0%R]]>
                          (<["v" := np.mk [1; 2] [0%R; 1%R]]> ∅) |}
             (np.mk [1] [3%R]) (np.mk [1] [4%R]) (np.mk [1] [11%R])
             (np.mk [1; 2] [1%R; 0%R]) (np.mk [1; 2] [0%R; 1%R])
             (np.mk [1; 2] [1%R; 2%R]) (np.mk [1; 2] [1%R; 2%R]) 1 1 2)
      as Hstep.
    cbn [_fun _jac] in Hstep. apply Hstep; try reflexivity.
    + clear Hstep. cbn [Mod.fun_and_jac joining_stage]. unfold np.concatenate.
      cbn [np.shape forallb]. rewrite bool_decide_eq_true_2 by reflexivity.
      cbn. unfold np.inner, np.chunk, np.Rsum. cbn. repeat f_equal; lra.
    + clear Hstep. cbn. unfold np.inner, np.column, np.chunk, np.Rsum. cbn.
      repeat f_equal; lra.
Defined.

(** ** The decay state *)

Lemma Update_bind_Ok_inv {A B : Type} (m : Update A) (k : A -> Update B)
    (self self' : Density) (b : B) :
  (m ≫= k) self = (self', Ok b) ->
  exists a s1, m self = (s1, Ok a) /\ k a s1 = (self', Ok b).
Proof.
  unfold mbind, Update_bind. destruct (m self) as [s1 [a|e]]; [|discriminate].
  intros H. exists a, s1. auto.
Qed.

Lemma check_Ok_inv {A : Type} (r : res A) (self self' : Density) (a : A) :
  check r self = (self', Ok a) -> self' = self /\ r = Ok a.
Proof. unfold check. intros [= <- ->]. auto. Qed.

Lemma read_inv {A : Type} (f : Density -> A) (self self' : Density) (a : A) :
  read f self = (self', Ok a) -> self' = self /\ a = f self.
Proof. unfold read. intros [= <- <-]. auto. Qed.

Lemma positive_float_inv (v : number) (message : string) (r : R) :
  positive_float v message = Ok r -> v = a_float r /\ (0 < r)%R.
Proof.
  destruct v as [r'|]; [|discriminate]. cbn.
  destruct (Rlt_dec 0 r'); [|discriminate]. intros [= <-]. auto.
Qed.

Lemma float_square_Ok (a : R) :
  (a * a < float_overflow)%R -> float_square a = Ok (a * a)%R.
Proof.
  intros H. unfold float_square.
  destruct (Rle_dec float_overflow (a * a)); [lra | reflexivity].
Qed.

Lemma float_square_inv (a a2 : R) :
  float_square a = Ok a2 -> a2 = (a * a)%R /\ (a * a < float_overflow)%R.
Proof.
  unfold float_square. destruct (Rle_dec float_overflow (a * a)); [discriminate|].
  intros [= <-]. split; [reflexivity | lra].
Qed.

Lemma float_overflow_large : (IZR (2 ^ 64) < float_overflow)%R.
Proof. apply IZR_lt. apply Z.ltb_lt. vm_compute. reflexivity. Qed.

Lemma set_alpha_inv (v : number) (self self' : Density) :
  set_alpha v self = (self', Ok tt) ->
  exists a, v = a_float a /\ (0 < a)%R /\ (a * a < float_overflow)%R /\
            self' = fst (assign_alpha2 (a * a) (fst (assign_alpha a self))).
Proof.
  unfold set_alpha. intros H.
  apply Update_bind_Ok_inv in H as (a & s1 & Hc & H).
  apply check_Ok_inv in Hc as [-> Hc]. apply positive_float_inv in Hc as [-> Ha].
  apply Update_bind_Ok_inv in H as ([] & s2 & Has & H). injection Has as <-.
  apply Update_bind_Ok_inv in H as (a2 & s3 & Hc & H).
  apply check_Ok_inv in Hc as [-> Hc]. apply float_square_inv in Hc as [-> Hsq].
  exists a. injection H as <-. auto.
Qed.

Lemma set_gamma_inv (v : number) (self self' : Density) :
  set_gamma v self = (self', Ok tt) ->
  exists g, v = a_float g /\ (0 < g)%R /\ self' = fst (assign_gamma g self).
Proof.
  unfold set_gamma. intros H.
  apply Update_bind_Ok_inv in H as (g & s1 & Hc & H).
  apply check_Ok_inv in Hc as [-> Hc]. apply positive_float_inv in Hc as [-> Hg].
  exists g. injection H as <-. auto.
Qed.

Lemma same_but_alpha_refl (s : Density) : same_but_alpha s s.
Proof. repeat split. Qed.

Lemma same_but_gamma_refl (s : Density) : same_but_gamma s s.
Proof. repeat split. Qed.

Lemma set_alpha_sets (v : number) (s t : Density) :
  set_alpha v s = (t, Ok tt) ->
  same_but_alpha s t /\
  exists a, v = a_float a /\ (0 < a)%R /\
            _alpha t = Some a /\ _alpha2 t = Some (a * a)%R.
Proof.
  intros Ht. apply set_alpha_inv in Ht as (a & -> & Ha & _ & ->).
  cbn. split; [repeat split|]. exists a. auto.
Qed.

Section decay_state.
Context (L : library) (K : constraint_kernels).

(** The [alpha] that [set_decay] computes from the samples: the
    percentile [p], or [p] hundredths of the maximum, of the distances
    of the samples from [mu] under [hess]. *)
Lemma percentile_alpha_inv (x_o mu hess : ndarray) (alpha_p : option number)
    (s s' : Density) :
  percentile_alpha L x_o mu hess alpha_p s = (s', Ok tt) ->
  same_but_alpha s s' /\
  exists p v q a,
    alpha_p = Some (a_float p) /\ (0 < p)%R /\
    np.sub x_o mu = Ok v /\ np.quadratic_form v hess = Ok q /\
    (if Rlt_dec p 100 then percentile L (np.sqrt q) p = Ok a
     else exists m, amax L (np.sqrt q) = Ok m /\ a = (m * p / 100)%R) /\
    (0 < a)%R /\ _alpha s' = Some a /\ _alpha2 s' = Some (a * a)%R.
Proof.
  unfold percentile_alpha. intros Ht.
  apply Update_bind_Ok_inv in Ht as (p & s1 & Hc & Ht).
  apply check_Ok_inv in Hc as [-> Hc].
  apply Update_bind_Ok_inv in Ht as (v & s1 & Hv & Ht).
  apply check_Ok_inv in Hv as [-> Hv].
  apply Update_bind_Ok_inv in Ht as (q & s1 & Hq & Ht).
  apply check_Ok_inv in Hq as [-> Hq].
  destruct alpha_p as [p0|]; [|discriminate].
  apply positive_float_inv in Hc as [-> Hp].
  cbv zeta in Ht. destruct (Rlt_dec p 100) as [Hlt|Hge] eqn:Hdec.
  - apply Update_bind_Ok_inv in Ht as (a & s1 & Ha & Ht).
    apply check_Ok_inv in Ha as [-> Ha].
    apply set_alpha_sets in Ht as (Hsame & a' & [= <-] & Hpos & H1 & H2).
    split; [exact Hsame|]. exists p, v, q, a. rewrite Hdec. auto 10.
  - apply Update_bind_Ok_inv in Ht as (m & s1 & Ha & Ht).
    apply check_Ok_inv in Ha as [-> Ha].
    apply set_alpha_sets in Ht as (Hsame & a' & [= <-] & Hpos & H1 & H2).
    split; [exact Hsame|]. exists p, v, q, (m * p / 100)%R. rewrite Hdec.
    split; [reflexivity|]. split; [exact Hp|]. split; [exact Hv|].
    split; [exact Hq|]. split; [exists m; auto|]. auto.
Qed.

Lemma choose_alpha_inv (x_o mu hess : ndarray) (alpha alpha_p : option number)
    (s s' : Density) :
  choose_alpha L x_o mu hess alpha alpha_p s = (s', Ok tt) ->
  same_but_alpha s s' /\ is_Some (_alpha s') /\
  (forall a, alpha = Some (a_float a) ->
     _alpha s' = Some a /\ _alpha2 s' = Some (a * a)%R) /\
  (alpha = None -> is_Some (_alpha s) -> alpha_p = None ->
     _alpha s' = _alpha s /\ _alpha2 s' = _alpha2 s) /\
  (alpha = None -> _alpha s = None \/ is_Some alpha_p ->
     exists p v q a,
       alpha_p = Some (a_float p) /\ (0 < p)%R /\
       np.sub x_o mu = Ok v /\ np.quadratic_form v hess = Ok q /\
       (if Rlt_dec p 100 then percentile L (np.sqrt q) p = Ok a
        else exists m, amax L (np.sqrt q) = Ok m /\ a = (m * p / 100)%R) /\
       (0 < a)%R /\ _alpha s' = Some a /\ _alpha2 s' = Some (a * a)%R).
Proof.
  unfold choose_alpha. intros H.
  destruct alpha as [a|].
  - apply set_alpha_sets in H as (Hsame & a' & -> & Hpos & H1 & H2).
    split; [exact Hsame|]. split; [eauto|]. split.
    + intros a [= ->]. auto.
    + split; discriminate.
  - apply Update_bind_Ok_inv in H as (old & s1 & Hr & H).
    apply read_inv in Hr as [-> ->].
    assert (percentile_alpha L x_o mu hess alpha_p s = (s', Ok tt) ->
            same_but_alpha s s' /\ is_Some (_alpha s') /\
            (forall a, @None number = Some (a_float a) ->
               _alpha s' = Some a /\ _alpha2 s' = Some (a * a)%R) /\
            (@None number = None -> is_Some (_alpha s) -> alpha_p = None ->
               _alpha s' = _alpha s /\ _alpha2 s' = _alpha2 s) /\
            (@None number = None -> _alpha s = None \/ is_Some alpha_p ->
               exists p v q a,
                 alpha_p = Some (a_float p) /\ (0 < p)%R /\
                 np.sub x_o mu = Ok v /\ np.quadratic_form v hess = Ok q /\
                 (if Rlt_dec p 100 then percentile L (np.sqrt q) p = Ok a
                  else exists m, amax L (np.sqrt q) = Ok m /\
                                 a = (m * p / 100)%R) /\
                 (0 < a)%R /\ _alpha s' = Some a /\
                 _alpha2 s' = Some (a * a)%R)) as Hcompute.
    { intros Ht. apply percentile_alpha_inv in Ht as (Hsame & p & v & q & a & Hex).
      split; [exact Hsame|]. split; [destruct Hex as (_ & _ & _ & _ & _ & _ & -> & _); eauto|].
      split; [discriminate|]. split.
      - intros _ _ ->. destruct Hex as (Hp & _). discriminate Hp.
      - intros _ _. exists p, v, q, a. exact Hex. }
    destruct (_alpha s) as [a0|] eqn:Hold.
    + destruct alpha_p as [p|].
      * apply Hcompute, H.
      * injection H as <-. rewrite Hold.
        split; [apply same_but_alpha_refl|]. split; [eauto|].
        split; [discriminate|]. split; [auto|].
        intros _ [Hn|[? Hn]]; discriminate Hn.
    + apply Hcompute. destruct alpha_p; exact H.
Qed.

Lemma choose_gamma_inv (gamma : option number) (s s' : Density) :
  choose_gamma gamma s = (s', Ok tt) ->
  same_but_gamma s s' /\ is_Some (_gamma s') /\
  (forall g, gamma = Some (a_float g) -> _gamma s' = Some g) /\
  (gamma = None -> _gamma s = None -> _gamma s' = Some (1 / 10)%R) /\
  (gamma = None -> is_Some (_gamma s) -> _gamma s' = _gamma s).
Proof.
  unfold choose_gamma. intros H. destruct gamma as [g|].
  - apply set_gamma_inv in H as (g' & -> & Hg & ->). cbn.
    split; [repeat split|]. split; [eauto|].
    split; [intros ? [= <-]; reflexivity|]. split; discriminate.
  - apply Update_bind_Ok_inv in H as (old & s1 & Hr & H).
    apply read_inv in Hr as [-> ->].
    destruct (_gamma s) as [g0|] eqn:Hold.
    + injection H as <-. rewrite Hold.
      split; [apply same_but_gamma_refl|]. split; [eauto|].
      split; [discriminate|]. split; [discriminate | reflexivity].
    + injection H as <-. cbn.
      split; [repeat split|]. split; [eauto|].
      split; [discriminate|]. split; [reflexivity|]. intros _ []; discriminate.
Qed.

End decay_state.

(** The surrogates are fitted after the decay is settled, and their fits
    change nothing of the density. *)
Lemma fit_without_decay (L : library) (K : constraint_kernels)
    (var_dicts : list store_arg) (stores : list VariableDict)
    (kw : decay_keywords) (self : Density) :
  all_stores var_dicts = Some stores ->
  exists r,
    fit L K var_dicts false (Some kw) true self
    = Some (fst (assign_use_decay false self), r).
Proof.
  intros Hs. unfold fit, fit_decay. rewrite Hs. cbn [negb].
  unfold assign_use_decay. eexists. reflexivity.
Qed.

(** C10: a call of [set_decay] that returns has assigned [_mu] and
    [_hess], the mean and the inverse of the covariance of the samples
    in the original space; it has an [alpha] in place, which is the one
    given, or the one computed from the distances of the samples, the
    percentile [alpha_p] of them or [alpha_p] hundredths of their
    maximum, or, with neither [alpha] nor [alpha_p] and an [alpha]
    there, the one that was there; it has a [gamma] in place, the one
    given, or the one that was there, or [0.1]; and it has set
    [_use_decay] to [True].  A call of [fit] with [use_decay=False]
    whose arguments pass the checks sets [_use_decay] to [False] and
    changes nothing else of the decay, whatever the fits of the
    surrogates do after. *)
Theorem C10_decay_switch (L : library) (K : constraint_kernels) (self : Density) :
  (forall x original_space alpha alpha_p gamma self',
     set_decay L K x original_space alpha alpha_p gamma self = (self', Ok tt) ->
     _use_decay self' = true /\
     (exists rows x_o mu c hess,
        reshape_rows (np.ascontiguousarray x) = Ok rows /\
        (if original_space then Ok rows
         else r ← to_original K (base (pipeline self)) rows out_True; as_array r)
        = Ok x_o /\
        mean0 L x_o = Ok mu /\ cov L x_o = Ok c /\ inv L c = Ok hess /\
        _mu self' = Some mu /\ _hess self' = Some hess /\
        (alpha = None -> _alpha self = None \/ is_Some alpha_p ->
         exists p v q a,
           alpha_p = Some (a_float p) /\ (0 < p)%R /\
           np.sub x_o mu = Ok v /\ np.quadratic_form v hess = Ok q /\
           (if Rlt_dec p 100 then percentile L (np.sqrt q) p = Ok a
            else exists m, amax L (np.sqrt q) = Ok m /\ a = (m * p / 100)%R) /\
           (0 < a)%R /\ _alpha self' = Some a /\
           _alpha2 self' = Some (a * a)%R)) /\
     is_Some (_alpha self') /\ is_Some (_gamma self') /\
     (forall a, alpha = Some (a_float a) ->
        _alpha self' = Some a /\ _alpha2 self' = Some (a * a)%R) /\
     (alpha = None -> is_Some (_alpha self) -> alpha_p = None ->
        _alpha self' = _alpha self /\ _alpha2 self' = _alpha2 self) /\
     (forall g, gamma = Some (a_float g) -> _gamma self' = Some g) /\
     (gamma = None -> _gamma self = None -> _gamma self' = Some (1 / 10)%R) /\
     (gamma = None -> is_Some (_gamma self) -> _gamma self' = _gamma self) /\
     pipeline self' = pipeline self) /\
  (forall var_dicts kw stores,
     all_stores var_dicts = Some stores ->
     exists self' r,
       fit L K var_dicts false (Some kw) true self = Some (self', r) /\
       _use_decay self' = false /\
       _mu self' = _mu self /\ _hess self' = _hess self /\
       _alpha self' = _alpha self /\ _alpha2 self' = _alpha2 self /\
       _gamma self' = _gamma self /\ pipeline self' = pipeline self).
Proof.
  split.
  - intros x os alpha alpha_p gamma self' H. unfold set_decay in H.
    apply Update_bind_Ok_inv in H as (rows & s1 & Hrows & H).
    apply check_Ok_inv in Hrows as [-> Hrows].
    apply Update_bind_Ok_inv in H as (b & s1 & Hb & H).
    apply read_inv in Hb as [-> ->].
    apply Update_bind_Ok_inv in H as (x_o & s1 & Hx & H).
    apply check_Ok_inv in Hx as [-> Hx].
    apply Update_bind_Ok_inv in H as (mu & s1 & Hmu & H).
    apply check_Ok_inv in Hmu as [-> Hmu].
    apply Update_bind_Ok_inv in H as ([] & s1 & Hamu & H). injection Hamu as <-.
    apply Update_bind_Ok_inv in H as (hess & s2 & Hh & H).
    apply check_Ok_inv in Hh as [-> Hh].
    apply Update_bind_Ok_inv in H as ([] & s2 & Hah & H). injection Hah as <-.
    apply Update_bind_Ok_inv in H as ([] & s3 & Halpha & H).
    apply Update_bind_Ok_inv in H as ([] & s4 & Hgamma & H).
    injection H as <-.
    apply choose_alpha_inv in Halpha
      as ((Hp3 & _ & _ & Hmu3 & Hh3 & Hg3) & Hsome3 & Hgiven3 & Hkept3 & Hnew3).
    apply choose_gamma_inv in Hgamma
      as ((Hp4 & _ & _ & Hmu4 & Hh4 & Ha4 & Ha24)
          & Hsome4 & Hgiven4 & Hdef4 & Hkept4).
    cbn [_alpha _alpha2 _gamma assign_hess assign_mu fst] in Hkept3, Hnew3, Hg3.
    cbn [_use_decay _mu _hess _alpha _alpha2 _gamma pipeline assign_use_decay fst].
    split; [reflexivity|]. split.
    { destruct (cov L x_o) as [c|] eqn:Hc; [|discriminate]. cbn in Hh.
      exists rows, x_o, mu, c, hess.
      split; [exact Hrows|]. split; [exact Hx|].
      split; [exact Hmu|]. split; [exact Hc|]. split; [exact Hh|].
      rewrite Hmu4, Hh4, Hmu3, Hh3. cbn. split; [reflexivity|].
      split; [reflexivity|].
      rewrite Ha4, Ha24. exact Hnew3. }
    split; [rewrite Ha4; exact Hsome3|]. split; [exact Hsome4|].
    split; [intros a Ha; rewrite Ha4, Ha24; apply Hgiven3, Ha|].
    split; [rewrite Ha4, Ha24; exact Hkept3|].
    split; [exact Hgiven4|]. split; [|split].
    + intros Hnone Hold. apply Hdef4; [exact Hnone|]. rewrite Hg3. exact Hold.
    + intros Hnone Hold. rewrite Hkept4; [exact Hg3 | exact Hnone |].
      rewrite Hg3. exact Hold.
    + rewrite Hp4, Hp3. reflexivity.
  - intros var_dicts kw stores Hs.
    destruct (fit_without_decay L K var_dicts stores kw self Hs) as [r Hr].
    eexists _, r. split; [exact Hr|]. cbn. repeat split.
Qed.

(** *** The decay of five samples *)

Section five_samples_statistics.
Local Open Scope R_scope.

Ltac entrywise :=
  repeat (apply (f_equal2 (@cons R)); [lra|]); reflexivity.

Lemma five_samples_rows :
  reshape_rows (np.ascontiguousarray five_samples) = Ok five_samples.
Proof. reflexivity. Qed.

Lemma five_samples_mean :
  mean0 example_library five_samples = Ok (np.mk [2%nat] [0; 0]).
Proof.
  cbn [mean0 example_library]. unfold example_mean0, five_samples.
  cbn [np.shape np.data Nat.eqb seq map]. unfold np.column, np.Rsum.
  cbn [seq map nth Nat.mul Nat.add foldr INR].
  do 2 f_equal. entrywise.
Qed.

Lemma five_samples_cov :
  cov example_library five_samples = Ok (np.mk [2%nat; 2%nat] [2; 0; 0; 2]).
Proof.
  cbn [cov example_library]. unfold example_cov, five_samples.
  cbn [np.shape np.data Nat.eqb]. unfold covariances, np.column, np.Rsum.
  cbn [seq map flat_map app nth Nat.mul Nat.add Nat.sub foldr INR zip_with].
  do 2 f_equal. entrywise.
Qed.

Lemma five_samples_inv :
  inv example_library (np.mk [2%nat; 2%nat] [2; 0; 0; 2])
  = Ok (np.mk [2%nat; 2%nat] [1 / 2; 0; 0; 1 / 2]).
Proof.
  cbn [inv example_library]. unfold example_inv. cbn [np.shape np.data].
  replace (2 * 2 - 0 * 0) with 4 by lra.
  destruct (Req_dec_T 4 0) as [He|_]; [exfalso; lra|].
  do 2 f_equal. entrywise.
Qed.

Lemma five_samples_offsets :
  np.sub five_samples (np.mk [2%nat] [0; 0]) = Ok five_samples.
Proof.
  unfold np.sub, np.binop, five_samples, np.ndim, np.pad_shape.
  cbn [np.shape np.data length Nat.max Nat.sub repeat app np.broadcast_shapes
       Nat.eqb].
  f_equal. f_equal.
  cbn [np.broadcast_data np.prod foldr Nat.mul Nat.add Nat.eqb seq flat_map app].
  unfold np.chunk.
  cbn [Nat.mul Nat.add take drop firstn skipn hd].
  entrywise.
Qed.

Lemma five_samples_distances :
  np.quadratic_form five_samples (np.mk [2%nat; 2%nat] [1 / 2; 0; 0; 1 / 2])
  = Ok (np.mk [5%nat] [2; 2; 2; 2; 0]).
Proof.
  unfold np.quadratic_form, five_samples.
  cbn [np.shape np.data reverse rev_append np.common_length Nat.eqb].
  unfold np.at_axis, np.chunk, np.Rsum.
  cbn [np.prod foldr Nat.mul Nat.add Nat.eqb seq map take drop firstn skipn nth].
  do 2 f_equal. entrywise.
Qed.

Lemma five_samples_amax :
  amax example_library (np.sqrt (np.mk [5%nat] [2; 2; 2; 2; 0])) = Ok (sqrt 2).
Proof.
  cbn [amax example_library]. unfold example_amax, np.sqrt, np.map_entries.
  cbn [np.data map foldr]. f_equal.
  assert (sqrt 0 <= sqrt 2) by (apply sqrt_le_1; lra).
  rewrite (Rmax_right (sqrt 0) (sqrt 2)) by assumption.
  rewrite !(Rmax_left (sqrt 2) (sqrt 2)) by lra. reflexivity.
Qed.

Lemma float_overflow_above (a : R) : (a < IZR (2 ^ 64))%R -> (a < float_overflow)%R.
Proof. intros H. pose proof float_overflow_large. lra. Qed.

Lemma set_decay_five_samples :
  set_decay example_library copy_kernels five_samples true None
    (Some (a_float 150)) None plain_density
  = ({| pipeline := pipeline plain_density;
        _density_name := _density_name plain_density;
        _use_decay := true;
        _mu := Some (np.mk [2%nat] [0; 0]);
        _hess := Some (np.mk [2%nat; 2%nat] [1 / 2; 0; 0; 1 / 2]);
        _alpha := Some (sqrt 2 * 150 / 100);
        _alpha2 := Some (sqrt 2 * 150 / 100 * (sqrt 2 * 150 / 100));
        _gamma := Some (1 / 10) |}, Ok tt).
Proof.
  unfold set_decay, choose_alpha, percentile_alpha, choose_gamma, set_alpha.
  unfold mbind, Update_bind, check, read, assign_mu, assign_hess, assign_alpha,
    assign_alpha2, assign_gamma, assign_use_decay, mret, Update_ret.
  rewrite five_samples_rows, five_samples_mean.
  cbn [res_bind]. rewrite five_samples_cov. cbn [res_bind].
  rewrite five_samples_inv. cbn [_alpha positive_float].
  destruct (Rlt_dec 0 150) as [_|Hn]; [|exfalso; lra].
  rewrite five_samples_offsets, five_samples_distances.
  destruct (Rlt_dec 150 100) as [Hn|_]; [exfalso; lra|].
  rewrite five_samples_amax. cbn [positive_float].
  assert (0 < sqrt 2) as Hs by (apply sqrt_lt_R0; lra).
  destruct (Rlt_dec 0 (sqrt 2 * 150 / 100)) as [_|Hn]; [|exfalso; lra].
  rewrite float_square_Ok.
  - reflexivity.
  - apply float_overflow_above.
    replace (sqrt 2 * 150 / 100 * (sqrt 2 * 150 / 100))
      with (sqrt 2 * sqrt 2 * (9 / 4)) by lra.
    rewrite sqrt_sqrt by lra. change (2 ^ 64)%Z with 18446744073709551616%Z. lra.
Qed.

(** One column of samples: [np.cov] gives an array without axes, which
    [np.linalg.inv] refuses with [_mu] replaced and [_hess] as it was. *)
Lemma set_decay_one_column :
  set_decay example_library copy_kernels two_samples true None
    (Some (a_float 150)) None plain_density
  = ({| pipeline := pipeline plain_density;
        _density_name := _density_name plain_density;
        _use_decay := false;
        _mu := Some (np.mk [1%nat] [(1 + (3 + 0)) / (1 + 1)]);
        _hess := None; _alpha := None; _alpha2 := None; _gamma := None |},
     Raise LinAlgError).
Proof. reflexivity. Qed.

End five_samples_statistics.

Lemma C10_decay_switch_witness :
  exists self',
    set_decay example_library copy_kernels five_samples true None
      (Some (a_float 150)) None plain_density = (self', Ok tt) /\
    _use_decay self' = true /\
    _mu self' = Some (np.mk [2] [0%R; 0%R]) /\
    _hess self' = Some (np.mk [2; 2] [(1 / 2)%R; 0%R; 0%R; (1 / 2)%R]) /\
    _alpha self' = Some (sqrt 2 * 150 / 100)%R /\
    _gamma self' = Some (1 / 10)%R.
Proof.
  eexists. split; [apply set_decay_five_samples|].
  destruct (proj1 (C10_decay_switch example_library copy_kernels plain_density)
              five_samples true None (Some (a_float 150)) None _
              set_decay_five_samples)
    as (Hdecay & (rows & x_o & mu & c & hess & Hrows & Hx & Hmu & Hc & Hh
                  & Hmu' & Hh' & Hnew) & _ & _ & _ & _ & _ & Hgamma & _).
  rewrite five_samples_rows in Hrows. injection Hrows as <-.
  injection Hx as <-.
  rewrite five_samples_mean in Hmu. injection Hmu as <-.
  rewrite five_samples_cov in Hc. injection Hc as <-.
  rewrite five_samples_inv in Hh. injection Hh as <-.
  destruct (Hnew eq_refl (or_introl eq_refl))
    as (p & v & q & a & Hp & _ & Hv & Hq & Ha & _ & Halpha & _).
  injection Hp as <-.
  rewrite five_samples_offsets in Hv. injection Hv as <-.
  rewrite five_samples_distances in Hq. injection Hq as <-.
  destruct (Rlt_dec 150 100) as [Hn|_]; [exfalso; lra|].
  destruct Ha as (m & Hm & ->).
  rewrite five_samples_amax in Hm. injection Hm as <-.
  split; [exact Hdecay|]. split; [exact Hmu'|]. split; [exact Hh'|].
  split; [exact Halpha|]. apply Hgamma; reflexivity.
Defined.

(** ** The decay penalty *)

Lemma spec_penalty_zero (gamma alpha2 b : R) :
  (b <= alpha2)%R -> spec_penalty gamma alpha2 b = 0%R.
Proof.
  intros H. unfold spec_penalty. rewrite Rmax_left by lra. lra.
Qed.

Lemma spec_penalty_beyond (gamma alpha2 b : R) :
  (alpha2 < b)%R -> spec_penalty gamma alpha2 b = (gamma * (b - alpha2))%R.
Proof.
  intros H. unfold spec_penalty. rewrite Rmax_right by lra. reflexivity.
Qed.

Lemma spec_penalty_within_alpha (gamma alpha b : R) :
  (0 <= alpha)%R -> (sqrt b <= alpha)%R ->
  spec_penalty gamma (alpha * alpha) b = 0%R.
Proof.
  intros Ha Hd. apply spec_penalty_zero.
  destruct (Rle_dec 0 b) as [Hb|Hb].
  - rewrite <- (sqrt_sqrt b Hb). pose proof (sqrt_pos b). nra.
  - nra.
Qed.

Lemma spec_penalty_positive (gamma alpha2 b : R) :
  (0 < gamma)%R -> (alpha2 < b)%R -> (0 < spec_penalty gamma alpha2 b)%R.
Proof. intros Hg Hb. rewrite spec_penalty_beyond by exact Hb. nra. Qed.

Lemma spec_penalty_increasing (gamma alpha2 b1 b2 : R) :
  (0 < gamma)%R -> (alpha2 < b1)%R -> (b1 < b2)%R ->
  (spec_penalty gamma alpha2 b1 < spec_penalty gamma alpha2 b2)%R.
Proof.
  intros Hg H1 H2. rewrite !spec_penalty_beyond by lra. nra.
Qed.

(** The array that [logp] subtracts holds the penalty of each entry of
    [beta2]. *)
Lemma penalty_array (gamma alpha2 : R) (beta2 : ndarray) :
  np.scale gamma
    (np.clip_at_zero (np.map_entries (fun b => (b - alpha2)%R) beta2))
  = np.mk (np.shape beta2) (map (spec_penalty gamma alpha2) (np.data beta2)).
Proof.
  unfold np.scale, np.clip_at_zero, np.map_entries. cbn. rewrite !map_map.
  reflexivity.
Qed.

Lemma in_place_same_shape (f : R -> R -> R) (a b : ndarray) :
  np.wf a -> np.wf b -> np.shape a = np.shape b ->
  np.in_place f a b = Ok (np.mk (np.shape a) (zip_with f (np.data a) (np.data b))).
Proof.
  intros Ha Hb Hs. unfold np.in_place. rewrite binop_same_shape by assumption.
  cbn. rewrite bool_decide_eq_true_2 by reflexivity. reflexivity.
Qed.

Lemma quadratic_form_vector (d : nat) (v H : ndarray) :
  np.shape v = [d] -> np.wf v -> np.shape H = [d; d] ->
  np.quadratic_form v H
  = Ok (np.mk [] [squared_distance d (np.data v) (np.data H)]).
Proof.
  destruct v as [sv dv], H as [sh dh]. unfold np.wf, np.size. cbn [np.shape np.data].
  intros -> Hv ->. cbn in Hv. unfold np.quadratic_form. cbn [np.shape np.data].
  change (reverse [d]) with [d].
  unfold np.common_length. rewrite Nat.eqb_refl.
  change (reverse []) with (@nil nat). cbn [np.prod foldr seq map].
  do 2 f_equal. f_equal. unfold squared_distance.
  assert (Hrow : np.chunk d 0 dv = dv).
  { unfold np.chunk. cbn [Nat.mul drop]. apply take_ge. lia. }
  rewrite Hrow. f_equal. apply map_ext_in. intros i Hi%in_seq.
  f_equal. apply map_ext_in. intros j Hj%in_seq.
  unfold np.at_axis. rewrite !broadcast_index_same by lia. reflexivity.
Qed.

Lemma hd_chunk_1 (i : nat) (us : list R) :
  hd 0%R (np.chunk 1 i us) = nth i us 0%R.
Proof.
  unfold np.chunk. rewrite Nat.mul_1_r. revert i.
  induction us as [|u us IH]; intros [|i]; try reflexivity. cbn. apply IH.
Qed.

(** A vector against one number in an array of shape [(1,)]. *)
Lemma binop_vector_one (f : R -> R -> R) (d : nat) (us : list R) (m : R) :
  length us = d ->
  np.binop f (np.mk [d] us) (np.mk [1] [m])
  = Ok (np.mk [d] (map (fun u => f u m) us)).
Proof.
  intros Hlen. unfold np.binop, np.ndim. cbn [np.shape np.data length Nat.max].
  unfold np.pad_shape. cbn [length Nat.sub repeat app np.broadcast_shapes].
  assert (Hshape : (if d =? 1 then Some [d]
                    else if d =? 1 then Some [1]
                    else if 1 =? 1 then Some [d] else None) = Some [d]).
  { destruct (d =? 1); reflexivity. }
  rewrite Hshape. do 2 f_equal. cbn [np.broadcast_data np.prod foldr].
  replace (if d =? 1 then 1 else d) with d
    by (destruct (Nat.eqb_spec d 1); congruence).
  change (1 =? 1) with true. cbv iota.
  transitivity (flat_map (fun i => [f (nth i us 0%R) m]) (seq 0 d)).
  - apply flat_map_ext_elem. intros i Hi%in_seq.
    rewrite broadcast_index_same by lia. rewrite !hd_chunk_1. reflexivity.
  - transitivity (map (fun u => f u m) (map (fun i => nth i us 0%R) (seq 0 d))).
    + rewrite map_map. generalize (seq 0 d). intros l.
      induction l as [|a l IH]; [reflexivity|]. cbn. rewrite IH. reflexivity.
    + rewrite <- Hlen, map_nth_seq. reflexivity.
Qed.

Lemma dot_vector_matrix (d : nat) (v H : ndarray) :
  np.shape v = [d] -> np.wf v -> np.shape H = [d; d] -> np.wf H ->
  np.dot v H
  = Ok (np.mk [d] (map (fun j => np.inner (np.data v) (np.column d d j (np.data H)))
                       (seq 0 d))).
Proof.
  destruct v as [sv dv], H as [sh dh]. unfold np.wf, np.size. cbn [np.shape np.data].
  intros -> Hv -> Hh. cbn in Hv, Hh. rewrite Nat.mul_1_r in Hh.
  unfold np.dot. cbn [np.shape np.data].
  change (reverse [d]) with [d]. change (reverse [d; d]) with [d; d].
  cbv iota. rewrite Nat.eqb_refl. cbn [negb].
  change (reverse []) with (@nil nat). cbn [app np.prod foldr seq flat_map].
  rewrite !app_nil_r. do 2 f_equal.
  assert (Hrow : np.chunk d 0 dv = dv).
  { unfold np.chunk. cbn [Nat.mul drop]. apply take_ge. lia. }
  assert (Hmat : np.chunk (d * d) 0 dh = dh).
  { unfold np.chunk. cbn [Nat.mul drop]. apply take_ge. lia. }
  rewrite Hrow, Hmat. reflexivity.
Qed.

Lemma dot_matrix_vector (d : nat) (v H : ndarray) :
  np.shape v = [d] -> np.shape H = [d; d] ->
  np.dot H v
  = Ok (np.mk [d] (map (fun i => np.inner (np.chunk d i (np.data H)) (np.data v))
                       (seq 0 d))).
Proof.
  destruct v as [sv dv], H as [sh dh]. cbn [np.shape np.data]. intros -> ->.
  unfold np.dot. cbn [np.shape np.data].
  change (reverse [d]) with [d]. change (reverse [d; d]) with [d; d].
  cbv iota. rewrite Nat.eqb_refl. cbn [negb].
  change (reverse [d]) with [d]. cbn [np.prod foldr]. rewrite Nat.mul_1_r.
  reflexivity.
Qed.

Lemma inner_comm (u v : list R) : np.inner u v = np.inner v u.
Proof.
  unfold np.inner. revert v. induction u as [|a u IH]; intros [|b v];
    try reflexivity.
  cbn. fold (np.Rsum (zip_with Rmult u v)). fold (np.Rsum (zip_with Rmult v u)).
  rewrite IH. lra.
Qed.

Lemma chunk_as_map (d i : nat) (h : list R) :
  (i + 1) * d <= length h ->
  np.chunk d i h = map (fun j => nth (i * d + j) h 0%R) (seq 0 d).
Proof.
  intros Hlen. unfold np.chunk.
  apply (nth_ext _ _ 0%R 0%R).
  - rewrite length_take, length_drop, length_map, length_seq. lia.
  - intros j Hj. rewrite length_take, length_drop in Hj.
    rewrite nth_map_seq by lia.
    rewrite <- (firstn_skipn d (drop (i * d) h)) at 1.
    rewrite nth_lookup, lookup_take_lt by lia.
    rewrite <- nth_lookup, take_drop, nth_skipn. reflexivity.
Qed.

(** For a symmetric matrix the vector times the matrix is the matrix
    times the vector. *)
Lemma dot_symmetric (d : nat) (v H : ndarray) :
  np.shape v = [d] -> np.wf v -> np.shape H = [d; d] -> np.wf H ->
  symmetric d (np.data H) ->
  np.dot v H = np.dot H v.
Proof.
  intros Hv Hwv Hh Hwh Hsym.
  rewrite (dot_vector_matrix d) by assumption.
  rewrite (dot_matrix_vector d) by assumption.
  do 2 f_equal. apply map_ext_in. intros j Hj%in_seq.
  rewrite inner_comm. f_equal.
  assert (Hlen : length (np.data H) = d * d).
  { unfold np.wf, np.size in Hwh. rewrite Hh in Hwh. cbn in Hwh. lia. }
  rewrite chunk_as_map by nia. unfold np.column.
  apply map_ext_in. intros i Hi%in_seq. apply Hsym; lia.
Qed.

Lemma written_through_shape (view : option nat) (x l : ndarray) :
  np.shape (written_through view x l) = np.shape x.
Proof.
  unfold written_through. destruct view as [k|]; [|reflexivity].
  destruct (np.data l) as [|? [|? ?]]; reflexivity.
Qed.

Lemma written_through_wf (view : option nat) (x l : ndarray) :
  np.wf x -> np.wf (written_through view x l).
Proof.
  unfold written_through, np.wf, np.size. intros H.
  destruct view as [k|]; [|exact H].
  destruct (np.data l) as [|? [|? ?]]; try exact H.
  cbn [np.shape np.data]. rewrite length_insert. exact H.
Qed.

Section decay_at_a_point.
Context (L : library) (K : constraint_kernels) (self : Density).
Context (d : nat) (mu hess : ndarray) (gamma alpha2 : R).
Hypothesis decay_on : _use_decay self = true.
Hypothesis has_mu : _mu self = Some mu.
Hypothesis has_hess : _hess self = Some hess.
Hypothesis has_gamma : _gamma self = Some gamma.
Hypothesis has_alpha2 : _alpha2 self = Some alpha2.
Hypothesis mu_shape : np.shape mu = [d].
Hypothesis mu_wf : np.wf mu.
Hypothesis hess_shape : np.shape hess = [d; d].
Hypothesis hess_wf : np.wf hess.

(** The offset of a point from the centre and its squared distance. *)
Let offset (y : ndarray) : list R := zip_with Rminus (np.data y) (np.data mu).
Let distance2 (y : ndarray) : R := squared_distance d (offset y) (np.data hess).

Lemma offset_length (y : ndarray) :
  np.shape y = [d] -> np.wf y -> length (offset y) = d.
Proof using mu_shape mu_wf.
  intros y_shape y_wf.
  assert (Hx : length (np.data y) = d).
  { pose proof y_wf as H. unfold np.wf, np.size in H. rewrite y_shape in H.
    cbn in H. lia. }
  assert (Hm : length (np.data mu) = d).
  { pose proof mu_wf as H. unfold np.wf, np.size in H. rewrite mu_shape in H.
    cbn in H. lia. }
  subst offset. cbv beta. rewrite length_zip_with. lia.
Qed.

Lemma offset_wf (y : ndarray) :
  np.shape y = [d] -> np.wf y -> np.wf (np.mk [d] (offset y)).
Proof using mu_shape mu_wf.
  intros y_shape y_wf. pose proof (offset_length y y_shape y_wf) as Hl.
  unfold np.wf, np.size. cbn [np.shape np.data np.prod foldr]. rewrite Hl. lia.
Qed.

Lemma offset_of_point (y : ndarray) :
  np.shape y = [d] -> np.wf y -> np.sub y mu = Ok (np.mk [d] (offset y)).
Proof using mu_shape mu_wf.
  intros y_shape y_wf. unfold np.sub.
  rewrite binop_same_shape by (assumption || congruence).
  rewrite y_shape. reflexivity.
Qed.

Lemma distance_at_point (y : ndarray) :
  np.shape y = [d] -> np.wf y ->
  distance_terms self y
  = Ok (np.mk [d] (offset y), hess, np.mk [] [distance2 y]).
Proof using All.
  intros y_shape y_wf. unfold distance_terms. rewrite has_mu, has_hess.
  cbn [mbind res_bind attribute].
  rewrite (offset_of_point y y_shape y_wf). cbn [mbind res_bind].
  rewrite (quadratic_form_vector d);
    [reflexivity | reflexivity | | exact hess_shape].
  apply offset_wf; assumption.
Qed.

Lemma slope_at_point (y : ndarray) (b2 : R) (gs : list R) :
  np.shape y = [d] -> np.wf y -> length gs = d ->
  exists vh,
    np.dot (np.mk [d] (offset y)) hess = Ok (np.mk [d] vh) /\
    (symmetric d (np.data hess) ->
     np.dot hess (np.mk [d] (offset y)) = Ok (np.mk [d] vh)) /\
    subtract_slope self y (np.mk [] [b2]) (np.mk [d] gs)
    = Ok (np.mk [d]
            (zip_with Rminus gs
               (map (fun u =>
                       (2 * gamma * u
                        * (if Rlt_dec alpha2 b2 then 1 else 0))%R) vh))).
Proof using All.
  intros y_shape y_wf Hgs.
  pose proof (offset_wf y y_shape y_wf) as Hvwf.
  pose proof (dot_vector_matrix d (np.mk [d] (offset y)) hess eq_refl Hvwf
                hess_shape hess_wf) as Hdot.
  eexists. split; [exact Hdot|]. split.
  { intros Hsym. rewrite <- Hdot. symmetry.
    apply (dot_symmetric d); auto. }
  unfold subtract_slope. rewrite has_gamma, has_mu, has_hess, has_alpha2.
  cbn [mbind res_bind attribute].
  rewrite (offset_of_point y y_shape y_wf). cbn [mbind res_bind].
  rewrite Hdot. cbn [mbind res_bind].
  unfold np.scale, np.greater, np.newaxis, np.map_entries.
  cbn [np.shape np.data map app].
  rewrite binop_vector_one by (rewrite !length_map, length_seq; reflexivity).
  cbn [mbind res_bind]. rewrite in_place_same_shape.
  - cbn [np.shape np.data]. rewrite !map_map. reflexivity.
  - unfold np.wf, np.size. cbn. lia.
  - unfold np.wf, np.size. cbn. rewrite !length_map, length_seq. lia.
  - reflexivity.
Qed.

Context (original_space : bool) (x x_o : ndarray).
Hypothesis point : original_point K self x original_space = Ok x_o.
Hypothesis x_shape : np.shape x_o = [d].
Hypothesis x_wf : np.wf x_o.

Lemma logp_at_point (l : R) :
  decay_logp K self x true original_space (np.mk [] [l])
  = Ok (np.mk [] [(l - spec_penalty gamma alpha2 (distance2 x_o))%R]).
Proof using All.
  unfold decay_logp, decay_terms.
  rewrite decay_on, point. cbn [andb mbind res_bind].
  rewrite (distance_at_point x_o x_shape x_wf).
  cbn [mbind res_bind negb]. rewrite has_gamma, has_alpha2.
  cbn [mbind res_bind attribute]. rewrite penalty_array.
  rewrite in_place_same_shape; reflexivity.
Qed.

Lemma grad_at_point (gs : list R) :
  length gs = d ->
  exists vh,
    np.dot (np.mk [d] (offset x_o)) hess = Ok (np.mk [d] vh) /\
    (symmetric d (np.data hess) ->
     np.dot hess (np.mk [d] (offset x_o)) = Ok (np.mk [d] vh)) /\
    decay_grad K self x true original_space (np.mk [d] gs)
    = Ok (np.mk [d]
            (zip_with Rminus gs
               (map (fun u =>
                       (2 * gamma * u
                        * (if Rlt_dec alpha2 (distance2 x_o) then 1 else 0))%R)
                    vh))).
Proof using All.
  intros Hgs.
  destruct (slope_at_point x_o (distance2 x_o) gs x_shape x_wf Hgs)
    as (vh & Hdot & Hsym & Hslope).
  exists vh. split; [exact Hdot|]. split; [exact Hsym|].
  unfold decay_grad. rewrite decay_on, point. cbn [andb mbind res_bind].
  rewrite (distance_at_point x_o x_shape x_wf). cbn [mbind res_bind].
  exact Hslope.
Qed.

(** [logp_and_grad]: the slope is taken at the point as the update of
    [_logp] has left it. *)
Lemma logp_and_grad_at_point (view : option nat) (l : R) (gs : list R) :
  length gs = d ->
  let penalty := spec_penalty gamma alpha2 (distance2 x_o) in
  let x_w := written_through view x_o (np.mk [] [(l - penalty)%R]) in
  exists vh,
    np.dot (np.mk [d] (offset x_w)) hess = Ok (np.mk [d] vh) /\
    decay_logp_and_grad K self x true original_space view
      (np.mk [] [l]) (np.mk [d] gs)
    = Ok (np.mk [] [(l - penalty)%R],
          np.mk [d]
            (zip_with Rminus gs
               (map (fun u =>
                       (2 * gamma * u
                        * (if Rlt_dec alpha2 (distance2 x_o) then 1 else 0))%R)
                    vh))).
Proof using All.
  intros Hgs penalty x_w.
  assert (Hw : np.shape x_w = [d])
    by (unfold x_w; rewrite written_through_shape; exact x_shape).
  assert (Hwf : np.wf x_w) by (apply written_through_wf, x_wf).
  destruct (slope_at_point x_w (distance2 x_o) gs Hw Hwf Hgs)
    as (vh & Hdot & _ & Hslope).
  exists vh. split; [exact Hdot|].
  unfold decay_logp_and_grad. rewrite decay_on, point. cbn [andb mbind res_bind].
  rewrite (distance_at_point x_o x_shape x_wf).
  cbn [mbind res_bind negb]. rewrite has_gamma, has_alpha2.
  cbn [mbind res_bind attribute]. rewrite penalty_array.
  rewrite in_place_same_shape by reflexivity.
  cbn [mbind res_bind np.shape np.data map zip_with].
  fold penalty. fold x_w. rewrite Hslope. reflexivity.
Qed.

End decay_at_a_point.



(** ** Batches *)

Lemma start_check_range (self : Pipeline) (step : step_arg) (z : Z) :
  _step_check self step "start" = Ok z ->
  (0 <= z)%Z /\ (n_module self <> 0 -> (z < Z.of_nat (n_module self))%Z).
Proof.
  intros H. destruct step as [|w|text]; cbn in H; [| |discriminate].
  - injection H as <-. lia.
  - destruct (Nat.eqb_spec (n_module self) 0) as [|Hn]; [discriminate|].
    injection H as <-.
    pose proof (Z.mod_pos_bound w (Z.of_nat (n_module self))). lia.
Qed.

Lemma stop_check_range (self : Pipeline) (step : step_arg) (z : Z) :
  _step_check self step "stop" = Ok z ->
  (z < Z.of_nat (n_module self))%Z /\ (n_module self <> 0 -> (0 <= z)%Z).
Proof.
  intros H. destruct step as [|w|text]; cbn in H; [| |discriminate].
  - injection H as <-. lia.
  - destruct (Nat.eqb_spec (n_module self) 0) as [|Hn]; [discriminate|].
    injection H as <-.
    pose proof (Z.mod_pos_bound w (Z.of_nat (n_module self))). lia.
Qed.

Lemma step_check_int (self : Pipeline) (tag : string) (z : Z) :
  (0 <= z < Z.of_nat (n_module self))%Z ->
  _step_check self (step_int z) tag = Ok z.
Proof.
  intros Hz. cbn. destruct (Nat.eqb_spec (n_module self) 0) as [Hn|Hn]; [lia|].
  rewrite Z.mod_small by lia. reflexivity.
Qed.

Lemma checked_conf (L : library) (self : Pipeline) (o : options)
    (i j : Z) (names_out : extract_arg) :
  var_check_idempotent L ->
  checked L self o = Ok (i, j, names_out) ->
  checked L self (conf o i j names_out) = Ok (i, j, names_out).
Proof.
  intros Hidem. unfold checked, _options_check, conf.
  cbn [start stop extract_vars].
  destruct (_step_check self (start o) "start") as [a|e] eqn:Ha;
    [|discriminate].
  destruct (_step_check self (stop o) "stop") as [b|e] eqn:Hb;
    [|discriminate].
  cbn [mbind res_bind].
  destruct (Z.gtb_spec a b) as [Hgt|Hle]; [discriminate|].
  apply start_check_range in Ha. apply stop_check_range in Hb.
  assert (n_module self <> 0) as Hn by lia.
  intros H.
  assert (a = i /\ b = j /\
          match extract_vars o with
          | extract_names names =>
              exists names', _var_check L names = Ok names' /\
                             names_out = extract_names names'
          | e => names_out = e
          end) as (-> & -> & Hev).
  { destruct (extract_vars o) as [|n|names]; cbn in H.
    - injection H as <- <- <-. auto.
    - injection H as <- <- <-. auto.
    - destruct (_var_check L names) as [names'|e] eqn:Hv; [|discriminate].
      cbn in H. injection H as <- <- <-. eauto. }
  rewrite !step_check_int by lia. cbn [mbind res_bind].
  destruct (Z.gtb_spec i j) as [Hgt|_]; [lia|].
  destruct (extract_vars o) as [|n|names].
  - subst. reflexivity.
  - subst. reflexivity.
  - destruct Hev as (names' & Hv & ->). rewrite (Hidem _ _ Hv). reflexivity.
Qed.

Lemma conf_same_call (L : library) (self : Pipeline) (o : options)
    (start stop : Z) (extract_vars : extract_arg) :
  var_check_idempotent L ->
  checked L self o = Ok (start, stop, extract_vars) ->
  same_call L self (conf o start stop extract_vars) o.
Proof.
  intros Hidem Hc. unfold same_call. rewrite Hc, (checked_conf _ _ _ _ _ _ Hidem Hc).
  repeat split; reflexivity.
Qed.

Lemma same_call_conf (L : library) (self : Pipeline) (o1 o2 : options)
    (start stop : Z) (extract_vars : extract_arg) :
  same_call L self o1 o2 ->
  conf o1 start stop extract_vars = conf o2 start stop extract_vars.
Proof. intros (Hu & Hs & _). unfold conf. rewrite Hu, Hs. reflexivity. Qed.

Section calls_unfolded.
Context (L : library) (K : constraint_kernels) (self : Pipeline).

Lemma fun_floats_unfold (o : options) (s : list nat) (d : list R) :
  fun_floats L K self o s d
  = match checked L self o with
    | Raise e => Some (Raise e)
    | Ok (start, stop, extract_vars) =>
        match s with
        | [] => fun_vector K self (use_surrogate o) (original_space o) start stop
                  extract_vars (np.mk [1] d)
        | [n] => fun_vector K self (use_surrogate o) (original_space o) start stop
                   extract_vars (np.mk [n] d)
        | n :: s' =>
            stack (map (fun i => fun_floats L K self (conf o start stop extract_vars) s'
                                   (np.chunk (np.prod s') i d))
                       (seq 0 n))
        end
    end.
Proof. destruct s as [|n [|m s]]; reflexivity. Qed.

Lemma fun_other_unfold (o : options) (s : list nat) :
  fun_other L self o s
  = match checked L self o with
    | Raise e => Some (Raise e)
    | Ok (start, stop, extract_vars) =>
        match s with
        | [] | [_] => Some (Raise (ValueError "invalid input for fun."))
        | n :: s' =>
            stack (map (fun _ => fun_other L self (conf o start stop extract_vars) s')
                       (seq 0 n))
        end
    end.
Proof. destruct s as [|n [|m s]]; reflexivity. Qed.

Lemma fun_objects_unfold (o : options) (s : list nat)
    (calls : list (options -> outcome)) :
  fun_objects L self o s calls
  = match checked L self o with
    | Raise e => Some (Raise e)
    | Ok (start, stop, extract_vars) =>
        let o' := conf o start stop extract_vars in
        match s with
        | [] | [_] => stack (map (fun call => call o') calls)
        | n :: s' =>
            stack (map (fun i => fun_objects L self o' s'
                                   (np.chunk (np.prod s') i calls))
                       (seq 0 n))
        end
    end.
Proof. destruct s as [|n [|m s]]; reflexivity. Qed.

(** A call reads its options through the check and the two flags
    only. *)
Lemma Pipeline_fun_same_call (x : input) (o1 o2 : options) :
  same_call L self o1 o2 ->
  Pipeline_fun L K self x o1 = Pipeline_fun L K self x o2.
Proof.
  intros Hsame. pose proof Hsame as (Hu & Hs & Hc).
  destruct x as [vd|a|s elems|s]; cbn [Pipeline_fun].
  - rewrite Hc, Hu. reflexivity.
  - rewrite !fun_floats_unfold, Hc, Hu, Hs.
    destruct (checked L self o2) as [[[start stop] ev]|e]; [|reflexivity].
    rewrite (same_call_conf _ _ _ _ start stop ev Hsame). reflexivity.
  - rewrite !fun_objects_unfold, Hc.
    destruct (checked L self o2) as [[[start stop] ev]|e]; [|reflexivity].
    rewrite (same_call_conf _ _ _ _ start stop ev Hsame). reflexivity.
  - rewrite !fun_other_unfold, Hc.
    destruct (checked L self o2) as [[[start stop] ev]|e]; [|reflexivity].
    rewrite (same_call_conf _ _ _ _ start stop ev Hsame). reflexivity.
Qed.

Lemma Pipeline_fun_and_jac_same_call (x : input) (o1 o2 : options) :
  same_call L self o1 o2 ->
  Pipeline_fun_and_jac L K self x o1 = Pipeline_fun_and_jac L K self x o2.
Proof.
  intros Hsame. pose proof Hsame as (Hu & Hs & Hc).
  destruct x as [vd|a|s elems|s]; cbn [Pipeline_fun_and_jac];
    rewrite Hc; destruct (checked L self o2) as [[[start stop] ev]|e];
    try reflexivity;
    rewrite ?(same_call_conf _ _ _ _ start stop ev Hsame), ?Hu, ?Hs; reflexivity.
Qed.

End calls_unfolded.

Lemma map_lookup_seq {A B : Type} (g : option A -> B) (l : list A) :
  map (fun i => g (l !! i)) (seq 0 (length l)) = map (fun a => g (Some a)) l.
Proof.
  induction l as [|a l IH]; [reflexivity|].
  cbn [length seq map]. f_equal. rewrite <- seq_shift, map_map. exact IH.
Qed.

Lemma assign_into_same (v : ndarray) :
  np.wf v -> np.assign_into (np.shape v) v = Ok (np.data v).
Proof.
  unfold np.wf, np.size, np.assign_into. intros Hv.
  rewrite Nat.sub_diag.
  assert (np.strip_ones 0 (np.shape v) = np.shape v) as ->
    by (destruct (np.shape v); reflexivity).
  rewrite Nat.ltb_irrefl, pad_shape_same, broadcast_shapes_same.
  rewrite bool_decide_eq_true_2 by reflexivity.
  rewrite broadcast_data_same by (rewrite ?repeat_length; auto).
  f_equal. rewrite <- Hv. clear Hv.
  induction (np.data v) as [|a l IH]; [reflexivity|].
  cbn. f_equal. exact IH.
Qed.

(** The loop over the evaluations: pairs of one shape are laid one after
    the other. *)
Lemma fill_pairs_stacked (fshape jshape : list nat)
    (rs : list (ndarray * ndarray)) :
  Forall (pair_of_shape fshape jshape) rs ->
  fill_pairs fshape jshape (map pair_result rs)
  = Some (Ok (flat_map (fun fj => np.data (fst fj)) rs,
              flat_map (fun fj => np.data (snd fj)) rs)).
Proof.
  induction 1 as [|[f j] rs (Hf & Hfw & Hj & Hjw) _ IH]; [reflexivity|].
  cbn [map pair_result fill_pairs fst snd as_pair mbind res_bind] in *.
  subst fshape jshape. rewrite !assign_into_same by assumption.
  cbn [mbind res_bind]. rewrite IH. reflexivity.
Qed.

(** The first evaluation that raises or does not end decides. *)
Lemma fill_pairs_failure (fshape jshape : list nat)
    (rs : list (ndarray * ndarray)) (bad : outcome) (rest : list outcome) :
  Forall (pair_of_shape fshape jshape) rs ->
  (forall r, bad <> Some (Ok r)) ->
  fill_pairs fshape jshape (map pair_result rs ++ bad :: rest)
  = match bad with
    | Some (Raise e) => Some (Raise e)
    | _ => None
    end.
Proof.
  intros Hrs Hbad.
  induction Hrs as [|[f j] rs (Hf & Hfw & Hj & Hjw) _ IH].
  - cbn. destruct bad as [[r|e]|]; [destruct (Hbad r)| |]; reflexivity.
  - cbn [map app pair_result fill_pairs fst snd as_pair mbind res_bind] in *.
    subst fshape jshape. rewrite !assign_into_same by assumption.
    cbn [mbind res_bind]. rewrite IH.
    destruct bad as [[r|e]|]; [destruct (Hbad r)| |]; reflexivity.
Qed.

Section jac_batch_calls.
Context (o' : options) (extract_vars : extract_arg) (shape : list nat)
        (calls : list (options -> outcome)).
Hypothesis calls_length : length calls = np.prod shape.

Lemma jac_batch_objects :
  is_str extract_vars = false ->
  jac_batch o' extract_vars shape calls
  = object_batch shape (map (fun call => call o') calls).
Proof using calls_length.
  intros Hev. unfold jac_batch, object_batch. cbv zeta.
  rewrite <- calls_length.
  pose proof (map_lookup_seq
                (fun c => match c with
                          | Some c => c o'
                          | None => Some (Raise IndexError)
                          end) calls) as Hcalls.
  cbv beta in Hcalls. unfold outcome in Hcalls |- *. rewrite Hcalls.
  destruct extract_vars; [reflexivity|discriminate|reflexivity].
Qed.

Lemma jac_batch_outcomes (name : string) (r0 : result) (os : list outcome) :
  extract_vars = extract_str name ->
  map (fun call => call o') calls = Some (Ok r0) :: os ->
  jac_batch o' extract_vars shape calls
  = match as_pair r0 with
    | Raise e => Some (Raise e)
    | Ok (f0, j0) =>
        match fill_pairs (np.shape f0) (np.shape j0) (Some (Ok r0) :: os) with
        | None => None
        | Some (Raise e) => Some (Raise e)
        | Some (Ok (fs, js)) =>
            Some (Ok (r_pair (np.mk (shape ++ np.shape f0) fs)
                             (np.mk (shape ++ np.shape j0) js)))
        end
    end.
Proof using calls_length.
  intros -> Hos. unfold jac_batch. cbv zeta. rewrite <- calls_length.
  destruct calls as [|c0 calls']; [discriminate|].
  cbn [map] in Hos. injection Hos as H0 Hos.
  cbn [lookup list_lookup length]. rewrite H0.
  destruct (as_pair r0) as [[f0 j0]|e]; [|reflexivity].
  replace (S (length calls') - 1) with (length calls') by lia.
  rewrite <- seq_shift, map_map. cbn [lookup list_lookup].
  pose proof (map_lookup_seq
                (fun c => match c with
                          | Some c => c o'
                          | None => Some (Raise IndexError)
                          end) calls') as Hcalls.
  cbv beta in Hcalls. unfold outcome in Hcalls, Hos |- *.
  cbn [lookup list_lookup] in Hcalls |- *. subst os. rewrite <- Hcalls.
  reflexivity.
Qed.

(** Pairs of one shape are stacked along the axes of the batch. *)
Lemma jac_batch_pairs (name : string) (fshape jshape : list nat)
    (rs : list (ndarray * ndarray)) :
  extract_vars = extract_str name ->
  rs <> [] ->
  map (fun call => call o') calls = map pair_result rs ->
  Forall (pair_of_shape fshape jshape) rs ->
  jac_batch o' extract_vars shape calls
  = Some (Ok (stack_pairs shape fshape jshape rs)).
Proof using calls_length.
  intros Hev Hne Hos Hrs. destruct rs as [|[f0 j0] rs]; [destruct Hne; reflexivity|].
  rewrite (jac_batch_outcomes name (r_pair f0 j0) (map pair_result rs) Hev Hos).
  cbn [as_pair].
  change (Some (Ok (r_pair f0 j0)) :: map pair_result rs)
    with (map pair_result ((f0, j0) :: rs)).
  pose proof (Forall_inv Hrs) as (Hf & _ & Hj & _). cbn [fst snd] in Hf, Hj.
  rewrite Hf, Hj, (fill_pairs_stacked _ _ _ Hrs). reflexivity.
Qed.

(** The first evaluation that raises or does not end decides the
    batch. *)
Lemma jac_batch_failure (name : string) (rs : list (ndarray * ndarray))
    (bad : outcome) (rest : list outcome) :
  extract_vars = extract_str name ->
  map (fun call => call o') calls = map pair_result rs ++ bad :: rest ->
  Forall (pair_of_shape (np.shape (hd (np.mk [] []) (map fst rs)))
                        (np.shape (hd (np.mk [] []) (map snd rs)))) rs ->
  (forall r, bad <> Some (Ok r)) ->
  jac_batch o' extract_vars shape calls
  = match bad with
    | Some (Raise e) => Some (Raise e)
    | _ => None
    end.
Proof using calls_length.
  intros Hev Hos Hrs Hbad. destruct rs as [|[f0 j0] rs].
  - cbn [map app] in Hos. subst extract_vars. unfold jac_batch. cbv zeta.
    destruct calls as [|c0 calls']; [discriminate|].
    cbn [map] in Hos. injection Hos as H0 _.
    cbn [lookup list_lookup]. rewrite H0.
    destruct bad as [[r|e]|]; [destruct (Hbad r)| |]; reflexivity.
  - cbn [map app hd fst snd pair_result] in Hos, Hrs.
    rewrite (jac_batch_outcomes name (r_pair f0 j0) _ Hev Hos).
    cbn [as_pair].
    change (Some (Ok (r_pair f0 j0)) :: map pair_result rs ++ bad :: rest)
      with (map pair_result ((f0, j0) :: rs) ++ bad :: rest).
    rewrite (fill_pairs_failure _ _ _ _ _ Hrs Hbad).
    destruct bad as [[r|e]|]; [destruct (Hbad r)| |]; reflexivity.
Qed.

End jac_batch_calls.

Lemma chunk_map {A B : Type} (f : A -> B) (sz i : nat) (l : list A) :
  np.chunk sz i (map f l) = map f (np.chunk sz i l).
Proof. unfold np.chunk. rewrite skipn_map, firstn_map. reflexivity. Qed.

Section batches.
Context (L : library) (K : constraint_kernels) (self : Pipeline) (o : options)
        (start stop : Z) (extract_vars : extract_arg).
Hypothesis var_check_again : var_check_idempotent L.
Hypothesis options_checked : checked L self o = Ok (start, stop, extract_vars).

(** The options of the calls on the elements are those of the call on
    the batch. *)
Lemma conf_unchanged (x : input) :
  Pipeline_fun L K self x (conf o start stop extract_vars)
  = Pipeline_fun L K self x o /\
  Pipeline_fun_and_jac L K self x (conf o start stop extract_vars)
  = Pipeline_fun_and_jac L K self x o.
Proof using var_check_again options_checked.
  split.
  - apply Pipeline_fun_same_call, conf_same_call; assumption.
  - apply Pipeline_fun_and_jac_same_call, conf_same_call; assumption.
Qed.

(** [fun] on a float array of more than one axis: one call for each
    entry of the first axis, stacked. *)
Lemma fun_float_batch (n m : nat) (s : list nat) (d : list R) :
  Pipeline_fun L K self (in_floats (np.mk (n :: m :: s) d)) o
  = stack (map (fun i =>
                  Pipeline_fun L K self
                    (in_floats (np.mk (m :: s) (np.chunk (np.prod (m :: s)) i d))) o)
               (seq 0 n)).
Proof using var_check_again options_checked.
  cbn [Pipeline_fun np.shape np.data].
  rewrite (fun_floats_unfold L K self o), options_checked.
  f_equal. apply map_ext. intros i.
  exact (proj1 (conf_unchanged
                  (in_floats (np.mk (m :: s) (np.chunk (np.prod (m :: s)) i d))))).
Qed.

(** [fun] on a one-dimensional object array: one call for each
    element, stacked. *)
Lemma fun_object_batch (n : nat) (elems : list input) :
  Pipeline_fun L K self (in_objects [n] elems) o
  = stack (map (fun x => Pipeline_fun L K self x o) elems).
Proof using var_check_again options_checked.
  cbn [Pipeline_fun]. rewrite fun_objects_unfold, options_checked.
  cbv zeta. rewrite map_map. f_equal. apply map_ext. intros x.
  exact (proj1 (conf_unchanged x)).
Qed.

(** An object array of more than one axis: one call for each entry of
    the first axis, stacked. *)
Lemma fun_object_batch_axes (n m : nat) (s : list nat) (elems : list input) :
  Pipeline_fun L K self (in_objects (n :: m :: s) elems) o
  = stack (map (fun i =>
                  Pipeline_fun L K self
                    (in_objects (m :: s) (np.chunk (np.prod (m :: s)) i elems)) o)
               (seq 0 n)).
Proof using var_check_again options_checked.
  cbn [Pipeline_fun]. rewrite fun_objects_unfold, options_checked.
  cbv zeta. f_equal. apply map_ext. intros i. rewrite chunk_map.
  exact (proj1 (conf_unchanged
                  (in_objects (m :: s) (np.chunk (np.prod (m :: s)) i elems)))).
Qed.

End batches.

Section jacobian_batches.
Context (L : library) (K : constraint_kernels) (self : Pipeline) (o : options)
        (start stop : Z) (extract_vars : extract_arg).
Hypothesis var_check_again : var_check_idempotent L.
Hypothesis options_checked : checked L self o = Ok (start, stop, extract_vars).

Lemma rows_length (a : ndarray) :
  length (rows a) = np.prod (removelast (np.atleast_1d (np.shape a))).
Proof. unfold rows. cbv zeta. rewrite length_map, length_seq. reflexivity. Qed.

Lemma batch_length (x : input) (shape : list nat) (xs : list input) :
  batch x = Some (shape, xs) ->
  (forall s elems, x = in_objects s elems -> length elems = np.prod (np.atleast_1d s)) ->
  length xs = np.prod shape.
Proof.
  intros Hb Hobj. destruct x as [vd|a|s elems|s]; cbn [batch] in Hb;
    try discriminate.
  - pose proof (rows_length a) as Hr.
    destruct (np.atleast_1d (np.shape a)) as [|n [|m s]]; try discriminate;
      injection Hb as <- <-; exact Hr.
  - injection Hb as <- <-. apply (Hobj s elems). reflexivity.
Qed.

(** [fun_and_jac] on a batch that is not empty works through
    [x_f[0]], [x_f[1]], ..., with [conf]. *)
Lemma fun_and_jac_batch_calls (x : input) (shape : list nat) (xs : list input) :
  batch x = Some (shape, xs) ->
  np.prod shape <> 0 ->
  Pipeline_fun_and_jac L K self x o
  = jac_batch (conf o start stop extract_vars) extract_vars shape
      (map (Pipeline_fun_and_jac L K self) xs).
Proof using options_checked.
  intros Hb Hne. destruct x as [vd|a|s elems|s]; cbn [batch] in Hb;
    try discriminate.
  - cbn [Pipeline_fun_and_jac]. rewrite options_checked. unfold rows in Hb.
    destruct (np.atleast_1d (np.shape a)) as [|n [|m s]] eqn:Hs;
      try discriminate.
    + destruct (np.shape a); discriminate Hs.
    + injection Hb as <- <-. cbv zeta.
      destruct (Nat.eqb_spec (np.prod (removelast (n :: m :: s))) 0) as [H0|_];
        [destruct (Hne H0)|].
      apply (f_equal (jac_batch _ _ _)). symmetry.
      etransitivity; [apply map_map|]. apply map_ext. reflexivity.
  - injection Hb as <- <-. cbn [Pipeline_fun_and_jac].
    rewrite options_checked. reflexivity.
Qed.

Lemma elements_called (xs : list input) :
  map (fun call => call (conf o start stop extract_vars))
      (map (Pipeline_fun_and_jac L K self) xs)
  = map (fun x => Pipeline_fun_and_jac L K self x o) xs.
Proof using var_check_again options_checked.
  rewrite map_map. apply map_ext. intros x.
  apply Pipeline_fun_and_jac_same_call, conf_same_call; assumption.
Qed.

(** Without a name to extract, the batch is the object array of the
    results of the evaluations of its elements. *)
Lemma fun_and_jac_batch_objects (x : input) (shape : list nat) (xs : list input) :
  is_str extract_vars = false ->
  batch x = Some (shape, xs) ->
  length xs = np.prod shape ->
  np.prod shape <> 0 ->
  Pipeline_fun_and_jac L K self x o
  = object_batch shape (map (fun x => Pipeline_fun_and_jac L K self x o) xs).
Proof using var_check_again options_checked.
  intros Hev Hb Hlen Hne.
  rewrite (fun_and_jac_batch_calls x shape xs Hb Hne).
  rewrite jac_batch_objects by (rewrite ?length_map; assumption).
  rewrite elements_called. reflexivity.
Qed.

(** With a name to extract, pairs of one shape are stacked along the
    axes of the batch. *)
Lemma fun_and_jac_batch_pairs (x : input) (shape : list nat) (xs : list input)
    (name : string) (fshape jshape : list nat) (rs : list (ndarray * ndarray)) :
  extract_vars = extract_str name ->
  batch x = Some (shape, xs) ->
  length xs = np.prod shape ->
  np.prod shape <> 0 ->
  map (fun x => Pipeline_fun_and_jac L K self x o) xs = map pair_result rs ->
  Forall (pair_of_shape fshape jshape) rs ->
  Pipeline_fun_and_jac L K self x o
  = Some (Ok (stack_pairs shape fshape jshape rs)).
Proof using var_check_again options_checked.
  intros Hev Hb Hlen Hne Hrs Hshape.
  rewrite (fun_and_jac_batch_calls x shape xs Hb Hne).
  apply (jac_batch_pairs _ _ _ _ ltac:(rewrite length_map; exact Hlen) name);
    try assumption.
  - intros ->. apply (f_equal (@length _)) in Hrs.
    rewrite !length_map in Hrs. cbn in Hrs. lia.
  - rewrite elements_called. exact Hrs.
Qed.

(** The first evaluation that raises or does not end decides the
    batch. *)
Lemma fun_and_jac_batch_failure (x : input) (shape : list nat) (xs : list input)
    (name : string) (rs : list (ndarray * ndarray))
    (bad : outcome) (rest : list outcome) :
  extract_vars = extract_str name ->
  batch x = Some (shape, xs) ->
  length xs = np.prod shape ->
  np.prod shape <> 0 ->
  map (fun x => Pipeline_fun_and_jac L K self x o) xs
  = map pair_result rs ++ bad :: rest ->
  Forall (pair_of_shape (np.shape (hd (np.mk [] []) (map fst rs)))
                        (np.shape (hd (np.mk [] []) (map snd rs)))) rs ->
  (forall r, bad <> Some (Ok r)) ->
  Pipeline_fun_and_jac L K self x o
  = match bad with
    | Some (Raise e) => Some (Raise e)
    | _ => None
    end.
Proof using var_check_again options_checked.
  intros Hev Hb Hlen Hne Hrs Hshape Hbad.
  rewrite (fun_and_jac_batch_calls x shape xs Hb Hne).
  apply (jac_batch_failure _ _ _ _ ltac:(rewrite length_map; exact Hlen)
           name rs bad rest); try assumption.
  rewrite elements_called. exact Hrs.
Qed.

End jacobian_batches.

Lemma remove_dups_NoDup {A : Type} `{EqDecision A} (l : list A) :
  NoDup l -> remove_dups l = l.
Proof.
  induction 1 as [|x l Hx _ IH]; [reflexivity|].
  cbn [remove_dups]. destruct (decide_rel elem_of x l); [contradiction|].
  rewrite IH. reflexivity.
Qed.

Lemma example_var_check_again : var_check_idempotent example_library.
Proof.
  intros names names' H.
  change (example_var_check names = Ok names') in H.
  change (example_var_check names' = Ok names').
  unfold example_var_check in *.
  destruct names as [|n names]; [discriminate|].
  remember (remove_dups (n :: names)) as l0 eqn:Hl0. injection H as <-.
  assert (NoDup l0) as Hnd by (subst l0; apply NoDup_remove_dups).
  assert (n ∈ l0) as Hin by (subst l0; apply elem_of_remove_dups; left).
  clear Hl0. destruct l0 as [|k l]; [inversion Hin|].
  f_equal. apply remove_dups_NoDup, Hnd.
Qed.

(** A batch of two vectors through the stage that hands [x] on as [y]. *)
Example fun_batch_of_two :
  Pipeline_fun example_library copy_kernels
    (one_module (rename_stage "x" "y") "x")
    (in_floats (np.mk [2; 1] [5%R; 7%R]))
    {| use_surrogate := false; original_space := true;
       start := step_None; stop := step_None;
       extract_vars := extract_str "y"; copy_x := false |}
  = Some (Ok (r_value (np.mk [2; 1] [5%R; 7%R]))).
Proof.
  rewrite (fun_float_batch example_library copy_kernels
             (one_module (rename_stage "x" "y") "x")
             {| use_surrogate := false; original_space := true;
                start := step_None; stop := step_None;
                extract_vars := extract_str "y"; copy_x := false |}
             0%Z 0%Z (extract_str "y") example_var_check_again eq_refl).
  reflexivity.
Qed.

Example fun_and_jac_batch_of_two :
  Pipeline_fun_and_jac example_library copy_kernels
    (one_module (rename_stage "x" "y") "x")
    (in_floats (np.mk [2; 1] [5%R; 7%R]))
    {| use_surrogate := false; original_space := true;
       start := step_None; stop := step_None;
       extract_vars := extract_str "y"; copy_x := false |}
  = Some (Ok (r_pair (np.mk [2; 1] [5%R; 7%R])
                     (np.mk [2; 1; 1] [(1 * 1 + 0)%R; (1 * 1 + 0)%R]))).
Proof.
  apply (fun_and_jac_batch_pairs example_library copy_kernels
           (one_module (rename_stage "x" "y") "x")
           {| use_surrogate := false; original_space := true;
                start := step_None; stop := step_None;
                extract_vars := extract_str "y"; copy_x := false |}
           0%Z 0%Z (extract_str "y") example_var_check_again eq_refl
           (in_floats (np.mk [2; 1] [5%R; 7%R])) [2]
           (rows (np.mk [2; 1] [5%R; 7%R])) "y" [1] [1; 1]
           [(np.mk [1] [5%R], np.mk [1; 1] [(1 * 1 + 0)%R]);
            (np.mk [1] [7%R], np.mk [1; 1] [(1 * 1 + 0)%R])]);
    try reflexivity.
  - discriminate.
  - repeat constructor.
Qed.

(** C4, on a batch of no elements: the two calls part.  For
    a float array of shape (0, 1), [Pipeline.fun] returns the empty array
    that stacking the results of no evaluation gives, and
    [Pipeline.fun_and_jac] raises the [ValueError] of
    [x.reshape((size, -1))] with [size = 0]; for an empty one-dimensional
    object array and a name to extract, [Pipeline.fun] returns the empty
    array again and [Pipeline.fun_and_jac] raises [IndexError] at
    [x_f[0]].  On a batch that is not empty the two agree with the
    evaluations of the elements: [fun_float_batch], [fun_object_batch],
    [fun_and_jac_batch_objects] and [fun_and_jac_batch_pairs]. *)
Theorem C4_empty_batch :
  let self := one_module (rename_stage "x" "y") "x" in
  let o := {| use_surrogate := false; original_space := true;
              start := step_None; stop := step_None;
              extract_vars := extract_str "y"; copy_x := false |} in
  let floats := in_floats (np.mk [0; 1] []) in
  let objects := in_objects [0] [] in
  batch floats = Some ([0], []) /\
  batch objects = Some ([0], []) /\
  stack [] = Some (Ok (r_value (np.mk [0] []))) /\
  Pipeline_fun example_library copy_kernels self floats o = stack [] /\
  Pipeline_fun example_library copy_kernels self objects o = stack [] /\
  Pipeline_fun_and_jac example_library copy_kernels self floats o
  = Some (Raise (ValueError "cannot reshape array of size 0")) /\
  Pipeline_fun_and_jac example_library copy_kernels self objects o
  = Some (Raise IndexError).
Proof. repeat split; reflexivity. Qed.

(** * Part III: further properties of the unit *)

(** ** The options of a call *)

Lemma checked_range (L : library) (self : Pipeline) (o : options)
    (i j : Z) (e : extract_arg) :
  checked L self o = Ok (i, j, e) ->
  (0 <= i <= j)%Z /\ (j < Z.of_nat (n_module self))%Z.
Proof.
  unfold checked, _options_check.
  destruct (_step_check self (start o) "start") as [a|?] eqn:Ha; [|discriminate].
  destruct (_step_check self (stop o) "stop") as [b|?] eqn:Hb; [|discriminate].
  cbn [mbind res_bind].
  destruct (Z.gtb_spec a b) as [Hgt|Hle]; [discriminate|].
  apply start_check_range in Ha. apply stop_check_range in Hb. intros H.
  assert (a = i /\ b = j) as [-> ->].
  { destruct (extract_vars o) as [| |names]; cbn in H.
    - injection H as <- <- _. auto.
    - injection H as <- <- _. auto.
    - destruct (_var_check L names); [|discriminate]. cbn in H.
      injection H as <- <- _. auto. }
  lia.
Qed.

(** X1: a step given as an integer is read modulo the number of
    modules, so that a negative step counts from the end: on a pipeline
    with modules [_step_check] returns a step of the pipeline, the step
    itself if it is one and the step plus [n_module] from [-n_module]
    on. *)
Theorem step_check_wraps (self : Pipeline) (tag : string) (z : Z) :
  n_module self <> 0 ->
  let n := Z.of_nat (n_module self) in
  exists r,
    _step_check self (step_int z) tag = Ok r /\
    (0 <= r < n)%Z /\
    (exists q, z = q * n + r)%Z /\
    ((0 <= z < n)%Z -> r = z) /\
    ((- n <= z < 0)%Z -> r = (z + n)%Z).
Proof.
  intros Hn n. exists (z mod n)%Z. cbn [_step_check].
  destruct (Nat.eqb_spec (n_module self) 0) as [H0|_]; [contradiction|].
  assert (0 < n)%Z as Hpos by (unfold n; lia).
  split; [reflexivity|]. split; [apply Z.mod_pos_bound, Hpos|]. split.
  - exists (z / n)%Z. rewrite (Z.mul_comm (z / n)). apply Z.div_mod. lia.
  - split; intros Hz.
    + apply Z.mod_small, Hz.
    + symmetry. apply (Z.mod_unique z n (-1) (z + n)); lia.
Qed.

Lemma step_check_wraps_witness :
  _step_check (one_module (rename_stage "x" "y") "x") (step_int (-1)) "stop"
  = Ok 0%Z.
Proof.
  destruct (step_check_wraps (one_module (rename_stage "x" "y") "x") "stop" (-1)
              ltac:(discriminate)) as (r & -> & _ & _ & _ & Hw).
  f_equal. apply Hw. cbn. lia.
Defined.

(** X2: the options that [_options_check] returns lie within the
    pipeline, [0 <= start <= stop < n_module], whatever was given. *)
Theorem options_check_range (L : library) (self : Pipeline)
    (a b : step_arg) (e : extract_arg) (i j : Z) (e' : extract_arg) :
  _options_check L self a b e = Ok (i, j, e') ->
  (0 <= i <= j)%Z /\ (j < Z.of_nat (n_module self))%Z.
Proof.
  intros H.
  apply (checked_range L self
           {| use_surrogate := false; original_space := true;
              start := a; stop := b; extract_vars := e; copy_x := false |}
           i j e' H).
Qed.

Lemma options_check_range_witness :
  (0 <= 0 <= 1)%Z /\
  (1 < Z.of_nat (n_module
     (two_modules unscaled (rename_stage "x" "y") (rename_stage "y" "z") "x")))%Z.
Proof.
  apply (options_check_range example_library
           (two_modules unscaled (rename_stage "x" "y") (rename_stage "y" "z") "x")
           step_None (step_int (-1)) extract_None 0 1 extract_None).
  reflexivity.
Defined.

Lemma call_checks_first (L : library) (K : constraint_kernels) (self : Pipeline)
    (x : input) (o : options) (e : exn) :
  checked L self o = Raise e ->
  Pipeline_fun L K self x o = Some (Raise e) /\
  Pipeline_fun_and_jac L K self x o = Some (Raise e).
Proof.
  intros Hc. destruct x as [vd|a|s elems|s].
  - cbn [Pipeline_fun Pipeline_fun_and_jac]. rewrite Hc. auto.
  - cbn [Pipeline_fun Pipeline_fun_and_jac].
    rewrite fun_floats_unfold, Hc. auto.
  - cbn [Pipeline_fun Pipeline_fun_and_jac].
    rewrite fun_objects_unfold, Hc. auto.
  - cbn [Pipeline_fun Pipeline_fun_and_jac].
    rewrite fun_other_unfold, Hc. auto.
Qed.

Lemma checked_no_module (L : library) (self : Pipeline) (o : options) :
  n_module self = 0 ->
  exists msg, checked L self o = Raise (ValueError msg).
Proof.
  intros Hn. unfold checked, _options_check.
  destruct (start o) as [|z|text]; cbn [_step_check String.eqb Ascii.eqb Bool.eqb];
    rewrite ?Hn; cbn [Nat.eqb mbind res_bind]; eauto.
  destruct (stop o) as [|z|text]; cbn [_step_check String.eqb Ascii.eqb Bool.eqb];
    rewrite ?Hn; cbn [Nat.eqb mbind res_bind Nat.sub Z.of_nat Z.sub Z.add Z.opp
                      Z.gtb Z.compare]; eauto.
Qed.

(** X3: a pipeline without modules evaluates nothing: [fun] and
    [fun_and_jac] raise [ValueError] from the check of the options, for
    every input and whatever the options are. *)
Theorem no_module_no_evaluation (L : library) (K : constraint_kernels)
    (self : Pipeline) (x : input) (o : options) :
  n_module self = 0 ->
  exists msg,
    Pipeline_fun L K self x o = Some (Raise (ValueError msg)) /\
    Pipeline_fun_and_jac L K self x o = Some (Raise (ValueError msg)).
Proof.
  intros Hn. destruct (checked_no_module L self o Hn) as (msg & Hc).
  exists msg. apply call_checks_first, Hc.
Qed.

Lemma no_module_no_evaluation_witness :
  exists msg,
    Pipeline_fun example_library copy_kernels
      {| base := unscaled; _module_list := []; _surrogate_list := [];
         _surrogate_recipe := []; _input_vars := ["x"]; _input_cum := None |}
      (in_floats (np.mk [1] [5%R]))
      {| use_surrogate := false; original_space := true;
         start := step_None; stop := step_None;
         extract_vars := extract_None; copy_x := false |}
    = Some (Raise (ValueError msg)) /\
    Pipeline_fun_and_jac example_library copy_kernels
      {| base := unscaled; _module_list := []; _surrogate_list := [];
         _surrogate_recipe := []; _input_vars := ["x"]; _input_cum := None |}
      (in_floats (np.mk [1] [5%R]))
      {| use_surrogate := false; original_space := true;
         start := step_None; stop := step_None;
         extract_vars := extract_None; copy_x := false |}
    = Some (Raise (ValueError msg)).
Proof.
  apply (no_module_no_evaluation example_library copy_kernels
           {| base := unscaled; _module_list := []; _surrogate_list := [];
              _surrogate_recipe := []; _input_vars := ["x"]; _input_cum := None |}).
  reflexivity.
Defined.

(** X4: the options that a call hands to its calls on the elements of a
    batch are its own options after the check, and the check returns
    them as they are: such a call sees the [use_surrogate],
    [original_space], [start], [stop] and [extract_vars] of the call on
    the batch.  [Module._var_check] is taken to return its own result
    unchanged. *)
Theorem conf_checks_to_itself (L : library) (K : constraint_kernels)
    (self : Pipeline) (o : options) (i j : Z) (e : extract_arg) :
  var_check_idempotent L ->
  checked L self o = Ok (i, j, e) ->
  checked L self (conf o i j e) = Ok (i, j, e) /\
  use_surrogate (conf o i j e) = use_surrogate o /\
  original_space (conf o i j e) = original_space o /\
  forall x,
    Pipeline_fun L K self x (conf o i j e) = Pipeline_fun L K self x o /\
    Pipeline_fun_and_jac L K self x (conf o i j e)
    = Pipeline_fun_and_jac L K self x o.
Proof.
  intros Hidem Hc. split; [apply checked_conf; assumption|].
  split; [reflexivity|]. split; [reflexivity|].
  intros x. apply conf_unchanged; assumption.
Qed.

Lemma conf_checks_to_itself_witness :
  checked example_library
    (two_modules unscaled (rename_stage "x" "y") (rename_stage "y" "z") "x")
    {| use_surrogate := false; original_space := true;
       start := step_int 0; stop := step_int 1;
       extract_vars := extract_names ["y"; "z"]; copy_x := false |}
  = Ok (0%Z, 1%Z, extract_names ["y"; "z"]).
Proof.
  apply (conf_checks_to_itself example_library copy_kernels
           (two_modules unscaled (rename_stage "x" "y") (rename_stage "y" "z") "x")
           {| use_surrogate := false; original_space := true;
              start := step_int (-2); stop := step_None;
              extract_vars := extract_names ["z"; "y"; "z"]; copy_x := true |}
           0 1 (extract_names ["y"; "z"])
           example_var_check_again eq_refl).
Defined.

(** ** Batches that are not empty *)

(** X5: [fun] on a float array of more than one axis, or on an object
    array, is the stack ([np.asarray]) of its calls on the entries of the
    first axis, each with the options of the call on the batch; the
    first call that raises decides. *)
Theorem fun_batch_is_stack (L : library) (K : constraint_kernels)
    (self : Pipeline) (o : options) (i j : Z) (e : extract_arg) :
  var_check_idempotent L ->
  checked L self o = Ok (i, j, e) ->
  (forall n m s d,
     Pipeline_fun L K self (in_floats (np.mk (n :: m :: s) d)) o
     = stack (map (fun k =>
                     Pipeline_fun L K self
                       (in_floats (np.mk (m :: s)
                                     (np.chunk (np.prod (m :: s)) k d))) o)
                  (seq 0 n))) /\
  (forall n elems,
     Pipeline_fun L K self (in_objects [n] elems) o
     = stack (map (fun x => Pipeline_fun L K self x o) elems)) /\
  (forall n m s elems,
     Pipeline_fun L K self (in_objects (n :: m :: s) elems) o
     = stack (map (fun k =>
                     Pipeline_fun L K self
                       (in_objects (m :: s)
                          (np.chunk (np.prod (m :: s)) k elems)) o)
                  (seq 0 n))).
Proof.
  intros Hidem Hc. split; [|split].
  - intros n m s d. apply (fun_float_batch L K self o i j e Hidem Hc).
  - intros n elems. apply (fun_object_batch L K self o i j e Hidem Hc).
  - intros n m s elems. apply (fun_object_batch_axes L K self o i j e Hidem Hc).
Qed.

Lemma fun_batch_is_stack_witness :
  Pipeline_fun example_library copy_kernels
    (one_module (rename_stage "x" "y") "x")
    (in_floats (np.mk [2; 1] [5%R; 7%R]))
    {| use_surrogate := false; original_space := true;
       start := step_None; stop := step_None;
       extract_vars := extract_str "y"; copy_x := false |}
  = Some (Ok (r_value (np.mk [2; 1] [5%R; 7%R]))).
Proof.
  rewrite (proj1 (fun_batch_is_stack example_library copy_kernels
                    (one_module (rename_stage "x" "y") "x")
                    {| use_surrogate := false; original_space := true;
                       start := step_None; stop := step_None;
                       extract_vars := extract_str "y"; copy_x := false |}
                    0%Z 0%Z (extract_str "y") example_var_check_again eq_refl)).
  reflexivity.
Defined.

(** X6: [fun_and_jac] on a batch that is not empty evaluates its
    elements one by one with the options of the call on the batch.
    Without a name to extract the result is the object array of the
    results, of the shape of the batch; with a name, and pairs of one
    shape, the values and the Jacobians are stacked along the axes of
    the batch. *)
Theorem fun_and_jac_batch_results (L : library) (K : constraint_kernels)
    (self : Pipeline) (o : options) (i j : Z) (e : extract_arg)
    (x : input) (shape : list nat) (xs : list input) :
  var_check_idempotent L ->
  checked L self o = Ok (i, j, e) ->
  batch x = Some (shape, xs) ->
  length xs = np.prod shape ->
  np.prod shape <> 0 ->
  (is_str e = false ->
   Pipeline_fun_and_jac L K self x o
   = object_batch shape (map (fun x => Pipeline_fun_and_jac L K self x o) xs)) /\
  (forall name fshape jshape rs,
     e = extract_str name ->
     map (fun x => Pipeline_fun_and_jac L K self x o) xs = map pair_result rs ->
     Forall (pair_of_shape fshape jshape) rs ->
     Pipeline_fun_and_jac L K self x o
     = Some (Ok (stack_pairs shape fshape jshape rs))).
Proof.
  intros Hidem Hc Hb Hlen Hne. split.
  - intros He.
    apply (fun_and_jac_batch_objects L K self o i j e Hidem Hc x shape xs);
      assumption.
  - intros name fshape jshape rs He Hrs Hshape.
    apply (fun_and_jac_batch_pairs L K self o i j e Hidem Hc x shape xs name);
      assumption.
Qed.

Lemma fun_and_jac_batch_results_witness :
  Pipeline_fun_and_jac example_library copy_kernels
    (one_module (rename_stage "x" "y") "x")
    (in_floats (np.mk [2; 1] [5%R; 7%R]))
    {| use_surrogate := false; original_space := true;
       start := step_None; stop := step_None;
       extract_vars := extract_str "y"; copy_x := false |}
  = Some (Ok (r_pair (np.mk [2; 1] [5%R; 7%R])
                     (np.mk [2; 1; 1] [(1 * 1 + 0)%R; (1 * 1 + 0)%R]))).
Proof.
  apply (proj2 (fun_and_jac_batch_results example_library copy_kernels
                  (one_module (rename_stage "x" "y") "x")
                  {| use_surrogate := false; original_space := true;
                     start := step_None; stop := step_None;
                     extract_vars := extract_str "y"; copy_x := false |}
                  0%Z 0%Z (extract_str "y")
                  (in_floats (np.mk [2; 1] [5%R; 7%R])) [2]
                  (rows (np.mk [2; 1] [5%R; 7%R]))
                  example_var_check_again eq_refl eq_refl eq_refl
                  ltac:(discriminate))
           "y" [1] [1; 1]
           [(np.mk [1] [5%R], np.mk [1; 1] [(1 * 1 + 0)%R]);
            (np.mk [1] [7%R], np.mk [1; 1] [(1 * 1 + 0)%R])]);
    [reflexivity | reflexivity | repeat constructor].
Defined.

(** X7: in a batch evaluated by [fun_and_jac] with a name to extract,
    the first element whose evaluation raises decides: the batch raises
    that exception, whatever the elements after it would do. *)
Theorem fun_and_jac_batch_first_failure (L : library) (K : constraint_kernels)
    (self : Pipeline) (o : options) (i j : Z) (name : string)
    (x : input) (shape : list nat) (xs : list input)
    (rs : list (ndarray * ndarray)) (err : exn) (rest : list outcome) :
  var_check_idempotent L ->
  checked L self o = Ok (i, j, extract_str name) ->
  batch x = Some (shape, xs) ->
  length xs = np.prod shape ->
  np.prod shape <> 0 ->
  map (fun x => Pipeline_fun_and_jac L K self x o) xs
  = map pair_result rs ++ Some (Raise err) :: rest ->
  Forall (pair_of_shape (np.shape (hd (np.mk [] []) (map fst rs)))
                        (np.shape (hd (np.mk [] []) (map snd rs)))) rs ->
  Pipeline_fun_and_jac L K self x o = Some (Raise err).
Proof.
  intros Hidem Hc Hb Hlen Hne Hrs Hshape.
  apply (fun_and_jac_batch_failure L K self o i j (extract_str name) Hidem Hc
           x shape xs name rs (Some (Raise err)) rest eq_refl Hb Hlen Hne Hrs
           Hshape).
  discriminate.
Qed.

Lemma fun_and_jac_batch_first_failure_witness :
  Pipeline_fun_and_jac example_library copy_kernels
    (one_module (rename_stage "x" "y") "x")
    (in_objects [2] [in_floats (np.mk [1] [5%R]); in_other [1]])
    {| use_surrogate := false; original_space := true;
       start := step_None; stop := step_None;
       extract_vars := extract_str "y"; copy_x := false |}
  = Some (Raise (UnboundLocalError "x_f")).
Proof.
  apply (fun_and_jac_batch_first_failure example_library copy_kernels
           (one_module (rename_stage "x" "y") "x")
           {| use_surrogate := false; original_space := true;
              start := step_None; stop := step_None;
              extract_vars := extract_str "y"; copy_x := false |}
           0%Z 0%Z "y"
           (in_objects [2] [in_floats (np.mk [1] [5%R]); in_other [1]]) [2]
           [in_floats (np.mk [1] [5%R]); in_other [1]]
           [(np.mk [1] [5%R], np.mk [1; 1] [(1 * 1 + 0)%R])]
           (UnboundLocalError "x_f") []
           example_var_check_again eq_refl eq_refl eq_refl ltac:(discriminate)).
  - reflexivity.
  - repeat constructor.
Defined.

Lemma fun_other_same_call (L : library) (self : Pipeline) (o1 o2 : options)
    (s : list nat) :
  same_call L self o1 o2 -> fun_other L self o1 s = fun_other L self o2 s.
Proof.
  intros Hsame. pose proof Hsame as (_ & _ & Hc).
  rewrite !fun_other_unfold, Hc.
  destruct (checked L self o2) as [[[a b] e]|?]; [|reflexivity].
  rewrite (same_call_conf _ _ _ _ a b e Hsame). reflexivity.
Qed.

Lemma stack_first_raises (e : exn) (os : list outcome) :
  stack (Some (Raise e) :: os) = Some (Raise e).
Proof. reflexivity. Qed.

Lemma fun_other_raises (L : library) (self : Pipeline) (s : list nat) :
  var_check_idempotent L ->
  Forall (fun n => 0 < n) (removelast s) ->
  forall (o : options) (i j : Z) (e : extract_arg),
    checked L self o = Ok (i, j, e) ->
    fun_other L self o s = Some (Raise (ValueError "invalid input for fun.")).
Proof.
  intros Hidem. induction s as [|n s IH]; intros Hpos o i j e Hc.
  - rewrite fun_other_unfold, Hc. reflexivity.
  - rewrite fun_other_unfold, Hc. destruct s as [|m s]; [reflexivity|].
    change (removelast (n :: m :: s)) with (n :: removelast (m :: s)) in Hpos.
    apply Forall_cons in Hpos as [Hn Hpos].
    destruct n as [|n]; [lia|]. cbn [seq map].
    rewrite (IH Hpos (conf o i j e) i j e (checked_conf _ _ _ _ _ _ Hidem Hc)).
    apply stack_first_raises.
Qed.

(** X8: an array that is neither float nor object is refused, in two
    ways: [fun] raises [ValueError] if no axis before the last is empty,
    and [fun_and_jac], whose [ValueError] is built and not raised, ends
    in the [UnboundLocalError] of the first name it reads after. *)
Theorem other_arrays_are_refused (L : library) (K : constraint_kernels)
    (self : Pipeline) (o : options) (i j : Z) (e : extract_arg) (s : list nat) :
  var_check_idempotent L ->
  checked L self o = Ok (i, j, e) ->
  (Forall (fun n => 0 < n) (removelast s) ->
   Pipeline_fun L K self (in_other s) o
   = Some (Raise (ValueError "invalid input for fun."))) /\
  Pipeline_fun_and_jac L K self (in_other s) o
  = Some (Raise (UnboundLocalError (if is_str e then "x_f" else "size"))).
Proof.
  intros Hidem Hc. split.
  - intros Hpos. cbn [Pipeline_fun].
    apply (fun_other_raises L self s Hidem Hpos o i j e Hc).
  - cbn [Pipeline_fun_and_jac]. rewrite Hc. destruct e; reflexivity.
Qed.

Lemma other_arrays_are_refused_witness :
  Pipeline_fun example_library copy_kernels
    (one_module (rename_stage "x" "y") "x") (in_other [2; 3])
    {| use_surrogate := false; original_space := true;
       start := step_None; stop := step_None;
       extract_vars := extract_None; copy_x := false |}
  = Some (Raise (ValueError "invalid input for fun.")).
Proof.
  apply (proj1 (other_arrays_are_refused example_library copy_kernels
                  (one_module (rename_stage "x" "y") "x")
                  {| use_surrogate := false; original_space := true;
                     start := step_None; stop := step_None;
                     extract_vars := extract_None; copy_x := false |}
                  0%Z 0%Z extract_None [2; 3] example_var_check_again eq_refl)).
  repeat constructor.
Defined.

(** ** What a run keeps *)

Section kept.
Context (I : VariableDict -> Prop).

Lemma keeps_bind {A B : Type} (m : Run A) (k : A -> Run B) :
  keeps I m -> (forall a, keeps I (k a)) -> keeps I (m ≫= k).
Proof.
  intros Hm Hk vd vd' r HI H. unfold mbind, Run_bind in H.
  destruct (m vd) as [[vd1 [a|e]]|] eqn:Hmvd; [| |discriminate].
  - apply (Hk a vd1 vd' r); [|exact H]. apply (Hm vd vd1 (Ok a)); assumption.
  - injection H as <- <-. apply (Hm vd vd1 (Raise e)); assumption.
Qed.

Lemma keeps_ret {A : Type} (a : A) : keeps I (mret a).
Proof. intros vd vd' r HI H. injection H as <- _. exact HI. Qed.

Lemma keeps_lift {A : Type} (r : res A) : keeps I (lift r).
Proof. intros vd vd' r' HI H. injection H as <- _. exact HI. Qed.

Lemma keeps_get_fun (n : string) : keeps I (get_fun n).
Proof. intros vd vd' r HI H. injection H as <- _. exact HI. Qed.

Lemma keeps_get_jac (n : string) : keeps I (get_jac n).
Proof. intros vd vd' r HI H. injection H as <- _. exact HI. Qed.

Lemma keeps_collect {A : Type} (body : string -> Run A) (names : list string) :
  (forall n, keeps I (body n)) -> keeps I (collect body names).
Proof.
  intros Hb. induction names as [|n names IH]; cbn [collect].
  - apply keeps_ret.
  - apply keeps_bind; [apply Hb|]. intros a.
    apply keeps_bind; [exact IH|]. intros vs. apply keeps_ret.
Qed.

Lemma keeps_for_enumerate (body : nat -> string -> Run unit) (names : list string) :
  (forall j n, keeps I (body j n)) ->
  forall j, keeps I (for_enumerate body j names).
Proof.
  intros Hb. induction names as [|n names IH]; intros j; cbn [for_enumerate].
  - apply keeps_ret.
  - apply keeps_bind; [apply Hb|]. intros _. apply IH.
Qed.

Lemma keeps_try_except {A : Type} (body : Run A) (message : string) :
  keeps I body -> keeps I (try_except body message).
Proof.
  intros Hb vd vd' r HI H. unfold try_except in H.
  destruct (body vd) as [[vd1 [a|e]]|] eqn:Hbody; [| |discriminate].
  - injection H as <- <-. apply (Hb vd vd1 (Ok a)); assumption.
  - injection H as <- <-. apply (Hb vd vd1 (Raise e)); assumption.
Qed.

Lemma keeps_while_steps (step : bool -> nat -> Z -> Run (stride * bool * nat))
    (failed : Z -> string) (stop : Z) :
  (forall us si i, keeps I (step us si i)) ->
  forall steps us si i, keeps I (while_steps step failed steps stop us si i).
Proof.
  intros Hstep. induction steps as [|steps IH]; intros us si i.
  - cbn [while_steps]. destruct (i <=? stop)%Z; [|apply keeps_ret].
    intros vd vd' r _ H. discriminate.
  - rewrite while_steps_unfold. destruct (i <=? stop)%Z; [|apply keeps_ret].
    apply keeps_bind; [apply keeps_try_except, Hstep|].
    intros [[di us'] si']. apply IH.
Qed.

Lemma keeps_paste_name_fun (_module : Mod.t) (j : nat) (n : string) :
  keeps I (paste_name_fun _module j n).
Proof.
  intros vd vd' r HI H. unfold paste_name_fun in H.
  destruct (Mod._paste_vars _module !! j); [injection H as <- _; exact HI|].
  destruct (first_free _ _ _ _); [|discriminate]. injection H as <- _. exact HI.
Qed.

Lemma keeps_paste_name_jac (_module : Mod.t) (j : nat) (n : string) :
  keeps I (paste_name_jac _module j n).
Proof.
  intros vd vd' r HI H. unfold paste_name_jac in H.
  destruct (Mod._paste_vars _module !! j); [injection H as <- _; exact HI|].
  destruct (first_free _ _ _ _); [|discriminate]. injection H as <- _. exact HI.
Qed.

End kept.

Section value_mode_keeps.
Context (J : gmap string ndarray).

Let jac_is (vd : VariableDict) : Prop := _jac vd = J.

Lemma set_fun_keeps_jac (n : string) (v : ndarray) : keeps jac_is (set_fun n v).
Proof. intros vd vd' r HI H. injection H as <- _. exact HI. Qed.

Lemma del_fun_keeps_jac (n : string) : keeps jac_is (del_fun n).
Proof.
  intros vd vd' r HI H. unfold del_fun in H.
  destruct (_fun vd !! n); injection H as <- _; exact HI.
Qed.

Lemma step_fun_keeps_jac (self : Pipeline) (us : bool) (si : nat) (i : Z) :
  keeps jac_is (step_fun self us si i).
Proof.
  unfold step_fun. apply keeps_bind; [apply keeps_lift|].
  intros [[[_module di] us'] si'].
  apply keeps_bind; [apply keeps_collect, keeps_get_fun|]. intros _input.
  apply keeps_bind; [apply keeps_lift|]. intros _output.
  apply keeps_bind.
  { apply keeps_for_enumerate. intros j n.
    apply keeps_bind; [apply keeps_lift|]. intros v. apply set_fun_keeps_jac. }
  intros _. apply keeps_bind.
  { apply keeps_for_enumerate. intros j n.
    apply keeps_bind; [apply keeps_paste_name_fun|]. intros nn.
    apply keeps_bind; [apply keeps_get_fun|]. intros v. apply set_fun_keeps_jac. }
  intros _. apply keeps_bind.
  { apply keeps_for_enumerate. intros j n. apply del_fun_keeps_jac. }
  intros _. apply keeps_ret.
Qed.

Lemma run_fun_keeps_jac (self : Pipeline) (us : bool) (i j : Z) (e : extract_arg) :
  keeps jac_is (run_fun self us i j e).
Proof.
  unfold run_fun. apply keeps_bind.
  - unfold evaluate_fun. destruct (first_surrogate self us i) as [us' si].
    apply keeps_while_steps. intros. apply step_fun_keeps_jac.
  - intros _ vd vd' r HI H. injection H as <- _. exact HI.
Qed.

End value_mode_keeps.

Lemma run_fun_whole_store (self : Pipeline) (us : bool) (i j : Z)
    (vd vdf : VariableDict) (r : result) :
  run_fun self us i j extract_None vd = Some (vdf, Ok r) -> r = r_store vdf.
Proof.
  unfold run_fun. intros H. apply bind_Ok_inv in H as ([] & vd1 & _ & H).
  unfold extract_fun in H. injection H as <- <-. reflexivity.
Qed.

Lemma checked_extract_None (L : library) (self : Pipeline) (o : options)
    (i j : Z) (e : extract_arg) :
  extract_vars o = extract_None ->
  checked L self o = Ok (i, j, e) -> e = extract_None.
Proof.
  unfold checked, _options_check. intros ->.
  destruct (_step_check self (start o) "start"); [|discriminate].
  destruct (_step_check self (stop o) "stop"); [|discriminate].
  cbn [mbind res_bind]. destruct (_ >? _)%Z; [discriminate|].
  cbn. intros H. injection H as _ _ <-. reflexivity.
Qed.

(** X9: value mode never touches the Jacobians.  However a run of
    [fun] ends, the store holds the Jacobians it held before; so the
    store that [fun] returns for a store has the Jacobians of that
    store, and the store it returns for a float vector has none. *)
Theorem fun_keeps_jacobians (L : library) (K : constraint_kernels)
    (self : Pipeline) :
  (forall us i j e vd vd' r,
     run_fun self us i j e vd = Some (vd', r) -> _jac vd' = _jac vd) /\
  (forall o vd vd',
     extract_vars o = extract_None ->
     Pipeline_fun L K self (in_store vd) o = Some (Ok (r_store vd')) ->
     _jac vd' = _jac vd) /\
  (forall o n d vd',
     extract_vars o = extract_None ->
     Pipeline_fun L K self (in_floats (np.mk [n] d)) o = Some (Ok (r_store vd')) ->
     _jac vd' = ∅).
Proof.
  assert (Hrun : forall us i j e vd vd' r,
             run_fun self us i j e vd = Some (vd', r) -> _jac vd' = _jac vd).
  { intros us i j e vd vd' r H.
    apply (run_fun_keeps_jac (_jac vd) self us i j e vd vd' r eq_refl H). }
  split; [exact Hrun|]. split.
  - intros o vd vd' He H. cbn [Pipeline_fun] in H.
    destruct (checked L self o) as [[[i j] e]|?] eqn:Hc; [|discriminate].
    apply (checked_extract_None _ _ _ _ _ _ He) in Hc as ->.
    destruct (run_fun self (use_surrogate o) i j extract_None vd)
      as [[vdf [r|?]]|] eqn:Hr; try discriminate.
    cbn [finish] in H. injection H as ->.
    pose proof (run_fun_whole_store _ _ _ _ _ _ _ Hr) as Hs.
    injection Hs as ->. apply (Hrun _ _ _ _ _ _ _ Hr).
  - intros o n d vd' He H. cbn [Pipeline_fun np.shape np.data] in H.
    rewrite fun_floats_unfold in H.
    destruct (checked L self o) as [[[i j] e]|?] eqn:Hc; [|discriminate].
    apply (checked_extract_None _ _ _ _ _ _ He) in Hc as ->.
    unfold fun_vector in H.
    destruct (x ← (if original_space o then Ok (np.mk [n] d)
                   else r ← to_original K (base self) (np.mk [n] d) out_True;
                        as_array r);
              m ← seed self x ∅; Ok {| _fun := m; _jac := ∅ |})
      as [var_dict|?] eqn:Hseed; [|discriminate].
    assert (_jac var_dict = ∅) as Hempty.
    { destruct (if original_space o then _ else _) as [x|?]; [|discriminate].
      cbn [mbind res_bind] in Hseed.
      destruct (seed self x ∅) as [m|?]; [|discriminate].
      injection Hseed as <-. reflexivity. }
    destruct (run_fun self (use_surrogate o) i j extract_None var_dict)
      as [[vdf [r|?]]|] eqn:Hr; try discriminate.
    cbn [finish] in H. injection H as ->.
    pose proof (run_fun_whole_store _ _ _ _ _ _ _ Hr) as Hs.
    injection Hs as ->. rewrite (Hrun _ _ _ _ _ _ _ Hr). exact Hempty.
Qed.

(** ** Every call ends *)

Lemma ends_bind {A B : Type} (m : Run A) (k : A -> Run B) :
  ends m -> (forall a, ends (k a)) -> ends (m ≫= k).
Proof.
  intros Hm Hk vd. unfold mbind, Run_bind.
  destruct (Hm vd) as [[vd1 [a|e]] ->]; [apply Hk | eauto].
Qed.

Lemma ends_ret {A : Type} (a : A) : ends (mret a).
Proof. intros vd. eexists. reflexivity. Qed.

Lemma ends_lift {A : Type} (r : res A) : ends (lift r).
Proof. intros vd. eexists. reflexivity. Qed.

Lemma ends_get_fun (n : string) : ends (get_fun n).
Proof. intros vd. eexists. reflexivity. Qed.

Lemma ends_get_jac (n : string) : ends (get_jac n).
Proof. intros vd. eexists. reflexivity. Qed.

Lemma ends_set_fun (n : string) (v : ndarray) : ends (set_fun n v).
Proof. intros vd. eexists. reflexivity. Qed.

Lemma ends_set_jac (n : string) (v : ndarray) : ends (set_jac n v).
Proof. intros vd. eexists. reflexivity. Qed.

Lemma ends_del_fun (n : string) : ends (del_fun n).
Proof. intros vd. unfold del_fun. destruct (_fun vd !! n); eauto. Qed.

Lemma ends_del_jac (n : string) : ends (del_jac n).
Proof. intros vd. unfold del_jac. destruct (_jac vd !! n); eauto. Qed.

Lemma ends_collect {A : Type} (body : string -> Run A) (names : list string) :
  (forall n, ends (body n)) -> ends (collect body names).
Proof.
  intros Hb. induction names as [|n names IH]; cbn [collect].
  - apply ends_ret.
  - apply ends_bind; [apply Hb|]. intros a.
    apply ends_bind; [exact IH|]. intros vs. apply ends_ret.
Qed.

Lemma ends_for_enumerate (body : nat -> string -> Run unit) (names : list string) :
  (forall j n, ends (body j n)) -> forall j, ends (for_enumerate body j names).
Proof.
  intros Hb. induction names as [|n names IH]; intros j; cbn [for_enumerate].
  - apply ends_ret.
  - apply ends_bind; [apply Hb|]. intros _. apply IH.
Qed.

Lemma ends_try_except {A : Type} (body : Run A) (message : string) :
  ends body -> ends (try_except body message).
Proof.
  intros Hb vd. unfold try_except. destruct (Hb vd) as [[vd1 [a|e]] ->]; eauto.
Qed.

(** The search for a free name ends: only so many names are bound. *)
Lemma ends_paste_name_fun (_module : Mod.t) (j : nat) (n : string) :
  ends (paste_name_fun _module j n).
Proof.
  intros vd. unfold paste_name_fun.
  destruct (Mod._paste_vars _module !! j); [eauto|].
  destruct (first_free_fun (_fun vd) n) as (k & _ & -> & _). eauto.
Qed.

Lemma ends_paste_name_jac (_module : Mod.t) (j : nat) (n : string) :
  ends (paste_name_jac _module j n).
Proof.
  intros vd. unfold paste_name_jac.
  destruct (Mod._paste_vars _module !! j); [eauto|].
  destruct (first_free_jac (_fun vd) (_jac vd) n) as (k & _ & -> & _). eauto.
Qed.

Lemma ends_step_fun (self : Pipeline) (us : bool) (si : nat) (i : Z) :
  ends (step_fun self us si i).
Proof.
  unfold step_fun. apply ends_bind; [apply ends_lift|].
  intros [[[_module di] us'] si'].
  apply ends_bind; [apply ends_collect, ends_get_fun|]. intros _input.
  apply ends_bind; [apply ends_lift|]. intros _output.
  apply ends_bind.
  { apply ends_for_enumerate. intros j n.
    apply ends_bind; [apply ends_lift|]. intros v. apply ends_set_fun. }
  intros _. apply ends_bind.
  { apply ends_for_enumerate. intros j n.
    apply ends_bind; [apply ends_paste_name_fun|]. intros nn.
    apply ends_bind; [apply ends_get_fun|]. intros v. apply ends_set_fun. }
  intros _. apply ends_bind.
  { apply ends_for_enumerate. intros j n. apply ends_del_fun. }
  intros _. apply ends_ret.
Qed.

Lemma ends_step_jac (self : Pipeline) (us : bool) (si : nat) (i : Z) :
  ends (step_jac self us si i).
Proof.
  unfold step_jac. apply ends_bind; [apply ends_lift|].
  intros [[[_module di] us'] si'].
  apply ends_bind; [apply ends_collect, ends_get_fun|]. intros _input.
  apply ends_bind; [apply ends_collect, ends_get_jac|]. intros jacs.
  apply ends_bind; [apply ends_lift|]. intros _input_jac.
  apply ends_bind; [apply ends_lift|]. intros [_output _output_jac].
  apply ends_bind.
  { apply ends_for_enumerate. intros j n.
    apply ends_bind; [apply ends_lift|]. intros v.
    apply ends_bind; [apply ends_set_fun|]. intros _.
    apply ends_bind; [apply ends_lift|]. intros lj.
    apply ends_bind; [apply ends_lift|]. intros aj. apply ends_set_jac. }
  intros _. apply ends_bind.
  { apply ends_for_enumerate. intros j n.
    apply ends_bind; [apply ends_paste_name_jac|]. intros nn.
    apply ends_bind; [apply ends_get_fun|]. intros v.
    apply ends_bind; [apply ends_get_jac|]. intros vj.
    apply ends_bind; [apply ends_set_fun|]. intros _. apply ends_set_jac. }
  intros _. apply ends_bind.
  { apply ends_for_enumerate. intros j n.
    apply ends_bind; [apply ends_del_fun|]. intros _. apply ends_del_jac. }
  intros _. apply ends_ret.
Qed.

(** What a step that returns has selected. *)
Lemma step_fun_selects (self : Pipeline) (us : bool) (si : nat) (i : Z)
    (vd vd' : VariableDict) (di : stride) (us' : bool) (si' : nat) :
  step_fun self us si i vd = Some (vd', Ok (di, us', si')) ->
  exists _module, select_stage self us si i = Ok (_module, di, us', si').
Proof.
  unfold step_fun. intros H. apply bind_Ok_inv in H as (sel & vd1 & Hsel & H).
  injection Hsel as _ Hsel. destruct sel as [[[_module di0] us0] si0].
  exists _module. rewrite Hsel.
  apply bind_Ok_inv in H as (? & ? & _ & H).
  apply bind_Ok_inv in H as (? & ? & _ & H).
  apply bind_Ok_inv in H as (? & ? & _ & H).
  apply bind_Ok_inv in H as (? & ? & _ & H).
  apply bind_Ok_inv in H as (? & ? & _ & H).
  injection H as _ <- <- <-. reflexivity.
Qed.

Lemma step_jac_selects (self : Pipeline) (us : bool) (si : nat) (i : Z)
    (vd vd' : VariableDict) (di : stride) (us' : bool) (si' : nat) :
  step_jac self us si i vd = Some (vd', Ok (di, us', si')) ->
  exists _module, select_stage self us si i = Ok (_module, di, us', si').
Proof.
  unfold step_jac. intros H. apply bind_Ok_inv in H as (sel & vd1 & Hsel & H).
  injection Hsel as _ Hsel. destruct sel as [[[_module di0] us0] si0].
  exists _module. rewrite Hsel.
  apply bind_Ok_inv in H as (? & ? & _ & H).
  apply bind_Ok_inv in H as (? & ? & _ & H).
  apply bind_Ok_inv in H as (? & ? & _ & H).
  apply bind_Ok_inv in H as ([? ?] & ? & _ & H).
  apply bind_Ok_inv in H as (? & ? & _ & H).
  apply bind_Ok_inv in H as (? & ? & _ & H).
  apply bind_Ok_inv in H as (? & ? & _ & H).
  injection H as _ <- <- <-. reflexivity.
Qed.

Lemma py_index_range {A : Type} (l : list A) (i : Z) (a : A) :
  py_index l i = Ok a ->
  (- Z.of_nat (length l) <= i < Z.of_nat (length l))%Z.
Proof.
  unfold py_index. cbv zeta.
  destruct (Z.ltb_spec i 0) as [Hneg|Hpos];
    (destruct (_ && _) eqn:Hin; [|discriminate]);
    apply andb_true_iff in Hin as [H1%Z.leb_le H2%Z.ltb_lt]; intros _; lia.
Qed.

Lemma modules_left_step (self : Pipeline) (i : Z) :
  (- Z.of_nat (n_module self) <= i < Z.of_nat (n_module self))%Z ->
  S (modules_left self (i + 1)) = modules_left self i.
Proof. unfold modules_left. lia. Qed.

Lemma modules_left_le (self : Pipeline) (i : Z) :
  modules_left self i <= 2 * n_module self.
Proof. unfold modules_left. lia. Qed.

(** The step that was selected leaves fewer steps. *)
Lemma select_stage_decreases (self : Pipeline) (us : bool) (si : nat) (i : Z)
    (_module : Mod.t) (di : stride) (us' : bool) (si' : nat) :
  select_stage self us si i = Ok (_module, di, us', si') ->
  steps_left self us' si' (add_stride i di) < steps_left self us si i.
Proof.
  unfold select_stage, steps_left, surrogates_left.
  destruct (us && has_surrogate self) eqn:Huse.
  - destruct (_surrogate_recipe self !! si) as [row|] eqn:Hrow; [|discriminate].
    apply lookup_lt_Some in Hrow. cbn [mbind res_bind].
    destruct (i <? r_start row)%Z.
    + destruct (py_index (_module_list self) i) as [m|] eqn:Hm; [|discriminate].
      cbn [mbind res_bind]. intros H. injection H as _ <- <- <-.
      apply py_index_range in Hm. rewrite Huse. cbn [add_stride].
      rewrite <- (modules_left_step self i Hm). lia.
    + destruct (i =? r_start row)%Z; [|discriminate].
      destruct (py_index (_surrogate_list self) (r_index row)) as [s|];
        [|discriminate].
      cbn [mbind res_bind].
      pose proof (modules_left_le self (add_stride i di)) as Hle.
      destruct (Z.of_nat si =? Z.of_nat (n_surrogate self) - 1)%Z;
        intros H; injection H as _ Hdi <- <-.
      * cbn [andb]. nia.
      * rewrite Huse. nia.
  - destruct (py_index (_module_list self) i) as [m|] eqn:Hm; [|discriminate].
    cbn [mbind res_bind]. intros H. injection H as _ <- <- <-.
    apply py_index_range in Hm. rewrite Huse. cbn [add_stride].
    rewrite <- (modules_left_step self i Hm). lia.
Qed.

Section loop_ends.
Context (self : Pipeline) (step : bool -> nat -> Z -> Run (stride * bool * nat))
        (failed : Z -> string).
Hypothesis step_ends : forall us si i, ends (step us si i).
Hypothesis step_selects :
  forall us si i vd vd' di us' si',
    step us si i vd = Some (vd', Ok (di, us', si')) ->
    exists _module, select_stage self us si i = Ok (_module, di, us', si').

Lemma while_steps_ends (stop : Z) :
  forall (steps : nat) (us : bool) (si : nat) (i : Z) (vd : VariableDict),
    steps_left self us si i <= steps ->
    is_Some (while_steps step failed steps stop us si i vd).
Proof using step_ends step_selects.
  induction steps as [|steps IH]; intros us si i vd Hfuel.
  - unfold steps_left in Hfuel. lia.
  - rewrite while_steps_unfold. destruct (i <=? stop)%Z; [|eexists; reflexivity].
    unfold mbind, Run_bind, try_except.
    destruct (step_ends us si i vd) as [[vd1 [[[di us'] si']|e]] Hstep];
      rewrite Hstep; [|eexists; reflexivity].
    destruct (step_selects _ _ _ _ _ _ _ _ Hstep) as (m & Hsel).
    apply select_stage_decreases in Hsel. apply IH. lia.
Qed.

End loop_ends.

Lemma first_surrogate_steps (self : Pipeline) (us : bool) (i : Z) :
  length (_surrogate_recipe self) <= n_surrogate self ->
  steps_left self (fst (first_surrogate self us i))
    (snd (first_surrogate self us i)) i
  <= enough_steps self.
Proof.
  intros Hrecipe. unfold steps_left, enough_steps.
  pose proof (modules_left_le self i) as Hm.
  assert (forall us' si', surrogates_left self us' si' <= n_surrogate self) as Hs.
  { intros us' si'. unfold surrogates_left. destruct (_ && _); lia. }
  specialize (Hs (fst (first_surrogate self us i)) (snd (first_surrogate self us i))).
  nia.
Qed.

Lemma gather_ends (os : list outcome) :
  Forall is_Some os -> is_Some (gather os).
Proof.
  induction 1 as [|o os [[r|e] ->] _ [[rs|e'] IH]]; cbn [gather];
    rewrite ?IH; eauto.
Qed.

Lemma stack_ends (os : list outcome) : Forall is_Some os -> is_Some (stack os).
Proof.
  intros H. unfold stack. destruct (gather_ends os H) as [[rs|e] ->]; eauto.
Qed.

Lemma fill_pairs_ends (fshape jshape : list nat) (os : list outcome) :
  Forall is_Some os -> is_Some (fill_pairs fshape jshape os).
Proof.
  induction 1 as [|o os [[r|e] ->] _ [[[fs js]|e'] IH]]; cbn [fill_pairs];
    rewrite ?IH; eauto;
    destruct (fj ← as_pair r; vf ← np.assign_into fshape (fst fj);
              vj ← np.assign_into jshape (snd fj); Ok (vf, vj))
      as [[vf vj]|?]; eauto.
Qed.

Lemma finish_ends (r : option (VariableDict * res result)) :
  is_Some r -> is_Some (finish r).
Proof. intros [[vd res] ->]. eexists. reflexivity. Qed.

Section calls_end.
Context (L : library) (K : constraint_kernels) (self : Pipeline).
Hypothesis recipe_rows : length (_surrogate_recipe self) <= n_surrogate self.

Lemma evaluate_fun_ends (us : bool) (i j : Z) : ends (evaluate_fun self us i j).
Proof using recipe_rows.
  intros vd. unfold evaluate_fun.
  pose proof (first_surrogate_steps self us i recipe_rows) as Hsteps.
  destruct (first_surrogate self us i) as [us' si].
  apply (while_steps_ends self); [apply ends_step_fun | | exact Hsteps].
  intros *. apply step_fun_selects.
Qed.

Lemma evaluate_jac_ends (us : bool) (i j : Z) : ends (evaluate_jac self us i j).
Proof using recipe_rows.
  intros vd. unfold evaluate_jac.
  pose proof (first_surrogate_steps self us i recipe_rows) as Hsteps.
  destruct (first_surrogate self us i) as [us' si].
  apply (while_steps_ends self); [apply ends_step_jac | | exact Hsteps].
  intros *. apply step_jac_selects.
Qed.

Lemma run_fun_ends (us : bool) (i j : Z) (e : extract_arg) :
  ends (run_fun self us i j e).
Proof using recipe_rows.
  unfold run_fun. apply ends_bind; [apply evaluate_fun_ends|].
  intros _ vd. eexists. reflexivity.
Qed.

Lemma run_jac_ends (us : bool) (i j : Z) (e : extract_arg) :
  ends (run_jac self us i j e).
Proof using recipe_rows.
  unfold run_jac. apply ends_bind; [apply evaluate_jac_ends|].
  intros _ vd. eexists. reflexivity.
Qed.

Lemma fun_vector_ends (us os : bool) (i j : Z) (e : extract_arg) (x : ndarray) :
  is_Some (fun_vector K self us os i j e x).
Proof using recipe_rows.
  unfold fun_vector. destruct (_ ≫= _) as [var_dict|?]; [|eauto].
  apply finish_ends, run_fun_ends.
Qed.

Lemma jac_vector_ends (us os : bool) (i j : Z) (e : extract_arg) (x : ndarray) :
  is_Some (jac_vector K self us os i j e x).
Proof using recipe_rows.
  unfold jac_vector. destruct (_ ≫= _) as [var_dict|?]; [|eauto].
  apply finish_ends, run_jac_ends.
Qed.

Lemma fun_floats_ends (s : list nat) :
  forall (o : options) (d : list R), is_Some (fun_floats L K self o s d).
Proof using recipe_rows.
  induction s as [|n s IH]; intros o d; rewrite fun_floats_unfold;
    destruct (checked L self o) as [[[i j] e]|?]; eauto.
  - apply fun_vector_ends.
  - destruct s as [|m s]; [apply fun_vector_ends|].
    apply stack_ends, Forall_map, Forall_forall. intros k _. apply IH.
Qed.

Lemma fun_other_ends (s : list nat) :
  forall o : options, is_Some (fun_other L self o s).
Proof.
  induction s as [|n s IH]; intros o; rewrite fun_other_unfold;
    destruct (checked L self o) as [[[i j] e]|?]; eauto.
  destruct s as [|m s]; [eauto|].
  apply stack_ends, Forall_map, Forall_forall. intros k _. apply IH.
Qed.

Lemma fun_objects_ends (s : list nat) :
  forall (o : options) (calls : list (options -> outcome)),
    Forall (fun call => forall o, is_Some (call o)) calls ->
    is_Some (fun_objects L self o s calls).
Proof.
  induction s as [|n s IH]; intros o calls Hcalls; rewrite fun_objects_unfold;
    destruct (checked L self o) as [[[i j] e]|?]; eauto; cbv zeta.
  - apply stack_ends, Forall_map. eapply Forall_impl; [exact Hcalls|].
    intros call Hcall. apply Hcall.
  - destruct s as [|m s].
    + apply stack_ends, Forall_map. eapply Forall_impl; [exact Hcalls|].
      intros call Hcall. apply Hcall.
    + apply stack_ends, Forall_map, Forall_forall. intros k _. apply IH.
      unfold np.chunk. apply Forall_take, Forall_drop, Hcalls.
Qed.

Lemma jac_batch_ends (o' : options) (e : extract_arg) (shape : list nat)
    (calls : list (options -> outcome)) :
  Forall (fun call => forall o, is_Some (call o)) calls ->
  is_Some (jac_batch o' e shape calls).
Proof.
  intros Hcalls. unfold jac_batch. cbv zeta.
  assert (Hcall : forall k, is_Some (match calls !! k with
                                     | Some c => c o'
                                     | None => Some (Raise IndexError)
                                     end)).
  { intros k. destruct (calls !! k) as [c|] eqn:Hk; [|eauto].
    apply (Forall_lookup_1 _ _ _ _ Hcalls Hk). }
  assert (Hall : forall ks, Forall is_Some
                   (map (fun k => match calls !! k with
                                  | Some c => c o'
                                  | None => Some (Raise IndexError)
                                  end) ks)).
  { intros ks. apply Forall_map, Forall_forall. intros k _. apply Hcall. }
  destruct e as [|name|names].
  - destruct (gather_ends _ (Hall (seq 0 (np.prod shape)))) as [[rs|?] ->]; eauto.
  - destruct (Hcall 0) as [[_faj0|?] ->]; [|eauto].
    destruct (as_pair _faj0) as [[f0 j0]|?]; [|eauto].
    destruct (fill_pairs_ends (np.shape f0) (np.shape j0)
                (Some (Ok _faj0)
                 :: map (fun k => match calls !! k with
                                  | Some c => c o'
                                  | None => Some (Raise IndexError)
                                  end) (seq 1 (np.prod shape - 1))))
      as [[[fs js]|?] ->]; eauto.
  - destruct (gather_ends _ (Hall (seq 0 (np.prod shape)))) as [[rs|?] ->]; eauto.
Qed.

Lemma Pipeline_fun_ends (x : input) :
  forall o, is_Some (Pipeline_fun L K self x o).
Proof using recipe_rows.
  induction x as [vd|a|s elems IH|s] using input_induction; intros o;
    cbn [Pipeline_fun].
  - destruct (checked L self o) as [[[i j] e]|?]; [|eauto].
    apply finish_ends, run_fun_ends.
  - apply fun_floats_ends.
  - apply fun_objects_ends, Forall_map. exact IH.
  - apply fun_other_ends.
Qed.

Lemma Pipeline_fun_and_jac_ends (x : input) :
  forall o, is_Some (Pipeline_fun_and_jac L K self x o).
Proof using recipe_rows.
  induction x as [vd|a|s elems IH|s] using input_induction; intros o;
    cbn [Pipeline_fun_and_jac];
    destruct (checked L self o) as [[[i j] e]|?]; eauto.
  - apply finish_ends, run_jac_ends.
  - destruct (np.atleast_1d (np.shape a)) as [|n [|m s]];
      try apply jac_vector_ends; cbv zeta;
      destruct (_ =? 0); eauto; apply jac_batch_ends, Forall_map, Forall_forall;
      intros k _ o'; unfold jac_vector_call;
      destruct (checked L self o') as [[[i' j'] e']|?]; eauto;
      apply jac_vector_ends.
  - apply jac_batch_ends, Forall_map. exact IH.
  - destruct e; eauto.
Qed.

End calls_end.

(** X10: every call ends.  The loop over the steps takes each
    surrogate that is still to come at most once and reads the modules
    at a growing index, and the search for a free copy name meets only
    so many bound names; so [fun] and [fun_and_jac] return or raise on
    every input, if the recipe has no more rows than there are
    surrogates, as the setter leaves it. *)
Theorem every_call_ends (L : library) (K : constraint_kernels) (self : Pipeline)
    (x : input) (o : options) :
  length (_surrogate_recipe self) <= n_surrogate self ->
  is_Some (Pipeline_fun L K self x o) /\
  is_Some (Pipeline_fun_and_jac L K self x o).
Proof.
  intros Hrows. split.
  - apply Pipeline_fun_ends, Hrows.
  - apply Pipeline_fun_and_jac_ends, Hrows.
Qed.

Lemma every_call_ends_witness :
  is_Some (Pipeline_fun example_library copy_kernels
             (one_module (rename_stage "x" "y") "x")
             (in_objects [2] [in_floats (np.mk [1] [5%R]); in_other [1]])
             {| use_surrogate := true; original_space := true;
                start := step_None; stop := step_None;
                extract_vars := extract_None; copy_x := false |}) /\
  is_Some (Pipeline_fun_and_jac example_library copy_kernels
             (one_module (rename_stage "x" "y") "x")
             (in_objects [2] [in_floats (np.mk [1] [5%R]); in_other [1]])
             {| use_surrogate := true; original_space := true;
                start := step_None; stop := step_None;
                extract_vars := extract_None; copy_x := false |}).
Proof.
  apply (every_call_ends example_library copy_kernels
           (one_module (rename_stage "x" "y") "x")).
  cbn. lia.
Defined.

(** ** Resuming an evaluation *)

Lemma modules_left_mono (self : Pipeline) (i k : Z) :
  (i <= k)%Z -> modules_left self k <= modules_left self i.
Proof. unfold modules_left. lia. Qed.

(** Without surrogates in use a step that returns has read module [i],
    and the next step is [i + 1]. *)
Lemma select_stage_plain (self : Pipeline) (us : bool) (si : nat) (i : Z)
    (_module : Mod.t) (di : stride) (us' : bool) (si' : nat) :
  us && has_surrogate self = false ->
  select_stage self us si i = Ok (_module, di, us', si') ->
  di = py_int 1 /\ us' = us /\ si' = si.
Proof.
  intros Huse. unfold select_stage. rewrite Huse.
  destruct (py_index (_module_list self) i); [|discriminate].
  cbn. intros H. injection H as _ <- <- <-. auto.
Qed.

Section loop_fuel.
Context (self : Pipeline) (step : bool -> nat -> Z -> Run (stride * bool * nat))
        (failed : Z -> string).
Hypothesis step_selects :
  forall us si i vd vd' di us' si',
    step us si i vd = Some (vd', Ok (di, us', si')) ->
    exists _module, select_stage self us si i = Ok (_module, di, us', si').

(** With enough fuel the loop does not depend on it. *)
Lemma while_steps_fuel (stop : Z) :
  forall (f1 f2 : nat) (us : bool) (si : nat) (i : Z) (vd : VariableDict),
    steps_left self us si i <= f1 ->
    steps_left self us si i <= f2 ->
    while_steps step failed f1 stop us si i vd
    = while_steps step failed f2 stop us si i vd.
Proof using step_selects.
  induction f1 as [|f1 IH]; intros f2 us si i vd H1 H2.
  - unfold steps_left in H1. lia.
  - destruct f2 as [|f2]; [unfold steps_left in H2; lia|].
    rewrite !while_steps_unfold. destruct (i <=? stop)%Z; [|reflexivity].
    unfold mbind, Run_bind, try_except.
    destruct (step us si i vd) as [[vd1 [[[di us'] si']|e]]|] eqn:Hstep;
      try reflexivity.
    destruct (step_selects _ _ _ _ _ _ _ _ Hstep) as (m & Hsel).
    apply select_stage_decreases in Hsel. apply IH; lia.
Qed.

(** Without surrogates in use, the steps up to [stop] are the steps up
    to [k] and then the steps from [k + 1] on. *)
Lemma while_steps_split (k stop : Z) (us : bool) (si : nat) :
  us && has_surrogate self = false ->
  (k <= stop)%Z ->
  forall (f : nat) (i : Z) (vd : VariableDict),
    (i <= k + 1)%Z ->
    steps_left self us si i <= f ->
    while_steps step failed f stop us si i vd
    = (_ ← while_steps step failed f k us si i;
       while_steps step failed f stop us si (k + 1)%Z) vd.
Proof using step_selects.
  intros Huse Hk. induction f as [|f IH]; intros i vd Hi Hfuel.
  - unfold steps_left in Hfuel. lia.
  - destruct (Z.leb_spec i k) as [Hik|Hik].
    + rewrite (while_steps_unfold step failed f stop us si i),
        (while_steps_unfold step failed f k us si i).
      assert ((i <=? stop)%Z = true) as -> by (apply Z.leb_le; lia).
      assert ((i <=? k)%Z = true) as -> by (apply Z.leb_le; lia).
      unfold mbind, Run_bind, try_except.
      destruct (step us si i vd) as [[vd1 [[[di us'] si']|e]]|] eqn:Hstep;
        try reflexivity.
      destruct (step_selects _ _ _ _ _ _ _ _ Hstep) as (m & Hsel).
      pose proof (select_stage_decreases _ _ _ _ _ _ _ _ Hsel) as Hdec.
      apply (select_stage_plain _ _ _ _ _ _ _ _ Huse) in Hsel as (-> & -> & ->).
      cbn [add_stride] in *. rewrite IH by lia. unfold mbind, Run_bind.
      destruct (while_steps step failed f k us si (i + 1) vd1)
        as [[vd2 [[]|e]]|]; try reflexivity.
      apply while_steps_fuel.
      * pose proof (modules_left_mono self (i + 1) (k + 1) ltac:(lia)).
        unfold steps_left in *. lia.
      * pose proof (modules_left_mono self i (k + 1) ltac:(lia)).
        unfold steps_left in *. lia.
    + assert (i = k + 1)%Z as -> by lia.
      unfold mbind, Run_bind.
      assert (while_steps step failed (S f) k us si (k + 1) vd
              = Some (vd, Ok tt)) as ->.
      { rewrite while_steps_unfold.
        assert ((k + 1 <=? k)%Z = false) as -> by (apply Z.leb_gt; lia).
        reflexivity. }
      reflexivity.
Qed.

End loop_fuel.

Lemma Run_bind_assoc {A B C : Type} (m : Run A) (k : A -> Run B) (h : B -> Run C)
    (vd : VariableDict) :
  ((m ≫= k) ≫= h) vd = (m ≫= (fun a => k a ≫= h)) vd.
Proof.
  unfold mbind, Run_bind. destruct (m vd) as [[vd1 [a|e]]|]; reflexivity.
Qed.

Lemma Run_bind_ext {A B : Type} (m : Run A) (k k' : A -> Run B)
    (vd : VariableDict) :
  (forall a vd1, k a vd1 = k' a vd1) -> (m ≫= k) vd = (m ≫= k') vd.
Proof.
  intros H. unfold mbind, Run_bind. destruct (m vd) as [[vd1 [a|e]]|]; auto.
Qed.

Section resuming.
Context (L : library) (K : constraint_kernels) (self : Pipeline) (us : bool).
Hypothesis plain : us && has_surrogate self = false.

Lemma first_surrogate_plain (i : Z) : first_surrogate self us i = (us, 0).
Proof using plain. unfold first_surrogate. rewrite plain. reflexivity. Qed.

Lemma plain_steps (i : Z) : steps_left self us 0 i <= enough_steps self.
Proof using plain.
  unfold steps_left, surrogates_left, enough_steps. rewrite plain.
  pose proof (modules_left_le self i). nia.
Qed.

Lemma evaluate_fun_split (a k b : Z) (vd : VariableDict) :
  (a <= k + 1)%Z -> (k <= b)%Z ->
  evaluate_fun self us a b vd
  = (_ ← evaluate_fun self us a k; evaluate_fun self us (k + 1) b) vd.
Proof using plain.
  intros Ha Hk. unfold evaluate_fun. rewrite !first_surrogate_plain.
  apply (while_steps_split self); try assumption.
  - intros *. apply step_fun_selects.
  - apply plain_steps.
Qed.

Lemma evaluate_jac_split (a k b : Z) (vd : VariableDict) :
  (a <= k + 1)%Z -> (k <= b)%Z ->
  evaluate_jac self us a b vd
  = (_ ← evaluate_jac self us a k; evaluate_jac self us (k + 1) b) vd.
Proof using plain.
  intros Ha Hk. unfold evaluate_jac. rewrite !first_surrogate_plain.
  apply (while_steps_split self); try assumption.
  - intros *. apply step_jac_selects.
  - apply plain_steps.
Qed.

Lemma run_fun_split (a k b : Z) (e : extract_arg) (vd : VariableDict) :
  (a <= k + 1)%Z -> (k <= b)%Z ->
  run_fun self us a b e vd
  = (_ ← evaluate_fun self us a k; run_fun self us (k + 1) b e) vd.
Proof using plain.
  intros Ha Hk. unfold run_fun at 1.
  unfold mbind at 1, Run_bind at 1. rewrite (evaluate_fun_split a k b vd Ha Hk).
  change (((_ ← evaluate_fun self us a k; evaluate_fun self us (k + 1) b)
           ≫= (fun _ => extract_fun e)) vd
          = (_ ← evaluate_fun self us a k; run_fun self us (k + 1) b e) vd).
  apply Run_bind_assoc.
Qed.

Lemma run_jac_split (a k b : Z) (e : extract_arg) (vd : VariableDict) :
  (a <= k + 1)%Z -> (k <= b)%Z ->
  run_jac self us a b e vd
  = (_ ← evaluate_jac self us a k; run_jac self us (k + 1) b e) vd.
Proof using plain.
  intros Ha Hk. unfold run_jac at 1.
  unfold mbind at 1, Run_bind at 1. rewrite (evaluate_jac_split a k b vd Ha Hk).
  change (((_ ← evaluate_jac self us a k; evaluate_jac self us (k + 1) b)
           ≫= (fun _ => extract_jac e)) vd
          = (_ ← evaluate_jac self us a k; run_jac self us (k + 1) b e) vd).
  apply Run_bind_assoc.
Qed.

End resuming.

Lemma checked_between (L : library) (self : Pipeline) (us os c : bool)
    (i j : Z) (e : extract_arg) :
  (0 <= i <= j)%Z -> (j < Z.of_nat (n_module self))%Z ->
  checked L self (between us os i j e c)
  = (e' ← match e with
          | extract_names names =>
              names' ← _var_check L names; Ok (extract_names names')
          | e => Ok e
          end;
     Ok (i, j, e')).
Proof.
  intros Hij Hj. unfold checked, _options_check, between.
  cbn [start stop extract_vars]. rewrite !step_check_int by lia.
  cbn [mbind res_bind].
  destruct (Z.gtb_spec i j) as [Hgt|_]; [lia|]. reflexivity.
Qed.

Lemma run_fun_evaluated (self : Pipeline) (us : bool) (i j : Z)
    (vd vdf : VariableDict) (r : result) :
  run_fun self us i j extract_None vd = Some (vdf, Ok r) ->
  r = r_store vdf /\ evaluate_fun self us i j vd = Some (vdf, Ok tt).
Proof.
  unfold run_fun. intros H. apply bind_Ok_inv in H as ([] & vd1 & Hev & H).
  unfold extract_fun in H. injection H as <- <-. auto.
Qed.

Lemma run_jac_evaluated (self : Pipeline) (us : bool) (i j : Z)
    (vd vdf : VariableDict) (r : result) :
  run_jac self us i j extract_None vd = Some (vdf, Ok r) ->
  r = r_store vdf /\ evaluate_jac self us i j vd = Some (vdf, Ok tt).
Proof.
  unfold run_jac. intros H. apply bind_Ok_inv in H as ([] & vd1 & Hev & H).
  unfold extract_jac in H. injection H as <- <-. auto.
Qed.

(** X11: an evaluation can be resumed.  Without surrogates in use,
    the store that [fun] returns for the steps [a..k] of a store, given
    again with the steps [k+1..b], gives what the steps [a..b] give on
    the store as it was; and so for [fun_and_jac]. *)
Theorem evaluation_resumes (L : library) (K : constraint_kernels)
    (self : Pipeline) (us os c1 c2 c3 : bool) (a k b : Z) (e : extract_arg)
    (vd vd1 : VariableDict) :
  us && has_surrogate self = false ->
  (0 <= a <= k)%Z -> (k < b)%Z -> (b < Z.of_nat (n_module self))%Z ->
  (Pipeline_fun L K self (in_store vd) (between us os a k extract_None c1)
   = Some (Ok (r_store vd1)) ->
   Pipeline_fun L K self (in_store vd1) (between us os (k + 1) b e c2)
   = Pipeline_fun L K self (in_store vd) (between us os a b e c3)) /\
  (Pipeline_fun_and_jac L K self (in_store vd) (between us os a k extract_None c1)
   = Some (Ok (r_store vd1)) ->
   Pipeline_fun_and_jac L K self (in_store vd1) (between us os (k + 1) b e c2)
   = Pipeline_fun_and_jac L K self (in_store vd) (between us os a b e c3)).
Proof.
  intros Hplain Ha Hk Hb. split; intros H.
  - cbn [Pipeline_fun] in *. rewrite !checked_between in * by lia.
    cbn [mbind res_bind between use_surrogate] in *.
    destruct (run_fun self us a k extract_None vd) as [[vdf [r|?]]|] eqn:Hr;
      try discriminate.
    cbn [finish] in H. injection H as ->.
    apply run_fun_evaluated in Hr as [Hs Hev]. injection Hs as ->.
    destruct (match e with
              | extract_names names =>
                  names' ← _var_check L names; Ok (extract_names names')
              | _ => Ok e
              end) as [e'|?]; [|reflexivity].
    cbn [mbind res_bind].
    rewrite (run_fun_split self us Hplain a k b e' vd) by lia.
    rewrite (bind_Ok _ _ _ _ _ Hev). reflexivity.
  - cbn [Pipeline_fun_and_jac] in *. rewrite !checked_between in * by lia.
    cbn [mbind res_bind between use_surrogate] in *.
    destruct (run_jac self us a k extract_None vd) as [[vdf [r|?]]|] eqn:Hr;
      try discriminate.
    cbn [finish] in H. injection H as ->.
    apply run_jac_evaluated in Hr as [Hs Hev]. injection Hs as ->.
    destruct (match e with
              | extract_names names =>
                  names' ← _var_check L names; Ok (extract_names names')
              | _ => Ok e
              end) as [e'|?]; [|reflexivity].
    cbn [mbind res_bind].
    rewrite (run_jac_split self us Hplain a k b e' vd) by lia.
    rewrite (bind_Ok _ _ _ _ _ Hev). reflexivity.
Qed.

Lemma evaluation_resumes_witness :
  Pipeline_fun example_library copy_kernels
    (two_modules unscaled (rename_stage "x" "y") (rename_stage "y" "z") "x")
    (in_store {| _fun := <["y" := np.mk [1] [5%R]]> {["x" := np.mk [1] [5%R]]};
                 _jac := {["x" := np.eye 1]} |})
    (between false true (0 + 1) 1 (extract_str "z") false)
  = Pipeline_fun example_library copy_kernels
      (two_modules unscaled (rename_stage "x" "y") (rename_stage "y" "z") "x")
      (in_store (store_of "x" (np.mk [1] [5%R]) (np.eye 1)))
      (between false true 0 1 (extract_str "z") false).
Proof.
  apply (proj1 (evaluation_resumes example_library copy_kernels
                  (two_modules unscaled (rename_stage "x" "y")
                     (rename_stage "y" "z") "x")
                  false true false false false 0 0 1 (extract_str "z")
                  (store_of "x" (np.mk [1] [5%R]) (np.eye 1))
                  {| _fun := <["y" := np.mk [1] [5%R]]> {["x" := np.mk [1] [5%R]]};
                     _jac := {["x" := np.eye 1]} |}
                  eq_refl ltac:(lia) ltac:(lia) ltac:(cbn; lia))).
  reflexivity.
Defined.

(** ** Value mode follows Jacobian mode *)

Lemma follows_bind {A B : Type} (mf mj : Run A) (kf kj : A -> Run B) :
  follows mf mj -> (forall a, follows (kf a) (kj a)) ->
  follows (mf ≫= kf) (mj ≫= kj).
Proof.
  intros Hm Hk vf vj vj' b Hag H.
  apply bind_Ok_inv in H as (a & vj1 & Hmj & Hkj).
  destruct (Hm vf vj vj1 a Hag Hmj) as (vf1 & Hmf & Hag1).
  destruct (Hk a vf1 vj1 vj' b Hag1 Hkj) as (vf' & Hkf & Hag').
  exists vf'. split; [|exact Hag']. rewrite (bind_Ok _ _ _ _ _ Hmf). exact Hkf.
Qed.

Lemma follows_ret {A : Type} (a : A) : follows (mret a) (mret a).
Proof.
  intros vf vj vj' a' Hag H. injection H as <- <-. exists vf. auto.
Qed.

Lemma follows_lift {A : Type} (r : res A) : follows (lift r) (lift r).
Proof.
  intros vf vj vj' a Hag H. unfold lift in *. injection H as <- ->.
  exists vf. auto.
Qed.

Lemma follows_get_fun (n : string) : follows (get_fun n) (get_fun n).
Proof.
  intros vf vj vj' a Hag H. unfold get_fun in *. destruct Hag as [Hf Hd].
  rewrite Hf. destruct (_fun vj !! n); [|discriminate].
  injection H as <- <-. exists vf. repeat split; assumption.
Qed.

Lemma follows_collect {A : Type} (bf bj : string -> Run A) (names : list string) :
  (forall n, follows (bf n) (bj n)) ->
  follows (collect bf names) (collect bj names).
Proof.
  intros Hb. induction names as [|n names IH]; cbn [collect].
  - apply follows_ret.
  - apply follows_bind; [apply Hb|]. intros a.
    apply follows_bind; [exact IH|]. intros vs. apply follows_ret.
Qed.

Lemma follows_for_enumerate (bf bj : nat -> string -> Run unit)
    (names : list string) :
  (forall j n, follows (bf j n) (bj j n)) ->
  forall j, follows (for_enumerate bf j names) (for_enumerate bj j names).
Proof.
  intros Hb. induction names as [|n names IH]; intros j; cbn [for_enumerate].
  - apply follows_ret.
  - apply follows_bind; [apply Hb|]. intros _. apply IH.
Qed.

(** The binding of an output *)
Lemma follows_bind_output (_output _output_jac : list ndarray)
    (_input_jac : ndarray) (j : nat) (n : string) :
  follows
    (v ← lift (match _output !! j with
               | Some v => Ok v
               | None => Raise IndexError
               end);
     set_fun n v)
    (v ← lift (match _output !! j with
               | Some v => Ok v
               | None => Raise IndexError
               end);
     _ ← set_fun n v;
     lj ← lift (match _output_jac !! j with
                | Some lj => Ok lj
                | None => Raise IndexError
                end);
     aj ← lift (np.dot lj _input_jac);
     set_jac n aj).
Proof.
  intros vf vj vj' [] [Hf Hd] H.
  apply bind_Ok_inv in H as (v & vj1 & Hv & H).
  unfold lift in Hv. injection Hv as <- Hv.
  apply bind_Ok_inv in H as ([] & vj2 & Hs & H).
  unfold set_fun in Hs. injection Hs as <-.
  apply bind_Ok_inv in H as (lj & vj3 & Hlj & H).
  unfold lift in Hlj. injection Hlj as <- _.
  apply bind_Ok_inv in H as (aj & vj4 & Haj & H).
  unfold lift in Haj. injection Haj as <- _.
  unfold set_jac in H. injection H as <-. cbn [_fun _jac].
  exists {| _fun := <[n := v]> (_fun vf); _jac := _jac vf |}. split.
  - unfold mbind, Run_bind, lift. rewrite Hv. reflexivity.
  - split; cbn [_fun _jac]; [rewrite Hf; reflexivity|].
    rewrite !dom_insert. apply union_mono_l, Hd.
Qed.

(** The name of a copy is the same in the two modes. *)
Lemma paste_names_agree (_module : Mod.t) (j : nat) (n : string) :
  follows (paste_name_fun _module j n) (paste_name_jac _module j n).
Proof.
  intros vf vj vj' nn [Hf Hd] H. unfold paste_name_fun, paste_name_jac in *.
  destruct (Mod._paste_vars _module !! j) as [p|].
  - injection H as <- <-. exists vf. repeat split; assumption.
  - destruct (first_free_jac (_fun vj) (_jac vj) n)
      as (k & Hk & Hff & Hfree & Hfreej & Hbelow).
    rewrite Hff in H. injection H as <- <-.
    destruct (first_free_fun (_fun vf) n) as (k' & Hk' & Hff' & Hfree' & Hbelow').
    rewrite Hff'. exists vf. split; [|split; assumption].
    rewrite Hf in *. do 3 f_equal.
    destruct (Nat.lt_trichotomy k k') as [Hlt|[->|Hgt]]; [|reflexivity|].
    + destruct (Hbelow' k ltac:(lia)) as [v Hv]. congruence.
    + destruct (Hbelow k' ltac:(lia)) as [[v Hv]|[v Hv]]; [congruence|].
      assert (copy_name n k' ∈ dom (_fun vj)) as Hin
        by (apply Hd, elem_of_dom; eauto).
      apply elem_of_dom in Hin as [v' Hv']. congruence.
Qed.

Lemma follows_copy (_module : Mod.t) (j : nat) (n : string) :
  follows
    (nn ← paste_name_fun _module j n; v ← get_fun n; set_fun nn (np.copy v))
    (nn ← paste_name_jac _module j n; v ← get_fun n; vj ← get_jac n;
     _ ← set_fun nn (np.copy v); set_jac nn (np.copy vj)).
Proof.
  apply follows_bind; [apply paste_names_agree|]. intros nn.
  apply follows_bind; [apply follows_get_fun|]. intros v.
  intros vf vj vj' [] [Hf Hd] H.
  apply bind_Ok_inv in H as (jv & vj1 & Hg & H).
  unfold get_jac in Hg. destruct (_jac vj !! n); [|discriminate].
  injection Hg as <- _.
  apply bind_Ok_inv in H as ([] & vj2 & Hs & H).
  unfold set_fun in Hs. injection Hs as <-.
  unfold set_jac in H. injection H as <-. cbn [_fun _jac].
  exists {| _fun := <[nn := np.copy v]> (_fun vf); _jac := _jac vf |}.
  split; [reflexivity|].
  split; cbn [_fun _jac]; [rewrite Hf; reflexivity|].
  rewrite !dom_insert. apply union_mono_l, Hd.
Qed.

Lemma follows_delete (n : string) :
  follows (del_fun n) (_ ← del_fun n; del_jac n).
Proof.
  intros vf vj vj' [] [Hf Hd] H.
  apply bind_Ok_inv in H as ([] & vj1 & Hdf & H).
  unfold del_fun in *. rewrite Hf.
  destruct (_fun vj !! n); [|discriminate]. injection Hdf as <-.
  unfold del_jac in H. cbn [_fun _jac] in H.
  destruct (_jac vj !! n); [|discriminate]. injection H as <-.
  eexists. split; [reflexivity|].
  split; cbn [_fun _jac]; [reflexivity|]. rewrite !dom_delete.
  apply difference_mono_r, Hd.
Qed.

Lemma follows_lift_known {A B : Type} (r : res A) (kf kj : A -> Run B) :
  (forall a, r = Ok a -> follows (kf a) (kj a)) ->
  follows (lift r ≫= kf) (lift r ≫= kj).
Proof.
  intros Hk vf vj vj' b Hag H.
  apply bind_Ok_inv in H as (a & vj1 & Hr & H).
  unfold lift in Hr. injection Hr as <- Hr.
  destruct (Hk a Hr vf vj vj' b Hag H) as (vf' & Hkf & Hag').
  exists vf'. split; [|exact Hag'].
  unfold mbind, Run_bind, lift. rewrite Hr. exact Hkf.
Qed.

(** A part of Jacobian mode that leaves the store as it is. *)
Lemma follows_skip {A B : Type} (mf : Run B) (mj : Run A) (kj : A -> Run B) :
  (forall vj vj' a, mj vj = Some (vj', Ok a) -> vj' = vj) ->
  (forall a, follows mf (kj a)) ->
  follows mf (mj ≫= kj).
Proof.
  intros Hsilent Hk vf vj vj' b Hag H.
  apply bind_Ok_inv in H as (a & vj1 & Hmj & H).
  apply Hsilent in Hmj as ->. apply (Hk a vf vj vj' b Hag H).
Qed.

Lemma py_index_member {A : Type} (l : list A) (i : Z) (a : A) :
  py_index l i = Ok a -> a ∈ l.
Proof.
  unfold py_index. cbv zeta. destruct (_ && _); [|discriminate].
  destruct (l !! _) as [a'|] eqn:Ha; [|discriminate].
  intros H. injection H as <-. apply (list_elem_of_lookup_2 _ _ _ Ha).
Qed.

Lemma select_stage_coherent (self : Pipeline) (us : bool) (si : nat) (i : Z)
    (_module : Mod.t) (di : stride) (us' : bool) (si' : nat) :
  coherent_pipeline self ->
  select_stage self us si i = Ok (_module, di, us', si') ->
  coherent _module.
Proof.
  intros [Hml Hsl]. unfold select_stage.
  assert (Hmod : forall m, py_index (_module_list self) i = Ok m -> coherent m).
  { intros m Hm. apply py_index_member in Hm.
    apply (proj1 (Forall_forall _ _) Hml m Hm). }
  destruct (us && has_surrogate self).
  - destruct (_surrogate_recipe self !! si) as [row|]; [|discriminate].
    cbn [mbind res_bind]. destruct (i <? r_start row)%Z.
    + destruct (py_index (_module_list self) i) as [m|] eqn:Hm; [|discriminate].
      cbn. intros H. injection H as <- _ _ _. apply Hmod. reflexivity.
    + destruct (i =? r_start row)%Z; [|discriminate].
      destruct (py_index (_surrogate_list self) (r_index row)) as [s|] eqn:Hs;
        [|discriminate].
      apply py_index_member in Hs.
      pose proof (proj1 (Forall_forall _ _) Hsl s Hs) as Hc.
      cbn. destruct (_ =? _)%Z; intros H; injection H as <- _ _ _; exact Hc.
  - destruct (py_index (_module_list self) i) as [m|] eqn:Hm; [|discriminate].
    cbn. intros H. injection H as <- _ _ _. apply Hmod. reflexivity.
Qed.

Lemma follows_stage_call (_module : Mod.t) (_input : list ndarray) {B : Type}
    (kf : list ndarray -> Run B) (kj : list ndarray * list ndarray -> Run B) :
  coherent _module ->
  (forall ys js, follows (kf ys) (kj (ys, js))) ->
  follows (lift (Mod.fun_ _module _input) ≫= kf)
          (lift (Mod.fun_and_jac _module _input) ≫= kj).
Proof.
  intros Hc Hk vf vj vj' b Hag H.
  apply bind_Ok_inv in H as ([ys js] & vj1 & Hr & H).
  unfold lift in Hr. injection Hr as <- Hr.
  destruct (Hk ys js vf vj vj' b Hag H) as (vf' & Hkf & Hag').
  exists vf'. split; [|exact Hag'].
  unfold mbind, Run_bind, lift. rewrite (Hc _ _ _ Hr). exact Hkf.
Qed.

Lemma collect_get_jac_silent (names : list string) (vj vj' : VariableDict)
    (vs : list ndarray) :
  collect get_jac names vj = Some (vj', Ok vs) -> vj' = vj.
Proof. intros H. apply collect_get_jac_inv in H as [-> _]. reflexivity. Qed.

Lemma lift_silent {A : Type} (r : res A) (vj vj' : VariableDict) (a : A) :
  lift r vj = Some (vj', Ok a) -> vj' = vj.
Proof. unfold lift. intros H. injection H as <- _. reflexivity. Qed.

(** A step of value mode follows the step of Jacobian mode. *)
Lemma step_fun_follows (self : Pipeline) (us : bool) (si : nat) (i : Z) :
  coherent_pipeline self ->
  follows (step_fun self us si i) (step_jac self us si i).
Proof.
  intros Hself. unfold step_fun, step_jac.
  apply follows_lift_known. intros [[[_module di] us'] si'] Hsel.
  apply follows_bind; [apply follows_collect, follows_get_fun|]. intros _input.
  apply follows_skip; [apply collect_get_jac_silent|]. intros jacs.
  apply follows_skip; [apply lift_silent|]. intros _input_jac.
  apply follows_stage_call; [apply (select_stage_coherent _ _ _ _ _ _ _ _ Hself Hsel)|].
  intros _output _output_jac.
  apply follows_bind.
  { apply follows_for_enumerate. intros j n. apply follows_bind_output. }
  intros _. apply follows_bind.
  { apply follows_for_enumerate. intros j n. apply follows_copy. }
  intros _. apply follows_bind.
  { apply follows_for_enumerate. intros j n. apply follows_delete. }
  intros _. apply follows_ret.
Qed.

Lemma while_steps_follows (self : Pipeline) (stop : Z) :
  coherent_pipeline self ->
  forall (steps : nat) (us : bool) (si : nat) (i : Z),
    follows (while_steps (step_fun self) fun_failed steps stop us si i)
            (while_steps (step_jac self) fun_and_jac_failed steps stop us si i).
Proof.
  intros Hself. induction steps as [|steps IH]; intros us si i.
  - cbn [while_steps]. destruct (i <=? stop)%Z; [|apply follows_ret].
    intros vf vj vj' a _ H. discriminate.
  - rewrite !while_steps_unfold. destruct (i <=? stop)%Z; [|apply follows_ret].
    apply follows_bind.
    + intros vf vj vj' r Hag H. unfold try_except in *.
      destruct (step_jac self us si i vj) as [[vj1 [r1|?]]|] eqn:Hstep;
        try discriminate.
      injection H as <- <-.
      destruct (step_fun_follows self us si i Hself vf vj vj1 r1 Hag Hstep)
        as (vf' & -> & Hag').
      exists vf'. auto.
    + intros [[di us'] si']. apply IH.
Qed.

Lemma seed_values_dom (names : list string) (cum : list Z) (x : ndarray) :
  forall (i : nat) (m m' : gmap string ndarray),
    seed_values names cum i x m = Ok m' ->
    dom m' = dom m ∪ list_to_set names.
Proof.
  induction names as [|n names IH]; intros i m m' H; cbn [seed_values] in H.
  - injection H as <-. cbn. rewrite union_empty_r_L. reflexivity.
  - destruct (cum !! i) as [lo|]; [|discriminate].
    destruct (cum !! S i) as [hi|]; [|discriminate].
    destruct (np.slice x lo hi) as [v|]; [|discriminate].
    cbn [mbind res_bind] in H. apply IH in H. rewrite H, dom_insert_L.
    cbn [list_to_set]. rewrite (union_comm_L {[n]} (dom m)).
    rewrite <- (assoc_L (∪)). reflexivity.
Qed.

Lemma seed_dom (self : Pipeline) (x y : ndarray) (m my : gmap string ndarray) :
  seed self x ∅ = Ok m -> seed self y ∅ = Ok my -> dom my = dom m.
Proof.
  unfold seed. destruct (_input_cum self) as [cum|].
  - intros Hx Hy. apply seed_values_dom in Hx, Hy. congruence.
  - destruct (_input_vars self) as [|n ?]; [discriminate|].
    intros Hx Hy. injection Hx as <-. injection Hy as <-.
    rewrite !dom_insert_L. reflexivity.
Qed.

Section two_modes.
Context (L : library) (K : constraint_kernels) (self : Pipeline).
Hypothesis stages_coherent : coherent_pipeline self.

Lemma evaluate_fun_follows (us : bool) (i j : Z) :
  follows (evaluate_fun self us i j) (evaluate_jac self us i j).
Proof using stages_coherent.
  unfold evaluate_fun, evaluate_jac.
  destruct (first_surrogate self us i) as [us' si].
  apply while_steps_follows, stages_coherent.
Qed.

Lemma run_named_follows (us : bool) (i j : Z) (name : string)
    (vf vj vj' : VariableDict) (f jm : ndarray) :
  agree vf vj ->
  run_jac self us i j (extract_str name) vj = Some (vj', Ok (r_pair f jm)) ->
  exists vf',
    run_fun self us i j (extract_str name) vf = Some (vf', Ok (r_value f)) /\
    agree vf' vj'.
Proof using stages_coherent.
  intros Hag H. unfold run_jac in H.
  apply bind_Ok_inv in H as ([] & vj1 & Hev & H).
  destruct (evaluate_fun_follows us i j vf vj vj1 tt Hag Hev)
    as (vf1 & Hevf & Hag1).
  unfold extract_jac in H. injection H as <- H.
  destruct (_fun vj1 !! name) as [v|] eqn:Hv; [|discriminate].
  destruct (_jac vj1 !! name); [|discriminate]. injection H as <- _.
  exists vf1. split; [|exact Hag1]. unfold run_fun.
  rewrite (bind_Ok _ _ _ _ _ Hevf). unfold extract_fun.
  destruct Hag1 as [-> _]. rewrite Hv. reflexivity.
Qed.

Lemma run_whole_follows (us : bool) (i j : Z)
    (vf vj vj' : VariableDict) (r : result) :
  agree vf vj ->
  run_jac self us i j extract_None vj = Some (vj', Ok r) ->
  r = r_store vj' /\
  exists vf',
    run_fun self us i j extract_None vf = Some (vf', Ok (r_store vf')) /\
    agree vf' vj'.
Proof using stages_coherent.
  intros Hag H. apply run_jac_evaluated in H as [-> Hev].
  split; [reflexivity|].
  destruct (evaluate_fun_follows us i j vf vj vj' tt Hag Hev)
    as (vf1 & Hevf & Hag1).
  exists vf1. split; [|exact Hag1]. unfold run_fun.
  rewrite (bind_Ok _ _ _ _ _ Hevf). reflexivity.
Qed.

(** The stores that the two modes seed from a float vector agree. *)
Lemma seeds_agree (os : bool) (x : ndarray) (vj : VariableDict) :
  (xj ← (if os
         then Ok (x, np.eye (default 0 (last (np.shape x))))
         else g ← to_original_grad K (base self) x out_True;
              g ← as_array g;
              j ← np.diag g;
              r ← to_original K (base self) x out_True;
              x' ← as_array r;
              Ok (x', j));
   m ← seed self (fst xj) ∅;
   mj ← seed self (snd xj) ∅;
   Ok {| _fun := m; _jac := mj |}) = Ok vj ->
  exists vf,
    (x ← (if os then Ok x
          else r ← to_original K (base self) x out_True; as_array r);
     m ← seed self x ∅;
     Ok {| _fun := m; _jac := ∅ |}) = Ok vf /\
    agree vf vj.
Proof.
  intros H.
  assert (exists x' jm m mj,
            (if os then Ok x
             else r ← to_original K (base self) x out_True; as_array r) = Ok x' /\
            seed self x' ∅ = Ok m /\ seed self jm ∅ = Ok mj /\
            vj = {| _fun := m; _jac := mj |}) as (x' & jm & m & mj & Hx & Hm & Hmj & ->).
  { destruct os.
    - cbn [mbind res_bind fst snd] in H.
      destruct (seed self x ∅) as [m|] eqn:Hm; [|discriminate].
      cbn [mbind res_bind] in H.
      destruct (seed self (np.eye _) ∅) as [mj|] eqn:Hmj; [|discriminate].
      cbn [mbind res_bind] in H. injection H as <-.
      exists x, (np.eye (default 0 (last (np.shape x)))), m, mj.
      repeat split; assumption.
    - destruct (to_original_grad K (base self) x out_True) as [g|]; [|discriminate].
      cbn [mbind res_bind] in H.
      destruct (as_array g) as [g'|]; [|discriminate]. cbn [mbind res_bind] in H.
      destruct (np.diag g') as [jm|]; [|discriminate]. cbn [mbind res_bind] in H.
      destruct (to_original K (base self) x out_True) as [r|]; [|discriminate].
      cbn [mbind res_bind] in H.
      destruct (as_array r) as [x'|] eqn:Hx'; [|discriminate].
      cbn [mbind res_bind fst snd] in H.
      destruct (seed self x' ∅) as [m|] eqn:Hm; [|discriminate].
      cbn [mbind res_bind] in H.
      destruct (seed self jm ∅) as [mj|] eqn:Hmj; [|discriminate].
      cbn [mbind res_bind] in H. injection H as <-.
      exists x', jm, m, mj. repeat split; assumption. }
  exists {| _fun := m; _jac := ∅ |}. rewrite Hx. cbn [mbind res_bind].
  rewrite Hm. split; [reflexivity|]. split; [reflexivity|]. cbn [_fun _jac].
  rewrite (seed_dom self x' jm m mj Hm Hmj). reflexivity.
Qed.

End two_modes.

Lemma run_jac_pair_named (self : Pipeline) (us : bool) (i j : Z) (e : extract_arg)
    (vj vj' : VariableDict) (f jm : ndarray) :
  run_jac self us i j e vj = Some (vj', Ok (r_pair f jm)) ->
  exists name, e = extract_str name.
Proof.
  unfold run_jac. intros H. apply bind_Ok_inv in H as ([] & vj1 & _ & H).
  unfold extract_jac in H. destruct e as [|name|names]; [discriminate| |discriminate].
  eauto.
Qed.

Lemma finish_Ok_inv (r : option (VariableDict * res result)) (a : result) :
  finish r = Some (Ok a) -> exists vd, r = Some (vd, Ok a).
Proof.
  destruct r as [[vd [a'|?]]|]; try discriminate.
  intros H. injection H as <-. eauto.
Qed.

Lemma vector_value_follows (L : library) (K : constraint_kernels)
    (self : Pipeline) (o : options) (n : nat) (d : list R) (f jm : ndarray) :
  coherent_pipeline self ->
  Pipeline_fun_and_jac L K self (in_floats (np.mk [n] d)) o
  = Some (Ok (r_pair f jm)) ->
  Pipeline_fun L K self (in_floats (np.mk [n] d)) o = Some (Ok (r_value f)).
Proof.
  intros Hself H.
  cbn [Pipeline_fun_and_jac Pipeline_fun np.atleast_1d np.shape np.data] in *.
  rewrite fun_floats_unfold.
  destruct (checked L self o) as [[[i j] e]|?]; [|discriminate].
  cbv beta iota. unfold jac_vector in H. unfold fun_vector.
  destruct (_ ≫= _) as [vj|?] eqn:Hseed in H; [|discriminate].
  destruct (seeds_agree K self (original_space o) (np.mk [n] d) vj Hseed)
    as (vf & -> & Hag).
  apply finish_Ok_inv in H as (vj' & H).
  destruct (run_jac_pair_named _ _ _ _ _ _ _ _ _ H) as (name & ->).
  destruct (run_named_follows self Hself _ _ _ _ _ _ _ _ _ Hag H)
    as (vf' & -> & _).
  reflexivity.
Qed.

(** X12: value mode follows Jacobian mode.  If the two entry points of
    every stage agree on the values, then what [fun_and_jac] returns as
    the value of a name, or as the values of the store, is what [fun]
    returns on the same input with the same options; for a store given
    as input, if it holds a Jacobian for bound names only. *)
Theorem fun_follows_fun_and_jac (L : library) (K : constraint_kernels)
    (self : Pipeline) :
  coherent_pipeline self ->
  (forall o n d f jm,
     Pipeline_fun_and_jac L K self (in_floats (np.mk [n] d)) o
     = Some (Ok (r_pair f jm)) ->
     Pipeline_fun L K self (in_floats (np.mk [n] d)) o = Some (Ok (r_value f))) /\
  (forall o vd f jm,
     dom (_jac vd) ⊆ dom (_fun vd) ->
     Pipeline_fun_and_jac L K self (in_store vd) o = Some (Ok (r_pair f jm)) ->
     Pipeline_fun L K self (in_store vd) o = Some (Ok (r_value f))) /\
  (forall o n d vj,
     extract_vars o = extract_None ->
     Pipeline_fun_and_jac L K self (in_floats (np.mk [n] d)) o
     = Some (Ok (r_store vj)) ->
     exists vf,
       Pipeline_fun L K self (in_floats (np.mk [n] d)) o = Some (Ok (r_store vf)) /\
       _fun vf = _fun vj).
Proof.
  intros Hself. split; [|split].
  - intros o n d f jm H. apply (vector_value_follows L K self o n d f jm Hself H).
  - intros o vd f jm Hdom H. cbn [Pipeline_fun_and_jac Pipeline_fun] in *.
    destruct (checked L self o) as [[[i j] e]|?]; [|discriminate].
    apply finish_Ok_inv in H as (vj' & H).
    destruct (run_jac_pair_named _ _ _ _ _ _ _ _ _ H) as (name & ->).
    destruct (run_named_follows self Hself _ _ _ _ vd _ _ _ _
                (conj eq_refl Hdom) H) as (vf' & -> & _).
    reflexivity.
  - intros o n d vj He H.
    cbn [Pipeline_fun_and_jac Pipeline_fun np.atleast_1d np.shape np.data] in *.
    rewrite fun_floats_unfold.
    destruct (checked L self o) as [[[i j] e]|?] eqn:Hc; [|discriminate].
    apply (checked_extract_None _ _ _ _ _ _ He) in Hc as ->.
    cbv beta iota. unfold jac_vector in H. unfold fun_vector.
    destruct (_ ≫= _) as [vj0|?] eqn:Hseed in H; [|discriminate].
    destruct (seeds_agree K self (original_space o) (np.mk [n] d) vj0 Hseed)
      as (vf & -> & Hag).
    apply finish_Ok_inv in H as (vj' & H).
    destruct (run_whole_follows self Hself _ _ _ _ _ _ _ Hag H)
      as (Hr & vf' & Hrun & [Hvals _]).
    injection Hr as ->. exists vf'. rewrite Hrun. auto.
Qed.

Lemma linear_stage_coherent (a b : string) (J : ndarray) :
  coherent (linear_stage a b J).
Proof.
  intros [|x [|? ?]] ys js H; cbn in *; try discriminate.
  destruct (np.dot J x); [|discriminate]. cbn in *. congruence.
Qed.

Lemma linear_chain_coherent (a b c : string) (J1 J2 : ndarray) :
  coherent_pipeline
    (two_modules unscaled (linear_stage a b J1) (linear_stage b c J2) a).
Proof.
  split; [|constructor].
  repeat (constructor; [apply linear_stage_coherent|]). constructor.
Qed.

Lemma fun_follows_fun_and_jac_witness :
  Pipeline_fun example_library copy_kernels
    (two_modules unscaled
       (linear_stage "x" "y" (np.mk [1; 1] [3%R]))
       (linear_stage "y" "z" (np.mk [1; 1] [2%R])) "x")
    (in_floats (np.mk [1] [5%R]))
    {| use_surrogate := false; original_space := true;
       start := step_None; stop := step_None;
       extract_vars := extract_str "z"; copy_x := false |}
  = Some (Ok (r_value (np.mk [1] [(2 * (3 * 5 + 0) + 0)%R]))).
Proof.
  apply (proj1 (fun_follows_fun_and_jac example_library copy_kernels
                  (two_modules unscaled
                     (linear_stage "x" "y" (np.mk [1; 1] [3%R]))
                     (linear_stage "y" "z" (np.mk [1; 1] [2%R])) "x")
                  (linear_chain_coherent "x" "y" "z" _ _))
           _ 1 [5%R] _
           (np.mk [1; 1] [(2 * (3 * 1 + 0) + 0)%R])).
  reflexivity.
Defined.

(** ** The three methods of [Density] *)

Lemma as_pair_inv (r : result) (f j : ndarray) :
  as_pair r = Ok (f, j) -> r = r_pair f j.
Proof. destruct r; try discriminate. intros H. injection H as <- <-. reflexivity. Qed.

(** X13: [logp_and_grad] returns what [logp] and [grad] return, where
    it shares nothing with its argument.  For a float vector, if
    [logp_and_grad] returns a pair then [logp] returns its first part
    with the same options, if the two entry points of every stage agree
    on the values; and [grad] returns its second part if the decay is
    not applied or [_logp] is not a view of an entry of [x], as with
    [copy_x] or outside the original space. *)
Theorem logp_and_grad_parts (L : library) (K : constraint_kernels)
    (self : Density) (n : nat) (d : list R) (us os : bool)
    (start stop : step_arg) (c : bool) (view : option nat) (lp g : ndarray) :
  Density_logp_and_grad L K self (np.mk [n] d) us os start stop c view
  = Some (Ok (lp, g)) ->
  (coherent_pipeline (pipeline self) ->
   Density_logp L K self (np.mk [n] d) us os start stop c = Some (Ok lp)) /\
  (_use_decay self && us = false \/ shared_entry os c view = None ->
   Density_grad L K self (np.mk [n] d) us os start stop c = Some (Ok g)).
Proof.
  intros H. unfold Density_logp_and_grad, Density_grad, Density_logp in *.
  destruct (Pipeline_fun_and_jac L K (pipeline self) (in_floats (np.mk [n] d))
              (density_options self us os start stop c))
    as [[r|?]|] eqn:Hfj; try discriminate.
  cbn [after] in *. injection H as H.
  destruct (as_pair r) as [[f j]|?] eqn:Hr; [|discriminate].
  apply as_pair_inv in Hr as ->. cbn [mbind res_bind fst snd] in *.
  destruct (np.first_of_last f) as [_logp|?] eqn:Hf; [|discriminate].
  cbn [mbind res_bind] in H.
  destruct (np.first_row j) as [_grad|?] eqn:Hj; [|discriminate].
  cbn [mbind res_bind] in *.
  destruct (decay_logp_and_grad K self (np.mk [n] d) us os
              (shared_entry os c view) _logp _grad) as [[lp1 g1]|?] eqn:Hd;
    [|discriminate].
  cbn [mbind res_bind fst snd] in H.
  destruct (transformed_logp K self (np.mk [n] d) os lp1) as [lp2|?] eqn:Htl;
    [|discriminate].
  cbn [mbind res_bind] in H.
  destruct (transformed_grad K self (np.mk [n] d) os g1) as [g2|?] eqn:Htg;
    [|discriminate].
  cbn [mbind res_bind] in H. injection H as <- <-.
  assert (decay_logp K self (np.mk [n] d) us os _logp = Ok lp1 /\
          (_use_decay self && us = false \/ shared_entry os c view = None ->
           decay_grad K self (np.mk [n] d) us os _grad = Ok g1))
    as [Hdl Hdg].
  { unfold decay_logp_and_grad, decay_logp, decay_grad, decay_terms in *.
    destruct (_use_decay self && us).
    - destruct (original_point K self (np.mk [n] d) os) as [x_o|?];
        [|discriminate].
      cbn [mbind res_bind] in *.
      destruct (distance_terms self x_o) as [[[v hess] beta2]|?];
        [|discriminate].
      cbn [mbind res_bind] in *.
      destruct (attribute "_gamma" (_gamma self)) as [gamma|?]; [|discriminate].
      cbn [mbind res_bind] in *.
      destruct (attribute "_alpha2" (_alpha2 self)) as [alpha2|?];
        [|discriminate].
      cbn [mbind res_bind] in *.
      destruct (np.in_place Rminus _logp _) as [lp'|?]; [|discriminate].
      cbn [mbind res_bind] in *.
      destruct (subtract_slope self
                  (written_through (shared_entry os c view) x_o lp') beta2 _grad)
        as [g'|?] eqn:Hslope; [|discriminate].
      cbn [mbind res_bind] in Hd. injection Hd as <- <-.
      split; [reflexivity|].
      intros [Hoff|Hnone]; [discriminate|].
      rewrite Hnone in Hslope. exact Hslope.
    - injection Hd as <- <-. auto. }
  split.
  - intros Hself.
    rewrite (vector_value_follows L K (pipeline self) _ n d f j Hself Hfj).
    cbn [after as_value mbind res_bind]. rewrite Hf. cbn [mbind res_bind].
    unfold logp_terms. rewrite Hdl. cbn [mbind res_bind]. rewrite Htl. reflexivity.
  - intros Hfree. unfold grad_terms. rewrite (Hdg Hfree).
    cbn [mbind res_bind]. rewrite Htg. reflexivity.
Qed.

Lemma rename_stage_coherent (a b : string) : coherent (rename_stage a b).
Proof. intros xs ys js H. cbn in *. congruence. Qed.

Lemma one_module_coherent (m : Mod.t) (x : string) :
  coherent m -> coherent_pipeline (one_module m x).
Proof. intros Hm. split; [repeat constructor; exact Hm | constructor]. Qed.

Lemma logp_and_grad_parts_witness :
  exists lp g,
    Density_logp example_library copy_kernels decayed_density (np.mk [1] [3%R])
      true true step_None step_None true = Some (Ok lp) /\
    Density_grad example_library copy_kernels decayed_density (np.mk [1] [3%R])
      true true step_None step_None true = Some (Ok g).
Proof.
  assert (exists lp g,
            Density_logp_and_grad example_library copy_kernels decayed_density
              (np.mk [1] [3%R]) true true step_None step_None true (Some 0)
            = Some (Ok (lp, g))) as (lp & g & H)
    by (eexists _, _; reflexivity).
  exists lp, g.
  destruct (logp_and_grad_parts example_library copy_kernels decayed_density
              1 [3%R] true true step_None step_None true (Some 0) lp g H)
    as [Hl Hg].
  split.
  - apply Hl. apply one_module_coherent, rename_stage_coherent.
  - apply Hg. right. reflexivity.
Defined.

(** Where [_logp] is a view of an entry of [x], the second part of
    [logp_and_grad] is not what [grad] returns: the stage of
    [decayed_density] hands its input through, and at [x = [3]] the
    penalty [0.5] is written to [x] before the slope is taken, at
    [2.5] instead of [3]. *)
Lemma logp_and_grad_shared_entry :
  exists lp g g',
    Density_logp_and_grad example_library copy_kernels decayed_density
      (np.mk [1] [3%R]) true true step_None step_None false (Some 0)
    = Some (Ok (np.mk [] [lp], np.mk [1] [g])) /\
    Density_grad example_library copy_kernels decayed_density
      (np.mk [1] [3%R]) true true step_None step_None false
    = Some (Ok (np.mk [1] [g'])) /\
    lp = (5 / 2)%R /\ g = (1 / 2)%R /\ g' = (2 / 5)%R.
Proof.
  eexists _, _, _. split; [reflexivity|]. split; [reflexivity|].
  cbn. rewrite Rmax_right by lra.
  destruct (Rlt_dec _ _) as [_|Hn]; [|exfalso; lra].
  repeat split; lra.
Qed.

(** ** The density conversions *)

Lemma zip_with_add_sub (d e : list R) :
  length d = length e ->
  zip_with Rminus (zip_with Rplus d e) e = d.
Proof.
  revert e. induction d as [|x d IH]; intros [|y e] H; try discriminate.
  - reflexivity.
  - cbn. f_equal; [lra | apply IH; injection H; auto].
Qed.

(** X14: the two density conversions undo each other in either order,
    for the coordinate given in either space: for a density of the shape
    of the log-Jacobian difference, converting to the original space and
    back, or from the original space and back, returns the density. *)
Theorem density_round_trips (K : constraint_kernels) (self : PipelineBase)
    (x x_trans : option ndarray) (d diff : ndarray) :
  _get_diff K self x x_trans = Ok diff ->
  np.wf d -> np.shape d = np.shape diff ->
  (exists d',
     to_original_density K self d x_trans x = Ok d' /\
     from_original_density K self d' x x_trans = Ok d) /\
  (exists d',
     from_original_density K self d x x_trans = Ok d' /\
     to_original_density K self d' x_trans x = Ok d).
Proof.
  intros Hdiff Hd Hs. pose proof (get_diff_wf _ _ _ _ _ Hdiff) as Hwf.
  assert (Hlen : length (np.data d) = length (np.data diff)).
  { unfold np.wf, np.size in *. congruence. }
  assert (Hsize : forall l, negb (np.size (np.mk (np.shape d) l)
                                   =? np.size diff) = false).
  { intros l. unfold np.size. cbn [np.shape]. rewrite Hs, Nat.eqb_refl.
    reflexivity. }
  assert (Hsize0 : negb (np.size d =? np.size diff) = false).
  { unfold np.size. rewrite Hs, Nat.eqb_refl. reflexivity. }
  assert (Hwf' : forall f, np.wf (np.mk (np.shape d)
                                    (zip_with f (np.data d) (np.data diff)))).
  { intros f. unfold np.wf, np.size in *. cbn [np.shape np.data].
    rewrite length_zip_with. lia. }
  unfold to_original_density, from_original_density. rewrite Hdiff.
  cbn [mbind res_bind]. rewrite Hsize0. unfold np.sub, np.add.
  rewrite !binop_same_shape by assumption. split.
  - eexists. split; [reflexivity|]. rewrite Hsize.
    rewrite binop_same_shape by (apply Hwf' || assumption).
    cbn [np.shape np.data]. rewrite zip_with_sub_add by exact Hlen.
    destruct d; reflexivity.
  - eexists. split; [reflexivity|]. rewrite Hsize.
    rewrite binop_same_shape by (apply Hwf' || assumption).
    cbn [np.shape np.data]. rewrite zip_with_add_sub by exact Hlen.
    destruct d; reflexivity.
Qed.

Lemma density_round_trips_witness :
  exists d',
    from_original_density copy_kernels unscaled (np.mk [] [7%R])
      None (Some (np.mk [2] [3%R; 4%R])) = Ok d' /\
    to_original_density copy_kernels unscaled d'
      (Some (np.mk [2] [3%R; 4%R])) None = Ok (np.mk [] [7%R]).
Proof.
  eapply (proj2 (density_round_trips copy_kernels unscaled
                   None (Some (np.mk [2] [3%R; 4%R])) (np.mk [] [7%R]) _ _ _ _)).
  Unshelve.
  - exact (np.mk [] [(ln (Rabs 1) + (ln (Rabs 1) + 0))%R]).
  - reflexivity.
  - reflexivity.
  - reflexivity.
Defined.

Lemma Rsum_zero (l : list R) : Forall (fun v => v = 0%R) l -> np.Rsum l = 0%R.
Proof.
  induction 1 as [|v l -> _ IH]; [reflexivity|].
  cbn [np.Rsum foldr]. fold (np.Rsum l). rewrite IH. lra.
Qed.

Lemma map_constant {A : Type} (f : nat -> A) (c : A) (a k : nat) :
  (forall i, f i = c) -> map f (seq a k) = repeat c k.
Proof.
  intros Hf. revert a. induction k as [|k IH]; intros a; [reflexivity|].
  cbn [seq map repeat]. rewrite Hf, IH. reflexivity.
Qed.

Lemma zip_with_zero (f : R -> R -> R) (l : list R) :
  (forall v, f v 0%R = v) -> zip_with f l (repeat 0%R (length l)) = l.
Proof.
  intros Hf. induction l as [|v l IH]; [reflexivity|].
  cbn. rewrite Hf, IH. reflexivity.
Qed.

Lemma reverse_removelast {A : Type} (l rs : list A) (n : A) :
  reverse l = n :: rs -> removelast l = reverse rs.
Proof.
  intros H. apply (f_equal reverse) in H. rewrite reverse_involutive in H.
  rewrite H, reverse_cons. apply removelast_last.
Qed.

(** The sum of the logarithms of an array of ones *)
Lemma sum_log_abs_ones (x : ndarray) :
  np.shape x <> [] ->
  np.sum_last (np.log (np.abs (np.ones_like x)))
  = Ok (zeros_of (removelast (np.shape x))).
Proof.
  intros Hx. unfold np.sum_last, np.log, np.abs, np.ones_like, np.map_entries.
  cbn [np.shape np.data].
  destruct (reverse (np.shape x)) as [|n rs] eqn:Hr.
  { apply (f_equal reverse) in Hr. rewrite reverse_involutive in Hr.
    contradiction. }
  rewrite (reverse_removelast _ _ _ Hr). unfold zeros_of. do 2 f_equal.
  apply map_constant. intros i. apply Rsum_zero.
  unfold np.chunk. apply Forall_take, Forall_drop.
  apply Forall_map, Forall_map, Forall_forall.
  intros v Hv%list_elem_of_In. apply repeat_spec in Hv as ->.
  rewrite Rabs_R1. apply ln_1.
Qed.

Lemma neg_zeros (s : list nat) : np.neg (zeros_of s) = zeros_of s.
Proof.
  unfold np.neg, np.map_entries, zeros_of. cbn [np.shape np.data]. f_equal.
  induction (np.prod s) as [|k IH]; [reflexivity|].
  cbn [repeat map]. rewrite IH. f_equal. lra.
Qed.

Lemma zeros_of_wf (s : list nat) : np.wf (zeros_of s).
Proof. unfold np.wf, np.size, zeros_of. cbn. apply repeat_length. Qed.

Section conversions_unscaled.
Context (K : constraint_kernels) (self : PipelineBase).
Hypothesis no_scales : _var_scales self = None.

Lemma get_diff_unscaled (x : ndarray) :
  np.shape x <> [] ->
  _get_diff K self (Some x) None = Ok (zeros_of (removelast (np.shape x))) /\
  _get_diff K self None (Some x) = Ok (zeros_of (removelast (np.shape x))).
Proof using no_scales.
  intros Hx. unfold _get_diff, from_original_grad, to_original_grad.
  rewrite !(constraint_unscaled self no_scales). cbn [mbind res_bind as_array returned].
  rewrite (sum_log_abs_ones x Hx). cbn [mbind res_bind].
  rewrite neg_zeros. split; reflexivity.
Qed.

Lemma minus_zeros (d : ndarray) :
  np.wf d ->
  np.sub d (zeros_of (np.shape d)) = Ok d /\
  np.add d (zeros_of (np.shape d)) = Ok d.
Proof.
  intros Hd. unfold np.sub, np.add.
  rewrite !binop_same_shape by (reflexivity || assumption || apply zeros_of_wf).
  unfold zeros_of. cbn [np.data].
  unfold np.wf, np.size in Hd. rewrite <- Hd.
  rewrite !zip_with_zero by (intros; lra). destruct d; split; reflexivity.
Qed.

End conversions_unscaled.

(** X15: without [var_scales] the conversions of a density change
    nothing: the log-Jacobian difference of a coordinate array is an
    array of zeros, and a density of its shape is returned as it is, in
    either direction and for the coordinate given in either space. *)
Theorem conversions_without_scales (K : constraint_kernels)
    (self : PipelineBase) (x d : ndarray) :
  _var_scales self = None ->
  np.shape x <> [] ->
  np.wf d -> np.shape d = removelast (np.shape x) ->
  _get_diff K self (Some x) None = Ok (zeros_of (removelast (np.shape x))) /\
  _get_diff K self None (Some x) = Ok (zeros_of (removelast (np.shape x))) /\
  to_original_density K self d None (Some x) = Ok d /\
  to_original_density K self d (Some x) None = Ok d /\
  from_original_density K self d (Some x) None = Ok d /\
  from_original_density K self d None (Some x) = Ok d.
Proof.
  intros Hself Hx Hd Hs.
  destruct (get_diff_unscaled K self Hself x Hx) as [H1 H2].
  split; [exact H1|]. split; [exact H2|].
  unfold to_original_density, from_original_density. rewrite H1, H2.
  cbn [mbind res_bind].
  assert (negb (np.size d =? np.size (zeros_of (removelast (np.shape x))))
          = false) as ->.
  { unfold np.size, zeros_of. cbn [np.shape]. rewrite Hs, Nat.eqb_refl.
    reflexivity. }
  rewrite <- Hs. destruct (minus_zeros d Hd) as [-> ->]. auto.
Qed.

Lemma conversions_without_scales_witness :
  to_original_density copy_kernels unscaled (np.mk [2] [7%R; 8%R])
    (Some (np.mk [2; 1] [3%R; 4%R])) None
  = Ok (np.mk [2] [7%R; 8%R]).
Proof.
  apply (conversions_without_scales copy_kernels unscaled
           (np.mk [2; 1] [3%R; 4%R]) (np.mk [2] [7%R; 8%R])
           eq_refl ltac:(discriminate) eq_refl eq_refl).
Defined.

(** ** What the decay state keeps *)

Section update_keeps.
Context (P : Density -> Prop).

Lemma Update_keeps_bind {A B : Type} (m : Update A) (k : A -> Update B) :
  Update_keeps P m -> (forall a, Update_keeps P (k a)) ->
  Update_keeps P (m ≫= k).
Proof.
  intros Hm Hk self HP. unfold mbind, Update_bind.
  specialize (Hm self HP). destruct (m self) as [s1 [a|e]]; cbn [fst] in *.
  - apply Hk, Hm.
  - exact Hm.
Qed.

Lemma Update_keeps_check {A B : Type} (r : res A) (k : A -> Update B) :
  (forall a, r = Ok a -> Update_keeps P (k a)) ->
  Update_keeps P (check r ≫= k).
Proof.
  intros Hk self HP. unfold mbind, Update_bind, check.
  destruct r as [a|e]; [apply (Hk a eq_refl), HP | exact HP].
Qed.

Lemma Update_keeps_read {A B : Type} (f : Density -> A) (k : A -> Update B) :
  (forall a, Update_keeps P (k a)) -> Update_keeps P (read f ≫= k).
Proof. intros Hk self HP. unfold mbind, Update_bind, read. apply Hk, HP. Qed.

Lemma Update_keeps_ret {A : Type} (a : A) : Update_keeps P (mret a).
Proof. intros self HP. exact HP. Qed.

Lemma Update_keeps_raise {A : Type} (e : exn) : Update_keeps P (check (A:=A) (Raise e)).
Proof. intros self HP. exact HP. Qed.

Lemma Update_keeps_but_bind {A B : Type} (m : Update A) (k : A -> Update B) :
  Update_keeps_but_overflow P m ->
  (forall a, Update_keeps_but_overflow P (k a)) ->
  Update_keeps_but_overflow P (m ≫= k).
Proof.
  intros Hm Hk self HP. unfold mbind, Update_bind.
  specialize (Hm self HP). destruct (m self) as [s1 [a|e]]; cbn [fst snd] in *.
  - destruct Hm as [Hm|Hm]; [discriminate Hm|]. apply Hk, Hm.
  - destruct Hm as [[= ->]|Hm]; [left; reflexivity | right; exact Hm].
Qed.

Lemma Update_keeps_but_check {A B : Type} (r : res A) (k : A -> Update B) :
  (forall a, r = Ok a -> Update_keeps_but_overflow P (k a)) ->
  Update_keeps_but_overflow P (check r ≫= k).
Proof.
  intros Hk self HP. unfold mbind, Update_bind, check.
  destruct r as [a|e]; [apply (Hk a eq_refl), HP | right; exact HP].
Qed.

Lemma Update_keeps_but_read {A B : Type} (f : Density -> A) (k : A -> Update B) :
  (forall a, Update_keeps_but_overflow P (k a)) ->
  Update_keeps_but_overflow P (read f ≫= k).
Proof. intros Hk self HP. unfold mbind, Update_bind, read. apply Hk, HP. Qed.

Lemma Update_keeps_always {A : Type} (m : Update A) :
  Update_keeps P m -> Update_keeps_but_overflow P m.
Proof. intros Hm self HP. right. apply Hm, HP. Qed.

End update_keeps.

Lemma positive_float_positive (v : number) (message : string) (r : R) :
  positive_float v message = Ok r -> (0 < r)%R.
Proof.
  destruct v as [x|]; [|discriminate]. cbn.
  destruct (Rlt_dec 0 x); [|discriminate]. intros H. injection H as <-. assumption.
Qed.

(** The setter of [alpha], end by end: a refused value changes nothing;
    a value whose square overflows replaces [_alpha] and leaves
    [_alpha2]; any other value replaces both. *)
Lemma set_alpha_ends (v : number) (self : Density) :
  (set_alpha v self
   = (self, Raise (ValueError "alpha should be a positive float.")) /\
   forall a, v = a_float a -> (a <= 0)%R) \/
  (exists a, v = a_float a /\ (0 < a)%R /\ (float_overflow <= a * a)%R /\
     set_alpha v self = (fst (assign_alpha a self), Raise OverflowError)) \/
  (exists a, v = a_float a /\ (0 < a)%R /\ (a * a < float_overflow)%R /\
     set_alpha v self
     = (fst (assign_alpha2 (a * a) (fst (assign_alpha a self))), Ok tt)).
Proof.
  unfold set_alpha, mbind, Update_bind, check, float_square.
  destruct v as [a|]; cbn [positive_float].
  - destruct (Rlt_dec 0 a) as [Ha|Ha].
    + cbn [assign_alpha]. destruct (Rle_dec float_overflow (a * a)) as [Ho|Ho].
      * right. left. exists a. auto.
      * right. right. exists a. repeat split; [exact Ha | lra].
    + left. split; [reflexivity|]. intros a' [= <-]. lra.
  - left. split; [reflexivity | discriminate].
Qed.

Lemma set_alpha_keeps_positive (a : number) :
  Update_keeps decay_positive (set_alpha a).
Proof.
  intros self (HA & HA2 & HG).
  destruct (set_alpha_ends a self)
    as [[-> _]|[(r & _ & Hr & _ & ->)|(r & _ & Hr & _ & ->)]]; cbn.
  - exact (conj HA (conj HA2 HG)).
  - split; [|exact (conj HA2 HG)]. intros a' [= <-]. exact Hr.
  - split; [|split; [|exact HG]].
    + intros a' [= <-]. exact Hr.
    + intros a2 [= <-]. exists r. auto.
Qed.

Lemma set_alpha_keeps (a : number) :
  Update_keeps_but_overflow decay_invariant (set_alpha a).
Proof.
  intros self (HA & HG).
  destruct (set_alpha_ends a self)
    as [[-> _]|[(r & _ & Hr & _ & ->)|(r & _ & Hr & _ & ->)]]; cbn.
  - right. exact (conj HA HG).
  - left. reflexivity.
  - right. split; [|exact HG]. intros a' [= <-]. auto.
Qed.

Lemma assign_gamma_keeps (g : R) :
  (0 < g)%R -> Update_keeps decay_invariant (assign_gamma g).
Proof.
  intros Hg self [HA HG]. split; cbn.
  - exact HA.
  - intros g' H. injection H as <-. exact Hg.
Qed.

Lemma assign_gamma_keeps_positive (g : R) :
  (0 < g)%R -> Update_keeps decay_positive (assign_gamma g).
Proof.
  intros Hg self (HA & HA2 & HG). split; [exact HA|]. split; [exact HA2|].
  cbn. intros g' H. injection H as <-. exact Hg.
Qed.

Lemma set_gamma_keeps (g : number) : Update_keeps decay_invariant (set_gamma g).
Proof.
  unfold set_gamma. apply Update_keeps_check. intros r Hr.
  apply assign_gamma_keeps, (positive_float_positive _ _ _ Hr).
Qed.

Lemma set_gamma_keeps_positive (g : number) :
  Update_keeps decay_positive (set_gamma g).
Proof.
  unfold set_gamma. apply Update_keeps_check. intros r Hr.
  apply assign_gamma_keeps_positive, (positive_float_positive _ _ _ Hr).
Qed.

Section decay_keeps.
Context (L : library) (K : constraint_kernels).

Lemma choose_alpha_keeps_positive (x_o mu hess : ndarray)
    (alpha alpha_p : option number) :
  Update_keeps decay_positive (choose_alpha L x_o mu hess alpha alpha_p).
Proof.
  unfold choose_alpha. destruct alpha as [a|]; [apply set_alpha_keeps_positive|].
  apply Update_keeps_read. intros old.
  assert (Update_keeps decay_positive (percentile_alpha L x_o mu hess alpha_p))
    as Hbranch.
  { unfold percentile_alpha.
    apply Update_keeps_check. intros p _.
    apply Update_keeps_check. intros v _.
    apply Update_keeps_check. intros q _. cbv zeta.
    destruct (Rlt_dec p 100); apply Update_keeps_check; intros;
      apply set_alpha_keeps_positive. }
  destruct old as [a|], alpha_p as [p|];
    first [exact Hbranch | apply Update_keeps_ret].
Qed.

Lemma choose_alpha_keeps (x_o mu hess : ndarray) (alpha alpha_p : option number) :
  Update_keeps_but_overflow decay_invariant
    (choose_alpha L x_o mu hess alpha alpha_p).
Proof.
  unfold choose_alpha. destruct alpha as [a|]; [apply set_alpha_keeps|].
  apply Update_keeps_but_read. intros old.
  assert (Update_keeps_but_overflow decay_invariant
            (percentile_alpha L x_o mu hess alpha_p)) as Hbranch.
  { unfold percentile_alpha.
    apply Update_keeps_but_check. intros p _.
    apply Update_keeps_but_check. intros v _.
    apply Update_keeps_but_check. intros q _. cbv zeta.
    destruct (Rlt_dec p 100); apply Update_keeps_but_check; intros;
      apply set_alpha_keeps. }
  destruct old as [a|], alpha_p as [p|];
    first [exact Hbranch | apply Update_keeps_always, Update_keeps_ret].
Qed.

Lemma choose_gamma_keeps (gamma : option number) :
  Update_keeps decay_invariant (choose_gamma gamma).
Proof.
  unfold choose_gamma. destruct gamma as [g|]; [apply set_gamma_keeps|].
  apply Update_keeps_read. intros [g|]; [apply Update_keeps_ret|].
  apply assign_gamma_keeps. lra.
Qed.

Lemma choose_gamma_keeps_positive (gamma : option number) :
  Update_keeps decay_positive (choose_gamma gamma).
Proof.
  unfold choose_gamma. destruct gamma as [g|]; [apply set_gamma_keeps_positive|].
  apply Update_keeps_read. intros [g|]; [apply Update_keeps_ret|].
  apply assign_gamma_keeps_positive. lra.
Qed.

Lemma set_decay_keeps_positive (x : ndarray) (os : bool)
    (alpha alpha_p gamma : option number) :
  Update_keeps decay_positive (set_decay L K x os alpha alpha_p gamma).
Proof.
  unfold set_decay. cbv zeta.
  apply Update_keeps_check. intros rows _.
  apply Update_keeps_read. intros b.
  apply Update_keeps_check. intros x_o _.
  apply Update_keeps_check. intros mu _.
  apply Update_keeps_bind; [intros self H; exact H|]. intros _.
  apply Update_keeps_check. intros hess _.
  apply Update_keeps_bind; [intros self H; exact H|]. intros _.
  apply Update_keeps_bind; [apply choose_alpha_keeps_positive|]. intros _.
  apply Update_keeps_bind; [apply choose_gamma_keeps_positive|]. intros _.
  intros self H. exact H.
Qed.

Lemma set_decay_keeps (x : ndarray) (os : bool)
    (alpha alpha_p gamma : option number) :
  Update_keeps_but_overflow decay_invariant
    (set_decay L K x os alpha alpha_p gamma).
Proof.
  unfold set_decay. cbv zeta.
  apply Update_keeps_but_check. intros rows _.
  apply Update_keeps_but_read. intros b.
  apply Update_keeps_but_check. intros x_o _.
  apply Update_keeps_but_check. intros mu _.
  apply Update_keeps_but_bind; [intros self H; right; exact H|]. intros _.
  apply Update_keeps_but_check. intros hess _.
  apply Update_keeps_but_bind; [intros self H; right; exact H|]. intros _.
  apply Update_keeps_but_bind; [apply choose_alpha_keeps|]. intros _.
  apply Update_keeps_but_bind;
    [apply Update_keeps_always, choose_gamma_keeps|]. intros _.
  intros self H. right. exact H.
Qed.

(** What [fit] leaves is what its decay block leaves. *)
Lemma fit_state (var_dicts : list store_arg) (use_decay : bool)
    (decay_options : option decay_keywords) (dicts : bool)
    (self self' : Density) (r : res unit) :
  fit L K var_dicts use_decay decay_options dicts self = Some (self', r) ->
  (self' = self /\ exists msg, r = Raise (ValueError msg)) \/
  (use_decay = false /\ self' = fst (assign_use_decay false self)) \/
  (use_decay = true /\ self' = self /\ exists e, r = Raise e) \/
  (exists x os alpha alpha_p gamma,
     use_decay = true /\
     self' = fst (set_decay L K x os alpha alpha_p gamma self) /\
     (snd (set_decay L K x os alpha alpha_p gamma self) = Ok tt \/
      r = snd (set_decay L K x os alpha alpha_p gamma self))).
Proof.
  unfold fit. destruct (all_stores var_dicts) as [stores|].
  2: { intros [= <- <-]. left. eauto. }
  destruct decay_options as [kw|].
  2: { intros [= <- <-]. left. eauto. }
  destruct dicts; cbn [negb].
  2: { intros [= <- <-]. left. eauto. }
  unfold fit_decay. destruct use_decay.
  - destruct (_fit_var stores (_input_vars (pipeline self))) as [[x|? ?]|e].
    + destruct (set_decay L K x (kw_original_space kw) (kw_alpha kw)
                  (kw_alpha_p kw) (kw_gamma kw) self) as [s1 [[]|e]] eqn:Hset.
      * intros [= <- <-]. right. right. right.
        exists x, (kw_original_space kw), (kw_alpha kw), (kw_alpha_p kw),
          (kw_gamma kw).
        rewrite Hset. auto.
      * intros [= <- <-]. right. right. right.
        exists x, (kw_original_space kw), (kw_alpha kw), (kw_alpha_p kw),
          (kw_gamma kw).
        rewrite Hset. auto.
    + discriminate.
    + intros [= <- <-]. right. right. left. eauto.
  - cbn [assign_use_decay]. intros [= <- <-]. right. left. auto.
Qed.

End decay_keeps.


Lemma plain_density_sound : decay_invariant plain_density.
Proof. split; intros ? H; discriminate H. Qed.


(** X17: [set_decay] is not undone when it raises.  A call that has
    computed the mean and the inverse covariance and then refuses the
    [alpha] it was given raises [ValueError] with [mu] and [hess]
    already replaced, and with [alpha], [gamma] and [use_decay] as they
    were. *)
Theorem set_decay_raises_late (L : library) (K : constraint_kernels)
    (self : Density) (x : ndarray) (os : bool) (a : number)
    (alpha_p gamma : option number) (rows x_o mu c hess : ndarray) :
  reshape_rows (np.ascontiguousarray x) = Ok rows ->
  (if os then Ok rows
   else r ← to_original K (base (pipeline self)) rows out_True; as_array r)
  = Ok x_o ->
  mean0 L x_o = Ok mu -> cov L x_o = Ok c -> inv L c = Ok hess ->
  (forall r, a = a_float r -> (r <= 0)%R) ->
  set_decay L K x os (Some a) alpha_p gamma self
  = ({| pipeline := pipeline self; _density_name := _density_name self;
        _use_decay := _use_decay self; _mu := Some mu; _hess := Some hess;
        _alpha := _alpha self; _alpha2 := _alpha2 self;
        _gamma := _gamma self |},
     Raise (ValueError "alpha should be a positive float.")).
Proof.
  intros Hrows Hx Hmu Hc Hh Ha. unfold set_decay. cbv zeta.
  unfold choose_alpha, set_alpha.
  unfold mbind, Update_bind, res_bind, check, read, assign_mu, assign_hess in *.
  rewrite Hrows, Hx, Hmu, Hc, Hh.
  assert (positive_float a "alpha should be a positive float."
          = Raise (ValueError "alpha should be a positive float.")) as ->.
  { destruct a as [r|]; [|reflexivity]. cbn.
    destruct (Rlt_dec 0 r) as [Hr|]; [|reflexivity].
    specialize (Ha r eq_refl). lra. }
  reflexivity.
Qed.

Lemma set_decay_raises_late_witness :
  set_decay example_library copy_kernels five_samples true
    (Some (a_float (-1))) None None plain_density
  = ({| pipeline := pipeline plain_density;
        _density_name := _density_name plain_density;
        _use_decay := false;
        _mu := Some (np.mk [2] [0%R; 0%R]);
        _hess := Some (np.mk [2; 2] [(1 / 2)%R; 0%R; 0%R; (1 / 2)%R]);
        _alpha := None; _alpha2 := None; _gamma := None |},
     Raise (ValueError "alpha should be a positive float.")).
Proof.
  apply (set_decay_raises_late example_library copy_kernels plain_density
           five_samples true (a_float (-1)) None None five_samples five_samples
           (np.mk [2] [0%R; 0%R]) (np.mk [2; 2] [2%R; 0%R; 0%R; 2%R])
           (np.mk [2; 2] [(1 / 2)%R; 0%R; 0%R; (1 / 2)%R])
           five_samples_rows eq_refl five_samples_mean five_samples_cov
           five_samples_inv).
  intros r H. injection H as <-. lra.
Defined.

(** ** The dimensions of the input *)

Lemma wrap64_int64 (z : Z) : is_int64 (wrap64 z).
Proof.
  unfold is_int64, wrap64.
  pose proof (Z.mod_pos_bound (z + 2 ^ 63) (2 ^ 64) ltac:(lia)). lia.
Qed.

Lemma wrap64_add_l (a b : Z) : wrap64 (wrap64 a + b) = wrap64 (a + b).
Proof.
  unfold wrap64. f_equal.
  replace ((a + 2 ^ 63) mod 2 ^ 64 - 2 ^ 63 + b + 2 ^ 63)%Z
    with ((a + 2 ^ 63) mod 2 ^ 64 + b)%Z by lia.
  rewrite Z.add_mod_idemp_l by lia. f_equal. lia.
Qed.

Lemma cumsum64_from_length (l : list Z) :
  forall acc, length (cumsum64_from acc l) = length l.
Proof. induction l as [|d l IH]; intros acc; cbn; [|rewrite IH]; reflexivity. Qed.

Lemma cumsum64_from_lookup (l : list Z) :
  forall acc i, i < length l ->
    cumsum64_from acc l !! i
    = Some (wrap64 (acc + foldr Z.add 0%Z (take (S i) l))).
Proof.
  induction l as [|d l IH]; intros acc i Hi; [cbn in Hi; lia|].
  destruct i as [|i].
  - cbn [cumsum64_from lookup list_lookup firstn foldr]. rewrite take_0.
    cbn [foldr]. do 2 f_equal. lia.
  - cbn [cumsum64_from lookup list_lookup]. cbn [length] in Hi.
    change ((cumsum64_from (wrap64 (acc + d)) l) !! i
            = Some (wrap64 (acc + (d + foldr Z.add 0%Z (take (S i) l))))).
    rewrite IH by lia. rewrite wrap64_add_l. do 2 f_equal. lia.
Qed.

(** Entry [i] of [_input_cum] is the sum, in 64 bits, of the first [i]
    dimensions. *)
Lemma cumsum64_lookup (entries : list Z) (i : nat) :
  i <= length entries ->
  cumsum64 (0%Z :: entries) !! i
  = Some (wrap64 (foldr Z.add 0%Z (take i entries))).
Proof.
  intros Hi. unfold cumsum64.
  rewrite cumsum64_from_lookup by (cbn; lia).
  reflexivity.
Qed.

Lemma cumsum64_length (entries : list Z) :
  length (cumsum64 (0%Z :: entries)) = S (length entries).
Proof.
  unfold cumsum64. cbn [cumsum64_from length].
  rewrite cumsum64_from_length. reflexivity.
Qed.

Lemma cumsum64_last (entries : list Z) :
  last (cumsum64 (0%Z :: entries)) = Some (wrap64 (foldr Z.add 0%Z entries)).
Proof.
  rewrite last_lookup, cumsum64_length. cbn [Nat.pred].
  rewrite cumsum64_lookup by lia. rewrite firstn_all. reflexivity.
Qed.

Lemma sum_take_bounds (entries : list Z) :
  Forall (fun d => (0 < d)%Z) entries ->
  forall i, (0 <= foldr Z.add 0 (take i entries) <= foldr Z.add 0 entries)%Z.
Proof.
  induction 1 as [|d l Hd _ IH]; intros i.
  - rewrite take_nil. cbn [foldr]. lia.
  - destruct i as [|i].
    + rewrite take_0. cbn [foldr]. specialize (IH 0). rewrite take_0 in IH.
      cbn [foldr] in IH. lia.
    + change (take (S i) (d :: l)) with (d :: take i l). cbn [foldr].
      specialize (IH i). lia.
Qed.

Lemma sum_take_S (entries : list Z) (i : nat) (d : Z) :
  entries !! i = Some d ->
  foldr Z.add 0%Z (take (S i) entries)
  = (foldr Z.add 0 (take i entries) + d)%Z.
Proof.
  revert i. induction entries as [|e l IH]; intros [|i] H; try discriminate.
  - cbn in H. injection H as ->.
    change (take 1 (d :: l)) with (d :: take 0 l). rewrite !take_0.
    cbn [foldr]. lia.
  - cbn in H. change (e + foldr Z.add 0 (take (S i) l)
                      = e + foldr Z.add 0 (take i l) + d)%Z.
    rewrite (IH i H). lia.
Qed.

Lemma list_sum_to_nat (entries : list Z) :
  Forall (fun d => (0 < d)%Z) entries ->
  Z.of_nat (list_sum (map Z.to_nat entries)) = foldr Z.add 0%Z entries.
Proof.
  induction 1 as [|d l Hd _ IH]; [reflexivity|].
  change (Z.of_nat (Z.to_nat d + list_sum (map Z.to_nat l))
          = (d + foldr Z.add 0 l)%Z).
  rewrite Nat2Z.inj_add, IH. lia.
Qed.

Lemma dim_check_accepts (s : list nat) (entries : list Z)
    (dims cum : list Z) :
  _dim_check (dims_ints s entries) = Ok (dims, cum) ->
  dims = entries /\ cum = cumsum64 (0%Z :: entries) /\
  Forall (fun d => (0 < d < 2 ^ 63)%Z) entries /\
  0 < np.prod (np.atleast_1d s) /\ length (np.atleast_1d s) = 1.
Proof.
  unfold _dim_check. cbv zeta.
  destruct (forallb _ entries) eqn:Hpos; [|discriminate].
  destruct (Nat.ltb_spec 0 (np.prod (np.atleast_1d s))) as [Hne|]; [|discriminate].
  destruct (Nat.eqb_spec (length (np.atleast_1d s)) 1) as [H1|]; [|discriminate].
  cbn [andb]. intros H. injection H as <- <-.
  repeat split; try assumption.
  apply Forall_forall. intros d Hd. apply list_elem_of_In in Hd.
  apply (proj1 (forallb_forall _ _) Hpos d) in Hd.
  apply andb_true_iff in Hd as [H0%Z.ltb_lt Hmax%Z.ltb_lt]. lia.
Qed.

Lemma dim_check_accepted (s : list nat) (entries : list Z) :
  length (np.atleast_1d s) = 1 -> 0 < np.prod (np.atleast_1d s) ->
  Forall (fun d => (0 < d < 2 ^ 63)%Z) entries ->
  _dim_check (dims_ints s entries)
  = Ok (entries, cumsum64 (0%Z :: entries)).
Proof.
  intros H1 Hne Hpos. unfold _dim_check. cbv zeta.
  assert (forallb (fun d => (0 <? d)%Z && (d <? 2 ^ 63)%Z) entries = true) as ->.
  { apply forallb_forall. intros d Hd%list_elem_of_In.
    pose proof (proj1 (Forall_forall _ _) Hpos d Hd) as Hd'.
    cbv beta in Hd'. apply andb_true_iff. split; apply Z.ltb_lt; lia. }
  assert ((0 <? np.prod (np.atleast_1d s)) = true) as ->
    by (apply Nat.ltb_lt, Hne).
  rewrite H1. reflexivity.
Qed.

(** X18: what the setter of [var_dims] accepts and what it leaves in
    [_input_cum].  A one-dimensional array that is not empty, of
    integers that are positive and fit 64 bits, is accepted: [_input_cum]
    gets one entry more than there are dimensions, entry [i] being the
    sum of the first [i] dimensions added in 64 bits, and [input_size]
    is the sum of all of them added in 64 bits.  If the sum of the
    dimensions fits 64 bits nothing wraps around: [_input_cum] begins
    with 0, grows from each entry to the next by the dimension between
    them, and ends with [input_size], the sum of the dimensions.  Any
    other array of integers is refused, with [_var_dims] and
    [_input_cum] left as they were. *)
Theorem dim_check_cumulative (self : Pipeline) (old : option (list Z))
    (s : list nat) (entries : list Z) :
  length entries = np.prod (np.atleast_1d s) ->
  let after := set_var_dims self old (Some (dims_ints s entries)) in
  let total := foldr Z.add 0%Z entries in
  (length (np.atleast_1d s) = 1 /\ entries <> [] /\
   Forall (fun d => (0 < d < 2 ^ 63)%Z) entries ->
   exists cum,
     after = (with_input_cum self (Some cum), Some entries, Ok tt) /\
     length cum = S (length entries) /\
     (forall i, i <= length entries ->
        cum !! i = Some (wrap64 (foldr Z.add 0%Z (take i entries)))) /\
     input_size (Some entries) = Some (wrap64 total) /\
     ((total < 2 ^ 63)%Z ->
      cum !! 0 = Some 0%Z /\
      (forall i d, entries !! i = Some d ->
         exists lo hi, cum !! i = Some lo /\ cum !! S i = Some hi /\
                       hi = (lo + d)%Z /\ (0 <= lo < hi)%Z) /\
      last cum = Some total /\
      input_size (Some entries) = Some total)) /\
  (~ (length (np.atleast_1d s) = 1 /\ entries <> [] /\
      Forall (fun d => (0 < d < 2 ^ 63)%Z) entries) ->
   exists msg, after = (self, old, Raise (ValueError msg))).
Proof.
  intros Hlen after total. split.
  - intros (H1 & Hne & Hpos).
    assert (0 < np.prod (np.atleast_1d s)) as Hprod.
    { rewrite <- Hlen. destruct entries; [contradiction | cbn; lia]. }
    exists (cumsum64 (0%Z :: entries)).
    subst after. unfold set_var_dims.
    rewrite (dim_check_accepted s entries H1 Hprod Hpos).
    split; [reflexivity|]. split; [apply cumsum64_length|].
    split; [intros i Hi; apply cumsum64_lookup, Hi|].
    split; [reflexivity|].
    intros Htotal.
    assert (Forall (fun d => (0 < d)%Z) entries) as Hpos'.
    { eapply Forall_impl; [exact Hpos|]. cbn. intros d Hd. lia. }
    assert (forall i, wrap64 (foldr Z.add 0%Z (take i entries))
                      = foldr Z.add 0%Z (take i entries)) as Hexact.
    { intros i. apply wrap64_id. unfold is_int64.
      pose proof (sum_take_bounds entries Hpos' i). fold total in H. lia. }
    split; [rewrite cumsum64_lookup by lia; reflexivity|]. split; [|split].
    + intros i d Hd. pose proof (lookup_lt_Some _ _ _ Hd) as Hi.
      exists (foldr Z.add 0%Z (take i entries)),
             (foldr Z.add 0%Z (take (S i) entries)).
      rewrite !cumsum64_lookup, !Hexact by lia.
      split; [reflexivity|]. split; [reflexivity|].
      rewrite (sum_take_S entries i d Hd).
      pose proof (sum_take_bounds entries Hpos' i).
      pose proof (proj1 (Forall_forall _ _) Hpos' d
                    (list_elem_of_lookup_2 _ _ _ Hd)) as Hd'.
      cbv beta in Hd'. lia.
    + rewrite cumsum64_last. f_equal. rewrite <- (firstn_all entries) at 1.
      rewrite Hexact, firstn_all. reflexivity.
    + cbn [input_size]. f_equal. apply wrap64_id. unfold is_int64.
      pose proof (sum_take_bounds entries Hpos' 0). fold total in H. lia.
  - intros Hnot. subst after. unfold set_var_dims.
    destruct (_dim_check (dims_ints s entries)) as [[dims cum]|e] eqn:Hcheck.
    + exfalso. apply Hnot.
      apply dim_check_accepts in Hcheck as (_ & _ & Hpos & Hprod & H1).
      repeat split; try assumption. intros ->. cbn in Hlen. lia.
    + unfold _dim_check in Hcheck. cbv zeta in Hcheck.
      destruct (_ && _) in Hcheck; [discriminate|].
      injection Hcheck as <-. eauto.
Qed.

Lemma dim_check_cumulative_witness :
  exists cum,
    set_var_dims (one_module (rename_stage "x" "y") "x") None
      (Some (dims_ints [2] [3%Z; 2%Z]))
    = (with_input_cum (one_module (rename_stage "x" "y") "x") (Some cum),
       Some [3%Z; 2%Z], Ok tt) /\
    cum !! 0 = Some 0%Z /\ last cum = Some 5%Z.
Proof.
  destruct (proj1 (dim_check_cumulative
                     (one_module (rename_stage "x" "y") "x") None
                     [2] [3%Z; 2%Z] eq_refl))
    as (cum & Hafter & _ & _ & _ & Hexact).
  - split; [reflexivity|]. split; [discriminate|].
    repeat constructor.
  - exists cum. split; [exact Hafter|].
    destruct (Hexact eq_refl) as (H0 & _ & Hlast & _).
    split; [exact H0 | exact Hlast].
Defined.

(** The dimensions [2^62] and [2^62] are accepted and their sum wraps
    around: [_input_cum] is [0, 2^62, -2^63] and [input_size] is
    [-2^63]. *)
Lemma cumulated_dimensions_wrap :
  _dim_check (dims_ints [2] [2 ^ 62; 2 ^ 62]%Z)
  = Ok ([2 ^ 62; 2 ^ 62]%Z, [0; 2 ^ 62; - 2 ^ 63]%Z) /\
  input_size (Some [2 ^ 62; 2 ^ 62]%Z) = Some (- 2 ^ 63)%Z.
Proof. split; vm_compute; reflexivity. Qed.

(** ** Scales and bounds *)

Lemma two_columns_length (l r : list R) :
  length l = length r -> length (two_columns l r) = length l * 2.
Proof.
  revert r. induction l as [|a l IH]; intros [|b r] H; try discriminate.
  - reflexivity.
  - cbn in H. injection H as H. unfold two_columns in *. cbn.
    rewrite (IH r H). reflexivity.
Qed.

Lemma two_columns_lookup (l r : list R) :
  forall i a b, l !! i = Some a -> r !! i = Some b ->
    two_columns l r !! (2 * i) = Some a /\
    two_columns l r !! (2 * i + 1) = Some b.
Proof.
  revert r. induction l as [|a' l IH]; intros [|b' r] i a b Ha Hb;
    try discriminate.
  destruct i as [|i].
  - cbn in Ha, Hb. injection Ha as <-. injection Hb as <-.
    split; reflexivity.
  - cbn in Ha, Hb. destruct (IH r i a b Ha Hb) as [H0 H1].
    replace (2 * S i) with (S (S (2 * i))) by lia.
    replace (S (S (2 * i)) + 1) with (S (S (2 * i + 1))) by lia.
    split; [exact H0 | exact H1].
Qed.

Lemma two_columns_Forall (P : R -> Prop) (l r : list R) :
  Forall P l -> Forall P r -> Forall P (two_columns l r).
Proof.
  intros Hl. revert r. induction Hl as [|a l Ha _ IH]; intros r Hr.
  - constructor.
  - destruct Hr as [|b r Hb Hr]; [constructor|].
    unfold two_columns in *. cbn. constructor; [exact Ha|].
    constructor; [exact Hb|]. apply IH, Hr.
Qed.

Lemma repeat_lookup (v : R) (n i : nat) :
  i < n -> repeat v n !! i = Some v.
Proof.
  revert i. induction n as [|n IH]; intros i Hi; [lia|].
  destruct i as [|i]; [reflexivity|]. cbn. apply IH. lia.
Qed.

Lemma scale_check_fixed (s : ndarray) (n : nat) :
  np.shape s = [n; 2] -> _scale_check (an_array s) = Ok s.
Proof.
  destruct s as [sh d]. cbn [np.shape]. intros ->. reflexivity.
Qed.

(** X19: what [_scale_check] makes of the scales it is given.  An
    array it returns has two columns, and it passes the check again
    unchanged; a vector (or a single number) of scales becomes the rows
    [(0, scale)], so that the lower ends are 0; an array of any other
    shape than [(n,)] or [(n, 2)] is refused with a [ValueError], and
    the setter then leaves [_var_scales] as it was. *)
Theorem scale_check_two_columns (self : PipelineBase) (a : ndarray) :
  np.wf a ->
  let after := set_var_scales self (Some (an_array a)) in
  match np.shape (np.ascontiguousarray a) with
  | [n] =>
      exists s, after = ({| _var_scales := Some s;
                            _hard_bounds := _hard_bounds self |}, Ok tt) /\
        np.shape s = [n; 2] /\ np.wf s /\
        (forall i v, np.data a !! i = Some v ->
           np.data s !! (2 * i) = Some 0%R /\
           np.data s !! (2 * i + 1) = Some v) /\
        _scale_check (an_array s) = Ok s
  | [n; 2] =>
      after = ({| _var_scales := Some a; _hard_bounds := _hard_bounds self |},
               Ok tt)
  | _ => after = (self, Raise (ValueError "Invalid value for var_scales."))
  end.
Proof.
  intros Hwf after. subst after. unfold set_var_scales, _scale_check.
  cbv zeta.
  assert (np.data (np.ascontiguousarray a) = np.data a) as Hdata.
  { unfold np.ascontiguousarray. destruct (np.shape a); reflexivity. }
  assert (length (np.data a) = np.size (np.ascontiguousarray a)) as Hsize.
  { unfold np.ascontiguousarray, np.size.
    destruct (np.shape a) eqn:Hs; cbn [np.shape]; rewrite Hwf;
      unfold np.size; rewrite Hs; reflexivity. }
  destruct (np.shape (np.ascontiguousarray a)) as [|n [|k [|? ?]]] eqn:Hs;
    cbn [np.shape]; rewrite ?Hs; try reflexivity.
  - assert (np.size (np.ascontiguousarray a) = n) as Hn.
    { unfold np.size. rewrite Hs. cbn. lia. }
    eexists. split; [reflexivity|]. split; [reflexivity|].
    unfold np.zeros_like. cbn [np.data]. rewrite Hdata, Hn.
    split.
    { unfold np.wf, np.size. cbn [np.data np.shape np.prod foldr].
      rewrite two_columns_length; rewrite repeat_length; lia. }
    split.
    { intros i v Hv. apply two_columns_lookup; [|exact Hv].
      apply lookup_lt_Some in Hv. rewrite Hsize, Hn in Hv.
      apply repeat_lookup; exact Hv. }
    apply (scale_check_fixed _ n). reflexivity.
  - destruct k as [|[|[|k]]]; try reflexivity.
    unfold np.ascontiguousarray in Hs |- *.
    destruct (np.shape a) eqn:Ha; [discriminate|]. reflexivity.
  - destruct k as [|[|[|k]]]; reflexivity.
Qed.

Lemma scale_check_two_columns_witness :
  exists s,
    set_var_scales {| _var_scales := None; _hard_bounds := inl false |}
      (Some (an_array (np.mk [2] [3%R; 5%R])))
    = ({| _var_scales := Some s; _hard_bounds := inl false |}, Ok tt) /\
    np.data s !! 2 = Some 0%R /\ np.data s !! 3 = Some 5%R.
Proof.
  destruct (scale_check_two_columns
              {| _var_scales := None; _hard_bounds := inl false |}
              (np.mk [2] [3%R; 5%R]) eq_refl)
    as (s & Hafter & _ & _ & Hrows & _).
  exists s. split; [exact Hafter|]. apply (Hrows 1 5%R). reflexivity.
Defined.

Lemma as_flag_flag (v : R) : as_flag v = 0%R \/ as_flag v = 1%R.
Proof. unfold as_flag. destruct (Req_dec_T v 0); auto. Qed.

Lemma as_flag_fixed (v : R) : v = 0%R \/ v = 1%R -> as_flag v = v.
Proof.
  unfold as_flag. intros [-> | ->]; destruct (Req_dec_T _ 0); lra.
Qed.

Lemma map_as_flag_fixed (l : list R) :
  Forall (fun v => v = 0%R \/ v = 1%R) l -> map as_flag l = l.
Proof.
  induction 1 as [|v l Hv _ IH]; [reflexivity|].
  cbn [map]. rewrite (as_flag_fixed v Hv), IH. reflexivity.
Qed.

Lemma flags_Forall (l : list R) :
  Forall (fun v => v = 0%R \/ v = 1%R) (map as_flag l).
Proof.
  induction l as [|v l IH]; constructor; [apply as_flag_flag | exact IH].
Qed.

(** X20: what [_bound_check] makes of the bounds it is given.  An
    array it returns has two columns and holds only 0 and 1, and it
    passes the check again unchanged; a vector of [n] entries gives [n]
    rows that hold, in both columns, 1 where the entry is not 0 and 0
    where it is. *)
Theorem bound_check_flags (a hb : ndarray) :
  _bound_check (an_array a) = Ok hb ->
  (exists n, np.shape hb = [n; 2]) /\
  Forall (fun v => v = 0%R \/ v = 1%R) (np.data hb) /\
  _bound_check (an_array hb) = Ok hb /\
  (forall n, np.atleast_1d (np.shape a) = [n] ->
     np.shape hb = [n; 2] /\
     forall i v, np.data a !! i = Some v ->
       np.data hb !! (2 * i) = Some (as_flag v) /\
       np.data hb !! (2 * i + 1) = Some (as_flag v)).
Proof.
  unfold _bound_check at 1. cbv zeta. cbn [np.shape np.data].
  assert (forall b n, np.shape b = [n; 2] ->
            Forall (fun v => v = 0%R \/ v = 1%R) (np.data b) ->
            _bound_check (an_array b) = Ok b) as Hfixed.
  { intros [sb db] n Hs Hd. cbn in Hs, Hd. subst sb.
    unfold _bound_check. cbv zeta. cbn [np.shape np.data np.atleast_1d].
    rewrite (map_as_flag_fixed db Hd). reflexivity. }
  destruct (np.atleast_1d (np.shape a)) as [|n [|k [|? ?]]] eqn:Hs;
    cbn [np.shape]; try discriminate.
  - intros H. injection H as <-. cbn [np.shape np.data].
    pose proof (two_columns_Forall _ _ _ (flags_Forall (np.data a))
                  (flags_Forall (np.data a))) as Hflags.
    split; [eauto|]. split; [exact Hflags|]. split.
    { apply (Hfixed _ n); [reflexivity | exact Hflags]. }
    intros n' Hn'. injection Hn' as <-. split; [reflexivity|].
    intros i v Hv. apply two_columns_lookup;
      rewrite list_lookup_fmap, Hv; reflexivity.
  - destruct k as [|[|[|k]]]; try discriminate.
    intros H. injection H as <-. cbn [np.shape np.data].
    split; [eauto|]. split; [apply flags_Forall|]. split.
    { apply (Hfixed _ n); [reflexivity | apply flags_Forall]. }
    intros n' Hn'. discriminate.
  - destruct k as [|[|[|k]]]; intros H; discriminate H.
Qed.

Lemma bound_check_flags_witness :
  exists hb,
    _bound_check (an_array (np.mk [2] [0%R; 7%R])) = Ok hb /\
    np.shape hb = [2; 2] /\
    np.data hb !! 2 = Some (as_flag 7) /\ np.data hb !! 3 = Some (as_flag 7).
Proof.
  exists (np.mk [2; 2]
            (two_columns (map as_flag [0%R; 7%R]) (map as_flag [0%R; 7%R]))).
  split; [reflexivity|].
  destruct (bound_check_flags (np.mk [2] [0%R; 7%R]) _ eq_refl)
    as (_ & _ & _ & Hvec).
  destruct (Hvec 2 eq_refl) as [Hshape Hrows].
  split; [exact Hshape|]. apply (Hrows 1 7%R). reflexivity.
Defined.

(** ** The input vector, cut into variables and joined again *)

Lemma slice_index_le (n : nat) (i : Z) : np.slice_index n i <= n.
Proof. unfold np.slice_index. destruct (Z.ltb_spec i 0); lia. Qed.

Lemma slice_index_nat (n k : nat) : np.slice_index n (Z.of_nat k) = Nat.min k n.
Proof.
  unfold np.slice_index. destruct (Z.ltb_spec (Z.of_nat k) 0); [lia|].
  rewrite Nat2Z.id. reflexivity.
Qed.

Lemma cut_clamped (x : ndarray) (n lo hi : nat) :
  np.shape x = [n] -> cut x (Nat.min lo n) (Nat.min hi n) = cut x lo hi.
Proof.
  intros Hs. unfold cut. rewrite Hs. cbv zeta. cbn [hd].
  rewrite <- !Nat.min_assoc, Nat.min_id. reflexivity.
Qed.

(** A slice of a vector: the entries between the two ends, each moved
    into the vector. *)
Lemma slice_vector (x : ndarray) (n : nat) (lo hi : Z) :
  np.shape x = [n] ->
  np.slice x lo hi = Ok (cut x (np.slice_index n lo) (np.slice_index n hi)).
Proof.
  intros Hs. unfold np.slice, cut. rewrite Hs. cbv zeta.
  cbn [hd np.prod foldr]. rewrite !Nat.mul_1_r.
  rewrite !(Nat.min_l _ n) by apply slice_index_le. reflexivity.
Qed.

(** Seeding a vector never raises when [_input_cum] has an entry more
    than there are names: every name gets the slice between two
    consecutive entries. *)
Lemma seed_values_slices (x : ndarray) (n : nat) (cum : list Z) :
  np.shape x = [n] ->
  forall (names : list string) (i : nat) (m : gmap string ndarray),
    NoDup names -> i + length names < length cum ->
    exists m', seed_values names cum i x m = Ok m' /\
      (forall k name, names !! k = Some name ->
         exists lo hi,
           cum !! (i + k) = Some lo /\ cum !! S (i + k) = Some hi /\
           m' !! name
           = Some (cut x (np.slice_index n lo) (np.slice_index n hi))) /\
      (forall name, name ∉ names -> m' !! name = m !! name).
Proof.
  intros Hs names. induction names as [|name names IH]; intros i m Hnd Hlen.
  - exists m. cbn. split; [reflexivity|].
    split; [intros k ? H; discriminate H | auto].
  - apply NoDup_cons in Hnd as [Hfresh Hnd]. cbn [length] in Hlen.
    cbn [seed_values].
    destruct (lookup_lt_is_Some_2 cum i ltac:(lia)) as [lo Hlo].
    destruct (lookup_lt_is_Some_2 cum (S i) ltac:(lia)) as [hi Hhi].
    rewrite Hlo, Hhi, (slice_vector x n lo hi Hs). cbn [mbind res_bind].
    destruct (IH (S i)
                (<[name := cut x (np.slice_index n lo) (np.slice_index n hi)]> m)
                Hnd ltac:(lia)) as (m' & Hrun & Hin & Hout).
    exists m'. split; [exact Hrun|]. split.
    + intros [|k] name' Hk.
      * cbn in Hk. injection Hk as <-. exists lo, hi.
        rewrite Nat.add_0_r. split; [exact Hlo|]. split; [exact Hhi|].
        rewrite (Hout name Hfresh). apply lookup_insert_eq.
      * cbn in Hk. destruct (Hin k name' Hk) as (lo' & hi' & H1 & H2 & H3).
        exists lo', hi'. replace (i + S k) with (S i + k) by lia. auto.
    + intros name' Hname'. apply not_elem_of_cons in Hname' as [Hne Hrest].
      rewrite (Hout name' Hrest). apply lookup_insert_ne. congruence.
Qed.

Lemma comprehension_lookups {A B : Type} (f : A -> res B) :
  forall (xs : list A) (ys : list B),
    length xs = length ys ->
    (forall k a, xs !! k = Some a ->
       exists b, ys !! k = Some b /\ f a = Ok b) ->
    comprehension f xs = Ok ys.
Proof.
  induction xs as [|a xs IH]; intros [|b ys] Hlen Hall; try discriminate.
  - reflexivity.
  - cbn [comprehension].
    destruct (Hall 0 a eq_refl) as (b' & Hb' & Hfa). injection Hb' as <-.
    rewrite Hfa. cbn [mbind res_bind].
    rewrite (IH ys); [reflexivity | cbn in Hlen; lia |].
    intros k a' Hk. apply (Hall (S k) a' Hk).
Qed.

Lemma pieces_from_length (x : ndarray) (l : list nat) :
  forall off, length (pieces_from off l x) = length l.
Proof. induction l as [|d l IH]; intros off; cbn; [|rewrite IH]; reflexivity. Qed.

Lemma pieces_from_lookup (x : ndarray) (l : list nat) :
  forall off k d, l !! k = Some d ->
    pieces_from off l x !! k
    = Some (cut x (off + list_sum (take k l)) (off + list_sum (take (S k) l))).
Proof.
  induction l as [|d' l IH]; intros off k d Hk; [discriminate|].
  destruct k as [|k].
  - cbn [pieces_from lookup list_lookup].
    change (list_sum (take 0 (d' :: l))) with 0.
    change (list_sum (take 1 (d' :: l))) with (d' + 0).
    rewrite !Nat.add_0_r. reflexivity.
  - cbn in Hk. cbn [pieces_from lookup list_lookup].
    change ((pieces_from (off + d') l x) !! k
            = Some (cut x (off + (d' + list_sum (take k l)))
                          (off + (d' + list_sum (take (S k) l))))).
    rewrite (IH (off + d') k d Hk), !Nat.add_assoc. reflexivity.
Qed.

Lemma take_add_drop {A : Type} (L : list A) :
  forall a b, take (a + b) L = take a L ++ take b (drop a L).
Proof.
  induction L as [|v L IH]; intros [|a] b; cbn; try reflexivity.
  - destruct b; reflexivity.
  - rewrite IH. reflexivity.
Qed.

Lemma pieces_from_data (x : ndarray) (n : nat) (l : list nat) :
  np.shape x = [n] ->
  forall off, off + list_sum l <= n ->
    flat_map np.data (pieces_from off l x)
    = take (list_sum l) (drop off (np.data x)) /\
    list_sum (map (fun b => hd 0 (np.shape b)) (pieces_from off l x))
    = list_sum l /\
    Forall (fun b => exists k, np.shape b = [k]) (pieces_from off l x).
Proof.
  intros Hs. induction l as [|d l IH]; intros off Hoff.
  - cbn. split; [|split]; [reflexivity | reflexivity | constructor].
  - change (list_sum (d :: l)) with (d + list_sum l) in Hoff |- *.
    destruct (IH (off + d) ltac:(lia)) as (Hdata & Hhd & Hall).
    cbn [pieces_from flat_map map].
    unfold cut. rewrite Hs. cbv zeta. cbn [hd np.data np.shape].
    rewrite (Nat.min_l (off + d) n), (Nat.min_l off n) by lia.
    replace (off + d - off) with d by lia.
    split; [|split].
    + rewrite Hdata, take_add_drop, drop_drop. reflexivity.
    + change (list_sum (d :: ?t)) with (d + list_sum t). rewrite Hhd.
      reflexivity.
    + constructor; [eauto | exact Hall].
Qed.

Lemma concatenate_vectors (arrays : list ndarray) :
  arrays <> [] ->
  Forall (fun b => exists k, np.shape b = [k]) arrays ->
  np.concatenate arrays
  = Ok (np.mk [list_sum (map (fun b => hd 0 (np.shape b)) arrays)]
              (flat_map np.data arrays)).
Proof.
  destruct arrays as [|a rest]; [contradiction|]. intros _ Hall.
  apply Forall_cons in Hall as [[k Ha] Hrest].
  unfold np.concatenate. rewrite Ha.
  destruct (forallb _ rest) eqn:Hf; [reflexivity|].
  apply not_true_iff_false in Hf. exfalso. apply Hf.
  apply forallb_forall. intros b Hb%list_elem_of_In.
  destruct (proj1 (Forall_forall _ _) Hrest b Hb) as [k' ->].
  apply bool_decide_eq_true_2. reflexivity.
Qed.

Lemma list_sum_take_le (l : list nat) :
  forall k, list_sum (take k l) <= list_sum l.
Proof.
  induction l as [|d l IH]; intros [|k]; cbn [take];
    change (list_sum []) with 0;
    try change (list_sum (d :: ?t)) with (d + list_sum t); try lia.
  specialize (IH k). lia.
Qed.

Lemma set_var_dims_accepted (self0 self : Pipeline) (old : option (list Z))
    (s : list nat) (dims : list Z) :
  set_var_dims self0 old (Some (dims_ints s dims)) = (self, Some dims, Ok tt) ->
  _input_cum self = Some (cumsum64 (0%Z :: dims)) /\
  _input_vars self = _input_vars self0 /\
  Forall (fun d => (0 < d)%Z) dims /\
  0 < np.prod (np.atleast_1d s).
Proof.
  unfold set_var_dims.
  destruct (_dim_check (dims_ints s dims)) as [[dims' cum]|e] eqn:Hcheck;
    [|discriminate].
  intros H. injection H as <- _.
  apply dim_check_accepts in Hcheck as (_ & -> & Hpos & Hprod & _).
  repeat split; try assumption.
  eapply Forall_impl; [exact Hpos|]. cbn. intros d Hd. lia.
Qed.

(** Seeding with the cumulated dimensions, whatever they are. *)
Lemma seed_slices (self : Pipeline) (dims : list Z) (x : ndarray) (n : nat) :
  _input_cum self = Some (cumsum64 (0%Z :: dims)) ->
  NoDup (_input_vars self) -> length (_input_vars self) <= length dims ->
  np.shape x = [n] ->
  exists m, seed self x ∅ = Ok m /\
    dom m = list_to_set (_input_vars self) /\
    forall k name, _input_vars self !! k = Some name ->
      exists lo hi,
        cumsum64 (0%Z :: dims) !! k = Some lo /\
        cumsum64 (0%Z :: dims) !! S k = Some hi /\
        m !! name = Some (cut x (np.slice_index n lo) (np.slice_index n hi)).
Proof.
  intros Hcum Hnd Hlen Hs. unfold seed. rewrite Hcum.
  destruct (seed_values_slices x n (cumsum64 (0%Z :: dims)) Hs
              (_input_vars self) 0 ∅ Hnd) as (m & Hrun & Hin & _).
  { rewrite cumsum64_length. lia. }
  exists m. split; [exact Hrun|]. split; [|exact Hin].
  rewrite (seed_values_dom _ _ _ _ _ _ Hrun), dom_empty_L.
  apply union_empty_l_L.
Qed.

Lemma sum_take_nat (dims : list Z) (k : nat) :
  Forall (fun d => (0 < d)%Z) dims ->
  foldr Z.add 0%Z (take k dims)
  = Z.of_nat (list_sum (take k (map Z.to_nat dims))).
Proof.
  intros Hpos. rewrite firstn_map. symmetry. apply list_sum_to_nat.
  apply Forall_take, Hpos.
Qed.

(** Seeding with cumulated dimensions that did not wrap around: the
    consecutive pieces of the vector. *)
Lemma seed_cut (self : Pipeline) (dims : list Z) (x : ndarray) (n : nat) :
  _input_cum self = Some (cumsum64 (0%Z :: dims)) ->
  Forall (fun d => (0 < d)%Z) dims ->
  (foldr Z.add 0 dims < 2 ^ 63)%Z ->
  NoDup (_input_vars self) -> length (_input_vars self) <= length dims ->
  np.shape x = [n] ->
  exists m, seed self x ∅ = Ok m /\
    dom m = list_to_set (_input_vars self) /\
    forall k name, _input_vars self !! k = Some name ->
      m !! name = pieces_from 0 (map Z.to_nat dims) x !! k.
Proof.
  intros Hcum Hpos Htotal Hnd Hlen Hs.
  destruct (seed_slices self dims x n Hcum Hnd Hlen Hs) as (m & Hrun & Hdom & Hin).
  exists m. split; [exact Hrun|]. split; [exact Hdom|].
  intros k name Hname. pose proof (lookup_lt_Some _ _ _ Hname) as Hk.
  destruct (Hin k name Hname) as (lo & hi & Hlo & Hhi & ->).
  assert (forall i, i <= length dims ->
            cumsum64 (0%Z :: dims) !! i
            = Some (Z.of_nat (list_sum (take i (map Z.to_nat dims))))) as Hexact.
  { intros i Hi. rewrite cumsum64_lookup by exact Hi. f_equal.
    rewrite wrap64_id; [apply sum_take_nat, Hpos|].
    pose proof (sum_take_bounds dims Hpos i). unfold is_int64. lia. }
  rewrite Hexact in Hlo, Hhi by lia. injection Hlo as <-. injection Hhi as <-.
  rewrite !slice_index_nat, (cut_clamped x n _ _ Hs).
  destruct (lookup_lt_is_Some_2 (map Z.to_nat dims) k) as [d Hd];
    [rewrite length_map; lia|].
  rewrite (pieces_from_lookup x _ 0 k d Hd). reflexivity.
Qed.

(** X21: the input vector is cut into the input variables and joined
    again.  With the dimensions that [var_dims] accepted, whose sum
    fits 64 bits, as many input names as dimensions, no name twice, and
    a vector [x] of as many entries as the dimensions add up to, which
    is then [input_size], the store that [fun] begins with holds under
    every input name a vector of the dimension of that name, and
    [_fit_var] over the input names, on any store that still holds
    these variables, gives the row [x] back. *)
Theorem input_cut_and_joined (self0 self : Pipeline) (old : option (list Z))
    (s : list nat) (dims : list Z) (x : ndarray) (n : nat) :
  set_var_dims self0 old (Some (dims_ints s dims)) = (self, Some dims, Ok tt) ->
  length dims = np.prod (np.atleast_1d s) ->
  NoDup (_input_vars self) ->
  length (_input_vars self) = length dims ->
  np.shape x = [n] -> np.wf x ->
  foldr Z.add 0%Z dims = Z.of_nat n -> (Z.of_nat n < 2 ^ 63)%Z ->
  input_size (Some dims) = Some (Z.of_nat n) /\
  exists m, seed self x ∅ = Ok m /\
    dom m = list_to_set (_input_vars self) /\
    (forall i name d,
       _input_vars self !! i = Some name -> dims !! i = Some d ->
       exists v, m !! name = Some v /\ np.shape v = [Z.to_nat d]) /\
    forall vd,
      (forall name, name ∈ _input_vars self -> _fun vd !! name = m !! name) ->
      _fit_var [vd] (_input_vars self)
      = Ok (of_floats (np.mk [1; n] (np.data x))).
Proof.
  intros Hset Hfill Hnd Hlen Hs Hwf Hsum Hfits.
  pose proof Hset as Hacc.
  apply set_var_dims_accepted in Hacc as (Hcum & _ & Hpos & Hprod).
  split.
  { cbn [input_size]. f_equal. rewrite Hsum. apply wrap64_id.
    unfold is_int64. lia. }
  set (l := map Z.to_nat dims) in *.
  assert (Hl : length l = length dims) by apply length_map.
  assert (Hn : list_sum l = n).
  { rewrite <- (list_sum_to_nat dims Hpos) in Hsum. fold l in Hsum. lia. }
  assert (Hdata : length (np.data x) = n).
  { rewrite Hwf. unfold np.size. rewrite Hs. cbn. lia. }
  destruct (seed_cut self dims x n Hcum Hpos ltac:(lia) Hnd ltac:(lia) Hs)
    as (m & Hrun & Hdom & Hin).
  fold l in Hin.
  exists m. split; [exact Hrun|]. split; [exact Hdom|]. split.
  - intros i name d Hname Hd.
    assert (l !! i = Some (Z.to_nat d)) as Hli.
    { unfold l. rewrite list_lookup_fmap, Hd. reflexivity. }
    rewrite (Hin i name Hname), (pieces_from_lookup x l 0 i _ Hli).
    eexists. split; [reflexivity|]. unfold cut. rewrite Hs. cbv zeta.
    cbn [hd np.shape]. f_equal.
    pose proof (list_sum_take_le l (S i)) as Hle.
    rewrite (take_S_r _ _ _ Hli), list_sum_app in Hle |- *.
    change (list_sum [Z.to_nat d]) with (Z.to_nat d + 0) in Hle |- *. lia.
  - intros vd Hvd. unfold _fit_var. cbn [comprehension].
    rewrite (comprehension_lookups _ (_input_vars self) (pieces_from 0 l x)).
    + cbn [mbind res_bind].
      destruct (pieces_from_data x n l Hs 0 ltac:(lia)) as (Hd & Hhd & Hall).
      rewrite concatenate_vectors; [|
        intros Hnil; apply (f_equal length) in Hnil;
        rewrite pieces_from_length in Hnil; cbn [length] in Hnil; lia
        | exact Hall].
      cbn [mbind res_bind]. rewrite Hhd, Hd, Hn. unfold array_of_rows.
      cbn [forallb np.shape length flat_map np.data].
      rewrite bool_decide_eq_true_2 by reflexivity. cbn [andb].
      rewrite app_nil_r, drop_0, take_ge by lia. reflexivity.
    + rewrite pieces_from_length. lia.
    + intros k name Hname.
      assert (is_Some (pieces_from 0 l x !! k)) as [b Hb].
      { apply lookup_lt_is_Some. rewrite pieces_from_length.
        apply lookup_lt_Some in Hname. lia. }
      exists b. split; [exact Hb|].
      rewrite (Hvd name (list_elem_of_lookup_2 _ _ _ Hname)).
      rewrite (Hin k name Hname), Hb. reflexivity.
Qed.

Lemma input_cut_and_joined_witness :
  exists m,
    seed (with_input_cum (one_module (rename_stage "x" "y") "x")
            (Some (cumsum64 [0; 2]%Z)))
         (np.mk [2] [7%R; 9%R]) ∅ = Ok m /\
    _fit_var [{| _fun := m; _jac := ∅ |}] ["x"]
    = Ok (of_floats (np.mk [1; 2] [7%R; 9%R])).
Proof.
  destruct (input_cut_and_joined
              (one_module (rename_stage "x" "y") "x")
              (with_input_cum (one_module (rename_stage "x" "y") "x")
                 (Some (cumsum64 [0; 2]%Z)))
              None [1] [2%Z] (np.mk [2] [7%R; 9%R]) 2
              eq_refl eq_refl (NoDup_singleton "x") eq_refl eq_refl eq_refl
              eq_refl eq_refl)
    as (_ & m & Hseed & _ & _ & Hfit).
  exists m. split; [exact Hseed|].
  apply (Hfit {| _fun := m; _jac := ∅ |}). reflexivity.
Defined.

(** *** Samples of different lengths

    [np.array] stacks rows of one shape; rows whose first axes differ in
    length become the cells of an array of objects, on which the scales
    of a surrogate work cell by cell; rows that differ only after the
    first axis are refused.  [fit] with [use_decay] is not followed on
    an array of objects. *)

Lemma fit_var_of_objects :
  _fit_var [store_of "x" (np.mk [1] [1%R]) (np.eye 1);
            store_of "x" (np.mk [2] [2%R; 3%R]) (np.eye 2)] ["x"]
  = Ok (of_objects [2] [np.mk [1] [1%R]; np.mk [2] [2%R; 3%R]]).
Proof. reflexivity. Qed.

Lemma fit_var_refused :
  _fit_var [store_of "x" (np.mk [2; 1] [1%R; 2%R]) (np.eye 1);
            store_of "x" (np.mk [2; 2] [1%R; 2%R; 3%R; 4%R]) (np.eye 2)] ["x"]
  = Raise (ValueError "could not broadcast input array").
Proof. reflexivity. Qed.

Lemma scales_of_objects :
  stacked_binop Rminus
    (of_objects [2] [np.mk [1] [1%R]; np.mk [2] [2%R; 3%R]])
    (np.mk [2] [10%R; 20%R])
  = Ok (of_objects [2] [np.mk [1] [(1 - 10)%R];
                        np.mk [2] [(2 - 20)%R; (3 - 20)%R]]).
Proof. reflexivity. Qed.

Lemma fit_of_objects (L : library) (K : constraint_kernels)
    (kw : decay_keywords) :
  fit L K [a_VariableDict (store_of "__var__" (np.mk [1] [1%R]) (np.eye 1));
           a_VariableDict (store_of "__var__" (np.mk [2] [2%R; 3%R]) (np.eye 2))]
    true (Some kw) true plain_density
  = None.
Proof. reflexivity. Qed.

(** X22: the length of the input vector is not checked.  With the
    dimensions that [var_dims] accepted and no input name twice, a
    vector of any length seeds the store without an exception: the
    variable of an input name is the slice of the vector between two
    consecutive entries of [_input_cum], with each end moved into the
    vector as slicing does; for ends that are not negative, where the
    vector is too short the slice ends with the vector, so that the
    variable is shorter than its dimension or empty. *)
Theorem input_length_is_not_checked (self0 self : Pipeline)
    (old : option (list Z)) (s : list nat) (dims : list Z) (x : ndarray)
    (n : nat) :
  set_var_dims self0 old (Some (dims_ints s dims)) = (self, Some dims, Ok tt) ->
  NoDup (_input_vars self) ->
  length (_input_vars self) <= length dims ->
  np.shape x = [n] ->
  exists cum m,
    _input_cum self = Some cum /\ seed self x ∅ = Ok m /\
    dom m = list_to_set (_input_vars self) /\
    forall i name, _input_vars self !! i = Some name ->
      exists lo hi v,
        cum !! i = Some lo /\ cum !! S i = Some hi /\
        np.slice x lo hi = Ok v /\ m !! name = Some v /\
        np.shape v = [np.slice_index n hi - np.slice_index n lo] /\
        ((0 <= lo)%Z -> (0 <= hi)%Z ->
         np.shape v = [Nat.min (Z.to_nat hi) n - Nat.min (Z.to_nat lo) n]).
Proof.
  intros Hset Hnd Hlen Hs.
  apply set_var_dims_accepted in Hset as (Hcum & _ & _ & _).
  destruct (seed_slices self dims x n Hcum Hnd Hlen Hs) as (m & Hrun & Hdom & Hin).
  exists (cumsum64 (0%Z :: dims)), m.
  split; [exact Hcum|]. split; [exact Hrun|]. split; [exact Hdom|].
  intros i name Hname.
  destruct (Hin i name Hname) as (lo & hi & Hlo & Hhi & Hv).
  exists lo, hi, (cut x (np.slice_index n lo) (np.slice_index n hi)).
  split; [exact Hlo|]. split; [exact Hhi|].
  split; [apply (slice_vector x n), Hs|]. split; [exact Hv|].
  assert (np.shape (cut x (np.slice_index n lo) (np.slice_index n hi))
          = [np.slice_index n hi - np.slice_index n lo]) as Hshape.
  { unfold cut. rewrite Hs. cbv zeta. cbn [hd np.shape].
    rewrite !(Nat.min_l _ n) by apply slice_index_le. reflexivity. }
  split; [exact Hshape|].
  intros H0 H1. rewrite Hshape. unfold np.slice_index.
  destruct (Z.ltb_spec lo 0); [lia|]. destruct (Z.ltb_spec hi 0); [lia|].
  reflexivity.
Qed.

Lemma input_length_is_not_checked_witness :
  exists m v,
    seed (with_input_cum (one_module (rename_stage "x" "y") "x")
            (Some (cumsum64 [0; 3; 2]%Z)))
         (np.mk [1] [7%R]) ∅ = Ok m /\
    m !! "x" = Some v /\ np.shape v = [1].
Proof.
  destruct (input_length_is_not_checked
              (one_module (rename_stage "x" "y") "x")
              (with_input_cum (one_module (rename_stage "x" "y") "x")
                 (Some (cumsum64 [0; 3; 2]%Z)))
              None [2] [3%Z; 2%Z] (np.mk [1] [7%R]) 1
              eq_refl (NoDup_singleton "x") (le_S 1 1 (le_n 1)) eq_refl)
    as (cum & m & Hcum & Hseed & _ & Hvars).
  destruct (Hvars 0 "x" eq_refl)
    as (lo & hi & v & Hlo & Hhi & _ & Hv & _ & Hshape).
  exists m, v. split; [exact Hseed|]. split; [exact Hv|].
  cbn [_input_cum with_input_cum] in Hcum. injection Hcum as <-.
  vm_compute in Hlo, Hhi. injection Hlo as <-. injection Hhi as <-.
  apply (Hshape (Z.le_refl 0) (Zle_bool_imp_le 0 3 eq_refl)).
Defined.

(** ** Where a surrogate is used *)

Lemma step_fun_chosen (self : Pipeline) (us : bool) (si : nat) (i : Z)
    (vd : VariableDict) :
  step_fun self us si i vd = chosen_step self stage_fun us si i vd.
Proof.
  unfold step_fun, chosen_step, stage_fun, mbind, Run_bind, lift.
  destruct (select_stage self us si i) as [[[[m di] us'] si']|e];
    [|reflexivity].
  destruct (collect get_fun (Mod._input_vars m) vd) as [[vd1 [inp|e]]|];
    try reflexivity.
  destruct (Mod.fun_ m inp) as [out|e]; [|reflexivity].
  destruct (bind_outputs_fun m out vd1) as [[vd2 [[]|e]]|]; try reflexivity.
  destruct (copy_vars_fun m vd2) as [[vd3 [[]|e]]|]; reflexivity.
Qed.

Lemma step_jac_chosen (self : Pipeline) (us : bool) (si : nat) (i : Z)
    (vd : VariableDict) :
  step_jac self us si i vd = chosen_step self stage_jac us si i vd.
Proof.
  unfold step_jac, chosen_step, stage_jac, mbind, Run_bind, lift.
  destruct (select_stage self us si i) as [[[[m di] us'] si']|e];
    [|reflexivity].
  destruct (collect get_fun (Mod._input_vars m) vd) as [[vd1 [inp|e]]|];
    try reflexivity.
  destruct (collect get_jac (Mod._input_vars m) vd1) as [[vd1' [jacs|e]]|];
    try reflexivity.
  destruct (np.concatenate jacs) as [ij|e]; [|reflexivity].
  destruct (Mod.fun_and_jac m inp) as [[out outj]|e]; [|reflexivity].
  destruct (bind_outputs_jac m out outj ij vd1') as [[vd2 [[]|e]]|];
    try reflexivity.
  destruct (copy_vars_jac m vd2) as [[vd3 [[]|e]]|]; reflexivity.
Qed.

Lemma while_steps_ext (step step' : bool -> nat -> Z -> Run (stride * bool * nat))
    (failed : Z -> string) (stop : Z) :
  (forall us si i vd, step us si i vd = step' us si i vd) ->
  forall (f : nat) (us : bool) (si : nat) (i : Z) (vd : VariableDict),
    while_steps step failed f stop us si i vd
    = while_steps step' failed f stop us si i vd.
Proof.
  intros Hstep. induction f as [|f IH]; intros us si i vd.
  - cbn. destruct (i <=? stop)%Z; reflexivity.
  - rewrite !while_steps_unfold. destruct (i <=? stop)%Z; [|reflexivity].
    unfold mbind, Run_bind, try_except. rewrite Hstep.
    destruct (step' us si i vd) as [[vd1 [[[di us'] si']|e]]|];
      try reflexivity.
    apply IH.
Qed.

Lemma Run_bind_cong {A B : Type} (m m' : Run A) (k : A -> Run B)
    (vd : VariableDict) :
  m vd = m' vd -> (m ≫= k) vd = (m' ≫= k) vd.
Proof. intros H. unfold mbind, Run_bind. rewrite H. reflexivity. Qed.

Section chosen_steps.
Context (self : Pipeline) (body : Mod.t -> Run unit) (failed : Z -> string).

Lemma chosen_step_selects (us : bool) (si : nat) (i : Z)
    (vd vd' : VariableDict) (di : stride) (us' : bool) (si' : nat) :
  chosen_step self body us si i vd = Some (vd', Ok (di, us', si')) ->
  exists _module, select_stage self us si i = Ok (_module, di, us', si').
Proof.
  unfold chosen_step, mbind, Run_bind, lift.
  destruct (select_stage self us si i) as [[[[m di0] us0] si0]|e];
    [|discriminate].
  destruct (body m vd) as [[vd1 [[]|e]]|]; try discriminate.
  intros H. injection H as _ <- <- <-. eauto.
Qed.

Lemma loop_selected (f : nat) (stop : Z) (us : bool) (si : nat) (i : Z)
    (vd : VariableDict) (m : Mod.t) (di : stride) (us' : bool) (si' : nat) :
  (i <= stop)%Z ->
  select_stage self us si i = Ok (m, di, us', si') ->
  while_steps (chosen_step self body) failed (S f) stop us si i vd
  = (_ ← try_except (body m) (failed i);
     while_steps (chosen_step self body) failed f stop us' si' (add_stride i di)) vd.
Proof.
  intros Hi Hsel. rewrite while_steps_unfold.
  assert ((i <=? stop)%Z = true) as -> by (apply Z.leb_le; lia).
  unfold mbind, Run_bind, try_except, chosen_step, lift. rewrite Hsel.
  unfold mbind, Run_bind.
  destruct (body m vd) as [[vd1 [[]|e]]|]; reflexivity.
Qed.

Lemma loop_unselected (f : nat) (stop : Z) (us : bool) (si : nat) (i : Z)
    (vd : VariableDict) (e : exn) :
  (i <= stop)%Z ->
  select_stage self us si i = Raise e ->
  while_steps (chosen_step self body) failed (S f) stop us si i vd
  = Some (vd, Raise (RuntimeError (failed i))).
Proof.
  intros Hi Hsel. rewrite while_steps_unfold.
  assert ((i <=? stop)%Z = true) as -> by (apply Z.leb_le; lia).
  unfold mbind, Run_bind, try_except, chosen_step, lift. rewrite Hsel.
  reflexivity.
Qed.

Lemma loop_done (f : nat) (stop : Z) (us : bool) (si : nat) (i : Z)
    (vd : VariableDict) :
  (stop < i)%Z ->
  while_steps (chosen_step self body) failed f stop us si i vd
  = Some (vd, Ok tt).
Proof.
  intros Hi. destruct f; cbn [while_steps];
    (assert ((i <=? stop)%Z = false) as -> by (apply Z.leb_gt; lia));
    reflexivity.
Qed.

Lemma select_stage_unused (si : nat) (i : Z) :
  select_stage self false si i
  = (m ← py_index (_module_list self) i; Ok (m, py_int 1, false, si)).
Proof. reflexivity. Qed.

(** Without surrogates in use the position in the recipe is not read. *)
Lemma loop_unused (stop : Z) (si si' : nat) :
  forall (f : nat) (i : Z) (vd : VariableDict),
    while_steps (chosen_step self body) failed f stop false si i vd
    = while_steps (chosen_step self body) failed f stop false si' i vd.
Proof.
  induction f as [|f IH]; intros i vd.
  - cbn. destruct (i <=? stop)%Z; reflexivity.
  - destruct (Z.leb_spec i stop) as [Hi|Hi]; [|rewrite !loop_done by lia; reflexivity].
    destruct (py_index (_module_list self) i) as [m|e] eqn:Hm.
    + rewrite (loop_selected f stop false si i vd m (py_int 1) false si Hi),
        (loop_selected f stop false si' i vd m (py_int 1) false si' Hi);
        try (rewrite select_stage_unused, Hm; reflexivity).
      apply Run_bind_ext. intros _ vd1. apply IH.
    + rewrite (loop_unselected f stop false si i vd e Hi),
        (loop_unselected f stop false si' i vd e Hi);
        try (rewrite select_stage_unused, Hm; reflexivity).
      reflexivity.
Qed.

Context (su : Surrogate) (a e : Z).
Hypothesis one_surrogate : _surrogate_list self = [su].
Hypothesis its_row :
  _surrogate_recipe self = [{| r_index := 0; r_start := a; r_extent := e |}].

Lemma select_stage_before (i : Z) :
  (i < a)%Z ->
  select_stage self true 0 i
  = (m ← py_index (_module_list self) i; Ok (m, py_int 1, true, 0)).
Proof using one_surrogate its_row.
  intros Hi. unfold select_stage, has_surrogate, n_surrogate.
  rewrite one_surrogate, its_row. cbn [length Nat.ltb Nat.leb andb lookup list_lookup].
  cbn [mbind res_bind r_start].
  assert ((i <? a)%Z = true) as -> by (apply Z.ltb_lt; lia). reflexivity.
Qed.

Lemma select_stage_at :
  select_stage self true 0 a = Ok (stage su, np_int64 e, false, 0).
Proof using one_surrogate its_row.
  unfold select_stage, has_surrogate, n_surrogate.
  rewrite one_surrogate, its_row. cbn [length Nat.ltb Nat.leb andb lookup list_lookup].
  cbn [mbind res_bind r_start r_index r_extent].
  rewrite Z.ltb_irrefl, Z.eqb_refl. reflexivity.
Qed.

(** Before the scope of the surrogate the steps are those of the
    modules. *)
Lemma loop_before (stop : Z) :
  (stop < a)%Z ->
  forall (f : nat) (i : Z) (vd : VariableDict),
    while_steps (chosen_step self body) failed f stop true 0 i vd
    = while_steps (chosen_step self body) failed f stop false 0 i vd.
Proof using one_surrogate its_row.
  intros Hstop. induction f as [|f IH]; intros i vd.
  - cbn. destruct (i <=? stop)%Z; reflexivity.
  - destruct (Z.leb_spec i stop) as [Hi|Hi]; [|rewrite !loop_done by lia; reflexivity].
    destruct (py_index (_module_list self) i) as [m|e'] eqn:Hm.
    + rewrite (loop_selected f stop true 0 i vd m (py_int 1) true 0 Hi)
        by (rewrite select_stage_before, Hm by lia; reflexivity).
      rewrite (loop_selected f stop false 0 i vd m (py_int 1) false 0 Hi)
        by (rewrite select_stage_unused, Hm; reflexivity).
      apply Run_bind_ext. intros _ vd1. apply IH.
    + rewrite (loop_unselected f stop true 0 i vd e' Hi)
        by (rewrite select_stage_before, Hm by lia; reflexivity).
      rewrite (loop_unselected f stop false 0 i vd e' Hi)
        by (rewrite select_stage_unused, Hm; reflexivity).
      reflexivity.
Qed.

(** Through the scope: the modules before it, the surrogate once, and
    the modules from the end of the scope on. *)
Lemma loop_through (stop : Z) (f2 : nat) :
  (a <= stop)%Z ->
  steps_left self false 0 (wrap64 (a + e)) <= f2 ->
  forall (f f1 : nat) (i : Z) (vd : VariableDict),
    (i <= a)%Z ->
    steps_left self true 0 i <= f ->
    steps_left self false 0 i <= f1 ->
    while_steps (chosen_step self body) failed f stop true 0 i vd
    = (_ ← while_steps (chosen_step self body) failed f1 (a - 1) false 0 i;
       _ ← try_except (body (stage su)) (failed a);
       while_steps (chosen_step self body) failed f2 stop false 0
         (wrap64 (a + e))) vd.
Proof using one_surrogate its_row.
  intros Hstop Hf2. induction f as [|f IH]; intros f1 i vd Hi Hf Hf1.
  - unfold steps_left in Hf. lia.
  - destruct (Z.eq_dec i a) as [->|Hne].
    + rewrite (loop_selected f stop true 0 a vd _ _ _ _ Hstop select_stage_at).
      rewrite (bind_Ok (while_steps (chosen_step self body) failed f1 (a - 1)
                          false 0 a) _ vd vd tt) by (apply loop_done; lia).
      apply Run_bind_ext. intros _ vd1.
      apply (while_steps_fuel self); [apply chosen_step_selects| |exact Hf2].
      pose proof (select_stage_decreases _ _ _ _ _ _ _ _ select_stage_at) as Hdec.
      cbn [add_stride] in Hdec. lia.
    + destruct f1 as [|f1]; [unfold steps_left in Hf1; lia|].
      destruct (py_index (_module_list self) i) as [m|e'] eqn:Hm.
      * assert (select_stage self true 0 i = Ok (m, py_int 1, true, 0)) as Hsel
          by (rewrite select_stage_before, Hm by lia; reflexivity).
        assert (select_stage self false 0 i = Ok (m, py_int 1, false, 0)) as Hsel'
          by (rewrite select_stage_unused, Hm; reflexivity).
        rewrite (loop_selected f stop true 0 i vd _ _ _ _ ltac:(lia) Hsel).
        rewrite (Run_bind_cong _ _ _ vd
                   (loop_selected f1 (a - 1) false 0 i vd _ _ _ _ ltac:(lia)
                      Hsel')).
        rewrite Run_bind_assoc. apply Run_bind_ext. intros _ vd1.
        apply select_stage_decreases in Hsel, Hsel'.
        cbn [add_stride] in *. apply IH; lia.
      * rewrite (loop_unselected f stop true 0 i vd e' ltac:(lia))
          by (rewrite select_stage_before, Hm by lia; reflexivity).
        rewrite (bind_Raise (while_steps (chosen_step self body) failed (S f1)
                               (a - 1) false 0 i) _ vd vd
                   (RuntimeError (failed i)));
          [reflexivity|].
        apply (loop_unselected f1 (a - 1) false 0 i vd e'); [lia|].
        rewrite select_stage_unused, Hm. reflexivity.
Qed.

End chosen_steps.

(** The bisection never runs out of halvings: with more of them than
    the interval is wide the result does not depend on their number. *)
Lemma bisect_left_enough (a : list Z) (v : Z) :
  forall (f f' lo hi : nat),
    hi - lo < f -> hi - lo < f' ->
    bisect_left a v f lo hi = bisect_left a v f' lo hi.
Proof.
  induction f as [|f IH]; intros f' lo hi Hf Hf'; [lia|].
  destruct f' as [|f']; [lia|]. cbn [bisect_left].
  destruct (Nat.ltb_spec lo hi) as [Hlt|_]; [|reflexivity].
  cbv zeta. destruct (a !! (lo + (hi - lo) / 2)) as [u|]; [|reflexivity].
  assert ((hi - lo) / 2 < hi - lo) by (apply Nat.div_lt; lia).
  destruct (u <? v)%Z; apply IH; lia.
Qed.

Lemma first_surrogate_one (self : Pipeline) (su : Surrogate) (a e start : Z) :
  _surrogate_list self = [su] ->
  _surrogate_recipe self = [{| r_index := 0; r_start := a; r_extent := e |}] ->
  first_surrogate self true start
  = if decide (a < start)%Z then (false, 1) else (true, 0).
Proof.
  intros Hlist Hrow. unfold first_surrogate, has_surrogate, n_surrogate, searchsorted.
  rewrite Hlist, Hrow. cbn [length Nat.ltb Nat.leb andb map r_start].
  cbn [bisect_left Nat.ltb Nat.leb Nat.sub Nat.add Nat.div Nat.divmod fst
       lookup list_lookup].
  destruct (Z.ltb_spec a start); destruct (decide (a < start)%Z); try lia;
    reflexivity.
Qed.

Lemma one_surrogate_steps (self : Pipeline) (su : Surrogate) (us : bool)
    (si : nat) (i : Z) :
  _surrogate_list self = [su] ->
  length (_surrogate_recipe self) = 1 ->
  steps_left self us si i <= enough_steps self.
Proof.
  intros Hlist Hrow. unfold steps_left, surrogates_left, enough_steps, n_surrogate.
  rewrite Hlist, Hrow. cbn [length].
  pose proof (modules_left_le self i). destruct (_ && _); nia.
Qed.

(** X23: where a surrogate is used.  On a pipeline with one
    surrogate whose scope begins at [a] and extends over [e] modules, an
    evaluation with [use_surrogate] that begins at or before [a] and
    does not stop before it evaluates the modules before [a], then the
    surrogate once, as step [a], and then the modules from the end of
    the scope on; the end is [a + e] computed in 64 bits, which is
    [a + e] when that fits 64 bits.  An evaluation that begins after
    [a] or stops before it evaluates the modules only, as without
    [use_surrogate].  This holds in value mode and in Jacobian mode. *)
Theorem surrogate_replaces_its_scope (self : Pipeline) (su : Surrogate)
    (a e first last : Z) (vd : VariableDict) :
  _surrogate_list self = [su] ->
  _surrogate_recipe self = [{| r_index := 0; r_start := a; r_extent := e |}] ->
  ((first <= a <= last)%Z ->
   evaluate_fun self true first last vd
   = (_ ← evaluate_fun self false first (a - 1);
      _ ← try_except (stage_fun (stage su)) (fun_failed a);
      evaluate_fun self false (wrap64 (a + e)) last) vd /\
   evaluate_jac self true first last vd
   = (_ ← evaluate_jac self false first (a - 1);
      _ ← try_except (stage_jac (stage su)) (fun_and_jac_failed a);
      evaluate_jac self false (wrap64 (a + e)) last) vd) /\
  ((a < first \/ last < a)%Z ->
   evaluate_fun self true first last vd = evaluate_fun self false first last vd /\
   evaluate_jac self true first last vd = evaluate_jac self false first last vd) /\
  (is_int64 (a + e) -> wrap64 (a + e) = (a + e)%Z).
Proof.
  intros Hlist Hrow. apply and_assoc. split; [|apply wrap64_id].
  assert (Hlen : length (_surrogate_recipe self) = 1) by (rewrite Hrow; reflexivity).
  pose proof (fun us si i => one_surrogate_steps self su us si i Hlist Hlen) as Hfuel.
  unfold evaluate_fun, evaluate_jac.
  rewrite (first_surrogate_one self su a e first Hlist Hrow).
  change (first_surrogate self false first) with (false, 0).
  change (first_surrogate self false (wrap64 (a + e))) with (false, 0).
  cbv iota beta.
  split.
  - intros [Hfirst Hlast]. destruct (decide (a < first)%Z) as [Hlt|_]; [lia|].
    split.
    + etransitivity; [apply while_steps_ext, step_fun_chosen|].
      etransitivity;
        [apply (loop_through self stage_fun fun_failed su a e Hlist Hrow last
                  (enough_steps self) Hlast (Hfuel _ _ _)
                  (enough_steps self) (enough_steps self) first vd Hfirst
                  (Hfuel _ _ _) (Hfuel _ _ _))|].
      etransitivity;
        [apply Run_bind_cong; symmetry; apply while_steps_ext, step_fun_chosen|].
      apply Run_bind_ext. intros _ vd1. apply Run_bind_ext. intros _ vd2.
      symmetry. apply while_steps_ext, step_fun_chosen.
    + etransitivity; [apply while_steps_ext, step_jac_chosen|].
      etransitivity;
        [apply (loop_through self stage_jac fun_and_jac_failed su a e Hlist Hrow
                  last (enough_steps self) Hlast (Hfuel _ _ _)
                  (enough_steps self) (enough_steps self) first vd Hfirst
                  (Hfuel _ _ _) (Hfuel _ _ _))|].
      etransitivity;
        [apply Run_bind_cong; symmetry; apply while_steps_ext, step_jac_chosen|].
      apply Run_bind_ext. intros _ vd1. apply Run_bind_ext. intros _ vd2.
      symmetry. apply while_steps_ext, step_jac_chosen.
  - intros Hout. destruct (decide (a < first)%Z) as [Hlt|Hge]; split.
    + etransitivity; [apply while_steps_ext, step_fun_chosen|].
      etransitivity; [apply (loop_unused self stage_fun fun_failed last 1 0)|].
      symmetry. apply while_steps_ext, step_fun_chosen.
    + etransitivity; [apply while_steps_ext, step_jac_chosen|].
      etransitivity;
        [apply (loop_unused self stage_jac fun_and_jac_failed last 1 0)|].
      symmetry. apply while_steps_ext, step_jac_chosen.
    + etransitivity; [apply while_steps_ext, step_fun_chosen|].
      etransitivity;
        [apply (loop_before self stage_fun fun_failed su a e Hlist Hrow last);
         lia|].
      symmetry. apply while_steps_ext, step_fun_chosen.
    + etransitivity; [apply while_steps_ext, step_jac_chosen|].
      etransitivity;
        [apply (loop_before self stage_jac fun_and_jac_failed su a e Hlist Hrow
                  last); lia|].
      symmetry. apply while_steps_ext, step_jac_chosen.
Qed.

Lemma surrogate_replaces_its_scope_witness :
  evaluate_fun five_with_surrogate true 0 4
    (store_of "__var__" (np.mk [1] [5%R]) (np.eye 1))
  = (_ ← evaluate_fun five_with_surrogate false 0 (1 - 1);
     _ ← try_except (stage_fun (stage (surrogate_at 1 2))) (fun_failed 1);
     evaluate_fun five_with_surrogate false (wrap64 (1 + 2)) 4)
      (store_of "__var__" (np.mk [1] [5%R]) (np.eye 1)).
Proof.
  destruct (surrogate_replaces_its_scope five_with_surrogate
              (surrogate_at 1 2) 1 2 0 4
              (store_of "__var__" (np.mk [1] [5%R]) (np.eye 1))
              eq_refl eq_refl) as [Hused _].
  destruct (Hused (conj Z.le_0_1 (Zle_bool_imp_le 1 4 eq_refl))) as [Hfun _].
  exact Hfun.
Defined.
